(* ===== verification/_CoqProject ===== *)
-Q . S2P
Prelude.v
JsObject.v
Heap.v
Fixture.v
Graph.v
Registry.v
Edges.v
Builder.v
Bounds.v
Cascade.v
Inherit.v
DesignNote.v
Total.v
Semantics.v
Machine.v
Earlier.v
Chain.v
Session.v
Acyclic.v
