(* ===== verification/Prelude.v ===== *)
(** * FieldDependencies: a verified model of the dynamic field-dependency engine

    The program ([src/field-dependencies.js], with an earlier revision of the
    same engine in [src/unnamed/part_000] and its design note in
    [src/unnamed/part_001]) is a reactive dependency graph for form fields.
    A _State_ is a named predicate on a dependency element, a _Modifier_ a
    named mutation of a dependent element.  [createRelationship] wires a
    Modifier of the dependent to a State of the dependency; when the host
    raises a change on the dependency, the element fans out to its active
    States, every active State publishes to its subscribed Modifiers, every
    Modifier mutates its element and then re-runs the fan-out of that element
    (the cascade).

    ** The parts of the program and the files that model them

    - [Prelude] (this file): the outcome type [res] (a value, a JavaScript
      exception, or exhausted fuel), the state-and-exception monad [run] in
      which every operation of the engine is written, its notation (scope
      [run_scope]), the iteration [for_each] that models the [for .. in] loops
      over arrays, Hoare triples for [run], the order [approx] between a
      computation and the same computation with more fuel, the predicate
      [yields] on the outcomes a computation can have, the predicate
      [preserves] of the computations that keep a preorder on stores, the
      tactics and the hint databases of the development.
    - [JsObject]: the object literals [{}] the engine uses as maps
      ([statesContainer.states], [elementsContainer.elements],
      [Element.states], ...).  Own properties are kept in insertion order;
      [obj_get] also sees the members every object inherits from
      [Object.prototype]; [obj_set] treats the key [__proto__] as the
      prototype assignment it is; [for_in] enumerates in the order the
      language fixes (array-index keys ascending, then the others in
      insertion order).
    - [Heap]: the collaborator contract ([Class Host]: host references, the
      page state the callbacks read and write, [$element.attr('id')]), the
      three object records [Element], [State], [Modifier], the store
      [Engine] (registries, the key resolver, the three object heaps and the
      change handlers registered with the host), the well-formedness
      invariant [wf] of a store, the growth order [extends] between stores,
      the specification [grows] of an operation that maintains [wf] and
      only extends the store, and the invariant [callable] of the stores in
      which every instance has its callback.
    - [Fixture]: a concrete host (a page is a list of nodes) with example
      predicates and mutations, on which the examples are evaluated.
    - [Graph]: the methods that build the graph: [Element.attachState],
      [Element.getState], [Element.attachModifier], [Element.getModifier],
      [State.setElement], [State.addModifier], [Modifier.setElement],
      [Modifier.subscribe].
    - [Registry]: [statesContainer] and [modifiersContainer] ([add], [get]),
      the default [getElementKey], [elementsContainer] ([get], [resolve]) and
      the [Element] constructor, which registers the change handler.
    - [Edges]: the relation [adds] between two stores, one of which is the
      other grown by subscriptions of one Modifier, and what each step of
      [createRelationship] adds in that sense, for the runs that return.
    - [Builder]: [createRelationship] and the public object returned by the
      module ([addState], [addModifier], [createRelationship],
      [setElementKeyCallback]); scripts of calls ([perform_all]) and the
      stores reachable from the initial one ([reachable]).
    - [Bounds]: the [new] expressions a call can reach, as a bound on the
      growth of the three heaps ([fits], [allocs]), and the calls that
      cannot run out of fuel ([ends]).
    - [Cascade]: [Element.getActiveStates], [State.isActive],
      [Element.modifyDependents], [State.publish], [Modifier.execute] and the
      host's change event; the graph a cascade walks ([dependents]).
    - [Inherit]: the chain of two relationships whose second is created
      with [inheritState], as a store in closed form ([inherited_chain]).
    - [DesignNote]: the design note [src/unnamed/part_001]: the
      cardinalities of its diagram ([data_model]) and its sentences on
      elements, States and Modifiers ([elements_related], [populated],
      [two_valued], [notified_by_each_active]) as predicates on the store
      and on the fan-out of the code.
    - [Total]: the conditions under which [createRelationship] returns
      ([ready], [state_registered], [modifier_registered], [ordinary]), the
      order [onward] between a store and a later store that still meets
      them, and the check [scoped] of a script before it runs.
    - [Semantics]: what a cascade computes, without fuel: the relation
      [cascade] between the page before and the page after a fan-out.
    - [Machine]: the same recursion with the call stack made explicit: a
      configuration is the list of the Modifiers still to execute and the
      page; [step] executes the first and puts the Modifiers its element
      publishes to in front of the rest; [machine] iterates it; [forever]
      is a run that never halts.  The machine is the code where every
      State and Modifier has a callback, and only there.
    - [Earlier]: the revision in [src/unnamed/part_000], which has no
      cascade and no inheritance.  [Module Legacy] translates it method by
      method on the records and the store of [Heap]: the containers, the
      registry, the three constructors with their methods ([Modifier.listen],
      [Modifier.execute] without fan-out, [State.notify]), the change
      handler, [createDependency] and the public object with [getThat].
      Where the text of the two revisions is the same, the definitions are
      the same terms ([legacy_registry_same], [legacy_graph_same],
      [legacy_reads_same]).
    - [Chain]: the script that relates field [i] to field [i + 1] for
      [i < n] ([chain_script]), the store it builds in closed form
      ([chain_store]) and the walk of a change along it ([chain_run],
      [mutated]).
    - [Session]: the library on a live page.  A session is the store, the
      page and the Modifiers executed so far; an [event] is a call of the
      public object, an alteration of the page, or a change raised by the
      host; [handle] is one turn of that loop on the operations of
      [Builder] and [Cascade], [play] a sequence of turns, [turn] and
      [turns] the same without fuel, on the relation of [Semantics].  The
      dispatch of a change to the handlers bound on the reference is the
      host's; it is modelled from the collaborator contract of the
      specification.
    - [Acyclic]: a check of the store for cycles of relationships
      ([height], [acyclic]), which the program does not have and which its
      callers are asked to make.

    ** How state and effects are modelled

    Objects of the program have identity and are mutated in place, and they
    reference one another in cycles (an Element its States, a State its
    Element and its Modifiers, a Modifier its States).  The model keeps each
    class of objects in a heap ([list], indexed by an identifier that is the
    allocation order) and references as identifiers, so that aliasing is
    explicit: two references are the same object exactly when the identifiers
    are equal.  An operation is a function [Engine -> res A * Engine]: the
    store is threaded through, and it survives an exception, because the
    program undoes nothing when it throws.

    A value read from an object literal is a [lookup]: an object of the
    engine, a member of [Object.prototype], or [undefined].  A method call on
    such a value ([invoke]) throws the TypeError the program would throw.

    The callbacks of the host are functions of the host reference and of the
    page state [Dom]: a predicate returns the truthiness of what the
    JavaScript predicate returns, a mutation returns the new page state.  They
    are assumed not to throw and not to call back into the engine.  The
    cascade does not write the store; it runs on a [Page]: the page state and,
    as ghost state, the Modifiers executed so far, in order.

    The inheritance loop of [createRelationship] enumerates the subscription
    list of the upstream Modifier while it subscribes; when the upstream
    Modifier is the subscribing one, the loop would extend the array it
    enumerates.  The model enumerates the list as it is when the loop starts,
    which is what [for .. in] does to properties added during the
    enumeration in the engines the program runs on.

    All occurrences of [this] and [that] in the two immediately invoked
    functions of the source denote the global object (the functions are called
    without a receiver, in sloppy mode); the engine therefore has one slot
    [getElementKey], which [setElementKeyCallback] overwrites and which
    [elementsContainer.get] and [resolve] read at each call.

    ** Fuel

    The cascade recurses through the graph and has no cycle guard, so it need
    not terminate.  [Cascade.modifyDependents] takes a fuel that bounds the
    nesting depth of [modifyDependents] calls, one unit per nested call; it
    answers [Timeout] when the bound is reached.  Results other than
    [Timeout] do not depend on the fuel ([modifyDependents_fuel]); when a
    rank decreases along every edge of the graph, fuel [rank e + 1] is enough
    for the fan-out from [e], on every page ([modifyDependents_terminates]);
    and on a cycle of always-active States every fuel is exhausted
    ([fan_out_diverges]).  The examples use the rank of their graph plus one;
    a chain of [n] relationships needs [n + 1] ([chain_cascade]).  A session plays every
    change with the same fuel, and [session_refines] relates that to the
    turns that end.  In a store without a cycle of relationships a path has
    fewer edges than the store has elements, so the number of elements is
    fuel enough for every change ([acyclic_change_returns]); [height] uses
    the same number as the fuel of its own recursion, which is enough for
    the same reason ([no_cycle_acyclic]).  The calls of the public object have no fuel and never
    answer [Timeout] ([perform_not_Timeout]).
    The earlier revision needs no fuel: its handler does not recurse.  The
    relation [cascade] and the machine of [Machine] have no fuel either: a
    fan-out that exhausts every fuel is a run of the machine that never
    halts ([diverges_machine]), and takes [n] steps for every [n]
    ([trapped_runs_forever]).  The store of a script has at most two
    Elements for each of its calls of [createRelationship], so twice their
    number is fuel enough when it has no cycle ([script_depth_bounded]).
    Nothing else in the model is bounded.

    ** What the theorems show

    - [JsObject]: reads after writes for every pair of keys; enumeration is
      a permutation of the own properties, with the array-index keys first
      in numeric order, and is creation order when no key is an array index;
      an array index is below [2^32 - 1] and is the index of one name only
      ([array_index_bounded]); reads and writes respect the equivalence
      [same_props] of objects with the same properties ([Proper]
      instances), and the enumeration respects it up to a permutation
      ([same_props_for_in]).
    - [Graph]: what [subscribe] and the two attachments write, and that
      they write nothing else.
    - [Registry]: [resolve] is a singleton per key and builds one element
      with one handler for a new key; the keys for which that fails
      ([undefined] for elements without id, [__proto__], [hasOwnProperty]);
      the instances [get] returns are new and unattached.
    - [Builder]: [createRelationship] maintains [wf] and only extends the
      store on every outcome; when it returns, the relationship is linked in
      both directions, and with [inheritState] also the upstream States; in
      any store, the subscription lists after a call that returned are
      those of before with exactly the new subscriptions at their ends
      ([createRelationship_edges]), and after a call that threw they are
      those of before ([createRelationship_throws_quiet]); the
      error for an unknown template and for names that [Object.prototype]
      has; the duplicate edge of a repeated call; a registered template is
      what [get] instantiates; every reachable store is well-formed, has
      subscription lists that agree in both directions and one change
      handler per element; the store after the first relationship between
      two new fields and after a chain of two, as closed terms
      ([createRelationship_fresh], [two_links_store]); a relationship of an
      element with itself
      under [inheritState] doubles the subscription list of its Modifier
      ([self_relationship_doubles]).
    - [Bounds]: a call of [createRelationship] constructs at most two
      Elements, one State and one Modifier and removes nothing, on every
      outcome ([createRelationship_bounded]); the heaps of a script are
      bounded by the sum over its calls ([script_bounded]); no call of the
      public object runs out of fuel ([perform_not_Timeout]).
    - [Total]: in a store that is [ready], with both names registered and
      ordinary keys, [createRelationship] returns and leaves a store that
      is ready for the next call ([createRelationship_returns]); a script
      that passes [scoped] returns call by call ([scoped_succeeds]); an
      unknown Modifier name throws after the State was attached, and
      subscribes nothing ([createRelationship_unknown_modifier]).
    - [Cascade]: end to end, for every predicate and mutation, a change on
      the dependency of the first relationship applies the mutation to the
      dependent exactly when the predicate holds
      ([first_relationship_works]), and on a chain of two relationships
      the second mutation follows the first within the one change, its
      predicate evaluated on the page the first mutation left
      ([chain_works]); after any script of calls that registers
      no template named [__proto__] a change never throws
      ([script_change_safe]), and after such a registration it can
      ([proto_template_breaks_cascade]); a fan-out never throws on a
      well-formed store with
      callbacks; its result is independent of the fuel; it terminates on
      ranked graphs and diverges on cycles; on a graph of depth one its
      effect is the fold of the mutations of the subscribers of the States
      that were active when it started, in order; a change is the fan-out of
      the elements built for the reference; a fan-out only adds to the
      trace, on every outcome ([trace_grows]), and what it adds are
      Modifiers of elements downstream of the element that changed
      ([fan_out_downstream]); the trace of the example
      chain, without and with inheritance, and of a relationship of an
      element with itself ([self_relationship_subscribes_twice]).
    - [Inherit]: on a chain whose second relationship inherits, a change of
      the head applies the mutation to the end of the chain whether or not
      the State in the middle is active, and twice when it is
      ([inheritance_works]).
    - [DesignNote]: after a script without a template named [__proto__]
      the diagram of the note holds, every State has a value on every page,
      and a fan-out that returns has executed every Modifier for each of
      its subscriptions that was active ([script_data_model]); with such a
      template it need not ([proto_template_no_model]); "one or more" subscribers and
      subscriptions hold when every call of the script returned
      ([script_populated]), and then the fan-out of an element with an
      active State executes a Modifier ([active_state_notifies]); a call
      that throws can leave a State without subscriber
      ([failed_call_unpopulated]).
    - [Semantics]: the fuel-bounded fan-out returns with a page exactly
      when [cascade] relates the pages ([cascade_refines]); the relation is
      deterministic, total on graphs with ranks and empty on a cycle of
      always-active States.
    - [Machine]: the machine empties its stack on a page exactly when the
      cascade relates the pages, and so exactly when the code returns with
      it ([modifyDependents_machine]); it never halts exactly when the code
      exhausts every fuel ([diverges_machine]); from a trap both happen
      ([trapped_runs_forever]).  All of it in well-formed stores with
      callbacks: without them the machine steps where the code throws
      ([callbacks_needed]).
    - [Earlier]: a script of the earlier revision builds the store its
      upgrade builds on the later one ([script_upgrade]); its change handler
      executes the subscribers of the active States and nothing else
      ([handler_fires]), always returns, cycles included
      ([legacy_change_returns]), and is the fan-out of the later revision
      on graphs of depth one ([cascade_conservative]); on a chain and behind
      a prototype template the revisions differ ([chain_needs_cascade],
      [renamed_member_differs]).
    - [Chain]: the script of a chain of [n] relationships builds
      [chain_store n], for every [n]; a change of its head applies the
      mutation to the fields [1 .. j] in order, where [j] is the first
      field whose predicate fails on the page the mutations so far have
      left, or the end of the chain ([chain_cascade]).
    - [Session]: playing events with fuel and taking turns without are the
      same sessions when no turn runs out of fuel ([session_refines]); in
      every interleaving of calls, alterations and changes no handler
      throws and the store stays that of a script ([session_safe]); the
      scenario of one relationship, for every history of the page
      ([relationship_reacts]).
    - [Acyclic]: the check succeeds exactly when no element is downstream
      of itself ([acyclic_decides]); when it succeeds every change returns on
      every page ([acyclic_change_returns]), within a nesting that the
      script bounds ([script_depth_bounded]); when the States are active on
      every page, it succeeds exactly when the fan-out of every element
      returns ([acyclic_exact]); a call of [createRelationship]
      keeps it when the dependent did not reach the dependency
      ([createRelationship_acyclic]) and breaks it when it did
      ([createRelationship_closes_cycle]); a cycle whose State a mutation
      switches off still returns ([cycle_that_ends]); a page whose setup is
      scoped and acyclic returns from every call and every change
      ([checked_page_lives]).

    The proofs about [createRelationship] compose specifications of its
    steps ([grows], with the facts that growth preserves, [stable], carried
    across each step); the proofs about the cascade go through unfolding
    equations of [modifyDependents], [publish] and [execute] that hold on
    well-formed stores; the proofs about the earlier revision reduce its
    methods to those of the later one (a fan-out that does nothing, and
    computations that do not write the containers, [keeps_containers]); the
    proofs about "one or more" are Hoare triples that need no invariant of
    the store: while a relationship is created, the State and the Modifier
    it has attached and not linked yet are the named exceptions
    ([populated_but]); the bounds compose by adding up ([allocs_bind]); the
    exact subscriptions of a call are read off its run, inverted bind by
    bind ([createRelationship_Ok_inv]), with [adds] composed along the
    steps; that a call returns is proved forwards, step by step, each step
    giving its result and a store [onward] of the one before; the chain is
    an induction on its length over the closed form of its store; the
    session theorems are inductions on the list of events over the lemmas
    of one turn; the exactness of the check is a counting argument (a walk
    without repetition is a list without duplicates of valid references),
    and its preservation a lemma on relations (new edges into one vertex,
    [new_edges_acyclic]) applied to the edges of [adds].

    ** What is not modelled

    jQuery and the DOM (the host is abstract: a change is raised on one
    host reference, a jQuery collection of several nodes is one reference,
    and events do not bubble), callbacks that throw or re-enter the engine
    (the source and the specification leave both to the host), strict-mode
    evaluation of the module (where [this] is undefined and the module
    fails to load), host code that extends [Object.prototype] or
    [Array.prototype], and in the earlier revision [console.log] and the
    [.bind(self)] applied to the host collection.  Everything else of the
    three sources is translated; the lines the map leaves out are comments,
    closing braces and the commented-out [getThat] of the later revision. *)

From stdpp Require Import base option list sorting.

#[global] Set Warnings "-clear-no-such-hyp".

Declare Scope run_scope.
Delimit Scope run_scope with run.

(** ** Outcomes *)

(** The exceptions the engine can raise are all [TypeError]s of the language;
    the constructors record which evaluation raised it.  [Dangling] is not a
    JavaScript outcome: it marks a reference outside the heap, which the
    invariant of the store excludes. *)
Inductive error : Type :=
| TypeError_undefined
| TypeError_null
| TypeError_not_function
| Dangling.

Inductive res (A : Type) : Type :=
| Ok (a : A)
| Throw (e : error)
| Timeout.

Arguments Ok {A} a.
Arguments Throw {A} e.
Arguments Timeout {A}.

#[export] Instance error_eq_dec : EqDecision error.
Proof. solve_decision. Defined.

#[export] Instance res_eq_dec {A} `{EqDecision A} : EqDecision (res A).
Proof. solve_decision. Defined.

Definition is_Ok {A} (r : res A) : bool :=
  match r with Ok _ => true | _ => false end.

Definition is_Throw {A} (r : res A) : bool :=
  match r with Throw _ => true | _ => false end.

(** ** The state-and-exception monad *)

(** A computation over a store [S]: the outcome and the store it leaves.  The
    store is returned also on [Throw] and [Timeout]: what was written before
    the exception stays written. *)
Definition run (S A : Type) : Type := S → res A * S.

Definition ret {S A} (a : A) : run S A := λ s, (Ok a, s).

Definition throw {S A} (e : error) : run S A := λ s, (Throw e, s).

Definition timeout {S A} : run S A := λ s, (Timeout, s).

Definition bind {S A B} (m : run S A) (k : A → run S B) : run S B :=
  λ s, match m s with
       | (Ok a, s') => k a s'
       | (Throw e, s') => (Throw e, s')
       | (Timeout, s') => (Timeout, s')
       end.

Definition gets {S A} (f : S → A) : run S A := λ s, (Ok (f s), s).

Definition modify {S} (f : S → S) : run S unit := λ s, (Ok tt, f s).

(** [o] when it is defined, the exception [e] otherwise. *)
Definition or_throw {S A} (e : error) (o : option A) : run S A :=
  match o with
  | Some a => ret a
  | None => throw e
  end.

Notation "x <- m ;; k" := (bind m (λ x, k))
  (at level 100, m at next level, right associativity) : run_scope.
Notation "m ;; k" := (bind m (λ _, k))
  (at level 100, right associativity) : run_scope.

Open Scope run_scope.

(** [for (var i in array) body(array[i])]: the body on every element in index
    order, stopping at the first exception. *)
Fixpoint for_each {S A} (f : A → run S unit) (l : list A) : run S unit :=
  match l with
  | [] => ret tt
  | x :: l' => f x ;; for_each f l'
  end.

(** The outcome and the final store of a computation. *)
Definition outcome {S A} (m : run S A) (s : S) : res A := (m s).1.
Definition final {S A} (m : run S A) (s : S) : S := (m s).2.

(** How often [x] occurs in [l]: subscription lists are multisets with an
    order, and a repeated relationship repeats the edge. *)
Definition occurrences `{EqDecision A} (x : A) (l : list A) : nat :=
  length (filter (x =.) l).

(** A specification of a computation: from a store that satisfies [P], a
    normal outcome [a] leaves a store that satisfies [Q a], and an exception
    or exhausted fuel leaves one that satisfies [R]. *)
Definition triple {S A} (P : S → Prop) (m : run S A)
    (Q : A → S → Prop) (R : S → Prop) : Prop :=
  ∀ s, P s →
    match m s with
    | (Ok a, s') => Q a s'
    | (Throw _, s') => R s'
    | (Timeout, s') => R s'
    end.

(** [m'] does what [m] does wherever [m] does not run out of fuel. *)
Definition approx {S A} (m m' : run S A) : Prop :=
  ∀ s, (m s).1 ≠ Timeout → m' s = m s.

(** The outcomes of [m] besides normal return: every exception it can throw
    is in [errors], and it runs out of fuel only if [fuel_may_end]. *)
Definition yields {S A} (errors : error → Prop) (fuel_may_end : Prop)
    (m : run S A) : Prop :=
  ∀ s, match (m s).1 with
       | Ok _ => True
       | Throw e => errors e
       | Timeout => fuel_may_end
       end.

(** [m] leaves a store that [R] relates to the one it started in, whatever
    its outcome: what a computation keeps, or how it lets the store grow. *)
Definition preserves {S A} (R : relation S) (m : run S A) : Prop :=
  ∀ s, R s (m s).2.

(** ** Tactics and hint databases *)

Create HintDb fdeps discriminated.
Create Rewrite HintDb run_simpl.

Ltac invert H := inversion H; subst; clear H.

(** Case analysis on the outcome of the computation at the head of a [bind]. *)
Ltac case_run :=
  match goal with
  | |- context [bind ?m _ ?s] =>
      let r := fresh "r" in let s' := fresh "s" in let E := fresh "E" in
      unfold bind at 1; destruct (m s) as [r s'] eqn:E; destruct r
  | H : context [bind ?m _ ?s] |- _ =>
      let r := fresh "r" in let s' := fresh "s" in let E := fresh "E" in
      unfold bind at 1 in H; destruct (m s) as [r s'] eqn:E; destruct r
  end.

Ltac simpl_run :=
  repeat (autorewrite with run_simpl in *; simplify_eq /=).

(** ** Laws of the monad (pointwise: the model assumes no extensionality) *)

Section run_laws.
Context {S A B C : Type}.
Implicit Types (s : S) (m : run S A) (k : A → run S B) (h : B → run S C).

Lemma bind_ret_l a k s : bind (ret a) k s = k a s.
Proof. done. Qed.

Lemma bind_ret_r m s : bind m ret s = m s.
Proof. unfold bind, ret. by destruct (m s) as [[]]. Qed.

Lemma bind_assoc m k h s :
  bind (bind m k) h s = bind m (λ a, bind (k a) h) s.
Proof. unfold bind. by destruct (m s) as [[]]. Qed.

Lemma bind_throw e k s : bind (throw e : run S A) k s = (Throw e, s).
Proof. done. Qed.

Lemma bind_timeout k s : bind (timeout : run S A) k s = (Timeout, s).
Proof. done. Qed.

Lemma bind_gets (f : S → A) k s : bind (gets f) k s = k (f s) s.
Proof. done. Qed.

Lemma bind_modify (f : S → S) (k : unit → run S B) s :
  bind (modify f) k s = k tt (f s).
Proof. done. Qed.

Lemma bind_Ok m k s a s' : m s = (Ok a, s') → bind m k s = k a s'.
Proof. unfold bind. by intros ->. Qed.

Lemma bind_Throw m k s e s' : m s = (Throw e, s') → bind m k s = (Throw e, s').
Proof. unfold bind. by intros ->. Qed.

Lemma bind_Timeout m k s s' : m s = (Timeout, s') → bind m k s = (Timeout, s').
Proof. unfold bind. by intros ->. Qed.

Lemma bind_Ok_inv m k s b s2 :
  bind m k s = (Ok b, s2) → ∃ a s1, m s = (Ok a, s1) ∧ k a s1 = (Ok b, s2).
Proof. unfold bind. destruct (m s) as [[a|e|] s1]; naive_solver. Qed.

Lemma bind_Throw_inv m k s e s2 :
  bind m k s = (Throw e, s2) →
  m s = (Throw e, s2) ∨ ∃ a s1, m s = (Ok a, s1) ∧ k a s1 = (Throw e, s2).
Proof. unfold bind. destruct (m s) as [[a|e'|] s1]; naive_solver. Qed.

(** A computation whose outcome is known. *)
Lemma outcome_final m s a : (m s).1 = Ok a → m s = (Ok a, (m s).2).
Proof. destruct (m s) as [r s']. simpl. by intros ->. Qed.

Lemma bind_ext m k k' s :
  (∀ a s', k a s' = k' a s') → bind m k s = bind m k' s.
Proof. intros Hk. unfold bind. destruct (m s) as [[]]; auto. Qed.

(** A computation that only reads the store. *)
Lemma bind_read (f : S → res A) k s :
  bind (λ s, (f s, s)) k s =
    match f s with
    | Ok a => k a s
    | Throw e => (Throw e, s)
    | Timeout => (Timeout, s)
    end.
Proof. unfold bind. by destruct (f s). Qed.

Lemma bind_or_throw e (o : option A) k s :
  bind (or_throw e o) k s =
    match o with
    | Some a => k a s
    | None => (Throw e, s)
    end.
Proof. by destruct o. Qed.

Lemma or_throw_Some e (a : A) s : or_throw e (Some a) s = (Ok a, s).
Proof. done. Qed.

Lemma or_throw_None e s : or_throw e (None : option A) s = (Throw e, s).
Proof. done. Qed.

End run_laws.

(** A computation without a result, followed by [return]. *)
Lemma bind_ret_tt {S} (m : run S unit) s : bind m (λ _, ret tt) s = m s.
Proof. unfold bind. by destruct (m s) as [[[]| |] ?]. Qed.

#[export] Hint Rewrite @bind_ret_l @bind_throw @bind_timeout @bind_gets
  @bind_modify @or_throw_Some @or_throw_None : run_simpl.

(** ** Iteration *)

Section for_each_laws.
Context {S A : Type}.
Implicit Types (f g : A → run S unit) (l : list A) (s : S).

Lemma for_each_nil f s : for_each f [] s = (Ok tt, s).
Proof. done. Qed.

Lemma for_each_cons f x l s :
  for_each f (x :: l) s = bind (f x) (λ _, for_each f l) s.
Proof. done. Qed.

Lemma for_each_app f l1 l2 s :
  for_each f (l1 ++ l2) s = bind (for_each f l1) (λ _, for_each f l2) s.
Proof.
  revert s. induction l1 as [|x l1 IH]; intros s; [done|].
  simpl. rewrite bind_assoc. apply bind_ext. intros _ s'. apply IH.
Qed.

Lemma for_each_singleton f x s : for_each f [x] s = f x s.
Proof. simpl. unfold bind. by destruct (f x s) as [[[]| |] ?]. Qed.

(** A loop over a concatenation of lists is the nested loop. *)
Lemma for_each_bind {B} (g : B → list A) f (l : list B) s :
  for_each f (l ≫= g) s = for_each (λ x, for_each f (g x)) l s.
Proof.
  revert s. induction l as [|x l IH]; intros s; [done|].
  change ((x :: l) ≫= g) with (g x ++ (l ≫= g)). rewrite for_each_app. simpl.
  unfold bind. destruct (for_each f (g x) s) as [[[]| |] ?]; auto.
Qed.

Lemma for_each_ext f g l s :
  (∀ x s', x ∈ l → f x s' = g x s') → for_each f l s = for_each g l s.
Proof.
  revert s. induction l as [|x l IH]; intros s Hfg; [done|].
  simpl. unfold bind. rewrite Hfg by left.
  destruct (g x s) as [[]]; auto. apply IH. intros; apply Hfg. by right.
Qed.

(** A property of the store that every step preserves, whatever its outcome,
    is preserved by the loop. *)
Lemma for_each_preserves (P : S → Prop) f l s :
  (∀ x s', x ∈ l → P s' → P (f x s').2) → P s → P (for_each f l s).2.
Proof.
  revert s. induction l as [|x l IH]; intros s Hf Hs; [done|].
  simpl. unfold bind. pose proof (Hf x s (list_elem_of_here _ _) Hs) as Hx.
  destruct (f x s) as [[]]; simpl in *; auto.
  apply IH; auto. intros; apply Hf; auto. by right.
Qed.

(** A loop whose steps return, with the store they leave given by [g]. *)
Lemma for_each_foldl f (g : S → A → S) l s :
  (∀ x s', x ∈ l → f x s' = (Ok tt, g s' x)) →
  for_each f l s = (Ok tt, foldl g s l).
Proof.
  revert s. induction l as [|x l IH]; intros s Hf; [done|]. simpl.
  rewrite (bind_Ok _ _ _ _ _ (Hf x s ltac:(left))). apply IH. intros; apply Hf. by right.
Qed.

Lemma for_each_skip f l s :
  (∀ x s', x ∈ l → f x s' = (Ok tt, s')) → for_each f l s = (Ok tt, s).
Proof.
  revert s. induction l as [|x l IH]; intros s Hf; [done|]. simpl.
  rewrite (bind_Ok _ _ _ _ _ (Hf x s ltac:(left))). apply IH. intros; apply Hf. by right.
Qed.

(** A loop that runs out of fuel at one entry, and throws at none, runs out
    of fuel. *)
Lemma for_each_Timeout f l x s :
  x ∈ l → (∀ s', (f x s').1 = Timeout) →
  (∀ y s', y ∈ l → is_Throw (f y s').1 = false) →
  (for_each f l s).1 = Timeout.
Proof.
  revert s. induction l as [|y l IH]; intros s Hx Hfx Hf; [by apply elem_of_nil in Hx|].
  simpl. unfold bind. pose proof (Hf y s ltac:(left)) as Hy.
  destruct (f y s) as [[[]| |] s1] eqn:E; [|done..].
  apply elem_of_cons in Hx as [->|Hx].
  - specialize (Hfx s). by rewrite E in Hfx.
  - apply IH; [done..|]. intros; apply Hf. by right.
Qed.

End for_each_laws.

(** ** Occurrences *)

Section occurrences.
Context `{EqDecision A}.
Implicit Types (x y : A) (l : list A).

Lemma occurrences_nil x : occurrences x [] = 0.
Proof. done. Qed.

Lemma occurrences_cons x y l :
  occurrences x (y :: l) = (if decide (x = y) then 1 else 0) + occurrences x l.
Proof. unfold occurrences. rewrite filter_cons. by case_decide. Qed.

Lemma occurrences_app x l1 l2 :
  occurrences x (l1 ++ l2) = occurrences x l1 + occurrences x l2.
Proof. unfold occurrences. by rewrite filter_app, length_app. Qed.

Lemma occurrences_snoc x y l :
  occurrences x (l ++ [y]) = occurrences x l + (if decide (x = y) then 1 else 0).
Proof. rewrite occurrences_app, occurrences_cons, occurrences_nil. lia. Qed.

Lemma occurrences_pos x l : 0 < occurrences x l ↔ x ∈ l.
Proof.
  induction l as [|y l IH].
  - rewrite occurrences_nil, elem_of_nil. lia.
  - rewrite occurrences_cons, elem_of_cons. case_decide; [split; [auto|lia]|].
    rewrite <- IH. split; [intros; right; lia|intros [?|?]; [done|lia]].
Qed.

Lemma occurrences_zero x l : occurrences x l = 0 ↔ x ∉ l.
Proof. rewrite <- occurrences_pos. lia. Qed.

End occurrences.

#[export] Hint Rewrite @occurrences_nil @occurrences_cons @occurrences_app : run_simpl.

(** ** Lists as heaps *)

Lemma insert_is_Some {A} (l : list A) i x j :
  is_Some (l !! j) → is_Some (<[i := x]> l !! j).
Proof. rewrite !lookup_lt_is_Some, length_insert. done. Qed.

Lemma snoc_is_Some {A} (l : list A) x j :
  is_Some (l !! j) → is_Some ((l ++ [x]) !! j).
Proof. rewrite !lookup_lt_is_Some, length_app. simpl. lia. Qed.

(** ** Filtered and sorted lists *)

Lemma elem_of_option_list {A} (x : A) (o : option A) :
  x ∈ option_list o ↔ o = Some x.
Proof.
  destruct o as [y|]; simpl; [rewrite list_elem_of_singleton|rewrite elem_of_nil];
    naive_solver.
Qed.

Lemma foldl_bind {A B C} (g : C → B → C) (h : A → list B) (l : list A) (c : C) :
  foldl g c (l ≫= h) = foldl (λ c x, foldl g c (h x)) c l.
Proof.
  revert c. induction l as [|x l IH]; intros c; [done|].
  simpl. by rewrite foldl_app.
Qed.

Lemma Forall_filter {A} (P Q : A → Prop) `{∀ x, Decision (P x)} (l : list A) :
  Forall Q l → Forall Q (filter P l).
Proof.
  rewrite !Forall_forall. intros Hl x [_ ?]%list_elem_of_filter. auto.
Qed.

Lemma filter_all {A} (P : A → Prop) `{∀ x, Decision (P x)} (l : list A) :
  Forall P l → filter P l = l.
Proof.
  induction 1 as [|x l Hx _ IH]; [done|]. by rewrite filter_cons_True, IH.
Qed.

Lemma filter_none {A} (P : A → Prop) `{∀ x, Decision (P x)} (l : list A) :
  (∀ x, x ∈ l → ¬ P x) → filter P l = [].
Proof.
  induction l as [|x l IH]; intros Hl; [done|].
  rewrite filter_cons, decide_False by (apply Hl; left).
  apply IH. intros; apply Hl. by right.
Qed.

Lemma StronglySorted_filter {A} (R : relation A) (P : A → Prop)
    `{∀ x, Decision (P x)} (l : list A) :
  StronglySorted R l → StronglySorted R (filter P l).
Proof.
  induction 1 as [|x l Hl IH Hx]; [constructor|].
  rewrite filter_cons. case_decide; [|done].
  constructor; [done|]. by apply Forall_filter.
Qed.

(** ** Rules for specifications *)

Section triple_rules.
Context {S : Type}.
Implicit Types (P R : S → Prop).

Lemma triple_ret {A} P (a : A) (Q : A → S → Prop) R :
  (∀ s, P s → Q a s) → triple P (ret a) Q R.
Proof. intros HQ s Hs. by apply HQ. Qed.

Lemma triple_throw {A} P e (Q : A → S → Prop) R :
  (∀ s, P s → R s) → triple P (throw e) Q R.
Proof. intros HR s Hs. by apply HR. Qed.

Lemma triple_gets {A} P (f : S → A) (Q : A → S → Prop) R :
  (∀ s, P s → Q (f s) s) → triple P (gets f) Q R.
Proof. intros HQ s Hs. by apply HQ. Qed.

Lemma triple_modify P (f : S → S) (Q : unit → S → Prop) R :
  (∀ s, P s → Q tt (f s)) → triple P (modify f) Q R.
Proof. intros HQ s Hs. by apply HQ. Qed.

Lemma triple_or_throw {A} P e (o : option A) (Q : A → S → Prop) R :
  (∀ a s, o = Some a → P s → Q a s) → (∀ s, o = None → P s → R s) →
  triple P (or_throw e o) Q R.
Proof. intros HQ HR s Hs. destruct o; simpl; auto. Qed.

Lemma triple_bind {A B} P (m : run S A) (k : A → run S B)
    (Q' : A → S → Prop) (Q : B → S → Prop) R :
  triple P m Q' R → (∀ a, triple (Q' a) (k a) Q R) → triple P (bind m k) Q R.
Proof.
  intros Hm Hk s Hs. specialize (Hm s Hs). unfold bind.
  destruct (m s) as [[a|e|] s']; [by apply Hk|done..].
Qed.

Lemma triple_conseq {A} P P' (m : run S A) (Q Q' : A → S → Prop) R R' :
  triple P' m Q' R' →
  (∀ s, P s → P' s) → (∀ a s, Q' a s → Q a s) → (∀ s, R' s → R s) →
  triple P m Q R.
Proof.
  intros Hm HP HQ HR s Hs. specialize (Hm s (HP s Hs)).
  destruct (m s) as [[a|e|] s']; auto.
Qed.

Lemma triple_pre {A} P P' (m : run S A) (Q : A → S → Prop) R :
  triple P' m Q R → (∀ s, P s → P' s) → triple P m Q R.
Proof. intros. eapply triple_conseq; eauto. Qed.

(** A fact that does not mention the store can be assumed for the proof. *)
Lemma triple_assume {A} (φ : Prop) P (m : run S A) (Q : A → S → Prop) R :
  (φ → triple P m Q R) → triple (λ s, φ ∧ P s) m Q R.
Proof. intros Hm s [Hφ Hs]. by apply Hm. Qed.

(** A loop that maintains [I] on normal steps and reaches [R] from [I] on an
    exception. *)
Lemma triple_for_each {A} (I : S → Prop) R (f : A → run S unit) l :
  (∀ x, x ∈ l → triple I (f x) (λ _, I) R) →
  triple I (for_each f l) (λ _, I) R.
Proof.
  induction l as [|x l IH]; intros Hf; [by apply triple_ret|].
  simpl. eapply triple_bind; [apply Hf; left|].
  intros ?. apply IH. intros; apply Hf. by right.
Qed.

(** What a specification says of one run. *)
Lemma triple_Ok {A} P (m : run S A) (Q : A → S → Prop) R s a s' :
  triple P m Q R → P s → m s = (Ok a, s') → Q a s'.
Proof. intros Hm Hs E. specialize (Hm s Hs). by rewrite E in Hm. Qed.

Lemma triple_final {A} P (m : run S A) (I : S → Prop) s :
  triple P m (λ _, I) I → P s → I (m s).2.
Proof. intros Hm Hs. specialize (Hm s Hs). by destruct (m s) as [[]]. Qed.

End triple_rules.

(** ** What a computation preserves *)

Section preserves_laws.
Context {S : Type} (R : relation S) `{!PreOrder R}.

Lemma preserves_same {A} (m : run S A) : (∀ s, (m s).2 = s) → preserves R m.
Proof. intros Hm s. by rewrite Hm. Qed.

Lemma preserves_bind {A B} (m : run S A) (k : A → run S B) :
  preserves R m → (∀ a, preserves R (k a)) → preserves R (bind m k).
Proof.
  intros Hm Hk s. unfold bind. specialize (Hm s).
  destruct (m s) as [[a| |] s1]; simpl in *; [|done..]. etrans; [done|apply Hk].
Qed.

Lemma preserves_for_each {A} (f : A → run S unit) l :
  (∀ x, preserves R (f x)) → preserves R (for_each f l).
Proof.
  intros Hf. induction l as [|x l IH]; [by apply preserves_same|].
  simpl. by apply preserves_bind.
Qed.

End preserves_laws.

(** ** Approximation by fuel *)

Section approx_laws.
Context {S : Type}.

#[export] Instance approx_preorder {A} : PreOrder (@approx S A).
Proof.
  split; [by intros m s|]. intros m1 m2 m3 H12 H23 s Hs.
  rewrite H23, H12; [done..|]. by rewrite H12.
Qed.

Lemma approx_timeout {A} (m : run S A) : approx timeout m.
Proof. by intros s. Qed.

Lemma approx_bind {A B} (m m' : run S A) (k k' : A → run S B) :
  approx m m' → (∀ a, approx (k a) (k' a)) → approx (bind m k) (bind m' k').
Proof.
  intros Hm Hk s. unfold bind. intros Hs. rewrite Hm.
  - destruct (m s) as [[a| |] s']; [by apply Hk|done..].
  - by destruct (m s) as [[a| |] s'].
Qed.

Lemma approx_for_each {A} (f f' : A → run S unit) l :
  (∀ x, x ∈ l → approx (f x) (f' x)) → approx (for_each f l) (for_each f' l).
Proof.
  induction l as [|x l IH]; intros Hf; [done|]. simpl.
  apply approx_bind; [apply Hf; left|]. intros _. apply IH. intros; apply Hf. by right.
Qed.

End approx_laws.

(** ** Outcomes *)

Section yields_laws.
Context {S : Type} (errors : error → Prop) (fuel_may_end : Prop).

Lemma yields_ret {A} (a : A) : yields (S:=S) errors fuel_may_end (ret a).
Proof. by intros s. Qed.

Lemma yields_gets {A} (f : S → A) : yields errors fuel_may_end (gets f).
Proof. by intros s. Qed.

Lemma yields_modify (f : S → S) : yields errors fuel_may_end (modify f).
Proof. by intros s. Qed.

Lemma yields_throw {A} e : errors e → yields (S:=S) (A:=A) errors fuel_may_end (throw e).
Proof. by intros ? s. Qed.

Lemma yields_or_throw {A} e (o : option A) :
  (o = None → errors e) → yields (S:=S) errors fuel_may_end (or_throw e o).
Proof. intros He s. destruct o; simpl; auto. Qed.

Lemma yields_bind {A B} (m : run S A) (k : A → run S B) :
  yields errors fuel_may_end m → (∀ a, yields errors fuel_may_end (k a)) →
  yields errors fuel_may_end (bind m k).
Proof.
  intros Hm Hk s. specialize (Hm s). unfold bind.
  destruct (m s) as [[a| |] s']; [apply Hk|done..].
Qed.

Lemma yields_for_each {A} (f : A → run S unit) l :
  (∀ x, x ∈ l → yields errors fuel_may_end (f x)) →
  yields errors fuel_may_end (for_each f l).
Proof.
  induction l as [|x l IH]; intros Hf; [apply yields_ret|]. simpl.
  apply yields_bind; [apply Hf; left|]. intros _. apply IH. intros; apply Hf. by right.
Qed.

End yields_laws.

Lemma yields_weaken {S A} (errors errors' : error → Prop) (F F' : Prop) (m : run S A) :
  yields errors F m → (∀ e, errors e → errors' e) → (F → F') → yields errors' F' m.
Proof. intros Hm He HF s. specialize (Hm s). destruct (m s).1; auto. Qed.

Lemma yields_no_throw {S A} (F : Prop) (m : run S A) s :
  yields (λ _, False) F m → is_Throw (m s).1 = false.
Proof. intros Hm. specialize (Hm s). by destruct (m s).1. Qed.

(** A computation that cannot throw and cannot run out of fuel returns. *)
Lemma yields_Ok {S A} (m : run S A) s :
  yields (λ _, False) False m → ∃ a, (m s).1 = Ok a.
Proof. intros Hm. specialize (Hm s). destruct (m s).1; [eauto|done..]. Qed.
