(* ===== verification/JsObject.v ===== *)
(** * JsObject: the object literals the engine uses as maps

    [statesContainer.states], [modifiersContainer.modifiers],
    [elementsContainer.elements], [Element.states], [Element.modifiers] and
    the [activeStates] literal are plain objects created by [{}] and used by
    bracket access.  This file models what the engine observes of them:
    - own properties in insertion order ([jsobj], [own_get], [own_put]);
    - [hasOwnProperty] ([has_own]);
    - a read [o[k]], which falls back to the members of [Object.prototype]
      when [k] is not an own property ([obj_get], [lookup]);
    - a write [o[k] = v], which creates no own property when [k] is
      [__proto__] ([obj_set]);
    - the order in which [for (k in o)] visits the own properties
      ([for_in]): keys that are array indices in ascending numeric order, then
      the other keys in insertion order.

    Reads and writes see an object as a map: they respect the equivalence
    [same_props] of objects with the same own properties; the enumeration
    is the one operation that sees the order of creation. *)

From Stdlib Require Import Ascii.
From stdpp Require Import base option list strings numbers sorting.
From S2P Require Import Prelude.

Open Scope string_scope.
Open Scope list_scope.

(** ** Keys *)

(** The members of [Object.prototype]: a read of one of these names on an
    object that has no own property of that name yields a function (or, for
    [__proto__], the prototype object), never [undefined]. *)
Definition object_prototype : list string :=
  [ "constructor"; "hasOwnProperty"; "isPrototypeOf"; "propertyIsEnumerable";
    "toLocaleString"; "toString"; "valueOf"; "__proto__";
    "__defineGetter__"; "__defineSetter__"; "__lookupGetter__";
    "__lookupSetter__" ].

Definition inherited (k : string) : bool := bool_decide (k ∈ object_prototype).

(** The value of a decimal digit. *)
Definition digit (a : ascii) : option N :=
  let n := N_of_ascii a in
  if decide (48 ≤ n ≤ 57)%N then Some (n - 48)%N else None.

Fixpoint digits (s : string) (acc : N) : option N :=
  match s with
  | EmptyString => Some acc
  | String a s' => d ← digit a; digits s' (10 * acc + d)%N
  end.

(** [array_index k] is [Some n] when [k] is the canonical decimal spelling of
    an integer [n] with [0 <= n < 2^32 - 1]: the keys an object enumerates
    first, in numeric order. *)
Definition array_index (k : string) : option N :=
  match k with
  | EmptyString => None
  | String "0"%char EmptyString => Some 0%N
  | String "0"%char _ => None
  | _ => n ← digits k 0; if decide (n < 2 ^ 32 - 1)%N then Some n else None
  end.

(** ** Objects *)

(** The result of a read [o[k]]. *)
Inductive lookup (V : Type) : Type :=
| Own (v : V)
| Inherited
| Undefined.

Arguments Own {V} v.
Arguments Inherited {V}.
Arguments Undefined {V}.

(** Truthiness of a read, as tested by [if (!o[k])]: the values stored are
    objects and the inherited members are functions or objects. *)
Definition truthy {V} (r : lookup V) : bool :=
  match r with
  | Undefined => false
  | _ => true
  end.

(** An object: its own properties, oldest first. *)
Abbreviation jsobj V := (list (string * V)).

Section jsobj.
Context {V : Type}.
Implicit Types (o : jsobj V) (k : string) (v : V).

(** [{}] *)
Definition empty_obj : jsobj V := [].

Fixpoint own_get (k : string) (o : jsobj V) : option V :=
  match o with
  | [] => None
  | (k', v) :: o' => if decide (k = k') then Some v else own_get k o'
  end.

(** [o.hasOwnProperty(k)] *)
Definition has_own (k : string) (o : jsobj V) : bool :=
  match own_get k o with
  | Some _ => true
  | None => false
  end.

(** Definition of an own property: an existing one keeps its position. *)
Fixpoint own_put (k : string) (v : V) (o : jsobj V) : jsobj V :=
  match o with
  | [] => [(k, v)]
  | (k', v') :: o' =>
      if decide (k = k') then (k, v) :: o' else (k', v') :: own_put k v o'
  end.

(** [o[k]] *)
Definition obj_get (k : string) (o : jsobj V) : lookup V :=
  match own_get k o with
  | Some v => Own v
  | None => if inherited k then Inherited else Undefined
  end.

(** [o[k] = v] for an object [v]: the key [__proto__] reaches the setter of
    [Object.prototype], which replaces the prototype and defines no own
    property. *)
Definition obj_set (k : string) (v : V) (o : jsobj V) : jsobj V :=
  if decide (k = "__proto__") then o else own_put k v o.

(** ** Enumeration *)

(** The own properties whose key is an array index, with the index. *)
Definition indexed (o : jsobj V) : list (N * (string * V)) :=
  omap (λ kv, n ← array_index kv.1; Some (n, kv)) o.

(** The own properties whose key is not an array index. *)
Definition named (o : jsobj V) : jsobj V :=
  filter (λ kv, array_index kv.1 = None) o.

Fixpoint insert_by_index (x : N * (string * V)) (l : list (N * (string * V)))
  : list (N * (string * V)) :=
  match l with
  | [] => [x]
  | y :: l' =>
      if decide (x.1 ≤ y.1)%N then x :: y :: l' else y :: insert_by_index x l'
  end.

Definition sort_by_index (l : list (N * (string * V))) : list (N * (string * V)) :=
  foldr insert_by_index [] l.

(** The properties in the order [for (k in o)] visits them. *)
Definition for_in (o : jsobj V) : jsobj V :=
  (sort_by_index (indexed o)).*2 ++ named o.

(** The object literal filled by assignments in the given order:
    [var r = {}; for (...) r[k] = v]. *)
Definition obj_of_assignments (l : list (string * V)) : jsobj V :=
  foldl (λ o kv, obj_set kv.1 kv.2 o) empty_obj l.

(** ** Well-formed objects *)

(** Own keys are distinct and [__proto__] is not among them: what [obj_set]
    maintains. *)
Definition obj_wf (o : jsobj V) : Prop :=
  NoDup o.*1 ∧ "__proto__" ∉ o.*1.

#[export] Instance obj_wf_dec (o : jsobj V) : Decision (obj_wf o).
Proof. unfold obj_wf. apply _. Defined.

Definition index_le (x y : N * (string * V)) : Prop := (x.1 ≤ y.1)%N.

(** Every entry of an indexed list carries the index of its key. *)
Definition index_ok (l : list (N * (string * V))) : Prop :=
  Forall (λ x, array_index x.2.1 = Some x.1) l.

(** Lists that are already in enumeration order: sorted index keys first,
    then keys that are no index. *)
Definition enum_ordered (l : jsobj V) : Prop :=
  ∃ li ln, l = li.*2 ++ ln ∧ index_ok li ∧ StronglySorted index_le li ∧
           named ln = ln.

(** Two objects with the same own properties, in whatever order they were
    created: what reads can tell apart. *)
Definition same_props (o o' : jsobj V) : Prop := ∀ k, own_get k o = own_get k o'.

(** An object whose names are an array index and not: the example of the
    order of enumeration. *)
Definition numeric_names_object : jsobj nat := [("b", 1); ("10", 2); ("2", 3)].

(** ** Reads and writes *)

Lemma own_get_Some k v o : own_get k o = Some v → (k, v) ∈ o.
Proof.
  induction o as [|[k' v'] o IH]; simpl; [done|].
  case_decide; [intros [= ->]; subst; left|right; auto].
Qed.

Lemma own_get_None k o : own_get k o = None ↔ k ∉ o.*1.
Proof.
  induction o as [|[k' v'] o IH]; simpl.
  - split; [intros _; apply not_elem_of_nil|done].
  - rewrite not_elem_of_cons. case_decide; naive_solver.
Qed.

Lemma own_get_elem_of k v o : NoDup o.*1 → (k, v) ∈ o → own_get k o = Some v.
Proof.
  induction o as [|[k' v'] o IH]; simpl; [by intros _ ?%elem_of_nil|].
  intros [Hk' Ho]%NoDup_cons [[= -> ->]|Hin]%elem_of_cons.
  - by rewrite decide_True.
  - rewrite decide_False; [auto|]. intros ->. apply Hk'.
    apply list_elem_of_fmap. by exists (k', v).
Qed.

Lemma own_get_put_eq k v o : own_get k (own_put k v o) = Some v.
Proof.
  induction o as [|[k' v'] o IH]; simpl; repeat (case_decide; simpl); done.
Qed.

Lemma own_get_put_ne k k' v o : k ≠ k' → own_get k' (own_put k v o) = own_get k' o.
Proof.
  intros Hne. induction o as [|[k1 v1] o IH]; simpl.
  - by rewrite decide_False.
  - repeat (case_decide; simpl); congruence.
Qed.

Lemma own_get_put k k' v o :
  own_get k' (own_put k v o) = if decide (k = k') then Some v else own_get k' o.
Proof.
  case_decide; [subst; apply own_get_put_eq|by apply own_get_put_ne].
Qed.

Lemma own_put_fresh k v o : own_get k o = None → own_put k v o = o ++ [(k, v)].
Proof.
  induction o as [|[k' v'] o IH]; simpl; [done|].
  case_decide; [done|]. intros ?. f_equal. auto.
Qed.

Lemma own_put_keys_present k v v' o :
  own_get k o = Some v' → (own_put k v o).*1 = o.*1.
Proof.
  induction o as [|[k' v1] o IH]; simpl; [done|].
  case_decide; simpl; [by subst|]. intros ?. f_equal. auto.
Qed.

Lemma own_put_keys k v o :
  (own_put k v o).*1 = if has_own k o then o.*1 else o.*1 ++ [k].
Proof.
  unfold has_own. destruct (own_get k o) as [v'|] eqn:E.
  - by erewrite own_put_keys_present.
  - by rewrite own_put_fresh, fmap_app.
Qed.

Lemma own_put_length k v o :
  length (own_put k v o) = if has_own k o then length o else S (length o).
Proof.
  rewrite <- !(length_fmap fst), own_put_keys.
  destruct (has_own k o); [done|]. rewrite length_app. simpl. lia.
Qed.

Lemma has_own_true k o : has_own k o = true ↔ is_Some (own_get k o).
Proof. unfold has_own. destruct (own_get k o); split; (done || by inversion 1). Qed.

Lemma has_own_false k o : has_own k o = false ↔ own_get k o = None.
Proof. unfold has_own. by destruct (own_get k o). Qed.

(** Reading back what was written: [o[k] = v; o[k]] is [v], unless [k] is
    [__proto__]. *)
Lemma obj_get_set_eq k v o : k ≠ "__proto__" → obj_get k (obj_set k v o) = Own v.
Proof.
  intros. unfold obj_get, obj_set. by rewrite decide_False, own_get_put_eq.
Qed.

Lemma obj_get_set_ne k k' v o : k ≠ k' → obj_get k' (obj_set k v o) = obj_get k' o.
Proof.
  intros. unfold obj_get, obj_set. case_decide; [done|].
  by rewrite own_get_put_ne.
Qed.

Lemma own_get_set_eq k v o : k ≠ "__proto__" → own_get k (obj_set k v o) = Some v.
Proof. intros. unfold obj_set. by rewrite decide_False, own_get_put_eq. Qed.

Lemma own_get_set_ne k k' v o : k ≠ k' → own_get k' (obj_set k v o) = own_get k' o.
Proof. intros. unfold obj_set. case_decide; [done|by apply own_get_put_ne]. Qed.

Lemma has_own_set_ne k k' v o : k ≠ k' → has_own k' (obj_set k v o) = has_own k' o.
Proof. intros. unfold has_own. by rewrite own_get_set_ne. Qed.

Lemma obj_set_proto v o : obj_set "__proto__" v o = o.
Proof. done. Qed.

Lemma obj_get_Own k v o : obj_get k o = Own v ↔ own_get k o = Some v.
Proof.
  unfold obj_get. destruct (own_get k o); [naive_solver|].
  destruct (inherited k); naive_solver.
Qed.

Lemma obj_get_Undefined k o :
  obj_get k o = Undefined ↔ own_get k o = None ∧ inherited k = false.
Proof.
  unfold obj_get. destruct (own_get k o); [naive_solver|].
  destruct (inherited k); naive_solver.
Qed.

Lemma obj_get_Inherited k o :
  obj_get k o = Inherited ↔ own_get k o = None ∧ inherited k = true.
Proof.
  unfold obj_get. destruct (own_get k o); [naive_solver|].
  destruct (inherited k); naive_solver.
Qed.

Lemma truthy_false k o :
  truthy (obj_get k o) = false ↔ own_get k o = None ∧ inherited k = false.
Proof.
  rewrite <- obj_get_Undefined. destruct (obj_get k o); naive_solver.
Qed.

Lemma inherited_proto : inherited "__proto__" = true.
Proof. done. Qed.

(** A name that [Object.prototype] does not have is an ordinary key. *)
Lemma inherited_false_ne k :
  inherited k = false → k ≠ "__proto__" ∧ k ≠ "hasOwnProperty".
Proof. intros Hk. split; intros ->; done. Qed.

Lemma obj_get_empty k : inherited k = false → obj_get k empty_obj = Undefined.
Proof. unfold obj_get. simpl. by intros ->. Qed.

(** ** Well-formedness *)

Lemma obj_wf_empty : obj_wf empty_obj.
Proof. split; [constructor|apply not_elem_of_nil]. Qed.

Lemma own_put_NoDup k v o : NoDup o.*1 → NoDup (own_put k v o).*1.
Proof.
  intros Ho. rewrite own_put_keys. destruct (has_own k o) eqn:E; [done|].
  apply NoDup_app. split_and!; [done| |apply NoDup_singleton].
  intros k' Hk' ->%list_elem_of_singleton.
  by apply has_own_false, own_get_None in E.
Qed.

Lemma obj_set_wf k v o : obj_wf o → obj_wf (obj_set k v o).
Proof.
  intros [Hnd Hp]. unfold obj_set. case_decide as Hk; [done|].
  split; [by apply own_put_NoDup|]. rewrite own_put_keys.
  destruct (has_own k o); [done|]. rewrite elem_of_app, list_elem_of_singleton.
  naive_solver.
Qed.

Lemma obj_wf_own_get_proto o : obj_wf o → own_get "__proto__" o = None.
Proof. intros [_ ?]. by apply own_get_None. Qed.

Lemma obj_wf_elem_of k v o : obj_wf o → (k, v) ∈ o ↔ own_get k o = Some v.
Proof.
  intros [? _]. split; [by apply own_get_elem_of|apply own_get_Some].
Qed.

(** ** Sorting by index *)

Lemma insert_by_index_Permutation x l : insert_by_index x l ≡ₚ x :: l.
Proof.
  induction l as [|y l IH]; simpl; [done|].
  case_decide; [done|]. by rewrite IH, Permutation_swap.
Qed.

Lemma sort_by_index_Permutation l : sort_by_index l ≡ₚ l.
Proof.
  induction l as [|x l IH]; simpl; [done|].
  by rewrite insert_by_index_Permutation, IH.
Qed.

Lemma insert_by_index_sorted x l :
  StronglySorted index_le l → StronglySorted index_le (insert_by_index x l).
Proof.
  induction 1 as [|y l Hl IH Hy]; simpl; [repeat constructor|].
  case_decide as Hxy.
  - constructor; [by constructor|]. constructor; [done|].
    eapply Forall_impl; [exact Hy|]. unfold index_le. intros; simpl in *; lia.
  - constructor; [done|]. rewrite insert_by_index_Permutation.
    constructor; [unfold index_le; lia|done].
Qed.

Lemma sort_by_index_sorted l : StronglySorted index_le (sort_by_index l).
Proof.
  induction l as [|x l IH]; simpl; [constructor|by apply insert_by_index_sorted].
Qed.

(** Sorting leaves a sorted list as it is. *)
Lemma sort_by_index_id l : StronglySorted index_le l → sort_by_index l = l.
Proof.
  induction 1 as [|x l Hl IH Hx]; simpl; [done|]. rewrite IH.
  destruct Hx as [|y l Hxy _]; simpl; [done|]. by rewrite decide_True.
Qed.

Lemma sort_by_index_index_ok l : index_ok l → index_ok (sort_by_index l).
Proof. unfold index_ok. by rewrite sort_by_index_Permutation. Qed.

(** ** Enumeration *)

Lemma indexed_app o1 o2 : indexed (o1 ++ o2) = indexed o1 ++ indexed o2.
Proof. apply omap_app. Qed.

Lemma named_app o1 o2 : named (o1 ++ o2) = named o1 ++ named o2.
Proof. apply filter_app. Qed.

Lemma indexed_cons kv o :
  indexed (kv :: o) =
    match array_index kv.1 with
    | Some n => (n, kv) :: indexed o
    | None => indexed o
    end.
Proof. unfold indexed. simpl. by destruct (array_index kv.1). Qed.

Lemma named_cons kv o :
  named (kv :: o) =
    match array_index kv.1 with
    | Some n => named o
    | None => kv :: named o
    end.
Proof.
  unfold named. destruct (array_index kv.1) eqn:E.
  - by rewrite filter_cons_False by (rewrite E; done).
  - by rewrite filter_cons_True.
Qed.

Lemma indexed_index_ok o : index_ok (indexed o).
Proof.
  induction o as [|kv o IH]; [constructor|]. rewrite indexed_cons.
  destruct (array_index kv.1) eqn:E; [by constructor|done].
Qed.

Lemma indexed_fmap_snd l : index_ok l → indexed l.*2 = l.
Proof.
  induction 1 as [|[n kv] l Hx _ IH]; [done|].
  rewrite fmap_cons, indexed_cons. simpl in *. rewrite Hx. by f_equal.
Qed.

Lemma named_fmap_snd l : index_ok l → named l.*2 = [].
Proof.
  induction 1 as [|[n kv] l Hx _ IH]; [done|].
  rewrite fmap_cons, named_cons. simpl in *. by rewrite Hx.
Qed.

Lemma indexed_named o : indexed (named o) = [].
Proof.
  induction o as [|kv o IH]; [done|]. rewrite named_cons.
  destruct (array_index kv.1) eqn:E; [done|]. by rewrite indexed_cons, E.
Qed.

Lemma named_named o : named (named o) = named o.
Proof. unfold named. by apply list_filter_filter_r. Qed.

Lemma indexed_named_Permutation o : (indexed o).*2 ++ named o ≡ₚ o.
Proof.
  induction o as [|kv o IH]; [done|]. rewrite indexed_cons, named_cons.
  destruct (array_index kv.1); simpl; [by rewrite IH|].
  by rewrite <- Permutation_middle, IH.
Qed.

(** Enumeration visits every own property exactly once. *)
Lemma for_in_Permutation o : for_in o ≡ₚ o.
Proof.
  unfold for_in. by rewrite sort_by_index_Permutation, indexed_named_Permutation.
Qed.

Lemma for_in_elem_of kv o : kv ∈ for_in o ↔ kv ∈ o.
Proof. by rewrite for_in_Permutation. Qed.

Lemma for_in_keys o : (for_in o).*1 ≡ₚ o.*1.
Proof. by rewrite for_in_Permutation. Qed.

Lemma for_in_wf o : obj_wf o → obj_wf (for_in o).
Proof. unfold obj_wf. by rewrite for_in_keys. Qed.

Lemma own_get_for_in k o : obj_wf o → own_get k (for_in o) = own_get k o.
Proof.
  intros Ho. destruct (own_get k o) as [v|] eqn:E.
  - apply obj_wf_elem_of; [by apply for_in_wf|].
    by apply for_in_elem_of, own_get_Some.
  - apply own_get_None. rewrite for_in_keys. by apply own_get_None.
Qed.

Lemma for_in_enum_ordered o : enum_ordered (for_in o).
Proof.
  exists (sort_by_index (indexed o)), (named o). split_and!; [done|..].
  - apply sort_by_index_index_ok, indexed_index_ok.
  - apply sort_by_index_sorted.
  - apply named_named.
Qed.

Lemma enum_ordered_for_in l : enum_ordered l → for_in l = l.
Proof.
  intros (li & ln & -> & Hok & Hs & Hn). unfold for_in.
  rewrite indexed_app, named_app, indexed_fmap_snd, named_fmap_snd by done.
  rewrite <- Hn at 1. rewrite indexed_named, app_nil_r, Hn.
  by rewrite sort_by_index_id.
Qed.

Lemma enum_ordered_filter (P : string * V → Prop) `{∀ x, Decision (P x)} l :
  enum_ordered l → enum_ordered (filter P l).
Proof.
  intros (li & ln & -> & Hok & Hs & Hn).
  exists (filter (λ x, P x.2) li), (filter P ln). split_and!.
  - rewrite filter_app. f_equal. clear. induction li as [|x li IH]; [done|].
    rewrite fmap_cons, !filter_cons. simpl. case_decide; simpl; by f_equal.
  - by apply Forall_filter.
  - by apply StronglySorted_filter.
  - unfold named in *. rewrite <- Hn at 2.
    rewrite !list_filter_filter. apply list_filter_iff. naive_solver.
Qed.

Lemma enum_ordered_named o : named o = o → enum_ordered o.
Proof.
  intros Ho. exists [], o. split_and!; [done|constructor|constructor|done].
Qed.

Lemma for_in_singleton kv : for_in [kv] = [kv].
Proof.
  unfold for_in, indexed, named. simpl. rewrite filter_cons, filter_nil.
  by destruct (array_index kv.1).
Qed.

Lemma for_in_idemp o : for_in (for_in o) = for_in o.
Proof. apply enum_ordered_for_in, for_in_enum_ordered. Qed.

(** ** The literal built by assignments *)

Lemma obj_of_assignments_from (acc l : jsobj V) :
  NoDup (acc ++ l).*1 → "__proto__" ∉ l.*1 →
  foldl (λ o kv, obj_set kv.1 kv.2 o) acc l = acc ++ l.
Proof.
  revert acc. induction l as [|[k v] l IH]; intros acc Hnd Hp.
  - by rewrite app_nil_r.
  - simpl in *. rewrite not_elem_of_cons in Hp. destruct Hp as [Hk Hp].
    unfold obj_set at 2. simpl. rewrite decide_False by done.
    rewrite fmap_app, fmap_cons in Hnd. simpl in Hnd.
    rewrite own_put_fresh.
    + rewrite IH; [by rewrite <- app_assoc| |done].
      by rewrite <- app_assoc, fmap_app.
    + apply own_get_None. apply NoDup_app in Hnd as (_ & Hd & _).
      intros Hin. apply (Hd _ Hin). left.
Qed.

Lemma obj_of_assignments_wf l : obj_wf l → obj_of_assignments l = l.
Proof. intros [??]. by apply obj_of_assignments_from. Qed.

Lemma filter_wf (P : string * V → Prop) `{∀ x, Decision (P x)} o :
  obj_wf o → obj_wf (filter P o).
Proof.
  intros [Hnd Hp]. split.
  - eapply NoDup_fmap_fst; [|by apply NoDup_filter, NoDup_fmap_1 with fst].
    intros k v1 v2 [_ H1]%list_elem_of_filter [_ H2]%list_elem_of_filter.
    apply own_get_elem_of in H1, H2; congruence.
  - intros (kv & ? & [_ Hin]%list_elem_of_filter)%list_elem_of_fmap.
    apply Hp. apply list_elem_of_fmap. eauto.
Qed.

(** The [activeStates] literal is enumerated in the order its entries were
    chosen.  [getActiveStates] walks [states] with [for .. in], copies the
    entries that pass a test into a fresh literal, and [modifyDependents]
    walks that literal with [for .. in] again: the second walk visits exactly
    the entries that passed, in the order of the first walk. *)
Lemma for_in_filtered_literal (P : string * V → Prop) `{∀ x, Decision (P x)} o :
  obj_wf o →
  for_in (obj_of_assignments (filter P (for_in o))) = filter P (for_in o).
Proof.
  intros Ho. rewrite obj_of_assignments_wf by by apply filter_wf, for_in_wf.
  apply enum_ordered_for_in, enum_ordered_filter, for_in_enum_ordered.
Qed.

(** ** Objects as maps *)

(** Reads and writes see an object as a map from keys to values; only the
    enumeration sees the order of creation, and of that only a
    permutation. *)
#[export] Instance same_props_equiv : Equivalence same_props.
Proof.
  split; [by intros o k|by intros o o' Ho k|].
  intros o1 o2 o3 H1 H2 k. by rewrite H1.
Qed.

#[export] Instance own_get_proper k : Proper (same_props ==> eq) (own_get k).
Proof. intros o o' Ho. apply Ho. Qed.

#[export] Instance has_own_proper k : Proper (same_props ==> eq) (has_own k).
Proof. intros o o' Ho. unfold has_own. by rewrite Ho. Qed.

#[export] Instance obj_get_proper k : Proper (same_props ==> eq) (obj_get k).
Proof. intros o o' Ho. unfold obj_get. by rewrite Ho. Qed.

#[export] Instance own_put_proper k v : Proper (same_props ==> same_props) (own_put k v).
Proof. intros o o' Ho k'. by rewrite !own_get_put, Ho. Qed.

#[export] Instance obj_set_proper k v : Proper (same_props ==> same_props) (obj_set k v).
Proof. intros o o' Ho. unfold obj_set. case_decide; [done|by rewrite Ho]. Qed.

(** Writes to different keys commute, as far as reads go. *)
Lemma obj_set_comm k k' v v' o :
  k ≠ k' → same_props (obj_set k v (obj_set k' v' o)) (obj_set k' v' (obj_set k v o)).
Proof.
  intros Hk k0. unfold obj_set. repeat case_decide; rewrite ?own_get_put; try done.
  repeat case_decide; congruence.
Qed.

Lemma same_props_Permutation o o' : obj_wf o → obj_wf o' → same_props o o' → o ≡ₚ o'.
Proof.
  intros Ho Ho' Hs.
  apply NoDup_Permutation; [eapply NoDup_fmap_1, Ho|eapply NoDup_fmap_1, Ho'|].
  intros [k v]. by rewrite !obj_wf_elem_of, Hs.
Qed.

(** Objects with the same properties are enumerated alike, up to the
    order. *)
Lemma same_props_for_in o o' :
  obj_wf o → obj_wf o' → same_props o o' → for_in o ≡ₚ for_in o'.
Proof. intros. rewrite !for_in_Permutation. by apply same_props_Permutation. Qed.

(** ** Properties of the object model *)

(** [for (k in o)] visits every own property of [o] once, the
    properties named by array indices first, in numeric order, and then the
    others. *)
Theorem for_in_permutation_ordered o : for_in o ≡ₚ o ∧ enum_ordered (for_in o).
Proof. split; [apply for_in_Permutation|apply for_in_enum_ordered]. Qed.

(** When no property is named by an array index, [for (k in o)] visits
    the properties in the order in which they were created. *)
Theorem for_in_creation_order o :
  Forall (λ kv, array_index kv.1 = None) o → for_in o = o.
Proof.
  intros Ho. apply enum_ordered_for_in, enum_ordered_named.
  unfold named. by apply filter_all.
Qed.

(** A read after a write, for every pair of keys: [o[k] = v; o[k']]
    yields [v] when [k'] is [k], and what [o[k']] yielded before otherwise;
    a write to [__proto__] changes no read of an own property. *)
Theorem obj_get_set k k' v o :
  obj_get k' (obj_set k v o) =
    if decide (k = "__proto__") then obj_get k' o
    else if decide (k = k') then Own v
    else obj_get k' o.
Proof.
  case_decide as Hp; [by subst|]. case_decide as Hk.
  - subst. by apply obj_get_set_eq.
  - by apply obj_get_set_ne.
Qed.

End jsobj.

(** ** Array indices *)

Section keys.
Implicit Types (a : ascii) (s k : string) (d n acc : N).

Lemma digit_lt a d : digit a = Some d → (d < 10)%N.
Proof. unfold digit. case_decide; [|done]. intros [= <-]. lia. Qed.

Lemma digit_inj a a' d : digit a = Some d → digit a' = Some d → a = a'.
Proof.
  unfold digit. repeat case_decide; try done. intros [= <-] [= Hd].
  rewrite <- (ascii_N_embedding a), <- (ascii_N_embedding a'). f_equal. lia.
Qed.

Lemma digit_zero a : digit a = Some 0%N → a = "0"%char.
Proof. intros. by apply (digit_inj a "0" 0). Qed.

(** The digits are the decimal expansion: [digits] shifts what it has read
    by one place for every character. *)
Lemma digits_bounds s acc n :
  digits s acc = Some n →
  (acc * 10 ^ N.of_nat (String.length s) ≤ n < (acc + 1) * 10 ^ N.of_nat (String.length s))%N.
Proof.
  revert acc. induction s as [|a s IH]; intros acc; simpl String.length.
  - intros [= <-]. simpl. lia.
  - simpl. intros (d & Hd%digit_lt & Hn%IH)%bind_Some.
    rewrite Nat2N.inj_succ, N.pow_succ_r'. nia.
Qed.

Lemma digits_inj s s' acc acc' n :
  String.length s = String.length s' →
  digits s acc = Some n → digits s' acc' = Some n → acc = acc' ∧ s = s'.
Proof.
  revert s' acc acc'. induction s as [|a s IH]; intros [|a' s'] acc acc'; try done.
  - by intros _ [= <-] [= <-].
  - simpl. intros [= Hlen] (d & Hd & Hn)%bind_Some (d' & Hd' & Hn')%bind_Some.
    destruct (IH _ _ _ Hlen Hn Hn') as [Hacc <-].
    pose proof (digit_lt _ _ Hd). pose proof (digit_lt _ _ Hd').
    assert (d = d') as <- by lia. split; [lia|]. f_equal. by eapply digit_inj.
Qed.

(** An array index other than [0] is spelt without a leading zero, so its
    value tells the number of its digits. *)
Lemma array_index_cases k n :
  array_index k = Some n →
  (n < 2 ^ 32 - 1)%N ∧
  ((k = "0" ∧ n = 0%N) ∨
   (digits k 0 = Some n ∧
    (10 ^ N.of_nat (String.length k) ≤ 10 * n < 10 * 10 ^ N.of_nat (String.length k))%N)).
Proof.
  destruct k as [|a s]; [done|].
  destruct (decide (a = "0"%char)) as [->|Ha].
  { destruct s; [|done]. intros [= <-]. split; [done|by left]. }
  intros Hk. assert ((n' ← digits (String a s) 0;
                      if decide (n' < 2 ^ 32 - 1)%N then Some n' else None) = Some n) as Hn.
  { revert Hk. unfold array_index. by repeat case_match. }
  apply bind_Some in Hn as (n' & Hn' & Hlt). case_decide; [|done]. simplify_eq.
  split; [done|]. right. split; [done|].
  simpl in Hn'. apply bind_Some in Hn' as (d & Hd & Hn).
  assert (d ≠ 0%N) by (intros ->; by apply digit_zero in Hd).
  pose proof (digit_lt _ _ Hd). apply digits_bounds in Hn.
  simpl String.length. rewrite Nat2N.inj_succ, N.pow_succ_r'. nia.
Qed.

Lemma array_index_inj k k' n :
  array_index k = Some n → array_index k' = Some n → k = k'.
Proof.
  intros [_ Hk]%array_index_cases [_ Hk']%array_index_cases.
  destruct Hk as [[-> ->]|[Hd Hb]], Hk' as [[-> ?]|[Hd' Hb']]; subst; try done.
  - destruct k'; simpl in *; lia.
  - destruct k; simpl in *; lia.
  - refine (proj2 (digits_inj k k' 0 0 n _ Hd Hd')).
    rewrite <- !N.pow_succ_r' in Hb, Hb'.
    apply Nat2N.inj, N.le_antisymm; apply N.lt_succ_r, (N.pow_lt_mono_r_iff 10); lia.
Qed.

(** The names that [for (k in o)] visits first, in numeric order, are
    the array indices: an index is below [2^32 - 1], and it is the index of
    one name only, its decimal spelling without leading zeros, so the
    numeric order is a strict order of those names. *)
Theorem array_index_bounded k n :
  array_index k = Some n →
  (n < 2 ^ 32 - 1)%N ∧ ∀ k', array_index k' = Some n → k' = k.
Proof.
  intros Hk. split; [by apply array_index_cases in Hk as [? _]|].
  intros k' Hk'. by apply (array_index_inj k' k n).
Qed.

End keys.

Lemma array_index_bounded_witness :
  (4294967294 < 2 ^ 32 - 1)%N ∧
  ∀ k', array_index k' = Some 4294967294%N → k' = "4294967294".
Proof. apply array_index_bounded. vm_compute. reflexivity. Defined.

(** The largest index, the first number that is a name like any other, and
    a spelling with a leading zero; the order they are enumerated in. *)
Example array_index_limit :
  array_index "4294967294" = Some 4294967294%N ∧
  array_index "4294967295" = None ∧ array_index "07" = None ∧
  for_in [("4294967295", 1); ("b", 2); ("07", 3); ("4294967294", 4); ("7", 5)] =
    [("7", 5); ("4294967294", 4); ("4294967295", 1); ("b", 2); ("07", 3)].
Proof. repeat split; vm_compute; reflexivity. Qed.

Lemma for_in_creation_order_witness :
  for_in [("checked", 1); ("visible", 2)] = [("checked", 1); ("visible", 2)].
Proof. apply for_in_creation_order. compute_done. Defined.

(** Enumeration is not insertion order in general: a property whose name
    is an array index is visited before every property whose name is not,
    and array indices are visited in numeric order, whatever the order in
    which the properties were created. *)
Example for_in_numeric_names_first :
  for_in numeric_names_object = [("2", 3); ("10", 2); ("b", 1)].
Proof. reflexivity. Qed.

(** The order of creation is seen by the enumeration and by nothing else:
    two literals with the same properties, read alike and enumerated
    differently. *)
Example same_props_enumerated_apart :
  let o := obj_set "b" 2 (obj_set "a" 1 empty_obj) in
  let o' := obj_set "a" 1 (obj_set "b" 2 empty_obj) in
  same_props o o' ∧ for_in o ≠ for_in o'.
Proof. split; [by apply obj_set_comm|by vm_compute]. Qed.
