(* ===== verification/Heap.v ===== *)
(** * Heap: the objects of the engine and the store that holds them

    - [Host] is what the engine assumes of its collaborators: host element
      references ([$element]), the page state the callbacks observe and
      change, and the attribute read [$element.attr('id')] of the default key
      resolver.
    - [Element], [State] and [Modifier] are the records behind the three
      constructors of [src/field-dependencies.js]; a reference to an object
      is its index in the heap of its class.
    - [Engine] is everything the module keeps: the two template containers,
      the key resolver, the element registry, the three heaps, and the change
      handlers the [Element] constructor registered with the host.
    - [wf] is the invariant of a store: references point into the heaps, an
      attached State or Modifier is owned by exactly the element it names,
      and the two sides of every subscription agree. *)

From stdpp Require Import base option list strings numbers.
From S2P Require Import Prelude JsObject.

Open Scope string_scope.
Open Scope list_scope.
Open Scope run_scope.

(** ** The collaborator contract *)

Class Host : Type := {
  (** a host element reference, as passed to [createRelationship] *)
  HostRef : Type;
  (** the page: what predicates read and mutations write *)
  Dom : Type;
  HostRef_eq_dec :: EqDecision HostRef;
  (** [$element.attr('id')], [None] for [undefined] *)
  attr_id : HostRef → Dom → option string;
}.

(** References into the three heaps. *)
Abbreviation ElemId := nat.
Abbreviation StateId := nat.
Abbreviation ModId := nat.

Section objects.
Context `{Host}.

(** A State callback: the truthiness of [callback($element)]. *)
Definition Predicate : Type := HostRef → Dom → bool.

(** A Modifier callback: the page after [callback($element)]. *)
Definition Mutation : Type := HostRef → Dom → Dom.

(** A key resolver: [getElementKey($element)], converted to a property key. *)
Definition KeyFn : Type := HostRef → Dom → string.

(** [function Element($element)]: [this.$element], [this.states],
    [this.modifiers]. *)
Record Element : Type := mkElement {
  el_element : HostRef;
  el_states : jsobj StateId;
  el_modifiers : jsobj ModId;
}.

(** [function State(callback)]: [this.element] ([None] for [null]),
    [this.callback] ([None] for [undefined]), [this.modifiers]. *)
Record State : Type := mkState {
  st_element : option ElemId;
  st_callback : option Predicate;
  st_modifiers : list ModId;
}.

(** [function Modifier(callback)]: [this.element], [this.callback],
    [this.states]. *)
Record Modifier : Type := mkModifier {
  md_element : option ElemId;
  md_callback : option Mutation;
  md_states : list StateId;
}.

(** The object behind [statesContainer.states] or
    [modifiersContainer.modifiers]: its own properties, and the template that
    an assignment to [__proto__] installed as its prototype, if any. *)
Record Templates : Type := mkTemplates {
  tpl_own : jsobj nat;
  tpl_proto : option nat;
}.

Record Engine : Type := mkEngine {
  statesContainer_states : Templates;
  modifiersContainer_modifiers : Templates;
  getElementKey : KeyFn;
  elementsContainer_elements : jsobj ElemId;
  element_heap : list Element;
  state_heap : list State;
  modifier_heap : list Modifier;
  (** handlers bound by [this.$element.change(modifyDependents)], oldest
      first: the host reference and the element whose fan-out the handler
      runs *)
  change_handlers : list (HostRef * ElemId);
}.

(** ** Field updates *)

Definition set_statesContainer_states (f : Templates → Templates) (w : Engine) : Engine :=
  mkEngine (f (statesContainer_states w)) (modifiersContainer_modifiers w)
    (getElementKey w) (elementsContainer_elements w) (element_heap w)
    (state_heap w) (modifier_heap w) (change_handlers w).

Definition set_modifiersContainer_modifiers (f : Templates → Templates) (w : Engine) : Engine :=
  mkEngine (statesContainer_states w) (f (modifiersContainer_modifiers w))
    (getElementKey w) (elementsContainer_elements w) (element_heap w)
    (state_heap w) (modifier_heap w) (change_handlers w).

Definition set_getElementKey (f : KeyFn) (w : Engine) : Engine :=
  mkEngine (statesContainer_states w) (modifiersContainer_modifiers w)
    f (elementsContainer_elements w) (element_heap w)
    (state_heap w) (modifier_heap w) (change_handlers w).

Definition set_elementsContainer_elements (f : jsobj ElemId → jsobj ElemId) (w : Engine) : Engine :=
  mkEngine (statesContainer_states w) (modifiersContainer_modifiers w)
    (getElementKey w) (f (elementsContainer_elements w)) (element_heap w)
    (state_heap w) (modifier_heap w) (change_handlers w).

Definition set_element_heap (f : list Element → list Element) (w : Engine) : Engine :=
  mkEngine (statesContainer_states w) (modifiersContainer_modifiers w)
    (getElementKey w) (elementsContainer_elements w) (f (element_heap w))
    (state_heap w) (modifier_heap w) (change_handlers w).

Definition set_state_heap (f : list State → list State) (w : Engine) : Engine :=
  mkEngine (statesContainer_states w) (modifiersContainer_modifiers w)
    (getElementKey w) (elementsContainer_elements w) (element_heap w)
    (f (state_heap w)) (modifier_heap w) (change_handlers w).

Definition set_modifier_heap (f : list Modifier → list Modifier) (w : Engine) : Engine :=
  mkEngine (statesContainer_states w) (modifiersContainer_modifiers w)
    (getElementKey w) (elementsContainer_elements w) (element_heap w)
    (state_heap w) (f (modifier_heap w)) (change_handlers w).

Definition set_change_handlers (f : list (HostRef * ElemId) → list (HostRef * ElemId)) (w : Engine) : Engine :=
  mkEngine (statesContainer_states w) (modifiersContainer_modifiers w)
    (getElementKey w) (elementsContainer_elements w) (element_heap w)
    (state_heap w) (modifier_heap w) (f (change_handlers w)).

(** ** Reading, writing and allocating objects *)

(** Dereference: [Dangling] when the reference is outside the heap. *)
Definition read_element (e : ElemId) : run Engine Element :=
  λ w, or_throw Dangling (element_heap w !! e) w.

Definition read_state (s : StateId) : run Engine State :=
  λ w, or_throw Dangling (state_heap w !! s) w.

Definition read_modifier (m : ModId) : run Engine Modifier :=
  λ w, or_throw Dangling (modifier_heap w !! m) w.

(** In-place update of the object behind a reference. *)
Definition update_element (e : ElemId) (f : Element → Element) : run Engine unit :=
  E <- read_element e ;;
  modify (set_element_heap (λ h, <[e := f E]> h)).

Definition update_state (s : StateId) (f : State → State) : run Engine unit :=
  S <- read_state s ;;
  modify (set_state_heap (λ h, <[s := f S]> h)).

Definition update_modifier (m : ModId) (f : Modifier → Modifier) : run Engine unit :=
  M <- read_modifier m ;;
  modify (set_modifier_heap (λ h, <[m := f M]> h)).

(** [new]: the fresh object goes to the end of its heap and the reference to
    it is returned. *)
Definition alloc_element (E : Element) : run Engine ElemId :=
  λ w, (Ok (length (element_heap w)), set_element_heap (λ h, h ++ [E]) w).

Definition alloc_state (S : State) : run Engine StateId :=
  λ w, (Ok (length (state_heap w)), set_state_heap (λ h, h ++ [S]) w).

Definition alloc_modifier (M : Modifier) : run Engine ModId :=
  λ w, (Ok (length (modifier_heap w)), set_modifier_heap (λ h, h ++ [M]) w).

(** [new State(callback)] and [new Modifier(callback)]: [element] is [null]
    and the subscription list is empty. *)
Definition new_State (callback : option Predicate) : run Engine StateId :=
  alloc_state (mkState None callback []).

Definition new_Modifier (callback : option Mutation) : run Engine ModId :=
  alloc_modifier (mkModifier None callback []).

(** The store when the module has been evaluated and nothing was called:
    empty containers, no object, and a key resolver [kf]. *)
Definition empty_engine (kf : KeyFn) : Engine :=
  mkEngine (mkTemplates empty_obj None) (mkTemplates empty_obj None) kf
    empty_obj [] [] [] [].

(** ** The invariant *)

(** Ownership of the objects of one class by elements, for a heap [heap] of
    objects with their [owner] field and the [slot] of the element that names
    them ([states] or [modifiers]). *)
Section owned.
Context {T : Type} (owner : T → option ElemId) (slot : Element → jsobj nat).

Record owned (elems : list Element) (heap : list T) : Prop := {
  (** the slots are objects with distinct own keys *)
  owned_obj e E : elems !! e = Some E → obj_wf (slot E);
  (** what an element names exists and names the element back *)
  owned_back e E k i :
    elems !! e = Some E → own_get k (slot E) = Some i →
    ∃ x, heap !! i = Some x ∧ owner x = Some e;
  (** what names an element is named by it *)
  owned_forth i x e :
    heap !! i = Some x → owner x = Some e →
    ∃ E k, elems !! e = Some E ∧ own_get k (slot E) = Some i;
  (** under one key only *)
  owned_key e E k k' i :
    elems !! e = Some E → own_get k (slot E) = Some i →
    own_get k' (slot E) = Some i → k = k';
  (** and that key is no member of [Object.prototype]: an instance is
      attached only where a read of the key gave [undefined] *)
  owned_ordinary e E k i :
    elems !! e = Some E → own_get k (slot E) = Some i → inherited k = false;
}.

End owned.

(** The subscriptions: every entry of a subscription list is an attached
    object, an object that has subscriptions is attached, and a Modifier
    occurs in the list of a State as often as the State occurs in the list of
    the Modifier. *)
Record linked (states : list State) (mods : list Modifier) : Prop := {
  linked_modifier s S m :
    states !! s = Some S → m ∈ st_modifiers S →
    is_Some (st_element S) ∧ ∃ M, mods !! m = Some M ∧ is_Some (md_element M);
  linked_state m M s :
    mods !! m = Some M → s ∈ md_states M →
    is_Some (md_element M) ∧ ∃ S, states !! s = Some S ∧ is_Some (st_element S);
  linked_count s S m M :
    states !! s = Some S → mods !! m = Some M →
    occurrences m (st_modifiers S) = occurrences s (md_states M);
}.

(** The templates of a container are objects of the heap that were never
    attached. *)
Record templates_ok {T : Type} (owner : T → option ElemId)
    (c : Templates) (heap : list T) : Prop := {
  templates_obj : obj_wf (tpl_own c);
  templates_own k t :
    own_get k (tpl_own c) = Some t → ∃ x, heap !! t = Some x ∧ owner x = None;
  templates_proto t :
    tpl_proto c = Some t → ∃ x, heap !! t = Some x ∧ owner x = None;
}.

(** The handler of an element is bound when the element is constructed, on
    the host reference it was constructed with, and never removed. *)
Definition handlers_of (elems : list Element) : list (HostRef * ElemId) :=
  imap (λ e E, (el_element E, e)) elems.

Record wf (w : Engine) : Prop := {
  wf_registry_obj : obj_wf (elementsContainer_elements w);
  wf_registry k e :
    own_get k (elementsContainer_elements w) = Some e →
    is_Some (element_heap w !! e);
  wf_states : owned st_element el_states (element_heap w) (state_heap w);
  wf_modifiers : owned md_element el_modifiers (element_heap w) (modifier_heap w);
  wf_linked : linked (state_heap w) (modifier_heap w);
  wf_state_templates :
    templates_ok st_element (statesContainer_states w) (state_heap w);
  wf_modifier_templates :
    templates_ok md_element (modifiersContainer_modifiers w) (modifier_heap w);
  wf_handlers : change_handlers w = handlers_of (element_heap w);
}.

(** ** Growth of the store *)

(** Nothing [createRelationship] does removes an object, rebinds an attached
    instance, renames a State or a Modifier of an element, drops a
    subscription or changes the key resolver.  [extends w w'] says that [w']
    is [w] after such growth. *)

(** Every own property of [o] is one of [o'], with the same value. *)
Definition obj_le {V} (o o' : jsobj V) : Prop :=
  ∀ k v, own_get k o = Some v → own_get k o' = Some v.

Record element_le (E E' : Element) : Prop := {
  element_le_element : el_element E' = el_element E;
  element_le_states : obj_le (el_states E) (el_states E');
  element_le_modifiers : obj_le (el_modifiers E) (el_modifiers E');
}.

Record state_le (S S' : State) : Prop := {
  state_le_callback : st_callback S' = st_callback S;
  state_le_element e : st_element S = Some e → st_element S' = Some e;
  state_le_modifiers : st_modifiers S `prefix_of` st_modifiers S';
}.

Record modifier_le (M M' : Modifier) : Prop := {
  modifier_le_callback : md_callback M' = md_callback M;
  modifier_le_element e : md_element M = Some e → md_element M' = Some e;
  modifier_le_states : md_states M `prefix_of` md_states M';
}.

(** Every object of [h] is in [h'] at the same reference, grown by [R]. *)
Definition heap_le {A} (R : relation A) (h h' : list A) : Prop :=
  ∀ i x, h !! i = Some x → ∃ x', h' !! i = Some x' ∧ R x x'.

Record extends (w w' : Engine) : Prop := {
  ext_elements : heap_le element_le (element_heap w) (element_heap w');
  ext_states : heap_le state_le (state_heap w) (state_heap w');
  ext_modifiers : heap_le modifier_le (modifier_heap w) (modifier_heap w');
  ext_registry :
    obj_le (elementsContainer_elements w) (elementsContainer_elements w');
  ext_handlers : change_handlers w `prefix_of` change_handlers w';
  (** and the key resolver is the same *)
  ext_key : getElementKey w' = getElementKey w;
}.

(** A State, a Modifier that is bound to an element. *)
Definition attached_state (w : Engine) (s : StateId) : Prop :=
  ∃ S, state_heap w !! s = Some S ∧ is_Some (st_element S).

Definition attached_modifier (w : Engine) (m : ModId) : Prop :=
  ∃ M, modifier_heap w !! m = Some M ∧ is_Some (md_element M).

(** The State, the Modifier that element [e] has under [key]. *)
Definition state_of (w : Engine) (e : ElemId) (key : string) : option StateId :=
  E ← element_heap w !! e; own_get key (el_states E).

Definition modifier_of (w : Engine) (e : ElemId) (key : string) : option ModId :=
  E ← element_heap w !! e; own_get key (el_modifiers E).

(** The subscribers of a State, the subscriptions of a Modifier; empty for a
    reference outside the heap. *)
Definition subscribers (w : Engine) (s : StateId) : list ModId :=
  default [] (st_modifiers <$> state_heap w !! s).

Definition subscriptions (w : Engine) (m : ModId) : list StateId :=
  default [] (md_states <$> modifier_heap w !! m).

(** Every State and Modifier has a callback. *)
Definition callbacks_ok (w : Engine) : Prop :=
  Forall (λ S, is_Some (st_callback S)) (state_heap w) ∧
  Forall (λ M, is_Some (md_callback M)) (modifier_heap w).

(** No template was installed as the prototype of a container. *)
Definition plain (w : Engine) : Prop :=
  tpl_proto (statesContainer_states w) = None ∧
  tpl_proto (modifiersContainer_modifiers w) = None.

(** The stores in which every instance can be evaluated and executed, and
    stays so. *)
Definition callable (w : Engine) : Prop := callbacks_ok w ∧ plain w.

(** The invariant, relative to an earlier store. *)
Definition inv (w0 w : Engine) : Prop := wf w ∧ extends w0 w.

(** A fact about the store that growth preserves. *)
Definition stable (φ : Engine → Prop) : Prop :=
  ∀ w w', extends w w' → φ w → φ w'.

(** The specification of an operation that only grows the store: run from a
    well-formed store in which [P] holds, it leaves a well-formed extension
    of it, whether it returns or throws, and [Q] holds when it returns. *)
Definition grows {A} (P : Engine → Prop) (m : run Engine A)
    (Q : A → Engine → Prop) : Prop :=
  ∀ w0, triple (λ w, inv w0 w ∧ P w) m (λ a w, inv w0 w ∧ Q a w) (inv w0).

(** ** Reading and writing *)

Lemma read_element_Some e E w :
  element_heap w !! e = Some E → read_element e w = (Ok E, w).
Proof. unfold read_element. by intros ->. Qed.

Lemma read_state_Some s S w :
  state_heap w !! s = Some S → read_state s w = (Ok S, w).
Proof. unfold read_state. by intros ->. Qed.

Lemma read_modifier_Some m M w :
  modifier_heap w !! m = Some M → read_modifier m w = (Ok M, w).
Proof. unfold read_modifier. by intros ->. Qed.

Lemma bind_read_element {A} e (k : Element → run Engine A) w :
  bind (read_element e) k w =
    match element_heap w !! e with
    | Some E => k E w
    | None => (Throw Dangling, w)
    end.
Proof. unfold read_element, bind. by destruct (element_heap w !! e). Qed.

Lemma bind_read_state {A} s (k : State → run Engine A) w :
  bind (read_state s) k w =
    match state_heap w !! s with
    | Some St => k St w
    | None => (Throw Dangling, w)
    end.
Proof. unfold read_state, bind. by destruct (state_heap w !! s). Qed.

Lemma bind_read_modifier {A} m (k : Modifier → run Engine A) w :
  bind (read_modifier m) k w =
    match modifier_heap w !! m with
    | Some M => k M w
    | None => (Throw Dangling, w)
    end.
Proof. unfold read_modifier, bind. by destruct (modifier_heap w !! m). Qed.

Lemma update_element_Some e E f w :
  element_heap w !! e = Some E →
  update_element e f w = (Ok tt, set_element_heap (λ h, <[e := f E]> h) w).
Proof. intros HE. unfold update_element. by erewrite bind_Ok by by apply read_element_Some. Qed.

Lemma update_state_Some s S f w :
  state_heap w !! s = Some S →
  update_state s f w = (Ok tt, set_state_heap (λ h, <[s := f S]> h) w).
Proof. intros HS. unfold update_state. by erewrite bind_Ok by by apply read_state_Some. Qed.

Lemma update_modifier_Some m M f w :
  modifier_heap w !! m = Some M →
  update_modifier m f w = (Ok tt, set_modifier_heap (λ h, <[m := f M]> h) w).
Proof. intros HM. unfold update_modifier. by erewrite bind_Ok by by apply read_modifier_Some. Qed.

(** Updating the object that was allocated last. *)
Lemma insert_snoc {A} (l : list A) (x y : A) : <[length l := y]> (l ++ [x]) = l ++ [y].
Proof. rewrite insert_app_r_alt by done. by rewrite Nat.sub_diag. Qed.

(** ** Ownership *)

Section owned_lemmas.
Context {T : Type} (owner : T → option ElemId) (slot : Element → jsobj nat).
Implicit Types (elems : list Element) (heap : list T).

Lemma owned_nil : owned owner slot [] [].
Proof. split; intros *; by rewrite ?lookup_nil. Qed.

(** A fresh object that names no element. *)
Lemma owned_alloc elems heap x :
  owned owner slot elems heap → owner x = None →
  owned owner slot elems (heap ++ [x]).
Proof.
  intros [Ho Hb Hf Hk Hn] Hx. split; [done| |intros i y e|done..].
  - intros e E k i HE Hi. destruct (Hb e E k i HE Hi) as (y & ? & ?).
    exists y. split; [by apply lookup_app_l_Some|done].
  - rewrite lookup_snoc_Some. intros [[_ Hy]|[_ <-]] He; [eauto|congruence].
Qed.

(** A fresh element whose slot is empty. *)
Lemma owned_alloc_element elems heap E :
  owned owner slot elems heap → slot E = [] →
  owned owner slot (elems ++ [E]) heap.
Proof.
  intros [Ho Hb Hf Hk Hn] HE.
  split; intros *; rewrite ?lookup_snoc_Some.
  - intros [[_ ?]|[_ <-]]; [eauto|]. rewrite HE. apply obj_wf_empty.
  - intros [[_ ?]|[_ <-]]; [eauto|]. by rewrite HE.
  - intros Hi He. destruct (Hf _ _ _ Hi He) as (E' & k & ? & ?).
    exists E', k. split; [by apply lookup_app_l_Some|done].
  - intros [[_ ?]|[_ <-]]; [eauto|]. by rewrite HE.
  - intros [[_ ?]|[_ <-]]; [eauto|]. by rewrite HE.
Qed.

(** A fresh object bound to element [e], stored under a key of [e] that was
    free. *)
Lemma owned_alloc_attached elems heap e E E' k x :
  owned owner slot elems heap →
  elems !! e = Some E → obj_get k (slot E) = Undefined →
  owner x = Some e → slot E' = obj_set k (length heap) (slot E) →
  owned owner slot (<[e := E']> elems) (heap ++ [x]).
Proof.
  intros [Ho Hb Hf Hk Hn] HE [Hfree Hinh]%obj_get_Undefined Hx HE'.
  assert (k ≠ "__proto__") as Hp by (by intros ->).
  assert (∀ k' i, own_get k' (slot E') = Some i →
            k' = k ∧ i = length heap ∨ k' ≠ k ∧ own_get k' (slot E) = Some i) as Hget.
  { intros k' i. rewrite HE'. unfold obj_set. rewrite decide_False by done.
    rewrite own_get_put. case_decide; naive_solver. }
  assert (∀ k' i, own_get k' (slot E) = Some i → i < length heap) as Hlt.
  { intros k' i Hi. destruct (Hb _ _ _ _ HE Hi) as (? & ?%lookup_lt_Some & _). done. }
  split.
  - intros e' E1 [(-> & <- & _)|[_ ?]]%list_lookup_insert_Some; [|eauto].
    rewrite HE'. apply obj_set_wf; eauto.
  - intros e' E1 k' i [(-> & <- & _)|[? HE1]]%list_lookup_insert_Some Hi.
    + destruct (Hget _ _ Hi) as [[-> ->]|[? Hi']].
      * exists x. split; [by apply list_lookup_middle|done].
      * destruct (Hb _ _ _ _ HE Hi') as (y & ? & ?).
        exists y. split; [by apply lookup_app_l_Some|done].
    + destruct (Hb _ _ _ _ HE1 Hi) as (y & ? & ?).
      exists y. split; [by apply lookup_app_l_Some|done].
  - intros i y e' [[_ Hy]|[-> <-]]%lookup_snoc_Some He.
    + destruct (Hf _ _ _ Hy He) as (E1 & k' & HE1 & Hi).
      destruct (decide (e' = e)) as [->|Hne].
      * exists E', k'. split; [apply list_lookup_insert_eq; by eapply lookup_lt_Some|].
        rewrite HE'. unfold obj_set. rewrite decide_False, own_get_put_ne; [congruence|..|done].
        intros <-. congruence.
      * exists E1, k'. by rewrite list_lookup_insert_ne.
    + assert (e' = e) as -> by congruence. exists E', k.
      split; [apply list_lookup_insert_eq; by eapply lookup_lt_Some|].
      rewrite HE'. unfold obj_set. by rewrite decide_False, own_get_put_eq.
  - intros e' E1 k1 k2 i [(-> & <- & _)|[? HE1]]%list_lookup_insert_Some H1 H2; [|eauto].
    destruct (Hget _ _ H1) as [[? ?]|[? H1']], (Hget _ _ H2) as [[? ?]|[? H2']];
      [congruence|apply Hlt in H2'; lia|apply Hlt in H1'; lia|eauto].
  - intros e' E1 k' i [(-> & <- & _)|[? HE1]]%list_lookup_insert_Some Hi; [|eauto].
    destruct (Hget _ _ Hi) as [[-> _]|[_ ?]]; eauto.
Qed.

(** An element is replaced by one with the same slot. *)
Lemma owned_update_element elems heap e E E' :
  owned owner slot elems heap → elems !! e = Some E → slot E' = slot E →
  owned owner slot (<[e := E']> elems) heap.
Proof.
  intros [Ho Hb Hf Hk Hn] HE HE'.
  split; intros *; rewrite ?list_lookup_insert_Some.
  - intros [(-> & <- & _)|[_ ?]]; [rewrite HE'|]; eauto.
  - intros [(-> & <- & _)|[_ ?]]; [rewrite HE'|]; eauto.
  - intros Hi He. destruct (Hf _ _ _ Hi He) as (E1 & k & HE1 & ?).
    destruct (decide (e0 = e)) as [->|Hne].
    + exists E', k. rewrite list_lookup_insert_eq by by eapply lookup_lt_Some.
      split; [done|]. rewrite HE'. congruence.
    + exists E1, k. by rewrite list_lookup_insert_ne.
  - intros [(-> & <- & _)|[_ ?]]; [rewrite HE'|]; eauto.
  - intros [(-> & <- & _)|[_ ?]]; [rewrite HE'|]; eauto.
Qed.

(** An object is replaced by one with the same owner. *)
Lemma owned_update heap elems i x x' :
  owned owner slot elems heap → heap !! i = Some x → owner x' = owner x →
  owned owner slot elems (<[i := x']> heap).
Proof.
  intros [Ho Hb Hf Hk Hn] Hx Hx'. split; [done| |intros j y e|done..].
  - intros e E k j HE Hj. destruct (Hb _ _ _ _ HE Hj) as (y & Hy & He).
    destruct (decide (j = i)) as [->|Hne].
    + exists x'. rewrite list_lookup_insert_eq by by eapply lookup_lt_Some.
      split; [done|]. congruence.
    + exists y. by rewrite list_lookup_insert_ne.
  - intros [(-> & <- & _)|[_ Hy]]%list_lookup_insert_Some He; [|eauto].
    rewrite Hx' in He. eauto.
Qed.

End owned_lemmas.

(** ** Subscriptions *)

Lemma linked_nil : linked [] [].
Proof. split; intros *; by rewrite ?lookup_nil. Qed.

(** A fresh State without subscribers. *)
Lemma linked_alloc_state states mods S :
  linked states mods → st_modifiers S = [] → linked (states ++ [S]) mods.
Proof.
  intros [Hm Hs Hc] HS. split; intros *; rewrite ?lookup_snoc_Some.
  - intros [[_ ?]|[_ <-]]; [eauto|]. rewrite HS. by intros ?%elem_of_nil.
  - intros HM Hin. destruct (Hs _ _ _ HM Hin) as (? & S' & ? & ?).
    split; [done|]. exists S'. split; [by apply lookup_app_l_Some|done].
  - intros [[_ ?]|[-> <-]] HM; [eauto|]. rewrite HS, occurrences_nil.
    symmetry. apply occurrences_zero. intros Hin.
    destruct (Hs _ _ _ HM Hin) as (_ & ? & ?%lookup_lt_Some & _). lia.
Qed.

(** A fresh Modifier without subscriptions. *)
Lemma linked_alloc_modifier states mods M :
  linked states mods → md_states M = [] → linked states (mods ++ [M]).
Proof.
  intros [Hm Hs Hc] HM. split; intros *; rewrite ?lookup_snoc_Some.
  - intros HS Hin. destruct (Hm _ _ _ HS Hin) as (? & M' & ? & ?).
    split; [done|]. exists M'. split; [by apply lookup_app_l_Some|done].
  - intros [[_ ?]|[_ <-]]; [eauto|]. rewrite HM. by intros ?%elem_of_nil.
  - intros HS [[_ ?]|[-> <-]]; [eauto|]. rewrite HM, occurrences_nil.
    apply occurrences_zero. intros Hin.
    destruct (Hm _ _ _ HS Hin) as (_ & ? & ?%lookup_lt_Some & _). lia.
Qed.

(** A State is replaced by one with the same subscribers that is attached if
    the old one was. *)
Lemma linked_update_state states mods s S S' :
  linked states mods → states !! s = Some S →
  st_modifiers S' = st_modifiers S →
  (is_Some (st_element S) → is_Some (st_element S')) →
  linked (<[s := S']> states) mods.
Proof.
  intros [Hm Hs Hc] HS Hmods Hel.
  split; intros *; rewrite ?list_lookup_insert_Some.
  - intros [(-> & <- & _)|[_ ?]]; [|eauto]. rewrite Hmods. intros Hin.
    destruct (Hm _ _ _ HS Hin) as [? ?]. auto.
  - intros HM Hin. destruct (Hs _ _ _ HM Hin) as (? & S1 & HS1 & ?).
    split; [done|]. destruct (decide (s0 = s)) as [->|Hne].
    + exists S'. rewrite list_lookup_insert_eq by by eapply lookup_lt_Some.
      split; [done|]. apply Hel. congruence.
    + exists S1. by rewrite list_lookup_insert_ne.
  - intros [(-> & <- & _)|[_ ?]]; [rewrite Hmods|]; eauto.
Qed.

Lemma linked_update_modifier states mods m M M' :
  linked states mods → mods !! m = Some M →
  md_states M' = md_states M →
  (is_Some (md_element M) → is_Some (md_element M')) →
  linked states (<[m := M']> mods).
Proof.
  intros [Hm Hs Hc] HM Hsts Hel.
  split; intros *; rewrite ?list_lookup_insert_Some.
  - intros HS Hin. destruct (Hm _ _ _ HS Hin) as (? & M1 & HM1 & ?).
    split; [done|]. destruct (decide (m0 = m)) as [->|Hne].
    + exists M'. rewrite list_lookup_insert_eq by by eapply lookup_lt_Some.
      split; [done|]. apply Hel. congruence.
    + exists M1. by rewrite list_lookup_insert_ne.
  - intros [(-> & <- & _)|[_ ?]]; [|eauto]. rewrite Hsts. intros Hin.
    destruct (Hs _ _ _ HM Hin) as [? ?]. auto.
  - intros HS [(-> & <- & _)|[_ ?]]; [rewrite Hsts|]; eauto.
Qed.

(** The subscription of an attached Modifier [m] to an attached State [s]:
    one more entry on both sides. *)
Lemma linked_subscribe states mods s S m M S' M' :
  linked states mods → states !! s = Some S → mods !! m = Some M →
  is_Some (st_element S) → is_Some (md_element M) →
  st_element S' = st_element S → st_modifiers S' = st_modifiers S ++ [m] →
  md_element M' = md_element M → md_states M' = md_states M ++ [s] →
  linked (<[s := S']> states) (<[m := M']> mods).
Proof.
  intros [Hm Hs Hc] HS HM HSe HMe HS'e HS'm HM'e HM's.
  assert (∀ s1 S1, <[s:=S']> states !! s1 = Some S1 →
    ∃ S0, states !! s1 = Some S0 ∧ st_element S1 = st_element S0 ∧
      st_modifiers S1 = st_modifiers S0 ++ (if decide (s1 = s) then [m] else [])) as Hst.
  { intros s1 S1 [(-> & <- & _)|[? ?]]%list_lookup_insert_Some.
    - exists S. by rewrite decide_True.
    - exists S1. by rewrite decide_False, app_nil_r. }
  assert (∀ m1 M1, <[m:=M']> mods !! m1 = Some M1 →
    ∃ M0, mods !! m1 = Some M0 ∧ md_element M1 = md_element M0 ∧
      md_states M1 = md_states M0 ++ (if decide (m1 = m) then [s] else [])) as Hmd.
  { intros m1 M1 [(-> & <- & _)|[? ?]]%list_lookup_insert_Some.
    - exists M. by rewrite decide_True.
    - exists M1. by rewrite decide_False, app_nil_r. }
  assert (∀ s1 S0, states !! s1 = Some S0 → is_Some (st_element S0) →
    ∃ S1, <[s:=S']> states !! s1 = Some S1 ∧ is_Some (st_element S1)) as Hst'.
  { intros s1 S0 HS0 ?. destruct (decide (s1 = s)) as [->|].
    - exists S'. rewrite list_lookup_insert_eq by by eapply lookup_lt_Some.
      split; [done|]. by rewrite HS'e.
    - exists S0. by rewrite list_lookup_insert_ne. }
  assert (∀ m1 M0, mods !! m1 = Some M0 → is_Some (md_element M0) →
    ∃ M1, <[m:=M']> mods !! m1 = Some M1 ∧ is_Some (md_element M1)) as Hmd'.
  { intros m1 M0 HM0 ?. destruct (decide (m1 = m)) as [->|].
    - exists M'. rewrite list_lookup_insert_eq by by eapply lookup_lt_Some.
      split; [done|]. by rewrite HM'e.
    - exists M0. by rewrite list_lookup_insert_ne. }
  split.
  - intros s1 S1 m1 (S0 & HS0 & -> & ->)%Hst [Hin|Hin]%elem_of_app.
    + destruct (Hm _ _ _ HS0 Hin) as (? & ? & ? & ?). eauto.
    + case_decide; [|by apply elem_of_nil in Hin].
      apply list_elem_of_singleton in Hin. simplify_eq. eauto.
  - intros m1 M1 s1 (M0 & HM0 & -> & ->)%Hmd [Hin|Hin]%elem_of_app.
    + destruct (Hs _ _ _ HM0 Hin) as (? & ? & ? & ?). eauto.
    + case_decide; [|by apply elem_of_nil in Hin].
      apply list_elem_of_singleton in Hin. simplify_eq. eauto.
  - intros s1 S1 m1 M1 (S0 & HS0 & _ & ->)%Hst (M0 & HM0 & _ & ->)%Hmd.
    rewrite !occurrences_app, (Hc _ _ _ _ HS0 HM0). f_equal.
    repeat case_decide; rewrite ?occurrences_cons, ?occurrences_nil;
      repeat case_decide; try congruence; lia.
Qed.

(** ** Templates *)

Section templates_lemmas.
Context {T : Type} (owner : T → option ElemId).
Implicit Types (c : Templates) (heap : list T).

Lemma templates_ok_empty heap : templates_ok owner (mkTemplates empty_obj None) heap.
Proof. split; [apply obj_wf_empty|done..]. Qed.

Lemma templates_ok_alloc c heap x :
  templates_ok owner c heap → templates_ok owner c (heap ++ [x]).
Proof.
  intros [Ho Hown Hproto]. split; [done|..].
  - intros k t Ht. destruct (Hown _ _ Ht) as (y & ? & ?).
    exists y. split; [by apply lookup_app_l_Some|done].
  - intros t Ht. destruct (Hproto _ Ht) as (y & ? & ?).
    exists y. split; [by apply lookup_app_l_Some|done].
Qed.

(** An object is replaced by one that is unattached if the old one was. *)
Lemma templates_ok_update c heap i x x' :
  templates_ok owner c heap → heap !! i = Some x →
  (owner x = None → owner x' = None) →
  templates_ok owner c (<[i := x']> heap).
Proof.
  intros [Ho Hown Hproto] Hx Hx'.
  assert (∀ t y, heap !! t = Some y → owner y = None →
            ∃ y', <[i:=x']> heap !! t = Some y' ∧ owner y' = None) as Hupd.
  { intros t y Hy ?. destruct (decide (t = i)) as [->|].
    - exists x'. rewrite list_lookup_insert_eq by by eapply lookup_lt_Some.
      split; [done|]. apply Hx'. congruence.
    - exists y. by rewrite list_lookup_insert_ne. }
  split; [done|..].
  - intros k t Ht. destruct (Hown _ _ Ht) as (y & ? & ?). eauto.
  - intros t Ht. destruct (Hproto _ Ht) as (y & ? & ?). eauto.
Qed.

End templates_lemmas.

(** ** Handlers *)

Lemma handlers_of_snoc elems E :
  handlers_of (elems ++ [E]) = handlers_of elems ++ [(el_element E, length elems)].
Proof. unfold handlers_of. rewrite imap_app. simpl. by rewrite Nat.add_0_r. Qed.

Lemma handlers_of_update elems e E E' :
  elems !! e = Some E → el_element E' = el_element E →
  handlers_of (<[e := E']> elems) = handlers_of elems.
Proof.
  intros HE HE'. unfold handlers_of. apply list_eq. intros i.
  rewrite !list_lookup_imap. destruct (decide (i = e)) as [->|].
  - rewrite list_lookup_insert_eq by by eapply lookup_lt_Some.
    rewrite HE. simpl. by rewrite HE'.
  - by rewrite list_lookup_insert_ne.
Qed.

Lemma handlers_of_lookup elems h e :
  (h, e) ∈ handlers_of elems ↔ ∃ E, elems !! e = Some E ∧ el_element E = h.
Proof.
  unfold handlers_of. rewrite elem_of_lookup_imap. split.
  - intros (i & E & [= -> ->] & ?). eauto.
  - intros (E & ? & <-). eauto.
Qed.

(** ** The empty store *)

Lemma wf_empty_engine kf : wf (empty_engine kf).
Proof.
  split; simpl;
    auto using obj_wf_empty, owned_nil, linked_nil, templates_ok_empty.
  done.
Qed.

(** ** Growth *)

Lemma obj_le_refl {V} (o : jsobj V) : obj_le o o.
Proof. by intros ??. Qed.

Lemma obj_le_trans {V} (o1 o2 o3 : jsobj V) : obj_le o1 o2 → obj_le o2 o3 → obj_le o1 o3.
Proof. unfold obj_le. eauto. Qed.

(** A write under a key that had no own property keeps the others. *)
Lemma obj_le_set {V} k (v : V) (o : jsobj V) :
  own_get k o = None → obj_le o (obj_set k v o).
Proof.
  intros Hk k' v' Hk'. unfold obj_set. case_decide; [done|].
  rewrite own_get_put_ne; [done|congruence].
Qed.

#[export] Instance element_le_preorder : PreOrder element_le.
Proof.
  split.
  - intros E. split; [done|apply obj_le_refl..].
  - intros E1 E2 E3 [] []. split; [congruence|by eapply obj_le_trans..].
Qed.

#[export] Instance state_le_preorder : PreOrder state_le.
Proof.
  split.
  - intros S. by split.
  - intros S1 S2 S3 [] []. split; [congruence|eauto|by etrans].
Qed.

#[export] Instance modifier_le_preorder : PreOrder modifier_le.
Proof.
  split.
  - intros M. by split.
  - intros M1 M2 M3 [] []. split; [congruence|eauto|by etrans].
Qed.

Section heap_le.
Context {A : Type} (R : relation A) `{!PreOrder R}.
Implicit Types (h : list A).

#[export] Instance heap_le_preorder : PreOrder (heap_le R).
Proof.
  split.
  - intros h i x ?. by exists x.
  - intros h1 h2 h3 H12 H23 i x Hx.
    destruct (H12 _ _ Hx) as (y & Hy & ?), (H23 _ _ Hy) as (z & ? & ?).
    exists z. split; [done|by etrans].
Qed.

Lemma heap_le_snoc h x : heap_le R h (h ++ [x]).
Proof. intros i y ?. exists y. split; [by apply lookup_app_l_Some|done]. Qed.

Lemma heap_le_insert h i x x' :
  h !! i = Some x → R x x' → heap_le R h (<[i := x']> h).
Proof.
  intros Hx HR j y Hy. destruct (decide (j = i)) as [->|].
  - exists x'. rewrite list_lookup_insert_eq by by eapply lookup_lt_Some.
    split; [done|]. congruence.
  - exists y. by rewrite list_lookup_insert_ne.
Qed.

End heap_le.

#[export] Instance extends_preorder : PreOrder extends.
Proof.
  split.
  - intros w. split; try reflexivity. apply obj_le_refl.
  - intros w1 w2 w3 [] []. split; try (by etrans); by eapply obj_le_trans.
Qed.

Lemma inv_refl w : wf w → inv w w.
Proof. by split. Qed.

Lemma inv_step w0 w w' : inv w0 w → wf w' → extends w w' → inv w0 w'.
Proof. intros [_ ?] ??. split; [done|by etrans]. Qed.

(** ** Facts that growth preserves *)

Lemma extends_valid_element w w' e :
  extends w w' → is_Some (element_heap w !! e) → is_Some (element_heap w' !! e).
Proof. intros [He _ _ _ _ _] [E HE]. destruct (He _ _ HE) as (E' & ? & _). eauto. Qed.

Lemma extends_attached_state w w' s :
  extends w w' → attached_state w s → attached_state w' s.
Proof.
  intros [_ Hs _ _ _ _] (S & HS & [e He]). destruct (Hs _ _ HS) as (S' & ? & [_ Hel _]).
  exists S'. split; [done|]. exists e. auto.
Qed.

Lemma extends_attached_modifier w w' m :
  extends w w' → attached_modifier w m → attached_modifier w' m.
Proof.
  intros [_ _ Hm _ _ _] (M & HM & [e He]). destruct (Hm _ _ HM) as (M' & ? & [_ Hel _]).
  exists M'. split; [done|]. exists e. auto.
Qed.

Lemma extends_state_of w w' e k s :
  extends w w' → state_of w e k = Some s → state_of w' e k = Some s.
Proof.
  intros [He _ _ _ _ _]. unfold state_of. intros (E & HE & Hk)%bind_Some.
  destruct (He _ _ HE) as (E' & -> & [_ Hst _]). simpl. auto.
Qed.

Lemma extends_modifier_of w w' e k m :
  extends w w' → modifier_of w e k = Some m → modifier_of w' e k = Some m.
Proof.
  intros [He _ _ _ _ _]. unfold modifier_of. intros (E & HE & Hk)%bind_Some.
  destruct (He _ _ HE) as (E' & -> & [_ _ Hmd]). simpl. auto.
Qed.

Lemma extends_subscribers w w' s :
  extends w w' → subscribers w s `prefix_of` subscribers w' s.
Proof.
  intros [_ Hs _ _ _ _]. unfold subscribers.
  destruct (state_heap w !! s) as [S|] eqn:HS; [|apply prefix_nil].
  destruct (Hs _ _ HS) as (S' & -> & [_ _ ?]). done.
Qed.

Lemma extends_subscriptions w w' m :
  extends w w' → subscriptions w m `prefix_of` subscriptions w' m.
Proof.
  intros [_ _ Hm _ _ _]. unfold subscriptions.
  destruct (modifier_heap w !! m) as [M|] eqn:HM; [|apply prefix_nil].
  destruct (Hm _ _ HM) as (M' & -> & [_ _ ?]). done.
Qed.

(** ** What the invariant gives *)

Lemma wf_state_of w e k s :
  wf w → state_of w e k = Some s →
  ∃ S, state_heap w !! s = Some S ∧ st_element S = Some e.
Proof.
  intros Hwf (E & HE & Hk)%bind_Some. eapply owned_back; [apply Hwf|done..].
Qed.

Lemma wf_modifier_of w e k m :
  wf w → modifier_of w e k = Some m →
  ∃ M, modifier_heap w !! m = Some M ∧ md_element M = Some e.
Proof.
  intros Hwf (E & HE & Hk)%bind_Some. eapply owned_back; [apply Hwf|done..].
Qed.

Lemma wf_state_of_attached w e k s :
  wf w → state_of w e k = Some s → attached_state w s.
Proof. intros Hwf Hs. destruct (wf_state_of _ _ _ _ Hwf Hs) as (S & ? & ?). exists S. eauto. Qed.

Lemma wf_modifier_of_attached w e k m :
  wf w → modifier_of w e k = Some m → attached_modifier w m.
Proof. intros Hwf Hm. destruct (wf_modifier_of _ _ _ _ Hwf Hm) as (M & ? & ?). exists M. eauto. Qed.

Lemma wf_subscriptions_attached w m s :
  wf w → s ∈ subscriptions w m → attached_state w s.
Proof.
  intros Hwf. unfold subscriptions.
  destruct (modifier_heap w !! m) as [M|] eqn:HM; [|by intros ?%elem_of_nil].
  intros Hin. by destruct (linked_state _ _ (wf_linked _ Hwf) _ _ _ HM Hin) as [_ ?].
Qed.

Lemma wf_subscribers_attached w s m :
  wf w → m ∈ subscribers w s → attached_modifier w m.
Proof.
  intros Hwf. unfold subscribers.
  destruct (state_heap w !! s) as [S|] eqn:HS; [|by intros ?%elem_of_nil].
  intros Hin. by destruct (linked_modifier _ _ (wf_linked _ Hwf) _ _ _ HS Hin) as [_ ?].
Qed.

(** The two sides of the subscriptions agree. *)
Lemma wf_edges w s m :
  wf w → occurrences m (subscribers w s) = occurrences s (subscriptions w m).
Proof.
  intros Hwf. unfold subscribers, subscriptions.
  destruct (state_heap w !! s) as [S|] eqn:HS, (modifier_heap w !! m) as [M|] eqn:HM; simpl.
  - by eapply linked_count; [apply Hwf|..].
  - rewrite occurrences_nil. apply occurrences_zero. intros Hin.
    destruct (linked_modifier _ _ (wf_linked _ Hwf) _ _ _ HS Hin) as (_ & ? & ? & _).
    congruence.
  - rewrite occurrences_nil. symmetry. apply occurrences_zero. intros Hin.
    destruct (linked_state _ _ (wf_linked _ Hwf) _ _ _ HM Hin) as (_ & ? & ? & _).
    congruence.
  - done.
Qed.

(** ** Callbacks *)

(** No operation changes the callback of an object, and the containers are
    written by [add] only. *)
Lemma callable_update_state s f :
  (∀ S, st_callback (f S) = st_callback S) →
  triple callable (update_state s f) (λ _, callable) callable.
Proof.
  intros Hf w [[Hs Hm] Hp]. unfold update_state. rewrite bind_read_state.
  destruct (state_heap w !! s) as [S|] eqn:HS; [|done]. simpl.
  split; [split; [|done]|done]. simpl. apply Forall_insert; [done|].
  rewrite Hf. apply (Forall_lookup_1 _ _ _ _ Hs HS).
Qed.

Lemma callable_update_modifier m f :
  (∀ M, md_callback (f M) = md_callback M) →
  triple callable (update_modifier m f) (λ _, callable) callable.
Proof.
  intros Hf w [[Hs Hm] Hp]. unfold update_modifier. rewrite bind_read_modifier.
  destruct (modifier_heap w !! m) as [M|] eqn:HM; [|done]. simpl.
  split; [split; [done|]|done]. simpl. apply Forall_insert; [done|].
  rewrite Hf. apply (Forall_lookup_1 _ _ _ _ Hm HM).
Qed.

Lemma callable_update_element e f :
  triple callable (update_element e f) (λ _, callable) callable.
Proof.
  intros w Hw. unfold update_element. rewrite bind_read_element.
  by destruct (element_heap w !! e).
Qed.

Lemma callable_new_State callback :
  is_Some callback → triple callable (new_State callback) (λ _, callable) callable.
Proof.
  intros Hcb w [[Hs Hm] Hp]. split; [split; [|done]|done]. simpl.
  apply Forall_app. split; [done|]. by apply Forall_singleton.
Qed.

Lemma callable_new_Modifier callback :
  is_Some callback → triple callable (new_Modifier callback) (λ _, callable) callable.
Proof.
  intros Hcb w [[Hs Hm] Hp]. split; [split; [done|]|done]. simpl.
  apply Forall_app. split; [done|]. by apply Forall_singleton.
Qed.

(** ** Operations that grow the store *)

Lemma grows_intro {A} P (m : run Engine A) Q :
  (∀ w, wf w → P w →
     wf (m w).2 ∧ extends w (m w).2 ∧ ∀ a, (m w).1 = Ok a → Q a (m w).2) →
  grows P m Q.
Proof.
  intros Hm w0 w [Hinv HP]. destruct (Hm w (proj1 Hinv) HP) as (? & ? & HQ).
  destruct (m w) as [[a| |] w']; simpl in *; eauto using inv_step.
Qed.

Lemma grows_elim {A} P (m : run Engine A) Q w :
  grows P m Q → wf w → P w →
  wf (m w).2 ∧ extends w (m w).2 ∧ ∀ a, (m w).1 = Ok a → Q a (m w).2.
Proof.
  intros Hm Hwf HP. specialize (Hm w w (conj (inv_refl w Hwf) HP)).
  destruct (m w) as [[a| |] w']; simpl; unfold inv in Hm; naive_solver.
Qed.

(** The store an operation leaves, whatever its outcome, is well-formed. *)
Lemma grows_wf {A} P (m : run Engine A) Q w r w' :
  grows P m Q → wf w → P w → m w = (r, w') → wf w'.
Proof.
  intros Hm Hwf HP Hr. destruct (grows_elim _ _ _ w Hm Hwf HP) as [? _]. by rewrite Hr in *.
Qed.

Lemma grows_ret {A} (P : Engine → Prop) (a : A) (Q : A → Engine → Prop) :
  (∀ w, P w → Q a w) → grows P (ret a) Q.
Proof. intros HQ w0. apply triple_ret. naive_solver. Qed.

Lemma grows_throw {A} (P : Engine → Prop) e (Q : A → Engine → Prop) :
  grows P (throw e) Q.
Proof. intros w0. apply triple_throw. naive_solver. Qed.

Lemma grows_bind {A B} P (m : run Engine A) (k : A → run Engine B) Q' Q :
  grows P m Q' → (∀ a, grows (Q' a) (k a) Q) → grows P (bind m k) Q.
Proof. intros Hm Hk w0. eapply triple_bind; [apply Hm|]. intros a. apply Hk. Qed.

Lemma grows_conseq {A} (P P' : Engine → Prop) (m : run Engine A)
    (Q Q' : A → Engine → Prop) :
  grows P' m Q' → (∀ w, wf w → P w → P' w) → (∀ a w, wf w → Q' a w → Q a w) →
  grows P m Q.
Proof.
  intros Hm HP HQ w0. eapply triple_conseq; [apply Hm|..]; unfold inv; naive_solver.
Qed.

Lemma grows_assume {A} (φ : Prop) P (m : run Engine A) Q :
  (φ → grows P m Q) → grows (λ w, φ ∧ P w) m Q.
Proof. intros Hm w0 w (Hinv & Hφ & HP). by apply Hm. Qed.

(** A stable fact can be carried across an operation. *)
Lemma grows_frame {A} φ P (m : run Engine A) Q :
  stable φ → grows P m Q → grows (λ w, P w ∧ φ w) m (λ a w, Q a w ∧ φ w).
Proof.
  intros Hφ Hm. apply grows_intro. intros w Hwf [HP Hw].
  destruct (grows_elim _ _ _ w Hm Hwf HP) as (? & ? & HQ). naive_solver.
Qed.

(** Sequencing, with the stable facts [φ] carried across the first
    computation. *)
Lemma grows_bind_frame {A B} φ P P' (m : run Engine A) (k : A → run Engine B) Q' Q :
  stable φ → grows P' m Q' → (∀ w, wf w → P w → P' w ∧ φ w) →
  (∀ a, grows (λ w, Q' a w ∧ φ w) (k a) Q) → grows P (bind m k) Q.
Proof.
  intros Hφ Hm HP Hk. eapply grows_bind; [|apply Hk].
  eapply grows_conseq; [by apply (grows_frame φ)|done|done].
Qed.

(** An operation that either returns, from a store that is a well-formed
    extension, or throws before it wrote anything. *)
Lemma grows_cases {A} (P : Engine → Prop) (m : run Engine A) (Q : A → Engine → Prop) :
  (∀ w, wf w → P w →
     (∃ a w', m w = (Ok a, w') ∧ wf w' ∧ extends w w' ∧ Q a w') ∨
     (∃ err, m w = (Throw err, w))) →
  grows P m Q.
Proof.
  intros Hm. apply grows_intro. intros w Hwf HP.
  destruct (Hm w Hwf HP) as [(a & w' & -> & ? & ? & ?)|[err ->]]; simpl.
  - naive_solver.
  - done.
Qed.

(** A computation that reads the store and writes nothing. *)
Lemma grows_read {A} (P : Engine → Prop) (m : run Engine A) (Q : A → Engine → Prop) :
  (∀ w, wf w → P w → (m w).2 = w ∧ ∀ a, (m w).1 = Ok a → Q a w) → grows P m Q.
Proof.
  intros Hm. apply grows_intro. intros w Hwf HP.
  destruct (Hm w Hwf HP) as [-> HQ]. done.
Qed.

Lemma grows_for_each {A} (I : Engine → Prop) (f : A → run Engine unit) l :
  (∀ x, x ∈ l → grows I (f x) (λ _, I)) → grows I (for_each f l) (λ _, I).
Proof. intros Hf w0. apply triple_for_each. intros x Hx. by apply Hf. Qed.

(** A loop in which the step for [x] establishes the stable fact [D x]
    establishes it for every entry. *)
Lemma grows_for_each_post {A} (I : Engine → Prop) (D : A → Engine → Prop)
    (f : A → run Engine unit) l :
  (∀ x, stable (D x)) →
  (∀ x, x ∈ l → grows I (f x) (λ _ w, I w ∧ D x w)) →
  grows I (for_each f l) (λ _ w, I w ∧ ∀ x, x ∈ l → D x w).
Proof.
  intros HD. induction l as [|x l IH]; intros Hf.
  { apply grows_ret. intros w ?. split; [done|]. by intros x ?%elem_of_nil. }
  eapply grows_bind; [apply Hf; left|]. intros ?.
  eapply grows_conseq;
    [apply (grows_frame (D x)), IH; [done|]; intros; apply Hf; by right|done|].
  intros ? w _ [[? Hl] ?]. split; [done|]. intros y [->|?]%elem_of_cons; auto.
Qed.

Lemma stable_and φ ψ : stable φ → stable ψ → stable (λ w, φ w ∧ ψ w).
Proof. unfold stable. naive_solver. Qed.

Lemma stable_const (φ : Prop) : stable (λ _, φ).
Proof. by intros w w' _. Qed.

Lemma stable_exist {X} (φ : X → Engine → Prop) :
  (∀ x, stable (φ x)) → stable (λ w, ∃ x, φ x w).
Proof. unfold stable. naive_solver. Qed.

Lemma stable_forall {X} (φ : X → Engine → Prop) :
  (∀ x, stable (φ x)) → stable (λ w, ∀ x, φ x w).
Proof. unfold stable. naive_solver. Qed.

Lemma stable_impl (ψ : Prop) φ : stable φ → stable (λ w, ψ → φ w).
Proof. unfold stable. naive_solver. Qed.

Lemma stable_valid_element e : stable (λ w, is_Some (element_heap w !! e)).
Proof. intros w w'. apply extends_valid_element. Qed.

Lemma stable_attached_state s : stable (λ w, attached_state w s).
Proof. intros w w'. apply extends_attached_state. Qed.

Lemma stable_attached_modifier m : stable (λ w, attached_modifier w m).
Proof. intros w w'. apply extends_attached_modifier. Qed.

Lemma stable_state_of e k s : stable (λ w, state_of w e k = Some s).
Proof. intros w w'. apply extends_state_of. Qed.

Lemma stable_modifier_of e k m : stable (λ w, modifier_of w e k = Some m).
Proof. intros w w'. apply extends_modifier_of. Qed.

Lemma stable_subscriber s m : stable (λ w, m ∈ subscribers w s).
Proof. intros w w' Hext ?. eapply elem_of_prefix; [done|by apply extends_subscribers]. Qed.

Lemma stable_subscription m s : stable (λ w, s ∈ subscriptions w m).
Proof. intros w w' Hext ?. eapply elem_of_prefix; [done|by apply extends_subscriptions]. Qed.

Lemma stable_registered ref dom e :
  stable (λ w, own_get (getElementKey w ref dom) (elementsContainer_elements w) = Some e).
Proof. intros w w' Hext He. rewrite (ext_key _ _ Hext). by apply (ext_registry _ _ Hext). Qed.

End objects.

#[export] Hint Resolve stable_valid_element
  stable_attached_state stable_attached_modifier stable_state_of
  stable_modifier_of stable_subscriber stable_subscription
  stable_registered : fdeps.

(** Stability of a fact built from the stable facts of the database
    [fdeps] with the connectives. *)
Ltac solve_stable :=
  repeat first
    [ solve [eauto with fdeps]
    | apply stable_const | apply stable_and | apply stable_impl
    | (apply stable_exist; intros ?) | (apply stable_forall; intros ?) ].
