(* ===== verification/Fixture.v ===== *)
(** * Fixture: a concrete host for the examples

    A page is a list of nodes; a host reference is the position of a node.
    A node has an optional [id] attribute and three fields the example
    callbacks use: a checkbox state, a visibility flag and a counter.  The
    examples of the development instantiate the engine with this host. *)

From stdpp Require Import base option list strings numbers pretty.
From S2P Require Import Prelude JsObject Heap.

Open Scope string_scope.
Open Scope list_scope.

Record node : Type := mkNode {
  node_id : option string;
  node_checked : bool;
  node_visible : bool;
  node_count : nat;
}.

#[export] Instance page_host : Host := {|
  HostRef := nat;
  Dom := list node;
  attr_id ref dom := dom !! ref ≫= node_id;
|}.

(** A page of [n] hidden, unchecked nodes with ids [f0], [f1], ... *)
Definition field_name (i : nat) : string := "f" +:+ pretty i.

Definition fresh_page (n : nat) : list node :=
  (λ i, mkNode (Some (field_name i)) false false 0) <$> seq 0 n.

(** Example predicates. *)
Definition checked : Predicate :=
  λ ref dom, default false (node_checked <$> dom !! ref).

Definition visible : Predicate :=
  λ ref dom, default false (node_visible <$> dom !! ref).

Definition always : Predicate := λ _ _, true.

(** Example mutations. *)
Definition show : Mutation :=
  λ ref dom,
    alter (λ n, mkNode (node_id n) (node_checked n) true (node_count n)) ref dom.

Definition hide : Mutation :=
  λ ref dom,
    alter (λ n, mkNode (node_id n) (node_checked n) false (node_count n)) ref dom.

Definition check : Mutation :=
  λ ref dom,
    alter (λ n, mkNode (node_id n) true (node_visible n) (node_count n)) ref dom.

Definition bump : Mutation :=
  λ ref dom,
    alter (λ n, mkNode (node_id n) (node_checked n) (node_visible n) (S (node_count n))) ref dom.

(** The user ticks or clears the checkbox of a node. *)
Definition set_checked (b : bool) (ref : nat) (dom : list node) : list node :=
  alter (λ n, mkNode (node_id n) b (node_visible n) (node_count n)) ref dom.
