(* ===== verification/Graph.v ===== *)
(** * Graph: the methods that build the dependency graph

    The methods of [Element], [State] and [Modifier] that
    [createRelationship] calls: reading and filling the [states] and
    [modifiers] objects of an element, binding an instance to its element,
    and the subscription that links a Modifier and a State in both
    directions.  A method is a computation on the store; a receiver or an
    argument that was read from an object is a [lookup], because the read may
    have produced a member of [Object.prototype] instead of an object of the
    engine. *)

From stdpp Require Import base option list strings numbers.
From S2P Require Import Prelude JsObject Heap Fixture.

Open Scope string_scope.
Open Scope list_scope.
Open Scope run_scope.

Section graph.
Context `{Host}.

(** [recv.method(...)] for a method that only the objects of the engine
    define: a member of [Object.prototype] has no such property, so the call
    applies [undefined]; [undefined] has no properties at all. *)
Definition invoke {A} (recv : lookup nat) (method : nat → run Engine A) : run Engine A :=
  match recv with
  | Own i => method i
  | Inherited => throw TypeError_not_function
  | Undefined => throw TypeError_undefined
  end.

End graph.

Module State.
Section methods.
Context `{Host}.

(** [this.element = element; return this] *)
Definition setElement (this : StateId) (element : ElemId) : run Engine StateId :=
  update_state this (λ S, mkState (Some element) (st_callback S) (st_modifiers S)) ;;
  ret this.

(** [this.modifiers.push(modifier)] *)
Definition addModifier (this : StateId) (modifier : ModId) : run Engine unit :=
  update_state this (λ S, mkState (st_element S) (st_callback S) (st_modifiers S ++ [modifier])).

End methods.
End State.

Module Modifier.
Section methods.
Context `{Host}.

(** [this.element = element; return this] *)
Definition setElement (this : ModId) (element : ElemId) : run Engine ModId :=
  update_modifier this (λ M, mkModifier (Some element) (md_callback M) (md_states M)) ;;
  ret this.

(** [state.addModifier(this); this.states.push(state)] *)
Definition subscribe (this : ModId) (state : lookup StateId) : run Engine unit :=
  s <- invoke state (λ s, State.addModifier s this ;; ret s) ;;
  update_modifier this (λ M, mkModifier (md_element M) (md_callback M) (md_states M ++ [s])).

End methods.
End Modifier.

Module Element.
Section methods.
Context `{Host}.

(** [this.states[key] = state.setElement(this)] *)
Definition attachState (this : ElemId) (key : string) (state : StateId) : run Engine unit :=
  s <- State.setElement state this ;;
  update_element this (λ E,
    mkElement (el_element E) (obj_set key s (el_states E)) (el_modifiers E)).

(** [return this.states[key]] *)
Definition getState (this : ElemId) (key : string) : run Engine (lookup StateId) :=
  E <- read_element this ;;
  ret (obj_get key (el_states E)).

(** [this.modifiers[key] = modifier.setElement(this)] *)
Definition attachModifier (this : ElemId) (key : string) (modifier : ModId) : run Engine unit :=
  m <- Modifier.setElement modifier this ;;
  update_element this (λ E,
    mkElement (el_element E) (el_states E) (obj_set key m (el_modifiers E))).

(** [return this.modifiers[key]] *)
Definition getModifier (this : ElemId) (key : string) : run Engine (lookup ModId) :=
  E <- read_element this ;;
  ret (obj_get key (el_modifiers E)).

End methods.
End Element.

(** A store on the fixture host with one element that has a State [on] and a
    Modifier [act], not yet subscribed. *)
Definition w_pair : Engine :=
  mkEngine (mkTemplates empty_obj None) (mkTemplates empty_obj None)
    (λ ref dom, default "undefined" (attr_id ref dom))
    [("f0", 0)] [mkElement 0 [("on", 0)] [("act", 0)]]
    [mkState (Some 0) (Some always) []] [mkModifier (Some 0) (Some bump) []]
    [(0, 0)].

(** ** The subscription *)

Section graph_lemmas.
Context `{Host}.
Implicit Types (w : Engine) (s : StateId) (m : ModId) (e : ElemId).

Lemma invoke_Own {A} i (method : nat → run Engine A) :
  invoke (Own i) method = method i.
Proof. done. Qed.

Lemma getState_eq e E key w :
  element_heap w !! e = Some E →
  Element.getState e key w = (Ok (obj_get key (el_states E)), w).
Proof.
  intros HE. unfold Element.getState. by erewrite bind_Ok by by apply read_element_Some.
Qed.

Lemma getModifier_eq e E key w :
  element_heap w !! e = Some E →
  Element.getModifier e key w = (Ok (obj_get key (el_modifiers E)), w).
Proof.
  intros HE. unfold Element.getModifier. by erewrite bind_Ok by by apply read_element_Some.
Qed.

Lemma addModifier_eq s S m w :
  state_heap w !! s = Some S →
  State.addModifier s m w =
    (Ok tt, set_state_heap (λ h,
       <[s := mkState (st_element S) (st_callback S) (st_modifiers S ++ [m])]> h) w).
Proof. intros. unfold State.addModifier. by erewrite update_state_Some. Qed.

(** [subscribe] on a State: the Modifier is appended to the subscribers of
    the State, then the State to the subscriptions of the Modifier. *)
Lemma subscribe_Own m M s S w :
  state_heap w !! s = Some S → modifier_heap w !! m = Some M →
  Modifier.subscribe m (Own s) w =
    (Ok tt,
     set_modifier_heap (λ h,
       <[m := mkModifier (md_element M) (md_callback M) (md_states M ++ [s])]> h)
       (set_state_heap (λ h,
          <[s := mkState (st_element S) (st_callback S) (st_modifiers S ++ [m])]> h) w)).
Proof.
  intros HS HM. unfold Modifier.subscribe. rewrite invoke_Own.
  rewrite bind_assoc. erewrite bind_Ok by by apply addModifier_eq.
  rewrite bind_ret_l. by erewrite update_modifier_Some.
Qed.

(** [subscribe] on a member of [Object.prototype]: [state.addModifier] is not
    a function, and nothing was written. *)
Lemma subscribe_Inherited m w :
  Modifier.subscribe m Inherited w = (Throw TypeError_not_function, w).
Proof. done. Qed.

Lemma subscribe_Undefined m w :
  Modifier.subscribe m Undefined w = (Throw TypeError_undefined, w).
Proof. done. Qed.

Lemma wf_subscribed w s S m M S' M' :
  wf w → state_heap w !! s = Some S → modifier_heap w !! m = Some M →
  is_Some (st_element S) → is_Some (md_element M) →
  S' = mkState (st_element S) (st_callback S) (st_modifiers S ++ [m]) →
  M' = mkModifier (md_element M) (md_callback M) (md_states M ++ [s]) →
  wf (set_modifier_heap (λ h, <[m := M']> h) (set_state_heap (λ h, <[s := S']> h) w)).
Proof.
  intros [] HS HM ?? -> ->. split; simpl; try done.
  - by eapply owned_update.
  - by eapply owned_update.
  - by eapply linked_subscribe.
  - by eapply templates_ok_update.
  - by eapply templates_ok_update.
Qed.

Lemma extends_subscribed w s S m M S' M' :
  state_heap w !! s = Some S → modifier_heap w !! m = Some M →
  S' = mkState (st_element S) (st_callback S) (st_modifiers S ++ [m]) →
  M' = mkModifier (md_element M) (md_callback M) (md_states M ++ [s]) →
  extends w (set_modifier_heap (λ h, <[m := M']> h) (set_state_heap (λ h, <[s := S']> h) w)).
Proof.
  intros HS HM -> ->. split; simpl; try reflexivity.
  - eapply (heap_le_insert _); [done|]. split; simpl; [done..|by apply prefix_app_r].
  - eapply (heap_le_insert _); [done|]. split; simpl; [done..|by apply prefix_app_r].
  - apply obj_le_refl.
Qed.

(** [subscribe] maintains the invariant, whatever it is given and whether it
    returns or throws. *)
Lemma subscribe_inv w0 m state :
  triple (λ w, inv w0 w ∧ attached_modifier w m ∧
               ∀ s, state = Own s → attached_state w s)
    (Modifier.subscribe m state) (λ _, inv w0) (inv w0).
Proof.
  intros w (Hinv & (M & HM & ?) & Hst). destruct state as [s| |]; [|done..].
  destruct (Hst s eq_refl) as (S & HS & ?).
  erewrite subscribe_Own by done.
  eapply inv_step; [done|by eapply wf_subscribed; [apply Hinv|..]|by eapply extends_subscribed].
Qed.

(** What one subscription adds. *)
Lemma subscribe_subscribers m s w w' :
  attached_modifier w m → attached_state w s →
  Modifier.subscribe m (Own s) w = (Ok tt, w') →
  ∀ s', subscribers w' s' = subscribers w s' ++ (if decide (s' = s) then [m] else []).
Proof.
  intros (M & HM & _) (S & HS & _). erewrite subscribe_Own by done.
  intros [= <-] s'. unfold subscribers. simpl. case_decide as Hs.
  - subst. rewrite list_lookup_insert_eq by by eapply lookup_lt_Some. by rewrite HS.
  - rewrite list_lookup_insert_ne by done. by rewrite app_nil_r.
Qed.

Lemma subscribe_subscriptions m s w w' :
  attached_modifier w m → attached_state w s →
  Modifier.subscribe m (Own s) w = (Ok tt, w') →
  ∀ m', subscriptions w' m' = subscriptions w m' ++ (if decide (m' = m) then [s] else []).
Proof.
  intros (M & HM & _) (S & HS & _). erewrite subscribe_Own by done.
  intros [= <-] m'. unfold subscriptions. simpl. case_decide as Hm.
  - subst. rewrite list_lookup_insert_eq by by eapply lookup_lt_Some. by rewrite HM.
  - rewrite list_lookup_insert_ne by done. by rewrite app_nil_r.
Qed.

(** ** Attachment *)

Lemma attachState_eq e E s S key w :
  element_heap w !! e = Some E → state_heap w !! s = Some S →
  Element.attachState e key s w =
    (Ok tt,
     set_element_heap (λ h,
       <[e := mkElement (el_element E) (obj_set key s (el_states E)) (el_modifiers E)]> h)
       (set_state_heap (λ h,
          <[s := mkState (Some e) (st_callback S) (st_modifiers S)]> h) w)).
Proof.
  intros HE HS. unfold Element.attachState, State.setElement.
  rewrite bind_assoc. erewrite bind_Ok by by apply update_state_Some.
  rewrite bind_ret_l. by erewrite update_element_Some.
Qed.

Lemma attachModifier_eq e E m M key w :
  element_heap w !! e = Some E → modifier_heap w !! m = Some M →
  Element.attachModifier e key m w =
    (Ok tt,
     set_element_heap (λ h,
       <[e := mkElement (el_element E) (el_states E) (obj_set key m (el_modifiers E))]> h)
       (set_modifier_heap (λ h,
          <[m := mkModifier (Some e) (md_callback M) (md_states M)]> h) w)).
Proof.
  intros HE HM. unfold Element.attachModifier, Modifier.setElement.
  rewrite bind_assoc. erewrite bind_Ok by by apply update_modifier_Some.
  rewrite bind_ret_l. by erewrite update_element_Some.
Qed.

(** A State that was just built is attached to [e] under a key for which [e]
    had no value: the store is the one in which the State was built bound to
    [e]. *)
Lemma new_attachState_eq e E key callback w :
  element_heap w !! e = Some E →
  (s <- new_State callback ;; Element.attachState e key s) w =
    (Ok tt,
     set_element_heap (λ h,
       <[e := mkElement (el_element E)
                (obj_set key (length (state_heap w)) (el_states E)) (el_modifiers E)]> h)
       (set_state_heap (λ h, h ++ [mkState (Some e) callback []]) w)).
Proof.
  intros HE. unfold new_State, alloc_state, bind at 1.
  erewrite attachState_eq; [|done|by apply list_lookup_middle].
  simpl. unfold set_element_heap, set_state_heap. simpl. by rewrite insert_snoc.
Qed.

Lemma new_attachModifier_eq e E key callback w :
  element_heap w !! e = Some E →
  (m <- new_Modifier callback ;; Element.attachModifier e key m) w =
    (Ok tt,
     set_element_heap (λ h,
       <[e := mkElement (el_element E) (el_states E)
                (obj_set key (length (modifier_heap w)) (el_modifiers E))]> h)
       (set_modifier_heap (λ h, h ++ [mkModifier (Some e) callback []]) w)).
Proof.
  intros HE. unfold new_Modifier, alloc_modifier, bind at 1.
  erewrite attachModifier_eq; [|done|by apply list_lookup_middle].
  simpl. unfold set_element_heap, set_modifier_heap. simpl. by rewrite insert_snoc.
Qed.

Lemma wf_new_attached_state w e E key callback :
  wf w → element_heap w !! e = Some E → obj_get key (el_states E) = Undefined →
  wf (set_element_heap (λ h,
        <[e := mkElement (el_element E)
                 (obj_set key (length (state_heap w)) (el_states E)) (el_modifiers E)]> h)
        (set_state_heap (λ h, h ++ [mkState (Some e) callback []]) w)).
Proof.
  intros [] HE Hfree. split; simpl; try done.
  - intros k e' ?. apply insert_is_Some. eauto.
  - by eapply owned_alloc_attached.
  - by eapply owned_update_element.
  - by apply linked_alloc_state.
  - by apply templates_ok_alloc.
  - by erewrite handlers_of_update.
Qed.

Lemma wf_new_attached_modifier w e E key callback :
  wf w → element_heap w !! e = Some E → obj_get key (el_modifiers E) = Undefined →
  wf (set_element_heap (λ h,
        <[e := mkElement (el_element E) (el_states E)
                 (obj_set key (length (modifier_heap w)) (el_modifiers E))]> h)
        (set_modifier_heap (λ h, h ++ [mkModifier (Some e) callback []]) w)).
Proof.
  intros [] HE Hfree. split; simpl; try done.
  - intros k e' ?. apply insert_is_Some. eauto.
  - by eapply owned_update_element.
  - by eapply owned_alloc_attached.
  - by apply linked_alloc_modifier.
  - by apply templates_ok_alloc.
  - by erewrite handlers_of_update.
Qed.

Lemma extends_new_attached_state w e E key callback :
  element_heap w !! e = Some E → obj_get key (el_states E) = Undefined →
  extends w (set_element_heap (λ h,
        <[e := mkElement (el_element E)
                 (obj_set key (length (state_heap w)) (el_states E)) (el_modifiers E)]> h)
        (set_state_heap (λ h, h ++ [mkState (Some e) callback []]) w)).
Proof.
  intros HE [Hfree _]%obj_get_Undefined. split; simpl; try reflexivity.
  - eapply (heap_le_insert _); [done|].
    split; simpl; [done|by apply obj_le_set|apply obj_le_refl].
  - apply (heap_le_snoc _).
  - apply obj_le_refl.
Qed.

Lemma extends_new_attached_modifier w e E key callback :
  element_heap w !! e = Some E → obj_get key (el_modifiers E) = Undefined →
  extends w (set_element_heap (λ h,
        <[e := mkElement (el_element E) (el_states E)
                 (obj_set key (length (modifier_heap w)) (el_modifiers E))]> h)
        (set_modifier_heap (λ h, h ++ [mkModifier (Some e) callback []]) w)).
Proof.
  intros HE [Hfree _]%obj_get_Undefined. split; simpl; try reflexivity.
  - eapply (heap_le_insert _); [done|].
    split; simpl; [done|apply obj_le_refl|by apply obj_le_set].
  - apply (heap_le_snoc _).
  - apply obj_le_refl.
Qed.

(** ** The methods as operations that grow the store *)

(** A subscription that returns has linked the two objects, in both
    directions. *)
Lemma subscribe_grows m state :
  grows (λ w, attached_modifier w m ∧ ∀ s, state = Own s → attached_state w s)
    (Modifier.subscribe m state)
    (λ _ w, ∃ s, state = Own s ∧ m ∈ subscribers w s ∧ s ∈ subscriptions w m).
Proof.
  intros w0 w (Hinv & Hm & Hst).
  pose proof (subscribe_inv w0 m state w (conj Hinv (conj Hm Hst))) as Hi.
  destruct state as [s| |]; [|done..]. specialize (Hst s eq_refl).
  destruct (Modifier.subscribe m (Own s) w) as [[[]| |] w'] eqn:E; [|done..].
  split; [done|]. exists s. split; [done|].
  rewrite (subscribe_subscribers _ _ _ _ Hm Hst E s).
  rewrite (subscribe_subscriptions _ _ _ _ Hm Hst E m).
  rewrite !decide_True by done. rewrite !elem_of_app, !list_elem_of_singleton. auto.
Qed.

Lemma invoke_grows {A} P recv (method : nat → run Engine A) Q :
  (∀ i, recv = Own i → grows P (method i) Q) → grows P (invoke recv method) Q.
Proof. destruct recv; simpl; intros Hm; [by apply Hm|apply grows_throw..]. Qed.

(** [subModifier.subscribe(pubState)] for two values that were read from
    elements. *)
Lemma invoke_subscribe_grows subModifier pubState :
  grows (λ w, (∀ m, subModifier = Own m → attached_modifier w m) ∧
              (∀ s, pubState = Own s → attached_state w s))
    (invoke subModifier (λ m, Modifier.subscribe m pubState))
    (λ _ w, ∃ m s, subModifier = Own m ∧ pubState = Own s ∧
                   m ∈ subscribers w s ∧ s ∈ subscriptions w m).
Proof.
  apply invoke_grows. intros m ->.
  eapply grows_conseq; [apply subscribe_grows|naive_solver..].
Qed.

Lemma getState_grows e key :
  grows (λ w, is_Some (element_heap w !! e)) (Element.getState e key)
    (λ r w, ∃ E, element_heap w !! e = Some E ∧ r = obj_get key (el_states E)).
Proof.
  apply grows_read. intros w _ [E HE]. rewrite (getState_eq _ _ _ _ HE).
  split; [done|]. intros r [= <-]. eauto.
Qed.

Lemma getModifier_grows e key :
  grows (λ w, is_Some (element_heap w !! e)) (Element.getModifier e key)
    (λ r w, ∃ E, element_heap w !! e = Some E ∧ r = obj_get key (el_modifiers E)).
Proof.
  apply grows_read. intros w _ [E HE]. rewrite (getModifier_eq _ _ _ _ HE).
  split; [done|]. intros r [= <-]. eauto.
Qed.

(** What a read of [states] or [modifiers] found stays there. *)
Lemma getState_Own e key :
  grows (λ w, is_Some (element_heap w !! e)) (Element.getState e key)
    (λ r w, ∀ s, r = Own s → state_of w e key = Some s).
Proof.
  eapply grows_conseq; [apply getState_grows|done|].
  intros r w _ (E & HE & ->) s. unfold state_of. rewrite HE. simpl.
  by intros ?%obj_get_Own.
Qed.

Lemma getModifier_Own e key :
  grows (λ w, is_Some (element_heap w !! e)) (Element.getModifier e key)
    (λ r w, ∀ m, r = Own m → modifier_of w e key = Some m).
Proof.
  eapply grows_conseq; [apply getModifier_grows|done|].
  intros r w _ (E & HE & ->) m. unfold modifier_of. rewrite HE. simpl.
  by intros ?%obj_get_Own.
Qed.

(** ** Callbacks *)

Lemma callable_subscribe m state :
  triple callable (Modifier.subscribe m state) (λ _, callable) callable.
Proof.
  unfold Modifier.subscribe, State.addModifier.
  eapply triple_bind with (Q' := λ _, callable).
  - destruct state; simpl; [|by apply triple_throw..].
    eapply triple_bind; [by apply callable_update_state|]. intros ?. by apply triple_ret.
  - intros s. by apply callable_update_modifier.
Qed.

Lemma callable_attachState e key s :
  triple callable (Element.attachState e key s) (λ _, callable) callable.
Proof.
  unfold Element.attachState, State.setElement.
  eapply triple_bind with (Q' := λ _, callable); [|intros ?; apply callable_update_element].
  eapply triple_bind; [by apply callable_update_state|]. intros ?. by apply triple_ret.
Qed.

Lemma callable_attachModifier e key m :
  triple callable (Element.attachModifier e key m) (λ _, callable) callable.
Proof.
  unfold Element.attachModifier, Modifier.setElement.
  eapply triple_bind with (Q' := λ _, callable); [|intros ?; apply callable_update_element].
  eapply triple_bind; [by apply callable_update_modifier|]. intros ?. by apply triple_ret.
Qed.

(** A read that found nothing was not of a name of [Object.prototype]. *)
Lemma callable_getState e key :
  triple callable (Element.getState e key)
    (λ r w, callable w ∧ (truthy r = false → inherited key = false)) callable.
Proof.
  intros w Hw. unfold Element.getState. rewrite bind_read_element.
  destruct (element_heap w !! e); [|done]. simpl. split; [done|].
  by intros [_ ?]%truthy_false.
Qed.

Lemma callable_getModifier e key :
  triple callable (Element.getModifier e key)
    (λ r w, callable w ∧ (truthy r = false → inherited key = false)) callable.
Proof.
  intros w Hw. unfold Element.getModifier. rewrite bind_read_element.
  destruct (element_heap w !! e); [|done]. simpl. split; [done|].
  by intros [_ ?]%truthy_false.
Qed.

End graph_lemmas.

(** ** The methods, as the builder sees them *)

Section graph_properties.
Context `{Host}.
Implicit Types (w : Engine) (s : StateId) (m : ModId) (e : ElemId).

(** C10: [subscribe] returns and appends the Modifier to the subscribers of
    the State and the State to the subscriptions of the Modifier, at the end
    of both lists; no other list and no element changes. *)
Theorem subscribe_appends m s w :
  attached_modifier w m → attached_state w s →
  ∃ w', Modifier.subscribe m (Own s) w = (Ok tt, w') ∧
        (∀ s', subscribers w' s' = subscribers w s' ++ (if decide (s' = s) then [m] else [])) ∧
        (∀ m', subscriptions w' m' =
                 subscriptions w m' ++ (if decide (m' = m) then [s] else [])) ∧
        element_heap w' = element_heap w.
Proof.
  intros Hm Hs. pose proof Hm as (M & HM & _). pose proof Hs as (S & HS & _).
  eexists. split; [by apply subscribe_Own|].
  split; [|split; [|done]].
  - eapply subscribe_subscribers; [done..|by apply subscribe_Own].
  - eapply subscribe_subscriptions; [done..|by apply subscribe_Own].
Qed.

(** A new State attached to an element under a name: the element has
    the State under the name, the State has the element and no subscriber,
    and the other names of the element are as before. *)
Theorem attachState_binds e E key callback w :
  element_heap w !! e = Some E → key ≠ "__proto__" →
  ∃ w', (s <- new_State callback ;; Element.attachState e key s) w = (Ok tt, w') ∧
        state_of w' e key = Some (length (state_heap w)) ∧
        state_heap w' !! length (state_heap w) = Some (mkState (Some e) callback []) ∧
        (∀ key', key' ≠ key → state_of w' e key' = state_of w e key') ∧
        (∀ key', modifier_of w' e key' = modifier_of w e key').
Proof.
  intros HE Hkey. eexists. split; [by apply new_attachState_eq|].
  unfold state_of, modifier_of. simpl.
  rewrite list_lookup_insert_eq, HE by by eapply lookup_lt_Some. simpl.
  unfold obj_set. rewrite decide_False by done.
  split; [apply own_get_put_eq|]. split; [by apply list_lookup_middle|].
  split; [|done]. intros key' ?. by apply own_get_put_ne.
Qed.

(** The same for a Modifier. *)
Theorem attachModifier_binds e E key callback w :
  element_heap w !! e = Some E → key ≠ "__proto__" →
  ∃ w', (m <- new_Modifier callback ;; Element.attachModifier e key m) w = (Ok tt, w') ∧
        modifier_of w' e key = Some (length (modifier_heap w)) ∧
        modifier_heap w' !! length (modifier_heap w) =
          Some (mkModifier (Some e) callback []) ∧
        (∀ key', key' ≠ key → modifier_of w' e key' = modifier_of w e key') ∧
        (∀ key', state_of w' e key' = state_of w e key').
Proof.
  intros HE Hkey. eexists. split; [by apply new_attachModifier_eq|].
  unfold state_of, modifier_of. simpl.
  rewrite list_lookup_insert_eq, HE by by eapply lookup_lt_Some. simpl.
  unfold obj_set. rewrite decide_False by done.
  split; [apply own_get_put_eq|]. split; [by apply list_lookup_middle|].
  split; [|done]. intros key' ?. by apply own_get_put_ne.
Qed.

End graph_properties.

Lemma subscribe_appends_witness :
  ∃ w', Modifier.subscribe 0 (Own 0) w_pair = (Ok tt, w') ∧
        (∀ s', subscribers w' s' =
                 subscribers w_pair s' ++ (if decide (s' = 0) then [0] else [])) ∧
        (∀ m', subscriptions w' m' =
                 subscriptions w_pair m' ++ (if decide (m' = 0) then [0] else [])) ∧
        element_heap w' = element_heap w_pair.
Proof. apply subscribe_appends; eexists; (split; [reflexivity|by eexists]). Defined.

Lemma attachState_binds_witness :
  ∃ w', (s <- new_State (Some checked) ;; Element.attachState 0 "checked" s) w_pair
          = (Ok tt, w') ∧
        state_of w' 0 "checked" = Some 1 ∧
        state_heap w' !! 1 = Some (mkState (Some 0) (Some checked) []) ∧
        (∀ key', key' ≠ "checked" → state_of w' 0 key' = state_of w_pair 0 key') ∧
        (∀ key', modifier_of w' 0 key' = modifier_of w_pair 0 key').
Proof. by eapply (attachState_binds 0 _ "checked" (Some checked) w_pair). Defined.

Lemma attachModifier_binds_witness :
  ∃ w', (m <- new_Modifier (Some show) ;; Element.attachModifier 0 "show" m) w_pair
          = (Ok tt, w') ∧
        modifier_of w' 0 "show" = Some 1 ∧
        modifier_heap w' !! 1 = Some (mkModifier (Some 0) (Some show) []) ∧
        (∀ key', key' ≠ "show" → modifier_of w' 0 key' = modifier_of w_pair 0 key') ∧
        (∀ key', state_of w' 0 key' = state_of w_pair 0 key').
Proof. by eapply (attachModifier_binds 0 _ "show" (Some show) w_pair). Defined.
