(* ===== verification/Registry.v ===== *)
(** * Registry: the template containers and the element registry

    [statesContainer] and [modifiersContainer] keep one template per name and
    hand out a fresh instance with the template's callback;
    [elementsContainer] maps the key of a host reference to the one
    [Element] built for it. *)

From stdpp Require Import base option list strings numbers.
From S2P Require Import Prelude JsObject Heap Fixture Graph.

Open Scope string_scope.
Open Scope list_scope.
Open Scope run_scope.

(** What a read [container[key]] of a template container yields. *)
Inductive member : Type :=
| MObject (t : nat)   (** a template: an own property, or the prototype itself *)
| MNull               (** [null]: the [element] of the template installed as prototype *)
| MOther              (** another value that has properties: a function, an array, an object *)
| MUndefined.

(** The own properties of an object built by [new State(...)], besides
    [element] and [callback]. *)
Definition State_members : list string :=
  [ "modifiers"; "publish"; "isActive"; "setElement"; "addModifier" ].

(** The own properties of an object built by [new Modifier(...)], besides
    [element] and [callback]. *)
Definition Modifier_members : list string :=
  [ "states"; "execute"; "setElement"; "subscribe" ].

Section registry.
Context `{Host}.

(** [container[key] = template] *)
Definition container_add (key : string) (t : nat) (c : Templates) : Templates :=
  if decide (key = "__proto__") then mkTemplates (tpl_own c) (Some t)
  else mkTemplates (own_put key t (tpl_own c)) (tpl_proto c).

(** A read through the template [x] that was installed as prototype: its
    fields shadow [Object.prototype]. *)
Definition proto_read {T} (owner : T → option ElemId) (has_callback : T → bool)
    (members : list string) (key : string) (x : T) : member :=
  if decide (key = "element") then
    (if owner x is Some _ then MOther else MNull)
  else if decide (key = "callback") then
    (if has_callback x then MOther else MUndefined)
  else if bool_decide (key ∈ members) || inherited key then MOther
  else MUndefined.

(** [container[key]] *)
Definition container_read {T} (owner : T → option ElemId) (has_callback : T → bool)
    (members : list string) (heap : list T) (key : string) (c : Templates) : res member :=
  match own_get key (tpl_own c) with
  | Some t => Ok (MObject t)
  | None =>
      match tpl_proto c with
      | Some t =>
          if decide (key = "__proto__") then Ok (MObject t)
          else match heap !! t with
               | Some x => Ok (proto_read owner has_callback members key x)
               | None => Throw Dangling
               end
      | None => Ok (if inherited key then MOther else MUndefined)
      end
  end.

End registry.

Module statesContainer.
Section methods.
Context `{Host}.

(** [this.states[key] = state] *)
Definition add (key : string) (state : StateId) : run Engine unit :=
  modify (set_statesContainer_states (container_add key state)).

(** [this.states[key]] *)
Definition read (key : string) : run Engine member :=
  λ w, (container_read st_element (λ S, bool_decide (is_Some (st_callback S)))
          State_members (state_heap w) key (statesContainer_states w), w).

(** [var state = this.states[key]; return new State(state.callback)] *)
Definition get (key : string) : run Engine StateId :=
  state <- read key ;;
  callback <- match state with
              | MObject t => S <- read_state t ;; ret (st_callback S)
              | MNull => throw TypeError_null
              | MOther => ret None
              | MUndefined => throw TypeError_undefined
              end ;;
  new_State callback.

End methods.
End statesContainer.

Module modifiersContainer.
Section methods.
Context `{Host}.

(** [this.modifiers[key] = modifier] *)
Definition add (key : string) (modifier : ModId) : run Engine unit :=
  modify (set_modifiersContainer_modifiers (container_add key modifier)).

(** [this.modifiers[key]] *)
Definition read (key : string) : run Engine member :=
  λ w, (container_read md_element (λ M, bool_decide (is_Some (md_callback M)))
          Modifier_members (modifier_heap w) key (modifiersContainer_modifiers w), w).

(** [var modifier = this.modifiers[key]; return new Modifier(modifier.callback)] *)
Definition get (key : string) : run Engine ModId :=
  modifier <- read key ;;
  callback <- match modifier with
              | MObject t => M <- read_modifier t ;; ret (md_callback M)
              | MNull => throw TypeError_null
              | MOther => ret None
              | MUndefined => throw TypeError_undefined
              end ;;
  new_Modifier callback.

End methods.
End modifiersContainer.

Section elements.
Context `{Host}.

(** The resolver the module starts with: [return $element.attr('id')].  The
    result is used as a property key, so [undefined] becomes the string
    [undefined]. *)
Definition default_getElementKey : KeyFn :=
  λ ref dom, default "undefined" (attr_id ref dom).

(** The store after the module has been evaluated. *)
Definition init : Engine := empty_engine default_getElementKey.

(** [new Element($element)]: the object with empty [states] and
    [modifiers], and the change handler bound on the host reference. *)
Definition new_Element (ref : HostRef) : run Engine ElemId :=
  e <- alloc_element (mkElement ref empty_obj empty_obj) ;;
  modify (set_change_handlers (λ hs, hs ++ [(ref, e)])) ;;
  ret e.

(** The registry is unusable: an element was registered under the key
    [hasOwnProperty]. *)
Definition poisoned (w : Engine) : Prop :=
  has_own "hasOwnProperty" (elementsContainer_elements w) = true.

#[export] Instance poisoned_dec w : Decision (poisoned w).
Proof. unfold poisoned. apply _. Defined.

(** The store after [resolve] built and registered an element for [ref]
    under [key]. *)
Definition registered (ref : HostRef) (key : string) (w : Engine) : Engine :=
  set_elementsContainer_elements (obj_set key (length (element_heap w)))
    (set_change_handlers (λ hs, hs ++ [(ref, length (element_heap w))])
       (set_element_heap (λ h, h ++ [mkElement ref empty_obj empty_obj]) w)).

(** [e] is an element of the store, and the one the registry has for [ref]
    in page [dom] when the key of [ref] can be registered at all. *)
Definition resolves (w : Engine) (dom : Dom) (ref : HostRef) (e : ElemId) : Prop :=
  is_Some (element_heap w !! e) ∧
  (getElementKey w ref dom ≠ "__proto__" →
   own_get (getElementKey w ref dom) (elementsContainer_elements w) = Some e).

End elements.

Module elementsContainer.
Section methods.
Context `{Host}.

(** [var key = this.getElementKey($element);
     if (this.elements.hasOwnProperty(key)) return this.elements[key];]
    The method [hasOwnProperty] is looked up on [this.elements] itself: once
    an element is registered under that very key, the lookup finds the
    element, which is not callable. *)
Definition get (dom : Dom) (ref : HostRef) : run Engine (option ElemId) :=
  key <- gets (λ w, getElementKey w ref dom) ;;
  elements <- gets elementsContainer_elements ;;
  if has_own "hasOwnProperty" elements then throw TypeError_not_function
  else if has_own key elements then ret (own_get key elements)
  else ret None.

(** [var element = that.get($element);
     if (!element) { var key = that.getElementKey($element);
                     element = new Element($element);
                     that.elements[key] = element; }
     return element;] *)
Definition resolve (dom : Dom) (ref : HostRef) : run Engine ElemId :=
  element <- get dom ref ;;
  match element with
  | Some e => ret e
  | None =>
      key <- gets (λ w, getElementKey w ref dom) ;;
      e <- new_Element ref ;;
      modify (set_elementsContainer_elements (obj_set key e)) ;;
      ret e
  end.

End methods.
End elementsContainer.

(** ** The template containers *)

Section container_lemmas.
Context `{Host}.
Implicit Types (w : Engine) (c : Templates).

Lemma templates_ok_add {T} (owner : T → option ElemId) c (heap : list T) key t x :
  templates_ok owner c heap → heap !! t = Some x → owner x = None →
  templates_ok owner (container_add key t c) heap.
Proof.
  intros [Hwf Hown Hproto] Hx Hnone. unfold container_add.
  case_decide as Hk; split; simpl; eauto.
  - intros ? [= <-]; eauto.
  - destruct Hwf as [Hnd Hp]. split; [by apply own_put_NoDup|].
    rewrite own_put_keys. destruct (has_own key (tpl_own c)); [done|].
    rewrite elem_of_app, list_elem_of_singleton. naive_solver.
  - intros k t'. rewrite own_get_put. case_decide; [intros [= <-]|]; eauto.
Qed.

(** A name that was registered reads as its template, whatever was
    installed as prototype. *)
Lemma container_read_own {T} owner has_callback members (heap : list T) key c t :
  own_get key (tpl_own c) = Some t →
  container_read owner has_callback members heap key c = Ok (MObject t).
Proof. unfold container_read. by intros ->. Qed.

(** Without a prototype template, a name that was not registered reads as
    [undefined] unless [Object.prototype] has it. *)
Lemma container_read_missing {T} owner has_callback members (heap : list T) key c :
  own_get key (tpl_own c) = None → tpl_proto c = None →
  container_read owner has_callback members heap key c =
    Ok (if inherited key then MOther else MUndefined).
Proof. unfold container_read. by intros -> ->. Qed.

(** Registration, then a read of the same name: the template just
    registered. *)
Lemma container_read_add {T} owner has_callback members (heap : list T) key t c :
  obj_wf (tpl_own c) →
  container_read owner has_callback members heap key (container_add key t c)
  = Ok (MObject t).
Proof.
  intros Hc. unfold container_read, container_add. case_decide as Hk; simpl.
  - subst. by rewrite obj_wf_own_get_proto.
  - by rewrite own_get_put_eq.
Qed.

(** Registration under one name changes no read of another own name. *)
Lemma container_add_own_ne key key' t c :
  key ≠ key' →
  own_get key' (tpl_own (container_add key t c)) = own_get key' (tpl_own c).
Proof.
  intros. unfold container_add. case_decide; simpl; [done|by apply own_get_put_ne].
Qed.

End container_lemmas.

(** ** Instances from templates *)

Section get_lemmas.
Context `{Host}.
Implicit Types (w : Engine) (e : ElemId).

Lemma wf_alloc_state w S :
  wf w → st_element S = None → st_modifiers S = [] →
  wf (set_state_heap (λ h, h ++ [S]) w).
Proof.
  intros [] ??. split; simpl; try done.
  - by apply owned_alloc.
  - by apply linked_alloc_state.
  - by apply templates_ok_alloc.
Qed.

Lemma wf_alloc_modifier w M :
  wf w → md_element M = None → md_states M = [] →
  wf (set_modifier_heap (λ h, h ++ [M]) w).
Proof.
  intros [] ??. split; simpl; try done.
  - by apply owned_alloc.
  - by apply linked_alloc_modifier.
  - by apply templates_ok_alloc.
Qed.

Lemma extends_alloc_state w S : extends w (set_state_heap (λ h, h ++ [S]) w).
Proof.
  split; simpl; try reflexivity; [apply (heap_le_snoc _)|apply obj_le_refl].
Qed.

Lemma extends_alloc_modifier w M : extends w (set_modifier_heap (λ h, h ++ [M]) w).
Proof.
  split; simpl; try reflexivity; [apply (heap_le_snoc _)|apply obj_le_refl].
Qed.

Lemma container_read_not_Timeout {T} owner has_callback members (heap : list T) key c :
  container_read owner has_callback members heap key c ≠ Timeout.
Proof.
  unfold container_read. destruct (own_get key (tpl_own c)); [done|].
  destruct (tpl_proto c); [|done]. case_decide; [done|]. by destruct (heap !! _).
Qed.

(** [statesContainer.get] either throws and writes nothing, or builds one
    unattached State and returns the reference to it. *)
Lemma statesContainer_get_cases key w :
  (∃ callback, statesContainer.get key w =
     (Ok (length (state_heap w)),
      set_state_heap (λ h, h ++ [mkState None callback []]) w)) ∨
  (∃ err, statesContainer.get key w = (Throw err, w)).
Proof.
  unfold statesContainer.get, statesContainer.read. rewrite bind_read.
  destruct (container_read _ _ _ _ _ _) as [[t| | |]|err|] eqn:E; eauto.
  - rewrite bind_assoc, bind_read_state. destruct (state_heap w !! t); eauto.
  - by apply container_read_not_Timeout in E.
Qed.

Lemma modifiersContainer_get_cases key w :
  (∃ callback, modifiersContainer.get key w =
     (Ok (length (modifier_heap w)),
      set_modifier_heap (λ h, h ++ [mkModifier None callback []]) w)) ∨
  (∃ err, modifiersContainer.get key w = (Throw err, w)).
Proof.
  unfold modifiersContainer.get, modifiersContainer.read. rewrite bind_read.
  destruct (container_read _ _ _ _ _ _) as [[t| | |]|err|] eqn:E; eauto.
  - rewrite bind_assoc, bind_read_modifier. destruct (modifier_heap w !! t); eauto.
  - by apply container_read_not_Timeout in E.
Qed.

(** A registered name yields an instance with the callback of its template. *)
Lemma statesContainer_get_registered key t T w :
  own_get key (tpl_own (statesContainer_states w)) = Some t →
  state_heap w !! t = Some T →
  statesContainer.get key w =
    (Ok (length (state_heap w)),
     set_state_heap (λ h, h ++ [mkState None (st_callback T) []]) w).
Proof.
  intros Ht HT. unfold statesContainer.get, statesContainer.read.
  rewrite bind_read. erewrite container_read_own by done.
  by rewrite bind_assoc, bind_read_state, HT.
Qed.

Lemma modifiersContainer_get_registered key t T w :
  own_get key (tpl_own (modifiersContainer_modifiers w)) = Some t →
  modifier_heap w !! t = Some T →
  modifiersContainer.get key w =
    (Ok (length (modifier_heap w)),
     set_modifier_heap (λ h, h ++ [mkModifier None (md_callback T) []]) w).
Proof.
  intros Ht HT. unfold modifiersContainer.get, modifiersContainer.read.
  rewrite bind_read. erewrite container_read_own by done.
  by rewrite bind_assoc, bind_read_modifier, HT.
Qed.

(** A name that was never registered and that [Object.prototype] does not
    have: [state] is [undefined], and reading [state.callback] throws before
    anything is built. *)
Lemma statesContainer_get_unknown key w :
  own_get key (tpl_own (statesContainer_states w)) = None →
  tpl_proto (statesContainer_states w) = None → inherited key = false →
  statesContainer.get key w = (Throw TypeError_undefined, w).
Proof.
  intros Hk Hp Hi. unfold statesContainer.get, statesContainer.read.
  rewrite bind_read. erewrite container_read_missing by done. by rewrite Hi.
Qed.

Lemma modifiersContainer_get_unknown key w :
  own_get key (tpl_own (modifiersContainer_modifiers w)) = None →
  tpl_proto (modifiersContainer_modifiers w) = None → inherited key = false →
  modifiersContainer.get key w = (Throw TypeError_undefined, w).
Proof.
  intros Hk Hp Hi. unfold modifiersContainer.get, modifiersContainer.read.
  rewrite bind_read. erewrite container_read_missing by done. by rewrite Hi.
Qed.

(** An instance is never shared: what [get] returns is a reference
    that the store did not have, to an instance that is not attached and has
    no subscriber. *)
Theorem statesContainer_get_fresh key w s w' :
  statesContainer.get key w = (Ok s, w') →
  state_heap w !! s = None ∧
  ∃ callback, state_heap w' = state_heap w ++ [mkState None callback []] ∧
              state_heap w' !! s = Some (mkState None callback []).
Proof.
  intros Hget. destruct (statesContainer_get_cases key w) as [[cb E]|[err E]];
    rewrite E in Hget; simplify_eq.
  split; [by apply lookup_ge_None|]. exists cb. simpl.
  split; [done|by apply list_lookup_middle].
Qed.

(** With plain containers, the instance of a name that [Object.prototype]
    does not have carries the callback of a template. *)
Lemma callable_statesContainer_get key :
  inherited key = false →
  triple callable (statesContainer.get key) (λ _, callable) callable.
Proof.
  intros Hk w Hw. pose proof Hw as [[Hs _] [Hp _]].
  unfold statesContainer.get, statesContainer.read. rewrite bind_read.
  unfold container_read. destruct (own_get key _) as [t|].
  - rewrite bind_assoc, bind_read_state.
    destruct (state_heap w !! t) as [T|] eqn:HT; [|done]. rewrite bind_ret_l.
    apply callable_new_State; [apply (Forall_lookup_1 _ _ _ _ Hs HT)|done].
  - by rewrite Hp, Hk.
Qed.

Lemma callable_modifiersContainer_get key :
  inherited key = false →
  triple callable (modifiersContainer.get key) (λ _, callable) callable.
Proof.
  intros Hk w Hw. pose proof Hw as [[_ Hm] [_ Hp]].
  unfold modifiersContainer.get, modifiersContainer.read. rewrite bind_read.
  unfold container_read. destruct (own_get key _) as [t|].
  - rewrite bind_assoc, bind_read_modifier.
    destruct (modifier_heap w !! t) as [T|] eqn:HT; [|done]. rewrite bind_ret_l.
    apply callable_new_Modifier; [apply (Forall_lookup_1 _ _ _ _ Hm HT)|done].
  - by rewrite Hp, Hk.
Qed.

End get_lemmas.

(** ** The element registry *)

Section elements_lemmas.
Context `{Host}.
Implicit Types (w : Engine) (e : ElemId) (ref : HostRef) (dom : Dom).

Lemma get_eq dom ref w :
  elementsContainer.get dom ref w =
    (if has_own "hasOwnProperty" (elementsContainer_elements w)
     then Throw TypeError_not_function
     else Ok (own_get (getElementKey w ref dom) (elementsContainer_elements w)), w).
Proof.
  unfold elementsContainer.get. rewrite !bind_gets.
  destruct (has_own "hasOwnProperty" _); [done|].
  unfold has_own. by destruct (own_get _ _).
Qed.

(** The key is registered: the element registered for it, and nothing is
    written. *)
Lemma resolve_hit dom ref e w :
  ¬ poisoned w →
  own_get (getElementKey w ref dom) (elementsContainer_elements w) = Some e →
  elementsContainer.resolve dom ref w = (Ok e, w).
Proof.
  intros ?%not_true_is_false He. unfold elementsContainer.resolve.
  erewrite bind_Ok by (rewrite get_eq; by destruct (has_own _ _)). by rewrite He.
Qed.

(** The key is not registered: a new element, bound to [ref], with its
    change handler, registered under the key. *)
Lemma resolve_miss dom ref w :
  ¬ poisoned w →
  own_get (getElementKey w ref dom) (elementsContainer_elements w) = None →
  elementsContainer.resolve dom ref w =
    (Ok (length (element_heap w)), registered ref (getElementKey w ref dom) w).
Proof.
  intros ?%not_true_is_false He. unfold elementsContainer.resolve.
  erewrite bind_Ok by (rewrite get_eq; by destruct (has_own _ _)). by rewrite He.
Qed.

Lemma resolve_poisoned dom ref w :
  poisoned w → elementsContainer.resolve dom ref w = (Throw TypeError_not_function, w).
Proof.
  intros Hp. unfold elementsContainer.resolve, poisoned in *.
  erewrite bind_Throw; [done|]. by rewrite get_eq, Hp.
Qed.

Lemma wf_registered ref key w :
  wf w → own_get key (elementsContainer_elements w) = None → wf (registered ref key w).
Proof.
  intros [] Hfree. split; simpl.
  - by apply obj_set_wf.
  - intros k e. unfold obj_set. case_decide; [intros; apply snoc_is_Some; eauto|].
    rewrite own_get_put. case_decide.
    + intros [= <-]. rewrite list_lookup_middle; eauto.
    + intros; apply snoc_is_Some; eauto.
  - by apply owned_alloc_element.
  - by apply owned_alloc_element.
  - done.
  - done.
  - done.
  - rewrite handlers_of_snoc. simpl. by f_equal.
Qed.

Lemma extends_registered ref key w :
  own_get key (elementsContainer_elements w) = None → extends w (registered ref key w).
Proof.
  intros Hfree. split; simpl; try reflexivity.
  - apply (heap_le_snoc _).
  - by apply obj_le_set.
  - by apply prefix_app_r.
Qed.

(** [resolve] maintains the invariant and returns an element of the heap. *)
Lemma resolve_inv w0 dom ref :
  triple (inv w0) (elementsContainer.resolve dom ref)
    (λ e w, inv w0 w ∧ is_Some (element_heap w !! e)) (inv w0).
Proof.
  intros w Hinv. destruct (decide (poisoned w)) as [Hp|Hp].
  { by rewrite resolve_poisoned. }
  destruct (own_get (getElementKey w ref dom) (elementsContainer_elements w))
    as [e|] eqn:He.
  - erewrite resolve_hit by done. split; [done|].
    by eapply wf_registry; [apply Hinv|].
  - rewrite resolve_miss by done. split.
    + eapply inv_step; [done|apply wf_registered|by apply extends_registered];
        [apply Hinv|done].
    + simpl. rewrite list_lookup_middle; eauto.
Qed.

Lemma callable_resolve dom ref :
  triple callable (elementsContainer.resolve dom ref) (λ _, callable) callable.
Proof.
  intros w Hw. destruct (decide (poisoned w)); [by rewrite resolve_poisoned|].
  destruct (own_get (getElementKey w ref dom) (elementsContainer_elements w)) eqn:He.
  - by erewrite resolve_hit.
  - by rewrite resolve_miss.
Qed.

Lemma stable_resolves dom ref e : stable (λ w, resolves w dom ref e).
Proof.
  intros w w' Hext [? Hreg]. split; [by eapply extends_valid_element|].
  rewrite (ext_key _ _ Hext). intros ?. apply (ext_registry _ _ Hext). auto.
Qed.

(** [resolve] grows the store and returns the element of the key. *)
Lemma resolve_grows dom ref :
  grows (λ _, True) (elementsContainer.resolve dom ref) (λ e w, resolves w dom ref e).
Proof.
  intros w0 w [Hinv _].
  pose proof (resolve_inv w0 dom ref w Hinv) as Hi.
  destruct (decide (poisoned w)) as [Hp|Hp]; [by rewrite resolve_poisoned in *|].
  destruct (own_get (getElementKey w ref dom) (elementsContainer_elements w))
    as [e|] eqn:He.
  - erewrite resolve_hit in * by done. by destruct Hi.
  - rewrite resolve_miss in * by done. destruct Hi as [? ?].
    do 2 (split; [done|]). simpl. unfold obj_set. intros ?.
    by rewrite decide_False, own_get_put_eq.
Qed.

End elements_lemmas.

#[export] Hint Resolve stable_resolves : fdeps.


(** ** One element per key *)

Section singleton.
Context `{Host}.
Implicit Types (w : Engine) (e : ElemId) (ref : HostRef) (dom : Dom).

Lemma resolve_Ok_unpoisoned dom ref e w w' :
  elementsContainer.resolve dom ref w = (Ok e, w') → ¬ poisoned w.
Proof. intros Hr Hp. by rewrite resolve_poisoned in Hr. Qed.

Lemma registered_unpoisoned ref key w :
  key ≠ "hasOwnProperty" → ¬ poisoned w → ¬ poisoned (registered ref key w).
Proof.
  unfold poisoned, registered, obj_set, has_own. simpl. intros Hk Hp.
  case_decide; [done|]. by rewrite own_get_put_ne.
Qed.

(** The two outcomes of a [resolve] that returns. *)
Lemma resolve_Ok_cases dom ref e w w' :
  elementsContainer.resolve dom ref w = (Ok e, w') →
  (own_get (getElementKey w ref dom) (elementsContainer_elements w) = Some e ∧ w' = w) ∨
  (own_get (getElementKey w ref dom) (elementsContainer_elements w) = None ∧
   e = length (element_heap w) ∧ w' = registered ref (getElementKey w ref dom) w).
Proof.
  intros Hr. pose proof (resolve_Ok_unpoisoned _ _ _ _ _ Hr) as Hp.
  destruct (own_get (getElementKey w ref dom) (elementsContainer_elements w))
    as [e'|] eqn:He.
  - erewrite resolve_hit in Hr by done. left. by simplify_eq.
  - rewrite resolve_miss in Hr by done. right. by simplify_eq.
Qed.

(** C6: once [resolve] returned an element for a key, every later [resolve]
    of a reference with that key returns the same element and writes
    nothing, as long as the registry is usable. *)
Theorem resolve_singleton w w1 w2 dom ref e dom' ref' :
  wf w → elementsContainer.resolve dom ref w = (Ok e, w1) →
  getElementKey w ref dom ≠ "__proto__" →
  extends w1 w2 → ¬ poisoned w2 →
  getElementKey w2 ref' dom' = getElementKey w ref dom →
  elementsContainer.resolve dom' ref' w2 = (Ok e, w2).
Proof.
  intros Hwf Hr Hk Hext Hp Hkey.
  destruct (grows_elim _ _ _ w (resolve_grows dom ref) Hwf I) as (_ & Hext1 & HQ).
  rewrite Hr in *. destruct (HQ e eq_refl) as [_ Hreg]. simpl in *.
  apply resolve_hit; [done|]. rewrite Hkey. apply (ext_registry _ _ Hext).
  rewrite <- (ext_key _ _ Hext1). apply Hreg. by rewrite (ext_key _ _ Hext1).
Qed.

(** [resolve] of a key that is not registered builds an element for the
    reference, with no State and no Modifier, binds one change handler on
    the reference, and registers the element under the key. *)
Theorem resolve_new w dom ref :
  ¬ poisoned w →
  own_get (getElementKey w ref dom) (elementsContainer_elements w) = None →
  getElementKey w ref dom ≠ "__proto__" →
  ∃ w', elementsContainer.resolve dom ref w = (Ok (length (element_heap w)), w') ∧
        element_heap w' = element_heap w ++ [mkElement ref empty_obj empty_obj] ∧
        change_handlers w' = change_handlers w ++ [(ref, length (element_heap w))] ∧
        own_get (getElementKey w ref dom) (elementsContainer_elements w') =
          Some (length (element_heap w)).
Proof.
  intros Hp He Hk. eexists. split; [by apply resolve_miss|].
  simpl. unfold obj_set. by rewrite decide_False, own_get_put_eq.
Qed.

(** With the resolver the module starts with, two host references
    without an [id] attribute have the same key: the second is given the
    element that was built for the first. *)
Theorem resolve_without_id_shared w w1 dom ref dom' ref' e :
  getElementKey w = default_getElementKey →
  attr_id ref dom = None → attr_id ref' dom' = None →
  elementsContainer.resolve dom ref w = (Ok e, w1) →
  elementsContainer.resolve dom' ref' w1 = (Ok e, w1).
Proof.
  intros Hkf Hid Hid' Hr.
  assert (getElementKey w ref dom = "undefined") as Hk
    by (rewrite Hkf; unfold default_getElementKey; by rewrite Hid).
  assert (getElementKey w1 ref' dom' = "undefined") as Hk'.
  { destruct (resolve_Ok_cases _ _ _ _ _ Hr) as [[_ ->]|(_ & _ & ->)]; simpl;
      rewrite Hkf; unfold default_getElementKey; by rewrite Hid'. }
  pose proof (resolve_Ok_unpoisoned _ _ _ _ _ Hr) as Hp.
  destruct (resolve_Ok_cases _ _ _ _ _ Hr) as [[He ->]|(He & -> & ->)].
  - apply resolve_hit; [done|]. by rewrite Hk', <- Hk.
  - apply resolve_hit; [apply registered_unpoisoned; by rewrite ?Hk|].
    rewrite Hk', Hk. simpl. unfold obj_set. by rewrite decide_False, own_get_put_eq.
Qed.

(** C39: a reference whose key is [__proto__] is never registered: every
    [resolve] of it builds another element and binds another handler. *)
Theorem resolve_proto_key_fresh w dom ref :
  wf w → ¬ poisoned w → getElementKey w ref dom = "__proto__" →
  ∃ w', elementsContainer.resolve dom ref w = (Ok (length (element_heap w)), w') ∧
        elementsContainer_elements w' = elementsContainer_elements w ∧
        length (element_heap w') = S (length (element_heap w)) ∧
        length (change_handlers w') = S (length (change_handlers w)).
Proof.
  intros Hwf Hp Hk. eexists. split.
  - apply resolve_miss; [done|]. rewrite Hk.
    apply obj_wf_own_get_proto, Hwf.
  - rewrite Hk. simpl. rewrite !length_app. simpl. split; [done|]. lia.
Qed.

(** C40: once an element is registered under the key [hasOwnProperty], the
    membership test of the registry calls that element: every later
    [resolve] throws. *)
Theorem resolve_hasOwnProperty_poisons w w1 dom ref e dom' ref' :
  getElementKey w ref dom = "hasOwnProperty" →
  elementsContainer.resolve dom ref w = (Ok e, w1) →
  elementsContainer.resolve dom' ref' w1 = (Throw TypeError_not_function, w1).
Proof.
  intros Hk Hr. apply resolve_poisoned. unfold poisoned, has_own.
  destruct (resolve_Ok_cases _ _ _ _ _ Hr) as [[He ->]|(He & -> & ->)].
  - by rewrite <- Hk, He.
  - rewrite Hk. simpl. unfold obj_set. by rewrite decide_False, own_get_put_eq.
Qed.

End singleton.

Lemma resolve_singleton_witness :
  elementsContainer.resolve (H:=page_host) (fresh_page 2) 1
    (final (elementsContainer.resolve (H:=page_host) (fresh_page 2) 1) init) =
  (Ok 0, final (elementsContainer.resolve (H:=page_host) (fresh_page 2) 1) init).
Proof.
  eapply (resolve_singleton (H:=page_host) init _ _ (fresh_page 2) 1 0 (fresh_page 2) 1).
  - apply wf_empty_engine.
  - reflexivity.
  - compute_done.
  - reflexivity.
  - compute_done.
  - reflexivity.
Defined.

Lemma resolve_new_witness :
  ∃ w', elementsContainer.resolve (H:=page_host) (fresh_page 2) 1 init = (Ok 0, w') ∧
        element_heap w' = [mkElement 1 empty_obj empty_obj] ∧
        change_handlers w' = [(1, 0)] ∧
        own_get "f1" (elementsContainer_elements w') = Some 0.
Proof. apply (resolve_new (H:=page_host) init (fresh_page 2) 1); compute_done. Defined.

Lemma resolve_without_id_shared_witness :
  elementsContainer.resolve (H:=page_host) (fresh_page 2) 8
    (final (elementsContainer.resolve (H:=page_host) (fresh_page 2) 7) init) =
  (Ok 0, final (elementsContainer.resolve (H:=page_host) (fresh_page 2) 7) init).
Proof.
  by eapply (resolve_without_id_shared (H:=page_host) init _ (fresh_page 2) 7 (fresh_page 2) 8 0).
Defined.

Lemma resolve_proto_key_fresh_witness :
  ∃ w', elementsContainer.resolve (H:=page_host) [mkNode (Some "__proto__") false false 0] 0 init
          = (Ok 0, w') ∧
        elementsContainer_elements w' = elementsContainer_elements (init (H:=page_host)) ∧
        length (element_heap w') = 1 ∧ length (change_handlers w') = 1.
Proof.
  apply (resolve_proto_key_fresh (H:=page_host) init [mkNode (Some "__proto__") false false 0] 0).
  - apply wf_empty_engine.
  - compute_done.
  - reflexivity.
Defined.

Lemma resolve_hasOwnProperty_poisons_witness :
  elementsContainer.resolve (H:=page_host) (fresh_page 2) 1
    (final (elementsContainer.resolve (H:=page_host) [mkNode (Some "hasOwnProperty") false false 0] 0) init) =
  (Throw TypeError_not_function,
   final (elementsContainer.resolve (H:=page_host) [mkNode (Some "hasOwnProperty") false false 0] 0) init).
Proof.
  by eapply (resolve_hasOwnProperty_poisons (H:=page_host) init _
              [mkNode (Some "hasOwnProperty") false false 0] 0 0 (fresh_page 2) 1).
Defined.

Lemma statesContainer_get_fresh_witness :
  state_heap (final (statesContainer.add "on" 0) (final (new_State (Some always)) init)) !! 1
    = None ∧
  ∃ callback,
    state_heap (final (statesContainer.get "on")
                  (final (statesContainer.add "on" 0) (final (new_State (Some always)) init)))
    = state_heap (final (statesContainer.add "on" 0) (final (new_State (Some always)) init))
        ++ [mkState None callback []] ∧
    state_heap (final (statesContainer.get "on")
                  (final (statesContainer.add "on" 0) (final (new_State (Some always)) init)))
      !! 1 = Some (mkState None callback []).
Proof. by apply (statesContainer_get_fresh (H:=page_host) "on" _ 1). Defined.
