(* ===== verification/Edges.v ===== *)
(** * Edges: what a step writes to the subscription lists

    The graph of the engine is in the two subscription lists: the
    subscribers of a State and the subscriptions of a Modifier.  This file
    says of each step of [createRelationship] what it adds to them, exactly:
    the registry and the attachments add nothing, and [subscribe] adds one
    Modifier at the end of one list and one State at the end of another.
    The statements are about the runs that return and assume nothing of the
    store. *)

From stdpp Require Import base option list strings numbers.
From S2P Require Import Prelude JsObject Heap Graph Registry.

Open Scope string_scope.
Open Scope list_scope.
Open Scope run_scope.

Section edges.
Context `{Host}.

(** [w'] is [w] grown, and its subscription lists are those of [w] with
    Modifier [m] subscribed to the States of [l], in this order, and to
    nothing else. *)
Record adds (l : list StateId) (m : ModId) (w w' : Engine) : Prop := {
  adds_extends : extends w w';
  adds_subscribers :
    ∀ s, subscribers w' s = subscribers w s ++ replicate (occurrences s l) m;
  adds_subscriptions :
    ∀ m', subscriptions w' m' = subscriptions w m' ++ if decide (m' = m) then l else [];
}.

(** The host reference [ref] is registered as element [e], when its key can
    be registered at all. *)
Definition names (w : Engine) (dom : Dom) (ref : HostRef) (e : ElemId) : Prop :=
  getElementKey w ref dom ≠ "__proto__" →
  own_get (getElementKey w ref dom) (elementsContainer_elements w) = Some e.

End edges.

Section adds_lemmas.
Context `{Host}.
Implicit Types (w : Engine) (e : ElemId) (s : StateId) (m : ModId) (l : list StateId).

Lemma adds_refl m w : adds [] m w w.
Proof.
  split; [reflexivity|intros s; rewrite occurrences_nil; simpl; by rewrite app_nil_r|].
  intros m'. case_decide; by rewrite app_nil_r.
Qed.

(** What adds no subscription adds none of any Modifier. *)
Lemma adds_nil m m' w w' : adds [] m w w' → adds [] m' w w'.
Proof.
  intros [He Hs Hm]. split; [done|intros s; by rewrite Hs, !occurrences_nil|].
  intros m0. rewrite Hm. by repeat case_decide.
Qed.

Lemma adds_app l l' m w w1 w2 :
  adds l m w w1 → adds l' m w1 w2 → adds (l ++ l') m w w2.
Proof.
  intros [He Hs Hm] [He' Hs' Hm']. split; [by etrans|..].
  - intros s. by rewrite Hs', Hs, occurrences_app, replicate_add, app_assoc.
  - intros m'. rewrite Hm', Hm. case_decide; by rewrite <- app_assoc.
Qed.

Lemma adds_quiet_l l m w w1 w2 : adds [] m w w1 → adds l m w1 w2 → adds l m w w2.
Proof. intros. by apply (adds_app [] l m w w1 w2). Qed.

(** One subscription. *)
Lemma adds_single s m w w' :
  adds [s] m w w' →
  (∀ s', subscribers w' s' = subscribers w s' ++ if decide (s' = s) then [m] else []) ∧
  (∀ m', subscriptions w' m' = subscriptions w m' ++ if decide (m' = m) then [s] else []).
Proof.
  intros [_ Hs Hm]. split; [|done]. intros s'.
  rewrite Hs, occurrences_cons, occurrences_nil. by case_decide.
Qed.

Lemma names_extends w w' dom ref e : extends w w' → names w dom ref e → names w' dom ref e.
Proof.
  intros Hext Hn Hk. rewrite (ext_key _ _ Hext) in *. apply (ext_registry _ _ Hext). auto.
Qed.

End adds_lemmas.

(** ** The steps *)

Section steps.
Context `{Host}.
Implicit Types (w : Engine) (e : ElemId) (s : StateId) (m : ModId) (l : list StateId).

(** [resolve] registers and subscribes nothing. *)
Lemma resolve_adds dom ref m e w w' :
  elementsContainer.resolve dom ref w = (Ok e, w') →
  adds [] m w w' ∧ names w' dom ref e.
Proof.
  intros [[He ->]|(He & -> & ->)]%resolve_Ok_cases.
  - split; [apply adds_refl|by intros _].
  - split.
    + split; [by apply extends_registered|intros s; rewrite occurrences_nil; simpl; by rewrite app_nil_r|].
      intros m'. case_decide; by rewrite app_nil_r.
    + intros Hk. simpl in *. by rewrite own_get_set_eq.
Qed.

(** The reads return what the element has and write nothing. *)
Lemma getState_Ok_inv e key r w w' :
  Element.getState e key w = (Ok r, w') →
  w' = w ∧ ∃ E, element_heap w !! e = Some E ∧ r = obj_get key (el_states E).
Proof.
  unfold Element.getState. rewrite bind_read_element.
  destruct (element_heap w !! e) as [E|]; [|done]. intros [= <- <-]. eauto.
Qed.

Lemma getModifier_Ok_inv e key r w w' :
  Element.getModifier e key w = (Ok r, w') →
  w' = w ∧ ∃ E, element_heap w !! e = Some E ∧ r = obj_get key (el_modifiers E).
Proof.
  unfold Element.getModifier. rewrite bind_read_element.
  destruct (element_heap w !! e) as [E|]; [|done]. intros [= <- <-]. eauto.
Qed.

(** The lazy attachment of a State: the new State has no subscriber. *)
Lemma attach_state_adds e E key m w w' :
  element_heap w !! e = Some E →
  (if truthy (obj_get key (el_states E)) then ret tt
   else state <- statesContainer.get key ;; Element.attachState e key state) w
    = (Ok tt, w') →
  adds [] m w w'.
Proof.
  intros HE. destruct (truthy _) eqn:Ht; [intros [= <-]; apply adds_refl|].
  destruct (statesContainer_get_cases key w) as [[cb Hget]|[err Hget]];
    [|by rewrite (bind_Throw _ _ _ _ _ Hget)].
  rewrite (bind_Ok _ _ _ _ _ Hget).
  change (Element.attachState e key _ _) with
    ((s <- new_State cb ;; Element.attachState e key s) w).
  rewrite (new_attachState_eq e E key cb w HE). intros [= <-]. split.
  - apply extends_new_attached_state; [done|]. by destruct (obj_get key (el_states E)).
  - intros s. rewrite occurrences_nil. simpl replicate. rewrite app_nil_r.
    unfold subscribers. simpl.
    destruct (decide (s < length (state_heap w))) as [Hlt|Hge]; [by rewrite lookup_app_l|].
    rewrite lookup_app_r, (lookup_ge_None_2 (state_heap w)) by lia.
    by destruct (s - length (state_heap w)) as [|[|?]].
  - intros m'. case_decide; by rewrite app_nil_r.
Qed.

Lemma attach_modifier_adds e E key m w w' :
  element_heap w !! e = Some E →
  (if truthy (obj_get key (el_modifiers E)) then ret tt
   else modifier <- modifiersContainer.get key ;; Element.attachModifier e key modifier) w
    = (Ok tt, w') →
  adds [] m w w'.
Proof.
  intros HE. destruct (truthy _) eqn:Ht; [intros [= <-]; apply adds_refl|].
  destruct (modifiersContainer_get_cases key w) as [[cb Hget]|[err Hget]];
    [|by rewrite (bind_Throw _ _ _ _ _ Hget)].
  rewrite (bind_Ok _ _ _ _ _ Hget).
  change (Element.attachModifier e key _ _) with
    ((m <- new_Modifier cb ;; Element.attachModifier e key m) w).
  rewrite (new_attachModifier_eq e E key cb w HE). intros [= <-]. split.
  - apply extends_new_attached_modifier; [done|]. by destruct (obj_get key (el_modifiers E)).
  - intros s. rewrite occurrences_nil. simpl. by rewrite app_nil_r.
  - intros m'. unfold subscriptions. simpl.
    replace (if decide (m' = m) then [] else []) with (@nil StateId) by by case_decide.
    rewrite app_nil_r.
    destruct (decide (m' < length (modifier_heap w))) as [Hlt|Hge]; [by rewrite lookup_app_l|].
    rewrite lookup_app_r, (lookup_ge_None_2 (modifier_heap w)) by lia.
    by destruct (m' - length (modifier_heap w)) as [|[|?]].
Qed.

(** What [subscribe] does when it returns: the State is one of the heap, the
    elements are as before, and each of the two objects has the other at the
    end of its list. *)
Lemma subscribe_Ok_inv m (state : lookup StateId) w w' :
  Modifier.subscribe m state w = (Ok tt, w') →
  ∃ s, state = Own s ∧ element_heap w' = element_heap w ∧ adds [s] m w w'.
Proof.
  destruct state as [s| |]; [|done..]. intros Hrun. exists s. split; [done|].
  destruct (state_heap w !! s) as [St|] eqn:HS; cycle 1.
  { unfold Modifier.subscribe, State.addModifier, update_state in Hrun.
    by rewrite invoke_Own, !bind_assoc, bind_read_state, HS in Hrun. }
  destruct (modifier_heap w !! m) as [M|] eqn:HM; cycle 1.
  { unfold Modifier.subscribe, update_modifier in Hrun.
    rewrite invoke_Own, bind_assoc in Hrun.
    erewrite bind_Ok in Hrun by by apply addModifier_eq.
    by rewrite bind_ret_l, bind_read_modifier in Hrun; simpl in Hrun; rewrite HM in Hrun. }
  erewrite subscribe_Own in Hrun by done. injection Hrun as <-.
  split; [done|]. split; [by eapply extends_subscribed|..];
    unfold subscribers, subscriptions; simpl.
  - intros s'. rewrite occurrences_cons, occurrences_nil. case_decide as Hs; [subst|].
    + rewrite list_lookup_insert_eq by by eapply lookup_lt_Some. by rewrite HS.
    + rewrite list_lookup_insert_ne by done. by rewrite app_nil_r.
  - intros m'. case_decide as Hm; [subst|].
    + rewrite list_lookup_insert_eq by by eapply lookup_lt_Some. by rewrite HM.
    + rewrite list_lookup_insert_ne by done. by rewrite app_nil_r.
Qed.

Lemma invoke_subscribe_Ok_inv (subModifier : lookup ModId) (state : lookup StateId) w w' :
  invoke subModifier (λ m, Modifier.subscribe m state) w = (Ok tt, w') →
  ∃ m s, subModifier = Own m ∧ state = Own s ∧
         element_heap w' = element_heap w ∧ adds [s] m w w'.
Proof.
  destruct subModifier as [m| |]; [|done..]. simpl.
  intros (s & ? & ? & ?)%subscribe_Ok_inv. eauto 10.
Qed.

(** A loop of subscriptions of one Modifier. *)
Lemma subscribe_all_adds m l w w' :
  for_each (λ s, invoke (Own m) (λ m, Modifier.subscribe m (Own s))) l w = (Ok tt, w') →
  element_heap w' = element_heap w ∧ adds l m w w'.
Proof.
  revert w. induction l as [|s l IH]; intros w.
  - intros [= <-]. split; [done|apply adds_refl].
  - simpl. intros ([] & w1 & (s' & [= <-] & Hel & Hs)%subscribe_Ok_inv & Hl)%bind_Ok_inv.
    destruct (IH _ Hl) as [Hel' Hl']. split; [congruence|].
    by apply (adds_app [s] l m w w1 w').
Qed.

(** ** The steps that throw *)

(** [resolve] and the reads throw before they write. *)
Lemma resolve_Throw_inv dom ref err w w' :
  elementsContainer.resolve dom ref w = (Throw err, w') → w' = w.
Proof.
  destruct (decide (poisoned w)) as [Hp|Hp]; [rewrite resolve_poisoned by done; congruence|].
  destruct (own_get (getElementKey w ref dom) (elementsContainer_elements w)) eqn:He.
  - by erewrite resolve_hit.
  - by rewrite resolve_miss.
Qed.

Lemma getState_Throw_inv e key err w w' :
  Element.getState e key w = (Throw err, w') → w' = w.
Proof.
  unfold Element.getState. rewrite bind_read_element.
  destruct (element_heap w !! e); [done|congruence].
Qed.

Lemma getModifier_Throw_inv e key err w w' :
  Element.getModifier e key w = (Throw err, w') → w' = w.
Proof.
  unfold Element.getModifier. rewrite bind_read_element.
  destruct (element_heap w !! e); [done|congruence].
Qed.

(** The lazy attachments throw when the template cannot be read, before the
    instance is built. *)
Lemma attach_state_Throw_inv e E key err w w' :
  element_heap w !! e = Some E →
  (if truthy (obj_get key (el_states E)) then ret tt
   else state <- statesContainer.get key ;; Element.attachState e key state) w
    = (Throw err, w') →
  w' = w.
Proof.
  intros HE. destruct (truthy _); [done|].
  destruct (statesContainer_get_cases key w) as [[cb Hget]|[err' Hget]].
  - rewrite (bind_Ok _ _ _ _ _ Hget).
    change (Element.attachState e key _ _) with
      ((s <- new_State cb ;; Element.attachState e key s) w).
    by rewrite (new_attachState_eq e E key cb w HE).
  - rewrite (bind_Throw _ _ _ _ _ Hget). congruence.
Qed.

Lemma attach_modifier_Throw_inv e E key err w w' :
  element_heap w !! e = Some E →
  (if truthy (obj_get key (el_modifiers E)) then ret tt
   else modifier <- modifiersContainer.get key ;; Element.attachModifier e key modifier) w
    = (Throw err, w') →
  w' = w.
Proof.
  intros HE. destruct (truthy _); [done|].
  destruct (modifiersContainer_get_cases key w) as [[cb Hget]|[err' Hget]].
  - rewrite (bind_Ok _ _ _ _ _ Hget).
    change (Element.attachModifier e key _ _) with
      ((m <- new_Modifier cb ;; Element.attachModifier e key m) w).
    by rewrite (new_attachModifier_eq e E key cb w HE).
  - rewrite (bind_Throw _ _ _ _ _ Hget). congruence.
Qed.

(** [subscribe] on two objects of the heap returns; on a value that is not
    an object of the engine it throws before it writes. *)
Lemma invoke_subscribe_Throw_inv (subModifier : lookup ModId) (state : lookup StateId)
    err w w' :
  (∀ m, subModifier = Own m → is_Some (modifier_heap w !! m)) →
  (∀ s, state = Own s → is_Some (state_heap w !! s)) →
  invoke subModifier (λ m, Modifier.subscribe m state) w = (Throw err, w') → w' = w.
Proof.
  intros Hm Hs. destruct subModifier as [m| |]; simpl; [|unfold throw; congruence..].
  destruct state as [s| |]; [|unfold Modifier.subscribe, bind; simpl; congruence..].
  destruct (Hm m eq_refl) as [M HM], (Hs s eq_refl) as [S HS].
  by erewrite subscribe_Own.
Qed.

(** A loop of subscriptions to States of the heap returns. *)
Lemma subscribe_all_returns m l w :
  is_Some (modifier_heap w !! m) → (∀ s, s ∈ l → is_Some (state_heap w !! s)) →
  (for_each (λ s, invoke (Own m) (λ m, Modifier.subscribe m (Own s))) l w).1 = Ok tt.
Proof.
  revert w. induction l as [|s l IH]; intros w [M HM] Hl; [done|].
  destruct (Hl s ltac:(left)) as [S HS]. simpl.
  erewrite bind_Ok by by apply subscribe_Own. apply IH; simpl.
  - apply insert_is_Some. eauto.
  - intros s' Hs'. apply insert_is_Some. apply Hl. by right.
Qed.

End steps.
