(* ===== verification/Builder.v ===== *)
(** * Builder: [createRelationship] and the public object of the module

    [createRelationship] resolves the two elements, attaches the named State
    and Modifier where they are missing, subscribes the Modifier to the
    State, and, when asked, also to every State the dependency's own Modifier
    of the same name is subscribed to.  [FieldDependencies] is the object the
    module returns.  The file also gives the stores after the first
    relationship and after a chain of two as closed terms ([linked_fresh],
    [linked_onto], [linked_chain]), on which the end-to-end theorems of
    [Cascade] evaluate a change, and the subscriptions of a call exactly,
    when it returns and when it throws ([createRelationship_edges],
    [createRelationship_throws_quiet]). *)

From stdpp Require Import base option list strings numbers.
From S2P Require Import Prelude JsObject Heap Fixture Graph Registry Edges.

Open Scope string_scope.
Open Scope list_scope.
Open Scope run_scope.

Section builder.
Context `{Host}.

(** [dependencyElement.getModifier(dependentModifierName).states]: the
    subscription list of a Modifier; [undefined] (nothing to enumerate) when
    the read produced a member of [Object.prototype]. *)
Definition cascadingStates_of (upstream : lookup ModId) : run Engine (list StateId) :=
  match upstream with
  | Own m' => M <- read_modifier m' ;; ret (md_states M)
  | Inherited => ret []
  | Undefined => throw TypeError_undefined
  end.

(** The relationship between the State [sn] of element [dE] and the
    Modifier [mn] of element [pE]: both exist, and each has the other in its
    subscription list. *)
Definition related (w : Engine) (dE : ElemId) (sn : string)
    (pE : ElemId) (mn : string) : Prop :=
  ∃ s m, state_of w dE sn = Some s ∧ modifier_of w pE mn = Some m ∧
         m ∈ subscribers w s ∧ s ∈ subscriptions w m.

(** Before a call: the dependency [d] has a Modifier named [mn], which is
    subscribed to the State [s]. *)
Definition upstream_has (w : Engine) (dom : Dom) (d : HostRef) (mn : string)
    (s : StateId) : Prop :=
  ∃ dE m', own_get (getElementKey w d dom) (elementsContainer_elements w) = Some dE ∧
           modifier_of w dE mn = Some m' ∧ s ∈ subscriptions w m'.

(** The Modifier [mn] of element [pE] is subscribed to the State [s]. *)
Definition subscribed (w : Engine) (pE : ElemId) (mn : string) (s : StateId) : Prop :=
  ∃ m, modifier_of w pE mn = Some m ∧ s ∈ subscriptions w m ∧ m ∈ subscribers w s.

(** The States a call with [inheritState] inherits: the subscriptions of the
    Modifier [mn] of the dependency [dE], read after the dependent's
    Modifier [m] subscribed to the State [s]; when the two Modifiers are the
    same object, [s] is among them. *)
Definition upstream_states (w : Engine) (dE : ElemId) (mn : string) : list StateId :=
  match modifier_of w dE mn with
  | Some mu => subscriptions w mu
  | None => []
  end.

Definition inheritance (w w' : Engine) (dE : ElemId) (mn : string)
    (s : StateId) (m : ModId) : list StateId :=
  match modifier_of w' dE mn with
  | Some mu => subscriptions w mu ++ (if decide (mu = m) then [s] else [])
  | None => []
  end.

End builder.

(** The function the module keeps as [that.createRelationship]. *)
Module that.
Section methods.
Context `{Host}.

(** [dom] is the page at the time of the call, which only the key resolver
    reads. *)
Definition createRelationship (dom : Dom)
    (dependencyRef : HostRef) (dependencyStateName : string)
    (dependentRef : HostRef) (dependentModifierName : string)
    (inheritState : bool) : run Engine unit :=
  dependencyElement <- elementsContainer.resolve dom dependencyRef ;;
  present <- Element.getState dependencyElement dependencyStateName ;;
  (if truthy present then ret tt
   else
     state <- statesContainer.get dependencyStateName ;;
     Element.attachState dependencyElement dependencyStateName state) ;;
  dependentElement <- elementsContainer.resolve dom dependentRef ;;
  present <- Element.getModifier dependentElement dependentModifierName ;;
  (if truthy present then ret tt
   else
     modifier <- modifiersContainer.get dependentModifierName ;;
     Element.attachModifier dependentElement dependentModifierName modifier) ;;
  pubState <- Element.getState dependencyElement dependencyStateName ;;
  subModifier <- Element.getModifier dependentElement dependentModifierName ;;
  invoke subModifier (λ m, Modifier.subscribe m pubState) ;;
  if inheritState then
    upstream <- Element.getModifier dependencyElement dependentModifierName ;;
    if truthy upstream then
      cascadingStates <- cascadingStates_of upstream ;;
      for_each (λ s, invoke subModifier (λ m, Modifier.subscribe m (Own s)))
        cascadingStates
    else ret tt
  else ret tt.

End methods.
End that.

(** The object returned by the module. *)
Module FieldDependencies.
Section api.
Context `{Host}.

(** [that.statesContainer.add(name, new State(callback))] *)
Definition addState (name : string) (callback : Predicate) : run Engine unit :=
  state <- new_State (Some callback) ;;
  statesContainer.add name state.

(** [that.modifiersContainer.add(name, new Modifier(callback))] *)
Definition addModifier (name : string) (callback : Mutation) : run Engine unit :=
  modifier <- new_Modifier (Some callback) ;;
  modifiersContainer.add name modifier.

(** The wrapper passes its fifth parameter, which it calls [doNotInherit],
    on as [inheritState]. *)
Definition createRelationship (dom : Dom)
    (dependencyRef : HostRef) (dependencyStateName : string)
    (dependentRef : HostRef) (dependentModifierName : string)
    (doNotInherit : bool) : run Engine unit :=
  that.createRelationship dom dependencyRef dependencyStateName
    dependentRef dependentModifierName doNotInherit.

(** [that.getElementKey = callback] *)
Definition setElementKeyCallback (callback : KeyFn) : run Engine unit :=
  modify (set_getElementKey callback).

End api.
End FieldDependencies.

(** ** Calls of the public object *)

Section calls.
Context `{Host}.

(** One call of the public object, with the page at the time of the call. *)
Inductive call : Type :=
| AddState (name : string) (callback : Predicate)
| AddModifier (name : string) (callback : Mutation)
| CreateRelationship (dom : Dom) (dependencyRef : HostRef) (stateName : string)
    (dependentRef : HostRef) (modifierName : string) (inheritState : bool)
| SetElementKeyCallback (callback : KeyFn).

Definition perform (c : call) : run Engine unit :=
  match c with
  | AddState name callback => FieldDependencies.addState name callback
  | AddModifier name callback => FieldDependencies.addModifier name callback
  | CreateRelationship dom d s p m i =>
      FieldDependencies.createRelationship dom d s p m i
  | SetElementKeyCallback callback =>
      FieldDependencies.setElementKeyCallback callback
  end.

(** A script: the calls one after the other, each on the store the previous
    one left, whether it returned or threw (the caller is assumed to catch). *)
Definition perform_all (cs : list call) (w : Engine) : Engine :=
  foldl (λ w c, (perform c w).2) w cs.

(** A call that installs no template as the prototype of a container. *)
Definition plain_call (c : call) : Prop :=
  match c with
  | AddState name _ | AddModifier name _ => name ≠ "__proto__"
  | _ => True
  end.

#[export] Instance plain_call_dec c : Decision (plain_call c).
Proof. destruct c; simpl; apply _. Defined.

(** The store after a relationship between two elements that were not
    registered: two elements, one State and one Modifier are new; [cbS] and
    [cbM] are the callbacks of the two templates. *)
Definition linked_fresh (dom : Dom) (a : HostRef) (sn : string) (b : HostRef)
    (mn : string) (cbS : option Predicate) (cbM : option Mutation)
    (w : Engine) : Engine :=
  let e1 := length (element_heap w) in
  let e2 := S e1 in
  let s := length (state_heap w) in
  let m := length (modifier_heap w) in
  mkEngine (statesContainer_states w) (modifiersContainer_modifiers w) (getElementKey w)
    (obj_set (getElementKey w b dom) e2
       (obj_set (getElementKey w a dom) e1 (elementsContainer_elements w)))
    (element_heap w ++ [mkElement a [(sn, s)] []; mkElement b [] [(mn, m)]])
    (state_heap w ++ [mkState (Some e1) cbS [m]])
    (modifier_heap w ++ [mkModifier (Some e2) cbM [s]])
    (change_handlers w ++ [(a, e1); (b, e2)]).

(** The store after a relationship from the registered element [d], whose
    record is [D] and which has no State [sn] yet, to an element that was
    not registered: one element, one State and one Modifier are new. *)
Definition linked_onto (dom : Dom) (d : ElemId) (D : Element) (sn : string)
    (b : HostRef) (mn : string) (cbS : option Predicate) (cbM : option Mutation)
    (w : Engine) : Engine :=
  let e2 := length (element_heap w) in
  let s := length (state_heap w) in
  let m := length (modifier_heap w) in
  mkEngine (statesContainer_states w) (modifiersContainer_modifiers w) (getElementKey w)
    (obj_set (getElementKey w b dom) e2 (elementsContainer_elements w))
    (<[d := mkElement (el_element D) (obj_set sn s (el_states D)) (el_modifiers D)]>
       (element_heap w) ++ [mkElement b [] [(mn, m)]])
    (state_heap w ++ [mkState (Some d) cbS [m]])
    (modifier_heap w ++ [mkModifier (Some e2) cbM [s]])
    (change_handlers w ++ [(b, e2)]).

(** The store after a chain of two relationships, from [a] to [b] and from
    [b] to [c], between three elements that were not registered. *)
Definition linked_chain (dom : Dom) (a : HostRef) (s1 : string) (b : HostRef)
    (m1 s2 : string) (c : HostRef) (m2 : string)
    (cbS1 cbS2 : option Predicate) (cbM1 cbM2 : option Mutation)
    (w : Engine) : Engine :=
  let e := length (element_heap w) in
  let s := length (state_heap w) in
  let m := length (modifier_heap w) in
  mkEngine (statesContainer_states w) (modifiersContainer_modifiers w) (getElementKey w)
    (obj_set (getElementKey w c dom) (S (S e))
       (obj_set (getElementKey w b dom) (S e)
          (obj_set (getElementKey w a dom) e (elementsContainer_elements w))))
    (element_heap w ++ [mkElement a [(s1, s)] []; mkElement b [(s2, S s)] [(m1, m)];
                        mkElement c [] [(m2, S m)]])
    (state_heap w ++ [mkState (Some e) cbS1 [m]; mkState (Some (S e)) cbS2 [S m]])
    (modifier_heap w ++ [mkModifier (Some (S e)) cbM1 [s]; mkModifier (Some (S (S e))) cbM2 [S s]])
    (change_handlers w ++ [(a, e); (b, S e); (c, S (S e))]).

(** A call that registers a template. *)
Definition registration (c : call) : Prop :=
  match c with
  | AddState _ _ | AddModifier _ _ => True
  | _ => False
  end.

#[export] Instance registration_dec c : Decision (registration c).
Proof. destruct c; simpl; apply _. Defined.

(** The predicate, the mutation an instance of [name] is built with. *)
Definition template_predicate (w : Engine) (name : string) : option Predicate :=
  t ← own_get name (tpl_own (statesContainer_states w));
  T ← state_heap w !! t; st_callback T.

Definition template_mutation (w : Engine) (name : string) : option Mutation :=
  t ← own_get name (tpl_own (modifiersContainer_modifiers w));
  M ← modifier_heap w !! t; md_callback M.

(** A store in which templates were registered and nothing else was done. *)
Record blank (w : Engine) : Prop := {
  blank_elements : element_heap w = [];
  blank_registry : elementsContainer_elements w = empty_obj;
  blank_handlers : change_handlers w = [];
  blank_key : getElementKey w = default_getElementKey;
  blank_callbacks : callbacks_ok w;
}.

(** The stores a client can produce. *)
Inductive reachable : Engine → Prop :=
| reachable_init : reachable init
| reachable_step w c : reachable w → reachable (perform c w).2.

End calls.

(** ** Example scripts on the fixture host *)

(** A page of three fields [f0], [f1], [f2]. *)
Definition page3 : list node := fresh_page 3.

(** The templates of the examples. *)
Definition templates : list call :=
  [ AddState "checked" checked; AddState "visible" visible;
    AddModifier "show" show; AddModifier "bump" bump ].

(** The store with the templates and no relationship. *)
Definition w_templates : Engine := perform_all templates init.

(** Field 1 is shown when field 0 is checked. *)
Definition w_show : Engine :=
  perform_all [CreateRelationship page3 0 "checked" 1 "show" false] w_templates.

(** And field 2 is shown when field 1 is visible, with inheritance. *)
Definition w_chain : Engine :=
  perform_all [CreateRelationship page3 1 "visible" 2 "show" true] w_show.

(** ** The steps of [createRelationship] *)

Section steps.
Context `{Host}.
Implicit Types (w : Engine) (e dE pE : ElemId) (s : StateId) (m : ModId).

Lemma stable_related dE sn pE mn : stable (λ w, related w dE sn pE mn).
Proof. unfold related. solve_stable. Qed.

(** The State is attached when the element has none under the name. *)
Lemma attach_state_grows e key present :
  grows (λ w, ∃ E, element_heap w !! e = Some E ∧ present = obj_get key (el_states E))
    (if truthy present then ret tt
     else state <- statesContainer.get key ;; Element.attachState e key state)
    (λ _ _, True).
Proof.
  destruct (truthy present) eqn:Ht; [by apply grows_ret|].
  apply grows_cases. intros w Hwf (E & HE & ->).
  assert (obj_get key (el_states E) = Undefined) as Hfree
    by by apply obj_get_Undefined, truthy_false.
  destruct (statesContainer_get_cases key w) as [[cb Hget]|[err Hget]].
  - left. eexists tt, _. rewrite (bind_Ok _ _ _ _ _ Hget).
    split; [exact (new_attachState_eq e E key cb w HE)|].
    eauto using wf_new_attached_state, extends_new_attached_state.
  - right. exists err. by rewrite (bind_Throw _ _ _ _ _ Hget).
Qed.

Lemma attach_modifier_grows e key present :
  grows (λ w, ∃ E, element_heap w !! e = Some E ∧ present = obj_get key (el_modifiers E))
    (if truthy present then ret tt
     else modifier <- modifiersContainer.get key ;; Element.attachModifier e key modifier)
    (λ _ _, True).
Proof.
  destruct (truthy present) eqn:Ht; [by apply grows_ret|].
  apply grows_cases. intros w Hwf (E & HE & ->).
  assert (obj_get key (el_modifiers E) = Undefined) as Hfree
    by by apply obj_get_Undefined, truthy_false.
  destruct (modifiersContainer_get_cases key w) as [[cb Hget]|[err Hget]].
  - left. eexists tt, _. rewrite (bind_Ok _ _ _ _ _ Hget).
    split; [exact (new_attachModifier_eq e E key cb w HE)|].
    eauto using wf_new_attached_modifier, extends_new_attached_modifier.
  - right. exists err. by rewrite (bind_Throw _ _ _ _ _ Hget).
Qed.

Lemma stable_upstream_has dom d mn s : stable (λ w, upstream_has w dom d mn s).
Proof. unfold upstream_has. solve_stable. Qed.

Lemma stable_subscribed pE mn s : stable (λ w, subscribed w pE mn s).
Proof. unfold subscribed. solve_stable. Qed.

(** The snapshot of the subscription list of the upstream Modifier: it
    holds attached States, among them every State [L] that the Modifier was
    known to be subscribed to. *)
Lemma cascadingStates_grows e key upstream (L : list StateId) :
  grows (λ w, (∀ m', upstream = Own m' → modifier_of w e key = Some m') ∧
              (∀ s, s ∈ L → ∃ m', upstream = Own m' ∧ s ∈ subscriptions w m'))
    (cascadingStates_of upstream)
    (λ snapshot w, (∀ s, s ∈ snapshot → attached_state w s) ∧
                   (∀ s, s ∈ L → s ∈ snapshot)).
Proof.
  apply grows_read. intros w Hwf [Hup HL]. destruct upstream as [m'| |]; simpl.
  - destruct (wf_modifier_of w e key m' Hwf (Hup _ eq_refl)) as (M & HM & _).
    rewrite bind_read_modifier, HM. split; [done|]. intros ? [= <-].
    assert (subscriptions w m' = md_states M) as Hsub
      by (unfold subscriptions; by rewrite HM).
    split; intros s Hs.
    + apply (wf_subscriptions_attached w m'); [done|]. by rewrite Hsub.
    + destruct (HL s Hs) as (? & [= <-] & ?). by rewrite <- Hsub.
  - split; [done|]. intros ? [= <-]. split; [by intros s ?%elem_of_nil|].
    intros s Hs. by destruct (HL s Hs) as (? & ? & _).
  - done.
Qed.

(** The inheritance: the dependent's Modifier subscribes to every State of
    the snapshot. *)
Lemma inherit_loop_grows subModifier (snapshot : list StateId) :
  grows (λ w, (∀ m, subModifier = Own m → attached_modifier w m) ∧
              (∀ s, s ∈ snapshot → attached_state w s))
    (for_each (λ s, invoke subModifier (λ m, Modifier.subscribe m (Own s))) snapshot)
    (λ _ w, ∀ s, s ∈ snapshot →
       ∃ m, subModifier = Own m ∧ s ∈ subscriptions w m ∧ m ∈ subscribers w s).
Proof.
  eapply grows_conseq;
    [apply (grows_for_each_post _
              (λ s w, ∃ m, subModifier = Own m ∧ s ∈ subscriptions w m ∧
                           m ∈ subscribers w s))
    |intros w _ HP; exact HP|].
  - intros s. solve_stable.
  - intros s Hs. eapply grows_conseq;
      [apply (grows_frame (λ w, (∀ m, subModifier = Own m → attached_modifier w m) ∧
                                (∀ s, s ∈ snapshot → attached_state w s)));
         [solve_stable|apply (invoke_subscribe_grows subModifier (Own s))]|..];
      naive_solver.
  - naive_solver.
Qed.

(** The last statement of [createRelationship]: the States [L] that the
    dependency's Modifier of the same name was subscribed to are inherited. *)
Lemma inherit_grows dE mn subModifier (inheritState : bool) (L : list StateId) :
  grows (λ w, is_Some (element_heap w !! dE) ∧
              (∀ m, subModifier = Own m → attached_modifier w m) ∧
              (∀ s, s ∈ L → ∃ m', modifier_of w dE mn = Some m' ∧ s ∈ subscriptions w m'))
    (if inheritState then
       upstream <- Element.getModifier dE mn ;;
       if truthy upstream then
         cascadingStates <- cascadingStates_of upstream ;;
         for_each (λ s, invoke subModifier (λ m, Modifier.subscribe m (Own s)))
           cascadingStates
       else ret tt
     else ret tt)
    (λ _ w, inheritState = true → ∀ s, s ∈ L →
       ∃ m, subModifier = Own m ∧ s ∈ subscriptions w m ∧ m ∈ subscribers w s).
Proof.
  destruct inheritState; [|by apply grows_ret].
  pose (φ := λ w, ∀ m, subModifier = Own m → attached_modifier w m).
  assert (stable φ) by (unfold φ; solve_stable).
  eapply (grows_bind_frame
            (λ w, φ w ∧ ∀ s, s ∈ L → ∃ m', modifier_of w dE mn = Some m' ∧
                                           s ∈ subscriptions w m'));
    [solve_stable|apply getModifier_grows|naive_solver|]. intros upstream.
  eapply grows_conseq with
    (P' := λ w, ((∀ m', upstream = Own m' → modifier_of w dE mn = Some m') ∧
                 (∀ s, s ∈ L → ∃ m', upstream = Own m' ∧ s ∈ subscriptions w m')) ∧ φ w);
    [|intros w _ ((E & HE & ->) & Hφ & HL); split; [split|done]
     |intros ? w _ HQ; exact HQ].
  - destruct (truthy upstream) eqn:Ht.
    + eapply (grows_bind_frame φ);
        [done|apply (cascadingStates_grows dE mn _ L)|done|]. intros snapshot.
      eapply grows_conseq;
        [apply (grows_frame (λ _, ∀ s, s ∈ L → s ∈ snapshot));
           [solve_stable|apply inherit_loop_grows]|naive_solver..].
    + apply grows_ret. intros w [[_ HL] _] _ s Hs.
      destruct (HL s Hs) as (m' & -> & _). done.
  - intros m' Hm'. unfold modifier_of. rewrite HE. simpl. symmetry in Hm'.
    by apply obj_get_Own.
  - intros s Hs. destruct (HL s Hs) as (m' & Hm' & ?). exists m'. split; [|done].
    unfold modifier_of in Hm'. rewrite HE in Hm'. by apply obj_get_Own.
Qed.

End steps.

#[export] Hint Resolve stable_related stable_upstream_has stable_subscribed : fdeps.

(** ** [createRelationship] as a whole *)

Section create.
Context `{Host}.
Implicit Types (w : Engine) (e dE pE : ElemId) (s : StateId) (m : ModId).

(** The facts about the two values read back before the subscription. *)
Lemma read_back_attached w dE sn pE mn pubState subModifier :
  wf w →
  (∀ m, subModifier = Own m → modifier_of w pE mn = Some m) →
  (∀ s, pubState = Own s → state_of w dE sn = Some s) →
  (∀ m, subModifier = Own m → attached_modifier w m) ∧
  (∀ s, pubState = Own s → attached_state w s).
Proof.
  intros Hwf Hm Hs. split; intros x Hx.
  - eapply wf_modifier_of_attached; eauto.
  - eapply wf_state_of_attached; eauto.
Qed.

(** The upstream Modifier is the one of the element [resolve] returned. *)
Lemma upstream_resolved w dom d mn dE s :
  wf w → resolves w dom d dE → upstream_has w dom d mn s →
  ∃ m', modifier_of w dE mn = Some m' ∧ s ∈ subscriptions w m'.
Proof.
  intros Hwf [_ Hreg] (dE0 & m' & Hd & ? & ?). exists m'. rewrite Hreg in Hd.
  - by simplify_eq.
  - intros Hk. rewrite Hk, obj_wf_own_get_proto in Hd; [done|apply Hwf].
Qed.

(** [createRelationship] grows the store, whatever it is given; when it
    returns, the two elements are those of the two references and the named
    Modifier of the dependent is subscribed to the named State of the
    dependency and, with [inheritState], to the States [L] that the
    dependency's Modifier of the same name was subscribed to before. *)
Lemma createRelationship_grows dom d sn p mn inheritState (L : list StateId) :
  grows (λ w, ∀ s, s ∈ L → upstream_has w dom d mn s)
    (that.createRelationship dom d sn p mn inheritState)
    (λ _ w, ∃ dE pE, resolves w dom d dE ∧ resolves w dom p pE ∧
                     related w dE sn pE mn ∧
                     (inheritState = true → ∀ s, s ∈ L → subscribed w pE mn s)).
Proof.
  unfold that.createRelationship.
  pose (U := λ w, ∀ s, s ∈ L → upstream_has w dom d mn s).
  assert (stable U) by (unfold U; solve_stable).
  eapply (grows_bind_frame U); [done|apply resolve_grows|done|]. intros dE.
  pose (φ := λ w, resolves w dom d dE ∧ U w).
  assert (stable φ) by (unfold φ; solve_stable).
  eapply (grows_bind_frame φ);
    [done|apply getState_grows|unfold φ, resolves; naive_solver|]. intros present.
  eapply (grows_bind_frame φ); [done|apply attach_state_grows|naive_solver|]. intros ?.
  eapply (grows_bind_frame φ); [done|apply resolve_grows|naive_solver|]. intros pE.
  pose (ψ := λ w, resolves w dom p pE ∧ φ w).
  assert (stable ψ) by (unfold ψ; solve_stable).
  eapply (grows_bind_frame ψ);
    [done|apply getModifier_grows|unfold ψ, resolves; naive_solver|]. intros present'.
  eapply (grows_bind_frame ψ); [done|apply attach_modifier_grows|naive_solver|]. intros ?.
  eapply (grows_bind_frame ψ);
    [done|apply (getState_Own dE sn)|unfold ψ, φ, resolves; naive_solver|].
  intros pubState.
  eapply (grows_bind_frame (λ w, (∀ s, pubState = Own s → state_of w dE sn = Some s) ∧ ψ w));
    [solve_stable|apply (getModifier_Own pE mn)|unfold ψ, resolves; naive_solver|].
  intros subModifier.
  eapply (grows_bind_frame
            (λ w, (∀ m, subModifier = Own m → modifier_of w pE mn = Some m) ∧
                  (∀ s, pubState = Own s → state_of w dE sn = Some s) ∧ ψ w));
    [solve_stable|apply invoke_subscribe_grows| |].
  { intros w Hwf (? & ? & ?). eauto using read_back_attached. }
  intros ?. eapply grows_conseq;
    [apply (grows_frame
              (λ w, (∀ m, subModifier = Own m → modifier_of w pE mn = Some m) ∧
                    related w dE sn pE mn ∧ ψ w));
       [solve_stable|apply (inherit_grows dE mn subModifier inheritState L)]|..].
  - intros w Hwf ((m & s & -> & -> & ? & ?) & Hm & Hs & Hψ).
    pose proof Hψ as (_ & Hd & HU).
    split; [split; [apply Hd|split]|split; [done|split; [|done]]].
    + intros m0 [= <-]. eapply wf_modifier_of_attached; eauto.
    + intros s0 Hs0. eapply upstream_resolved; eauto.
    + exists s, m. auto.
  - intros ? w _ (Hinh & Hm & ? & ? & ? & _). exists dE, pE.
    do 3 (split; [done|]). intros Hi s Hs.
    destruct (Hinh Hi s Hs) as (m & ? & ? & ?). exists m. auto.
Qed.

(** Without knowledge of the upstream. *)
Lemma createRelationship_plain dom d sn p mn inheritState :
  grows (λ _, True) (that.createRelationship dom d sn p mn inheritState)
    (λ _ w, ∃ dE pE, resolves w dom d dE ∧ resolves w dom p pE ∧
                     related w dE sn pE mn).
Proof.
  eapply grows_conseq; [apply (createRelationship_grows _ _ _ _ _ _ [])|..].
  - by intros w _ _ s ?%elem_of_nil.
  - naive_solver.
Qed.

End create.

(** ** The public object *)

Section api_lemmas.
Context `{Host}.
Implicit Types (w : Engine) (c : call).

Lemma wf_init : wf init.
Proof. apply wf_empty_engine. Qed.

Lemma FieldDependencies_addState_eq name callback w :
  FieldDependencies.addState name callback w =
    (Ok tt,
     set_statesContainer_states (container_add name (length (state_heap w)))
       (set_state_heap (λ h, h ++ [mkState None (Some callback) []]) w)).
Proof. done. Qed.

Lemma FieldDependencies_addModifier_eq name callback w :
  FieldDependencies.addModifier name callback w =
    (Ok tt,
     set_modifiersContainer_modifiers (container_add name (length (modifier_heap w)))
       (set_modifier_heap (λ h, h ++ [mkModifier None (Some callback) []]) w)).
Proof. done. Qed.

(** A template is registered: the store grows by one unattached object. *)
Lemma addState_grows name callback :
  grows (λ _, True) (FieldDependencies.addState name callback)
    (λ _ w, container_read st_element (λ S, bool_decide (is_Some (st_callback S)))
              State_members (state_heap w) name (statesContainer_states w)
            = Ok (MObject (length (state_heap w) - 1))).
Proof.
  apply grows_cases. intros w Hwf _. left. eexists tt, _.
  split; [apply FieldDependencies_addState_eq|].
  pose proof (wf_alloc_state w (mkState None (Some callback) []) Hwf eq_refl eq_refl) as Hwf'.
  split; [|split].
  - destruct Hwf'. split; simpl; try done.
    eapply templates_ok_add; [done|by apply list_lookup_middle|done].
  - split; simpl; try reflexivity; [apply (heap_le_snoc _)|apply obj_le_refl].
  - simpl. rewrite length_app, Nat.add_sub. simpl.
    apply container_read_add, (templates_obj _ _ _ (wf_state_templates _ Hwf)).
Qed.

Lemma addModifier_grows name callback :
  grows (λ _, True) (FieldDependencies.addModifier name callback)
    (λ _ w, container_read md_element (λ M, bool_decide (is_Some (md_callback M)))
              Modifier_members (modifier_heap w) name (modifiersContainer_modifiers w)
            = Ok (MObject (length (modifier_heap w) - 1))).
Proof.
  apply grows_cases. intros w Hwf _. left. eexists tt, _.
  split; [apply FieldDependencies_addModifier_eq|].
  pose proof (wf_alloc_modifier w (mkModifier None (Some callback) []) Hwf eq_refl eq_refl) as Hwf'.
  split; [|split].
  - destruct Hwf'. split; simpl; try done.
    eapply templates_ok_add; [done|by apply list_lookup_middle|done].
  - split; simpl; try reflexivity; [apply (heap_le_snoc _)|apply obj_le_refl].
  - simpl. rewrite length_app, Nat.add_sub. simpl.
    apply container_read_add, (templates_obj _ _ _ (wf_modifier_templates _ Hwf)).
Qed.

(** The key resolver is no part of the invariant. *)
Lemma setElementKeyCallback_wf callback w :
  wf w → wf (FieldDependencies.setElementKeyCallback callback w).2.
Proof. by intros []. Qed.

(** Every call of the public object maintains the invariant, whether it
    returns or throws. *)
Lemma perform_wf c w : wf w → wf (perform c w).2.
Proof.
  intros Hwf. destruct c as [name cb|name cb|dom d sn p mn i|cb]; simpl.
  - by apply (grows_elim _ _ _ w (addState_grows name cb)).
  - by apply (grows_elim _ _ _ w (addModifier_grows name cb)).
  - by apply (grows_elim _ _ _ w (createRelationship_plain dom d sn p mn i)).
  - by apply setElementKeyCallback_wf.
Qed.

Lemma perform_all_wf cs w : wf w → wf (perform_all cs w).
Proof.
  revert w. induction cs as [|c cs IH]; intros w Hwf; [done|].
  apply IH, perform_wf, Hwf.
Qed.

Lemma perform_all_app cs cs' w :
  perform_all (cs ++ cs') w = perform_all cs' (perform_all cs w).
Proof. unfold perform_all. by rewrite foldl_app. Qed.

(** Registrations leave the store blank. *)
Lemma blank_init : blank init.
Proof. by repeat split. Qed.

Lemma blank_perform_all cs w :
  Forall registration cs → blank w → blank (perform_all cs w).
Proof.
  intros Hcs. revert w. induction Hcs as [|c cs Hc _ IH]; intros w Hw; [done|].
  apply IH. destruct Hw as [? ? ? ? [Hs Hm]].
  destruct c as [name cb|name cb| |]; try done; split; try done; split; simpl; try done;
    (apply Forall_app; split; [done|by apply Forall_singleton]).
Qed.

Lemma perform_all_snoc cs c w :
  perform_all (cs ++ [c]) w = (perform c (perform_all cs w)).2.
Proof. unfold perform_all. by rewrite foldl_snoc. Qed.

End api_lemmas.

(** ** Callbacks *)

Section callable.
Context `{Host}.
Implicit Types (w : Engine) (c : call).

Lemma callable_attach_state e key (present : lookup StateId) :
  triple (λ w, callable w ∧ (truthy present = false → inherited key = false))
    (if truthy present then ret tt
     else state <- statesContainer.get key ;; Element.attachState e key state)
    (λ _, callable) callable.
Proof.
  destruct (truthy present); [apply triple_ret; naive_solver|].
  apply triple_pre with (P' := λ w, inherited key = false ∧ callable w); [|naive_solver].
  apply triple_assume. intros Hk.
  eapply triple_bind; [by apply callable_statesContainer_get|].
  intros ?. apply callable_attachState.
Qed.

Lemma callable_attach_modifier e key (present : lookup ModId) :
  triple (λ w, callable w ∧ (truthy present = false → inherited key = false))
    (if truthy present then ret tt
     else modifier <- modifiersContainer.get key ;; Element.attachModifier e key modifier)
    (λ _, callable) callable.
Proof.
  destruct (truthy present); [apply triple_ret; naive_solver|].
  apply triple_pre with (P' := λ w, inherited key = false ∧ callable w); [|naive_solver].
  apply triple_assume. intros Hk.
  eapply triple_bind; [by apply callable_modifiersContainer_get|].
  intros ?. apply callable_attachModifier.
Qed.

Lemma callable_invoke_subscribe subModifier state :
  triple callable (invoke subModifier (λ m, Modifier.subscribe m state))
    (λ _, callable) callable.
Proof. destruct subModifier; simpl; [apply callable_subscribe|by apply triple_throw..]. Qed.

Lemma callable_cascadingStates_of upstream :
  triple callable (cascadingStates_of upstream) (λ _, callable) callable.
Proof.
  intros w Hw. destruct upstream as [m| |]; simpl; [|done..].
  rewrite bind_read_modifier. by destruct (modifier_heap w !! m).
Qed.

(** [createRelationship] keeps the stores callable. *)
Lemma callable_createRelationship dom d sn p mn inheritState :
  triple callable (that.createRelationship dom d sn p mn inheritState)
    (λ _, callable) callable.
Proof.
  unfold that.createRelationship.
  eapply triple_bind; [apply callable_resolve|]. intros dE.
  eapply triple_bind; [apply callable_getState|]. intros present.
  eapply triple_bind; [apply callable_attach_state|]. intros ?.
  eapply triple_bind; [apply callable_resolve|]. intros pE.
  eapply triple_bind; [apply callable_getModifier|]. intros present'.
  eapply triple_bind; [apply callable_attach_modifier|]. intros ?.
  eapply triple_bind with (Q' := λ _, callable);
    [eapply triple_conseq; [apply callable_getState|naive_solver..]|]. intros pubState.
  eapply triple_bind with (Q' := λ _, callable);
    [eapply triple_conseq; [apply callable_getModifier|naive_solver..]|]. intros subModifier.
  eapply triple_bind; [apply callable_invoke_subscribe|]. intros ?.
  destruct inheritState; [|by apply triple_ret].
  eapply triple_bind with (Q' := λ _, callable);
    [eapply triple_conseq; [apply callable_getModifier|naive_solver..]|]. intros upstream.
  destruct (truthy upstream); [|by apply triple_ret].
  eapply triple_bind; [apply callable_cascadingStates_of|]. intros snapshot.
  apply triple_for_each. intros s _. apply callable_invoke_subscribe.
Qed.

Lemma callable_init : callable init.
Proof. by repeat split. Qed.

Lemma callable_perform c :
  plain_call c → triple callable (perform c) (λ _, callable) callable.
Proof.
  intros Hc w [[Hs Hm] [Hps Hpm]].
  destruct c as [name cb|name cb|dom d sn p mn i|cb]; simpl in *.
  - repeat split; simpl; try done.
    + apply Forall_app. split; [done|]. by apply Forall_singleton.
    + unfold container_add. by rewrite decide_False.
  - repeat split; simpl; try done.
    + apply Forall_app. split; [done|]. by apply Forall_singleton.
    + unfold container_add. by rewrite decide_False.
  - by apply callable_createRelationship.
  - done.
Qed.

Lemma callable_perform_all cs w :
  Forall plain_call cs → callable w → callable (perform_all cs w).
Proof.
  intros Hcs. revert w. induction Hcs as [|c cs Hc _ IH]; intros w Hw; [done|].
  apply IH. by apply (triple_final _ _ _ _ (callable_perform c Hc)).
Qed.

End callable.

(** ** The subscriptions of a call, exactly *)

Section exact.
Context `{Host}.
Implicit Types (w : Engine) (e dE pE : ElemId) (s : StateId) (m : ModId).

(** The inheritance subscribes the Modifier to what the upstream Modifier
    has when the loop starts. *)
Lemma inherit_adds dE mn m w w' :
  (upstream <- Element.getModifier dE mn ;;
   if truthy upstream then
     cascadingStates <- cascadingStates_of upstream ;;
     for_each (λ s, invoke (Own m) (λ m, Modifier.subscribe m (Own s))) cascadingStates
   else ret tt) w = (Ok tt, w') →
  element_heap w' = element_heap w ∧ adds (upstream_states w dE mn) m w w'.
Proof.
  intros (upstream & ? & (-> & E & HE & ->)%getModifier_Ok_inv & Hrun)%bind_Ok_inv.
  unfold upstream_states, modifier_of. rewrite HE. simpl.
  unfold obj_get in Hrun. destruct (own_get mn (el_modifiers E)) as [mu|]; simpl in Hrun.
  - rewrite bind_assoc, bind_read_modifier in Hrun. unfold subscriptions.
    destruct (modifier_heap w !! mu) as [M|]; [|done]. by apply subscribe_all_adds.
  - destruct (inherited mn); simpl in Hrun; injection Hrun as <-; split;
      auto using adds_refl.
Qed.

(** A call that returns, step by step: the two elements, the stores between
    the steps, and what was read back before the subscription. *)
Lemma createRelationship_Ok_steps dom d sn p mn inheritState w w' :
  that.createRelationship dom d sn p mn inheritState w = (Ok tt, w') →
  ∃ dE w1 E w2 pE w3 E' w4 s m w5,
    elementsContainer.resolve dom d w = (Ok dE, w1) ∧ element_heap w1 !! dE = Some E ∧
    (if truthy (obj_get sn (el_states E)) then ret tt
     else state <- statesContainer.get sn ;; Element.attachState dE sn state) w1
      = (Ok tt, w2) ∧
    elementsContainer.resolve dom p w2 = (Ok pE, w3) ∧ element_heap w3 !! pE = Some E' ∧
    (if truthy (obj_get mn (el_modifiers E')) then ret tt
     else modifier <- modifiersContainer.get mn ;; Element.attachModifier pE mn modifier) w3
      = (Ok tt, w4) ∧
    adds [] m w w4 ∧ state_of w4 dE sn = Some s ∧ modifier_of w4 pE mn = Some m ∧
    element_heap w5 = element_heap w4 ∧ adds [s] m w4 w5 ∧
    (if inheritState then
       element_heap w' = element_heap w5 ∧ adds (upstream_states w5 dE mn) m w5 w'
     else w' = w5).
Proof.
  unfold that.createRelationship.
  intros (dE & w1 & Hd & Hrun)%bind_Ok_inv.
  apply bind_Ok_inv in Hrun as (? & ? & (-> & E & HE & ->)%getState_Ok_inv & Hrun).
  apply bind_Ok_inv in Hrun as ([] & w2 & Hs & Hrun).
  apply bind_Ok_inv in Hrun as (pE & w3 & Hp & Hrun).
  apply bind_Ok_inv in Hrun as (? & ? & (-> & E' & HE' & ->)%getModifier_Ok_inv & Hrun).
  apply bind_Ok_inv in Hrun as ([] & w4 & Hm & Hrun).
  apply bind_Ok_inv in Hrun as (? & ? & (-> & Ed & HEd & ->)%getState_Ok_inv & Hrun).
  apply bind_Ok_inv in Hrun as (? & ? & (-> & Ep & HEp & ->)%getModifier_Ok_inv & Hrun).
  apply bind_Ok_inv in Hrun
    as ([] & w5 & (m & s & Hsm & Hps & Hel & Hadd)%invoke_subscribe_Ok_inv & Hrun).
  exists dE, w1, E, w2, pE, w3, E', w4, s, m, w5. split_and!; [done..| | | |done|done|].
  - pose proof (proj1 (resolve_adds dom d m _ _ _ Hd)).
    pose proof (attach_state_adds dE E sn m _ _ HE Hs).
    pose proof (proj1 (resolve_adds dom p m _ _ _ Hp)).
    pose proof (attach_modifier_adds pE E' mn m _ _ HE' Hm). eauto using adds_quiet_l.
  - unfold state_of. rewrite HEd. by apply obj_get_Own.
  - unfold modifier_of. rewrite HEp. by apply obj_get_Own.
  - destruct inheritState; [|by injection Hrun]. rewrite Hsm in Hrun.
    by apply inherit_adds.
Qed.

(** The same, by what the steps have added to the subscription lists. *)
Lemma createRelationship_Ok_inv dom d sn p mn inheritState w w' :
  that.createRelationship dom d sn p mn inheritState w = (Ok tt, w') →
  ∃ dE pE s m w4 w5,
    adds [] m w w4 ∧ names w4 dom d dE ∧ names w4 dom p pE ∧
    state_of w4 dE sn = Some s ∧ modifier_of w4 pE mn = Some m ∧
    element_heap w5 = element_heap w4 ∧ adds [s] m w4 w5 ∧
    (if inheritState then
       element_heap w' = element_heap w5 ∧ adds (upstream_states w5 dE mn) m w5 w'
     else w' = w5).
Proof.
  intros (dE & w1 & E & w2 & pE & w3 & E' & w4 & s & m & w5 & Hd & HE & Hs & Hp & HE' & Hm &
          H4 & Hrest)%createRelationship_Ok_steps.
  destruct (resolve_adds dom d m _ _ _ Hd) as [H1 Hnd].
  pose proof (attach_state_adds dE E sn m _ _ HE Hs) as H2.
  destruct (resolve_adds dom p m _ _ _ Hp) as [H3 Hnp].
  pose proof (attach_modifier_adds pE E' mn m _ _ HE' Hm) as H4'.
  exists dE, pE, s, m, w4, w5. split_and!; [done|..|apply Hrest|apply Hrest|apply Hrest|apply Hrest|apply Hrest].
  - eapply names_extends; [|done]. etrans; [|etrans]; eapply adds_extends; done.
  - eapply names_extends; [|done]. eapply adds_extends; done.
Qed.

(** In a well-formed store the inheritance returns. *)
Lemma inherit_returns dE mn m (inheritState : bool) w :
  wf w → is_Some (element_heap w !! dE) → is_Some (modifier_heap w !! m) →
  ((if inheritState then
      upstream <- Element.getModifier dE mn ;;
      if truthy upstream then
        cascadingStates <- cascadingStates_of upstream ;;
        for_each (λ s, invoke (Own m) (λ m, Modifier.subscribe m (Own s))) cascadingStates
      else ret tt
    else ret tt) w).1 = Ok tt.
Proof.
  intros Hwf [E HE] Hm. destruct inheritState; [|done].
  erewrite bind_Ok by by apply getModifier_eq.
  destruct (obj_get mn (el_modifiers E)) as [mu| |] eqn:Hmu; simpl; [|done..].
  destruct (wf_modifier_of w dE mn mu Hwf) as (M & HM & _);
    [unfold modifier_of; rewrite HE; by apply obj_get_Own|].
  rewrite bind_assoc, bind_read_modifier, HM, bind_ret_l.
  apply (subscribe_all_returns m (md_states M) w); [done|].
  intros s Hs. destruct (wf_subscriptions_attached w mu s Hwf) as (S & ? & _); [|by eexists].
  unfold subscriptions. by rewrite HM.
Qed.

(** The rest of the call, from the two reads that follow the attachments:
    in a well-formed store it throws only when a value read back is not an
    object of the engine, and then it has written nothing. *)
Lemma after_attachments_throws dE pE sn mn (inheritState : bool) err w w' :
  wf w →
  (pubState <- Element.getState dE sn ;;
   subModifier <- Element.getModifier pE mn ;;
   invoke subModifier (λ m, Modifier.subscribe m pubState) ;;
   if inheritState then
     upstream <- Element.getModifier dE mn ;;
     if truthy upstream then
       cascadingStates <- cascadingStates_of upstream ;;
       for_each (λ s, invoke subModifier (λ m, Modifier.subscribe m (Own s)))
         cascadingStates
     else ret tt
   else ret tt) w = (Throw err, w') →
  w' = w.
Proof.
  intros Hwf Hrun.
  apply bind_Throw_inv in Hrun
    as [->%getState_Throw_inv|(? & ? & (-> & Ed & HEd & ->)%getState_Ok_inv & Hrun)]; [done|].
  apply bind_Throw_inv in Hrun
    as [->%getModifier_Throw_inv|(? & ? & (-> & Ep & HEp & ->)%getModifier_Ok_inv & Hrun)];
    [done|].
  assert (∀ m, obj_get mn (el_modifiers Ep) = Own m → is_Some (modifier_heap w !! m)) as Hm.
  { intros m Hm%obj_get_Own. destruct (wf_modifier_of w pE mn m Hwf) as (M & ? & _); [|eauto].
    unfold modifier_of. by rewrite HEp. }
  assert (∀ s, obj_get sn (el_states Ed) = Own s → is_Some (state_heap w !! s)) as Hs.
  { intros s Hs%obj_get_Own. destruct (wf_state_of w dE sn s Hwf) as (S & ? & _); [|eauto].
    unfold state_of. by rewrite HEd. }
  apply bind_Throw_inv in Hrun as [Hrun|([] & w5 & Hsub & Hrun)];
    [by apply invoke_subscribe_Throw_inv in Hrun|].
  pose proof Hsub as (m & s & Hsm & Hps & Hel & Hadd)%invoke_subscribe_Ok_inv.
  rewrite Hsm in Hrun.
  assert (wf w5) as Hwf5.
  { apply (grows_wf _ _ _ w _ _ (invoke_subscribe_grows _ _) Hwf) in Hsub; [done|].
    apply (read_back_attached w dE sn pE mn); [done|..]; intros x Hx%obj_get_Own.
    - unfold modifier_of. by rewrite HEp.
    - unfold state_of. by rewrite HEd. }
  pose proof (inherit_returns dE mn m inheritState w5 Hwf5) as Hok.
  rewrite Hrun in Hok. discriminate Hok.
  - rewrite Hel. eauto.
  - destruct (Hm m Hsm) as [M HM].
    destruct (ext_modifiers _ _ (adds_extends _ _ _ _ Hadd) _ _ HM) as (M' & ? & _). eauto.
Qed.

(** The stores of the steps before the subscription are well-formed. *)
Lemma attach_state_wf e E key w r w' :
  wf w → element_heap w !! e = Some E →
  (if truthy (obj_get key (el_states E)) then ret tt
   else state <- statesContainer.get key ;; Element.attachState e key state) w = (r, w') →
  wf w'.
Proof. intros Hwf HE. apply (grows_wf _ _ _ w _ _ (attach_state_grows e key _)); eauto. Qed.

Lemma attach_modifier_wf e E key w r w' :
  wf w → element_heap w !! e = Some E →
  (if truthy (obj_get key (el_modifiers E)) then ret tt
   else modifier <- modifiersContainer.get key ;; Element.attachModifier e key modifier) w
    = (r, w') →
  wf w'.
Proof. intros Hwf HE. apply (grows_wf _ _ _ w _ _ (attach_modifier_grows e key _)); eauto. Qed.

End exact.

(** ** Correctness of the construction *)

Section correctness.
Context `{Host}.
Implicit Types (w : Engine) (c : call).

(** C2: what a call of [createRelationship] that returns has done to the
    graph, exactly, in any store: the dependency names a State [s] under the
    State name, the dependent a Modifier [m] under the Modifier name, and the
    subscription lists are those of before with [m] at the end of the
    subscribers of [s] and [s] at the end of the subscriptions of [m]; with
    [inheritState], after them, [m] subscribed to each subscription of the
    dependency's Modifier of the same name, which include [s] when that
    Modifier is [m].  No other list has changed, and every object, name and
    registration of before is as it was. *)
Theorem createRelationship_edges w w' dom d sn p mn inheritState :
  that.createRelationship dom d sn p mn inheritState w = (Ok tt, w') →
  ∃ dE pE s m,
    names w' dom d dE ∧ names w' dom p pE ∧
    state_of w' dE sn = Some s ∧ modifier_of w' pE mn = Some m ∧
    adds (s :: if inheritState then inheritance w w' dE mn s m else []) m w w'.
Proof.
  intros (dE & pE & s & m & w4 & w5 & H4 & Hnd & Hnp & Hs & Hm & Hel & Hadd & Hinh)
    %createRelationship_Ok_inv.
  assert (adds [s] m w w5) as H5 by by eapply adds_quiet_l.
  assert (element_heap w' = element_heap w5 ∧
          adds (if inheritState then upstream_states w5 dE mn else []) m w5 w')
    as [Hel' Hinh']
    by (destruct inheritState; [done|subst; split; [done|apply adds_refl]]).
  assert (extends w4 w') as Hext
    by (etrans; [apply (adds_extends _ _ _ _ Hadd)|apply (adds_extends _ _ _ _ Hinh')]).
  exists dE, pE, s, m. split_and!; try by eapply names_extends.
  - unfold state_of in *. by rewrite Hel', Hel.
  - unfold modifier_of in *. by rewrite Hel', Hel.
  - replace (if inheritState then inheritance w w' dE mn s m else [])
      with (if inheritState then upstream_states w5 dE mn else []);
      [by apply (adds_app [s] _ m w w5 w')|].
    destruct inheritState; [|done]. unfold upstream_states, inheritance, modifier_of.
    rewrite Hel'. destruct (element_heap w5 !! dE ≫= _) as [mu|]; [|done].
    by apply adds_single in H5 as [_ ->].
Qed.

(** C33: a call of [createRelationship] that throws has subscribed nothing:
    in a well-formed store, whatever the exception, the store it leaves is
    the store of before grown (an element it registered, a State it
    attached stay), with every subscription list as it was.  The
    subscription and the inheritance cannot throw there, so a call
    subscribes exactly when it returns. *)
Theorem createRelationship_throws_quiet w w' dom d sn p mn inheritState err m :
  wf w →
  that.createRelationship dom d sn p mn inheritState w = (Throw err, w') →
  adds [] m w w'.
Proof.
  intros Hwf Hrun. unfold that.createRelationship in Hrun.
  apply bind_Throw_inv in Hrun as [->%resolve_Throw_inv|(dE & w1 & Hd & Hrun)];
    [apply adds_refl|].
  destruct (resolve_adds dom d m _ _ _ Hd) as [H1 _].
  pose proof (grows_wf _ _ _ w _ _ (resolve_grows dom d) Hwf I Hd) as Hwf1.
  apply bind_Throw_inv in Hrun
    as [->%getState_Throw_inv|(? & ? & (-> & E & HE & ->)%getState_Ok_inv & Hrun)]; [done|].
  apply bind_Throw_inv in Hrun as [->%(attach_state_Throw_inv dE E)|([] & w2 & Hs & Hrun)];
    [done..|].
  pose proof (adds_quiet_l _ _ _ _ _ H1 (attach_state_adds dE E sn m _ _ HE Hs)) as H2.
  pose proof (attach_state_wf _ _ _ _ _ _ Hwf1 HE Hs) as Hwf2.
  apply bind_Throw_inv in Hrun as [->%resolve_Throw_inv|(pE & w3 & Hp & Hrun)]; [done|].
  pose proof (adds_quiet_l _ _ _ _ _ H2 (proj1 (resolve_adds dom p m _ _ _ Hp))) as H3.
  pose proof (grows_wf _ _ _ w2 _ _ (resolve_grows dom p) Hwf2 I Hp) as Hwf3.
  apply bind_Throw_inv in Hrun
    as [->%getModifier_Throw_inv|(? & ? & (-> & E' & HE' & ->)%getModifier_Ok_inv & Hrun)];
    [done|].
  apply bind_Throw_inv in Hrun
    as [->%(attach_modifier_Throw_inv pE E')|([] & w4 & Hm & Hrun)]; [done..|].
  pose proof (adds_quiet_l _ _ _ _ _ H3 (attach_modifier_adds pE E' mn m _ _ HE' Hm)) as H4.
  pose proof (attach_modifier_wf _ _ _ _ _ _ Hwf3 HE' Hm) as Hwf4.
  by rewrite (after_attachments_throws dE pE sn mn inheritState err w4 w' Hwf4 Hrun).
Qed.

(** C35: a relationship of an element with itself, with inheritance.  The
    Modifier of the dependency under the Modifier name is the Modifier that
    has just subscribed, so the list the inheritance enumerates is its own,
    the new State included: the Modifier subscribes again to everything it
    was subscribed to, and to the new State twice.  Every such call doubles
    the subscription list and adds two. *)
Theorem self_relationship_doubles w w' dom d sn mn :
  getElementKey w d dom ≠ "__proto__" →
  that.createRelationship dom d sn d mn true w = (Ok tt, w') →
  ∃ e s m,
    state_of w' e sn = Some s ∧ modifier_of w' e mn = Some m ∧
    subscriptions w' m = (subscriptions w m ++ [s]) ++ (subscriptions w m ++ [s]) ∧
    subscribers w' s =
      subscribers w s ++ replicate (2 + occurrences s (subscriptions w m)) m.
Proof.
  intros Hk (dE & pE & s & m & w4 & w5 & H4 & Hnd & Hnp & Hs & Hm & Hel & H5 & Hel' & Hinh)
    %createRelationship_Ok_inv.
  rewrite <- (ext_key _ _ (adds_extends _ _ _ _ H4)) in Hk.
  assert (pE = dE) as -> by (specialize (Hnd Hk); specialize (Hnp Hk); congruence).
  assert (subscriptions w4 m = subscriptions w m) as H4m
    by (rewrite (adds_subscriptions _ _ _ _ H4); case_decide; apply app_nil_r).
  assert (subscriptions w5 m = subscriptions w m ++ [s]) as H5m
    by (rewrite (adds_subscriptions _ _ _ _ H5), H4m; by rewrite decide_True).
  assert (upstream_states w5 dE mn = subscriptions w m ++ [s]) as Hup.
  { unfold upstream_states, modifier_of in *. by rewrite Hel, Hm. }
  rewrite Hup in Hinh. exists dE, s, m. split_and!.
  - unfold state_of in *. by rewrite Hel', Hel.
  - unfold modifier_of in *. by rewrite Hel', Hel.
  - by rewrite (adds_subscriptions _ _ _ _ Hinh), decide_True, H5m.
  - rewrite (adds_subscribers _ _ _ _ Hinh), (adds_subscribers _ _ _ _ H5),
      (adds_subscribers _ _ _ _ H4), occurrences_nil, app_nil_r, <- app_assoc,
      <- replicate_add, occurrences_app.
    rewrite !occurrences_cons, occurrences_nil, decide_True by done. do 2 f_equal. lia.
Qed.

(** C1: when [createRelationship] returns, the two elements are registered
    for the two host references, the dependency has the named State, the
    dependent has the named Modifier, and the Modifier and the State have
    each other in their subscription lists. *)
Theorem createRelationship_links w w' dom d sn p mn inheritState :
  wf w →
  that.createRelationship dom d sn p mn inheritState w = (Ok tt, w') →
  ∃ dE pE, resolves w' dom d dE ∧ resolves w' dom p pE ∧ related w' dE sn pE mn.
Proof.
  intros Hwf Hrun.
  destruct (grows_elim _ _ _ w (createRelationship_plain dom d sn p mn inheritState) Hwf I)
    as (_ & _ & HQ).
  rewrite Hrun in HQ. by apply (HQ tt).
Qed.

(** C4: [createRelationship] maintains the invariant of the store on every
    outcome: also when it throws half-way, every attached instance is named
    by its element under one ordinary key, the subscription lists agree in
    both directions, and every element has its change handler. *)
Theorem createRelationship_preserves_wf w dom d sn p mn inheritState :
  wf w → wf (final (that.createRelationship dom d sn p mn inheritState) w).
Proof.
  intros Hwf. by apply (grows_elim _ _ _ w (createRelationship_plain dom d sn p mn inheritState)).
Qed.

(** [createRelationship] only adds: every object stays at its
    reference, an attached instance stays with its element, every name of
    an element keeps its instance, every subscription list is extended at
    its end, and the handlers bound before are still bound, in order. *)
Theorem createRelationship_extends w dom d sn p mn inheritState :
  wf w → extends w (final (that.createRelationship dom d sn p mn inheritState) w).
Proof.
  intros Hwf. by apply (grows_elim _ _ _ w (createRelationship_plain dom d sn p mn inheritState)).
Qed.

(** C18: every store a client can reach through the public object is
    well-formed. *)
Theorem reachable_wf w : reachable w → wf w.
Proof. induction 1; [apply wf_init|by apply perform_wf]. Qed.

(** The reachable stores are the results of scripts. *)
Theorem reachable_iff_script w : reachable w ↔ ∃ cs, w = perform_all cs init.
Proof.
  split.
  - induction 1 as [|w c _ [cs ->]]; [by exists []|].
    exists (cs ++ [c]). by rewrite perform_all_snoc.
  - intros [cs ->]. induction cs as [|c cs IH] using rev_ind; [constructor|].
    rewrite perform_all_snoc. by constructor.
Qed.

(** After any script, a Modifier occurs in the subscriber list of a
    State exactly as often as the State occurs in the subscription list of
    the Modifier. *)
Theorem script_edges_agree (cs : list call) s m :
  occurrences m (subscribers (perform_all cs init) s) =
  occurrences s (subscriptions (perform_all cs init) m).
Proof. apply wf_edges, perform_all_wf, wf_init. Qed.

(** After any script, the change handlers are those of the elements:
    one per element, bound on the host reference the element was built
    for, in the order of construction. *)
Theorem script_handlers (cs : list call) :
  change_handlers (perform_all cs init) =
  handlers_of (element_heap (perform_all cs init)).
Proof. apply wf_handlers, perform_all_wf, wf_init. Qed.

(** With [inheritState], the dependent's Modifier is also subscribed to
    every State that the dependency's Modifier of the same name was
    subscribed to before the call. *)
Theorem createRelationship_inherits w w' dom d sn p mn s :
  wf w → upstream_has w dom d mn s →
  that.createRelationship dom d sn p mn true w = (Ok tt, w') →
  ∃ pE, resolves w' dom p pE ∧ subscribed w' pE mn s.
Proof.
  intros Hwf Hup Hrun.
  destruct (grows_elim _ _ _ w (createRelationship_grows dom d sn p mn true [s]) Hwf)
    as (_ & _ & HQ); [by intros ? ->%list_elem_of_singleton|].
  rewrite Hrun in HQ. destruct (HQ tt eq_refl) as (dE & pE & _ & ? & _ & Hinh).
  exists pE. split; [done|]. apply Hinh; [done|left].
Qed.

(** C17: a template that was registered under a name, whatever the name, is
    what the container instantiates for the name: [get] returns a new,
    unattached State without subscribers that carries the callback of the
    last registration. *)
Theorem addState_get name callback w :
  wf w →
  ∃ w', statesContainer.get name (final (FieldDependencies.addState name callback) w) =
          (Ok (S (length (state_heap w))), w') ∧
        state_heap w' !! S (length (state_heap w)) = Some (mkState None (Some callback) []).
Proof.
  intros Hwf.
  destruct (grows_elim _ _ _ w (addState_grows name callback) Hwf I) as (_ & _ & HQ).
  specialize (HQ tt eq_refl). unfold final in *. rewrite FieldDependencies_addState_eq in *. simpl in HQ.
  unfold statesContainer.get, statesContainer.read. rewrite bind_read. simpl. rewrite HQ.
  rewrite length_app, Nat.add_sub, bind_assoc, bind_read_state. simpl.
  rewrite list_lookup_middle, bind_ret_l by done.
  unfold new_State, new_Modifier, alloc_state, alloc_modifier. simpl.
  rewrite length_app, Nat.add_1_r. simpl. eexists. split; [reflexivity|]. simpl.
  apply list_lookup_middle. rewrite length_app. simpl. lia.
Qed.

(** The same for Modifiers. *)
Theorem addModifier_get name callback w :
  wf w →
  ∃ w', modifiersContainer.get name (final (FieldDependencies.addModifier name callback) w) =
          (Ok (S (length (modifier_heap w))), w') ∧
        modifier_heap w' !! S (length (modifier_heap w)) =
          Some (mkModifier None (Some callback) []).
Proof.
  intros Hwf.
  destruct (grows_elim _ _ _ w (addModifier_grows name callback) Hwf I) as (_ & _ & HQ).
  specialize (HQ tt eq_refl). unfold final in *. rewrite FieldDependencies_addModifier_eq in *. simpl in HQ.
  unfold modifiersContainer.get, modifiersContainer.read. rewrite bind_read. simpl. rewrite HQ.
  rewrite length_app, Nat.add_sub, bind_assoc, bind_read_modifier. simpl.
  rewrite list_lookup_middle, bind_ret_l by done.
  unfold new_State, new_Modifier, alloc_state, alloc_modifier. simpl.
  rewrite length_app, Nat.add_1_r. simpl. eexists. split; [reflexivity|]. simpl.
  apply list_lookup_middle. rewrite length_app. simpl. lia.
Qed.

End correctness.

(** ** Error paths and repeated calls *)

Section outcomes.
Context `{Host}.
Implicit Types (w : Engine) (e dE pE : ElemId) (s : StateId) (m : ModId).

(** After [resolve], the element either was there or is new and empty. *)
Lemma resolve_Ok_element dom ref w :
  wf w → ¬ poisoned w →
  ∃ e E, elementsContainer.resolve dom ref w =
           (Ok e, final (elementsContainer.resolve dom ref) w) ∧
         element_heap (final (elementsContainer.resolve dom ref) w) !! e = Some E ∧
         ((own_get (getElementKey w ref dom) (elementsContainer_elements w) = Some e ∧
           element_heap w !! e = Some E) ∨
          (own_get (getElementKey w ref dom) (elementsContainer_elements w) = None ∧
           E = mkElement ref empty_obj empty_obj)).
Proof.
  intros Hwf Hp. unfold final.
  destruct (own_get (getElementKey w ref dom) (elementsContainer_elements w))
    as [e|] eqn:He.
  - destruct (wf_registry _ Hwf _ _ He) as [E HE]. exists e, E.
    erewrite resolve_hit by done. eauto.
  - eexists _, _. rewrite resolve_miss by done. simpl.
    split; [done|]. split; [by apply list_lookup_middle|]. eauto.
Qed.

(** The templates are not touched by [resolve]. *)
Lemma resolve_templates dom ref w :
  statesContainer_states (final (elementsContainer.resolve dom ref) w) = statesContainer_states w ∧
  modifiersContainer_modifiers (final (elementsContainer.resolve dom ref) w) =
    modifiersContainer_modifiers w.
Proof.
  unfold final. destruct (decide (poisoned w)); [by rewrite resolve_poisoned|].
  destruct (own_get (getElementKey w ref dom) (elementsContainer_elements w)) eqn:He.
  - by erewrite resolve_hit.
  - by rewrite resolve_miss.
Qed.

(** C36: a State name that was never registered, that [Object.prototype]
    does not have and that the dependency does not carry yet:
    [createRelationship] throws when it reads the callback of the missing
    template.  The dependency element stays registered; nothing else was
    written. *)
Theorem createRelationship_unknown_state w dom d sn p mn inheritState :
  wf w → ¬ poisoned w →
  own_get sn (tpl_own (statesContainer_states w)) = None →
  tpl_proto (statesContainer_states w) = None → inherited sn = false →
  (∀ e, own_get (getElementKey w d dom) (elementsContainer_elements w) = Some e →
        state_of w e sn = None) →
  that.createRelationship dom d sn p mn inheritState w =
    (Throw TypeError_undefined, final (elementsContainer.resolve dom d) w).
Proof.
  intros Hwf Hp Hown Hproto Hinh Hnone.
  destruct (resolve_Ok_element dom d w Hwf Hp) as (e & E & Hr & HE & Hcase).
  destruct (resolve_templates dom d w) as [Hst _].
  unfold that.createRelationship.
  rewrite (bind_Ok _ _ _ _ _ Hr), (bind_Ok _ _ _ _ _ (getState_eq _ _ sn _ HE)).
  assert (own_get sn (el_states E) = None) as HsE.
  { destruct Hcase as [[He HE0]|[_ ->]]; [|done].
    specialize (Hnone _ He). unfold state_of in Hnone. by rewrite HE0 in Hnone. }
  assert (truthy (obj_get sn (el_states E)) = false) as -> by by apply truthy_false.
  apply bind_Throw, bind_Throw, statesContainer_get_unknown; by rewrite ?Hst.
Qed.

(** C38: a State or Modifier name that [Object.prototype] has ([toString],
    [constructor], [__proto__], ...) can never be linked: the read of the
    name finds the inherited member, nothing is attached, and the call does
    not return. *)
Theorem createRelationship_prototype_name w dom d sn p mn inheritState :
  wf w → inherited sn = true ∨ inherited mn = true →
  is_Ok (outcome (that.createRelationship dom d sn p mn inheritState) w) = false.
Proof.
  intros Hwf Hinh. unfold outcome.
  destruct (grows_elim _ _ _ w (createRelationship_plain dom d sn p mn inheritState) Hwf I)
    as (Hwf' & _ & HQ).
  destruct (that.createRelationship dom d sn p mn inheritState w) as [[[]| |] w']; [|done..].
  destruct (HQ tt eq_refl) as (dE & pE & _ & _ & s & m & Hs & Hm & _).
  apply bind_Some in Hs as (E & HE & Hs). apply bind_Some in Hm as (E' & HE' & Hm).
  pose proof (owned_ordinary _ _ _ _ (wf_states _ Hwf') _ _ _ _ HE Hs).
  pose proof (owned_ordinary _ _ _ _ (wf_modifiers _ Hwf') _ _ _ _ HE' Hm).
  simpl in *. naive_solver congruence.
Qed.

(** Both names are attached already: nothing is built, and the Modifier
    subscribes. *)
Lemma createRelationship_existing w dom d sn p mn dE pE Ed Ep s m S M :
  ¬ poisoned w →
  own_get (getElementKey w d dom) (elementsContainer_elements w) = Some dE →
  own_get (getElementKey w p dom) (elementsContainer_elements w) = Some pE →
  element_heap w !! dE = Some Ed → element_heap w !! pE = Some Ep →
  own_get sn (el_states Ed) = Some s → own_get mn (el_modifiers Ep) = Some m →
  state_heap w !! s = Some S → modifier_heap w !! m = Some M →
  that.createRelationship dom d sn p mn false w =
    (Ok tt,
     set_modifier_heap (λ h,
       <[m := mkModifier (md_element M) (md_callback M) (md_states M ++ [s])]> h)
       (set_state_heap (λ h,
          <[s := mkState (st_element S) (st_callback S) (st_modifiers S ++ [m])]> h) w)).
Proof.
  intros Hp Hd Hpp HEd HEp Hs Hm HS HM. unfold that.createRelationship.
  rewrite (bind_Ok _ _ _ _ _ (resolve_hit _ _ _ _ Hp Hd)).
  rewrite (bind_Ok _ _ _ _ _ (getState_eq _ _ sn _ HEd)).
  apply obj_get_Own in Hs as Hs'. apply obj_get_Own in Hm as Hm'.
  rewrite Hs'. simpl. rewrite bind_ret_l.
  rewrite (bind_Ok _ _ _ _ _ (resolve_hit _ _ _ _ Hp Hpp)).
  rewrite (bind_Ok _ _ _ _ _ (getModifier_eq _ _ mn _ HEp)). rewrite Hm'. simpl.
  rewrite bind_ret_l.
  rewrite (bind_Ok _ _ _ _ _ (getState_eq _ _ sn _ HEd)).
  rewrite (bind_Ok _ _ _ _ _ (getModifier_eq _ _ mn _ HEp)). rewrite Hm', Hs'.
  unfold invoke. by rewrite (bind_Ok _ _ _ _ _ (subscribe_Own _ _ _ _ _ HS HM)).
Qed.

(** The lazy attachment, for a name the element does not have and a
    registered template. *)
Lemma attach_state_missing {A} e E sn st T (k : unit → run Engine A) w :
  element_heap w !! e = Some E → obj_get sn (el_states E) = Undefined →
  own_get sn (tpl_own (statesContainer_states w)) = Some st →
  state_heap w !! st = Some T →
  (present <- Element.getState e sn ;;
   bind (if truthy present then ret tt
         else state <- statesContainer.get sn ;; Element.attachState e sn state) k) w =
  k tt (set_element_heap (λ h,
          <[e := mkElement (el_element E)
                   (obj_set sn (length (state_heap w)) (el_states E)) (el_modifiers E)]> h)
          (set_state_heap (λ h, h ++ [mkState (Some e) (st_callback T) []]) w)).
Proof.
  intros HE Hfree Hst HT.
  rewrite (bind_Ok _ _ _ _ _ (getState_eq _ _ sn _ HE)), Hfree. simpl.
  erewrite bind_Ok; [done|].
  rewrite (bind_Ok _ _ _ _ _ (statesContainer_get_registered _ _ _ _ Hst HT)).
  exact (new_attachState_eq e E sn (st_callback T) w HE).
Qed.

Lemma attach_modifier_missing {A} e E mn mt M (k : unit → run Engine A) w :
  element_heap w !! e = Some E → obj_get mn (el_modifiers E) = Undefined →
  own_get mn (tpl_own (modifiersContainer_modifiers w)) = Some mt →
  modifier_heap w !! mt = Some M →
  (present <- Element.getModifier e mn ;;
   bind (if truthy present then ret tt
         else modifier <- modifiersContainer.get mn ;;
              Element.attachModifier e mn modifier) k) w =
  k tt (set_element_heap (λ h,
          <[e := mkElement (el_element E) (el_states E)
                   (obj_set mn (length (modifier_heap w)) (el_modifiers E))]> h)
          (set_modifier_heap (λ h, h ++ [mkModifier (Some e) (md_callback M) []]) w)).
Proof.
  intros HE Hfree Hmt HM.
  rewrite (bind_Ok _ _ _ _ _ (getModifier_eq _ _ mn _ HE)), Hfree. simpl.
  erewrite bind_Ok; [done|].
  rewrite (bind_Ok _ _ _ _ _ (modifiersContainer_get_registered _ _ _ _ Hmt HM)).
  exact (new_attachModifier_eq e E mn (md_callback M) w HE).
Qed.

(** The first relationship between two elements that are not registered
    yet, whose keys are different: both are built, the State and the
    Modifier are instantiated from their templates, attached and linked. *)
Lemma createRelationship_fresh w dom a sn b mn inheritState st T mt M :
  ¬ poisoned w →
  own_get (getElementKey w a dom) (elementsContainer_elements w) = None →
  own_get (getElementKey w b dom) (elementsContainer_elements w) = None →
  getElementKey w a dom ≠ getElementKey w b dom →
  inherited (getElementKey w a dom) = false →
  inherited sn = false → inherited mn = false →
  own_get sn (tpl_own (statesContainer_states w)) = Some st →
  state_heap w !! st = Some T →
  own_get mn (tpl_own (modifiersContainer_modifiers w)) = Some mt →
  modifier_heap w !! mt = Some M →
  that.createRelationship dom a sn b mn inheritState w =
    (Ok tt, linked_fresh dom a sn b mn (st_callback T) (md_callback M) w).
Proof.
  intros Hp Ha Hb Hab Hka Hsn Hmn Hst HT Hmt HM.
  destruct (inherited_false_ne _ Hka) as [Hka1 Hka2].
  destruct (inherited_false_ne _ Hsn) as [Hsn1 _].
  destruct (inherited_false_ne _ Hmn) as [Hmn1 _].
  unfold that.createRelationship.
  rewrite (bind_Ok _ _ _ _ _ (resolve_miss _ _ _ Hp Ha)).
  destruct w as [sts mts kf reg eh sh mh hs]. unfold registered. simpl in *.
  erewrite (attach_state_missing _ (mkElement a [] []) sn st T);
    [|by apply list_lookup_middle|by apply obj_get_empty|done..].
  unfold set_element_heap, set_state_heap, set_elementsContainer_elements,
    set_change_handlers. simpl. rewrite insert_snoc.
  erewrite bind_Ok; [|apply resolve_miss]; simpl.
  2:{ unfold poisoned in *. simpl in *. by rewrite has_own_set_ne. }
  2:{ by rewrite own_get_set_ne. }
  unfold registered. simpl.
  erewrite (attach_modifier_missing _ (mkElement b [] []) mn mt M);
    [|by apply list_lookup_middle|by apply obj_get_empty|done..].
  unfold set_element_heap, set_modifier_heap. simpl. rewrite insert_snoc.
  rewrite length_app, Nat.add_1_r, <- !app_assoc. simpl.
  erewrite bind_Ok; [|apply getState_eq, list_lookup_middle; done]. simpl.
  erewrite bind_Ok; [|apply getModifier_eq; simpl].
  2:{ rewrite lookup_app_r by lia. by replace (S (length eh) - length eh) with 1 by lia. }
  simpl. rewrite (proj2 (obj_get_Own _ _ _) (own_get_set_eq sn _ _ Hsn1)).
  rewrite (proj2 (obj_get_Own _ _ _) (own_get_set_eq mn _ _ Hmn1)). unfold invoke.
  erewrite bind_Ok; [|apply subscribe_Own; simpl; by apply list_lookup_middle].
  unfold set_modifier_heap, set_state_heap. simpl. rewrite !insert_snoc.
  assert (∀ k (v : nat), k ≠ "__proto__" → obj_set k v [] = [(k, v)]) as Hset
    by (intros k v ?; unfold obj_set; by rewrite decide_False).
  unfold linked_fresh. simpl. rewrite !Hset by done.
  destruct inheritState; [|done].
  erewrite bind_Ok; [|apply getModifier_eq, list_lookup_middle; done].
  cbn [el_modifiers]. change (@nil (string * ModId)) with (@empty_obj ModId).
  by rewrite (obj_get_empty mn Hmn).
Qed.

(** The next link of a chain: the dependency is registered and has no State
    of the name, the dependent is not registered.  What is left of the call
    after the subscription is the inheritance. *)
Lemma createRelationship_onto_tail w dom a d D sn b mn (inheritState : bool) st T mt M :
  ¬ poisoned w →
  own_get (getElementKey w a dom) (elementsContainer_elements w) = Some d →
  element_heap w !! d = Some D →
  obj_get sn (el_states D) = Undefined →
  own_get (getElementKey w b dom) (elementsContainer_elements w) = None →
  inherited mn = false →
  own_get sn (tpl_own (statesContainer_states w)) = Some st →
  state_heap w !! st = Some T →
  own_get mn (tpl_own (modifiersContainer_modifiers w)) = Some mt →
  modifier_heap w !! mt = Some M →
  that.createRelationship dom a sn b mn inheritState w =
    (if inheritState then
       upstream <- Element.getModifier d mn ;;
       if truthy upstream then
         cascadingStates <- cascadingStates_of upstream ;;
         for_each (λ s, invoke (Own (length (modifier_heap w)))
                          (λ m, Modifier.subscribe m (Own s))) cascadingStates
       else ret tt
     else ret tt)
      (linked_onto dom d D sn b mn (st_callback T) (md_callback M) w).
Proof.
  intros Hp Ha HD Hfree Hb Hmn Hst HT Hmt HM.
  pose proof (proj1 (obj_get_Undefined _ _) Hfree) as [_ Hsn].
  destruct (inherited_false_ne _ Hsn) as [Hsn1 _].
  destruct (inherited_false_ne _ Hmn) as [Hmn1 _].
  unfold that.createRelationship.
  rewrite (bind_Ok _ _ _ _ _ (resolve_hit _ _ _ _ Hp Ha)).
  erewrite (attach_state_missing d D sn st T); [|done..].
  destruct w as [sts mts kf reg eh sh mh hs]. simpl in *.
  unfold set_element_heap, set_state_heap. simpl.
  erewrite bind_Ok; [|by apply resolve_miss]. unfold registered. simpl.
  erewrite (attach_modifier_missing _ (mkElement b [] []) mn mt M);
    [|by apply list_lookup_middle|by apply obj_get_empty|done..].
  unfold set_element_heap, set_modifier_heap. simpl. rewrite insert_snoc.
  assert (d < length eh) as Hd by by eapply lookup_lt_Some.
  erewrite bind_Ok; [|apply getState_eq; simpl].
  2:{ rewrite lookup_app_l by by rewrite length_insert. by apply list_lookup_insert_eq. }
  erewrite bind_Ok; [|apply getModifier_eq; simpl; by apply list_lookup_middle].
  cbn [el_states el_modifiers].
  rewrite (proj2 (obj_get_Own _ _ _) (own_get_set_eq sn _ _ Hsn1)).
  rewrite (proj2 (obj_get_Own _ _ _) (own_get_set_eq mn _ _ Hmn1)). unfold invoke at 1.
  erewrite bind_Ok; [|apply subscribe_Own; simpl; by apply list_lookup_middle].
  unfold set_modifier_heap, set_state_heap. simpl. rewrite !insert_snoc.
  unfold linked_onto. simpl. rewrite !length_insert.
  replace (obj_set mn (length mh) []) with [(mn, length mh)]; [done|].
  unfold obj_set. by rewrite decide_False.
Qed.

Lemma createRelationship_onto w dom a d D sn b mn st T mt M :
  ¬ poisoned w →
  own_get (getElementKey w a dom) (elementsContainer_elements w) = Some d →
  element_heap w !! d = Some D →
  obj_get sn (el_states D) = Undefined →
  own_get (getElementKey w b dom) (elementsContainer_elements w) = None →
  inherited mn = false →
  own_get sn (tpl_own (statesContainer_states w)) = Some st →
  state_heap w !! st = Some T →
  own_get mn (tpl_own (modifiersContainer_modifiers w)) = Some mt →
  modifier_heap w !! mt = Some M →
  that.createRelationship dom a sn b mn false w =
    (Ok tt, linked_onto dom d D sn b mn (st_callback T) (md_callback M) w).
Proof. intros. by erewrite createRelationship_onto_tail. Qed.

Lemma template_predicate_Some w name p :
  template_predicate w name = Some p →
  ∃ t T, own_get name (tpl_own (statesContainer_states w)) = Some t ∧
         state_heap w !! t = Some T ∧ st_callback T = Some p.
Proof.
  unfold template_predicate. intros (t & ? & (T & ? & ?)%bind_Some)%bind_Some. eauto.
Qed.

Lemma template_mutation_Some w name f :
  template_mutation w name = Some f →
  ∃ t M, own_get name (tpl_own (modifiersContainer_modifiers w)) = Some t ∧
         modifier_heap w !! t = Some M ∧ md_callback M = Some f.
Proof.
  unfold template_mutation. intros (t & ? & (M & ? & ?)%bind_Some)%bind_Some. eauto.
Qed.

(** The objects of a chain built on a store without elements. *)
Lemma linked_chain_lookups dom a (s1 : string) b (m1 s2 : string) c (m2 : string)
    cbS1 cbS2 cbM1 cbM2 w :
  element_heap w = [] →
  element_heap (linked_chain dom a s1 b m1 s2 c m2 cbS1 cbS2 cbM1 cbM2 w) =
    [ mkElement a [(s1, length (state_heap w))] [];
      mkElement b [(s2, S (length (state_heap w)))] [(m1, length (modifier_heap w))];
      mkElement c [] [(m2, S (length (modifier_heap w)))] ] ∧
  state_heap (linked_chain dom a s1 b m1 s2 c m2 cbS1 cbS2 cbM1 cbM2 w)
    !! length (state_heap w) = Some (mkState (Some 0) cbS1 [length (modifier_heap w)]) ∧
  state_heap (linked_chain dom a s1 b m1 s2 c m2 cbS1 cbS2 cbM1 cbM2 w)
    !! S (length (state_heap w)) = Some (mkState (Some 1) cbS2 [S (length (modifier_heap w))]) ∧
  modifier_heap (linked_chain dom a s1 b m1 s2 c m2 cbS1 cbS2 cbM1 cbM2 w)
    !! length (modifier_heap w) = Some (mkModifier (Some 1) cbM1 [length (state_heap w)]) ∧
  modifier_heap (linked_chain dom a s1 b m1 s2 c m2 cbS1 cbS2 cbM1 cbM2 w)
    !! S (length (modifier_heap w))
    = Some (mkModifier (Some 2) cbM2 [S (length (state_heap w))]).
Proof.
  intros He. unfold linked_chain. simpl. rewrite He. simpl.
  split; [done|]. split; [by apply list_lookup_middle|].
  split; [rewrite lookup_app_r by lia;
          by replace (S (length (state_heap w)) - length (state_heap w)) with 1 by lia|].
  split; [by apply list_lookup_middle|]. rewrite lookup_app_r by lia.
  by replace (S (length (modifier_heap w)) - length (modifier_heap w)) with 1 by lia.
Qed.

(** Two relationships in a row, from [a] to [b] and from [b] to [c], after
    the templates were registered. *)
Lemma two_links_store w dom a (s1 : string) b (m1 s2 : string) c (m2 : string) p1 p2 f1 f2 :
  blank w →
  template_predicate w s1 = Some p1 → template_mutation w m1 = Some f1 →
  template_predicate w s2 = Some p2 → template_mutation w m2 = Some f2 →
  inherited s1 = false → inherited m1 = false →
  inherited s2 = false → inherited m2 = false →
  inherited (default_getElementKey a dom) = false →
  inherited (default_getElementKey b dom) = false →
  default_getElementKey a dom ≠ default_getElementKey b dom →
  default_getElementKey c dom ≠ default_getElementKey a dom →
  default_getElementKey c dom ≠ default_getElementKey b dom →
  perform_all [CreateRelationship dom a s1 b m1 false;
               CreateRelationship dom b s2 c m2 false] w =
  linked_chain dom a s1 b m1 s2 c m2 (Some p1) (Some p2) (Some f1) (Some f2) w.
Proof.
  intros [He Hr Hh Hk _] (t1 & T1 & Ht1 & HT1 & <-)%template_predicate_Some
    (u1 & M1 & Hu1 & HM1 & <-)%template_mutation_Some
    (t2 & T2 & Ht2 & HT2 & <-)%template_predicate_Some
    (u2 & M2 & Hu2 & HM2 & <-)%template_mutation_Some Hs1 Hm1 Hs2 Hm2 Ha Hb Hab Hca Hcb.
  destruct (inherited_false_ne _ Ha) as [Ha1 Ha2].
  destruct (inherited_false_ne _ Hb) as [Hb1 Hb2].
  destruct w as [sts mts kf reg eh sh mh hs]. simpl in *. subst.
  unfold perform_all. simpl. unfold FieldDependencies.createRelationship.
  erewrite (createRelationship_fresh _ dom a s1 b m1 false t1 T1 u1 M1); try done.
  simpl.
  erewrite (createRelationship_onto _ dom b 1 (mkElement b [] [(m1, length mh)])
              s2 c m2 t2 T2 u2 M2); simpl; try done.
  - unfold linked_onto, linked_fresh, linked_chain. simpl.
    rewrite !length_app, !Nat.add_1_r, <- !app_assoc.
    replace (obj_set s2 (S (length sh)) []) with [(s2, S (length sh))]; [done|].
    unfold obj_set. rewrite decide_False; [done|]. by apply inherited_false_ne.
  - unfold poisoned. simpl. by rewrite !has_own_set_ne.
  - by apply own_get_set_eq.
  - by apply (obj_get_empty s2).
  - by rewrite !own_get_set_ne.
  - by apply lookup_app_l_Some.
  - by apply lookup_app_l_Some.
Qed.

(** C34: a relationship that exists is created once more: no element, State
    or Modifier is built, and the same Modifier is appended once more to the
    subscribers of the same State, and the State to its subscriptions. *)
Theorem createRelationship_repeat w dom d sn p mn dE pE s m :
  wf w → ¬ poisoned w →
  own_get (getElementKey w d dom) (elementsContainer_elements w) = Some dE →
  own_get (getElementKey w p dom) (elementsContainer_elements w) = Some pE →
  state_of w dE sn = Some s → modifier_of w pE mn = Some m →
  ∃ w', that.createRelationship dom d sn p mn false w = (Ok tt, w') ∧
        element_heap w' = element_heap w ∧
        length (state_heap w') = length (state_heap w) ∧
        length (modifier_heap w') = length (modifier_heap w) ∧
        subscribers w' s = subscribers w s ++ [m] ∧
        subscriptions w' m = subscriptions w m ++ [s].
Proof.
  intros Hwf Hp Hd Hpp Hs Hm.
  destruct (wf_state_of _ _ _ _ Hwf Hs) as (S & HS & _).
  destruct (wf_modifier_of _ _ _ _ Hwf Hm) as (M & HM & _).
  apply bind_Some in Hs as (Ed & HEd & Hs). apply bind_Some in Hm as (Ep & HEp & Hm).
  eexists. split; [by eapply createRelationship_existing|].
  unfold subscribers, subscriptions. simpl.
  rewrite !length_insert, !list_lookup_insert_eq, HS, HM by by eapply lookup_lt_Some.
  done.
Qed.

End outcomes.

Lemma createRelationship_edges_witness :
  ∃ dE pE s m,
    names w_chain page3 1 dE ∧ names w_chain page3 2 pE ∧
    state_of w_chain dE "visible" = Some s ∧ modifier_of w_chain pE "show" = Some m ∧
    adds (s :: inheritance w_show w_chain dE "show" s m) m w_show w_chain.
Proof.
  apply (createRelationship_edges w_show w_chain page3 1 "visible" 2 "show" true).
  vm_compute. reflexivity.
Defined.

(** The inheritance of the example: the Modifier of field 2 is subscribed to
    its own State and to the State of field 0. *)
Example inheritance_example : inheritance w_show w_chain 1 "show" 3 3 = [2].
Proof. reflexivity. Qed.

Lemma createRelationship_throws_quiet_witness :
  adds [] 0 w_templates
    (final (that.createRelationship page3 0 "checked" 1 "nope" false) w_templates).
Proof.
  apply (createRelationship_throws_quiet w_templates _ page3 0 "checked" 1 "nope" false
           TypeError_undefined 0).
  - apply perform_all_wf, wf_init.
  - vm_compute. reflexivity.
Defined.

(** Field 0 shows itself when it is checked, created twice with
    inheritance: two subscriptions after the first call, six after the
    second. *)
Lemma self_relationship_doubles_witness :
  let w := final (that.createRelationship page3 0 "checked" 0 "show" true) w_templates in
  let w' := final (that.createRelationship page3 0 "checked" 0 "show" true) w in
  ∃ e s m,
    state_of w' e "checked" = Some s ∧ modifier_of w' e "show" = Some m ∧
    subscriptions w' m = (subscriptions w m ++ [s]) ++ (subscriptions w m ++ [s]) ∧
    subscribers w' s =
      subscribers w s ++ replicate (2 + occurrences s (subscriptions w m)) m.
Proof.
  intros w w'. apply (self_relationship_doubles w w' page3 0 "checked" "show"); [done|].
  vm_compute. reflexivity.
Defined.

Example self_relationship_grows :
  let w := final (that.createRelationship page3 0 "checked" 0 "show" true) w_templates in
  let w' := final (that.createRelationship page3 0 "checked" 0 "show" true) w in
  subscriptions w 2 = [2; 2] ∧ subscriptions w' 2 = [2; 2; 2; 2; 2; 2].
Proof. split; vm_compute; reflexivity. Qed.

Lemma createRelationship_links_witness :
  ∃ dE pE, resolves w_show page3 0 dE ∧ resolves w_show page3 1 pE ∧
           related w_show dE "checked" pE "show".
Proof.
  apply (createRelationship_links w_templates w_show page3 0 "checked" 1 "show" false).
  - apply perform_all_wf, wf_init.
  - vm_compute. reflexivity.
Defined.

Lemma createRelationship_preserves_wf_witness :
  wf (final (that.createRelationship page3 0 "nope" 1 "show" false) w_templates).
Proof. apply createRelationship_preserves_wf, perform_all_wf, wf_init. Defined.

Lemma createRelationship_extends_witness :
  extends w_show (final (that.createRelationship page3 1 "visible" 2 "show" true) w_show).
Proof. apply createRelationship_extends, perform_all_wf, perform_all_wf, wf_init. Defined.

Lemma reachable_wf_witness : wf (perform (AddState "checked" checked) init).2.
Proof. apply reachable_wf, reachable_step, reachable_init. Defined.

Lemma createRelationship_unknown_state_witness :
  that.createRelationship page3 0 "nope" 1 "show" false w_templates =
    (Throw TypeError_undefined, final (elementsContainer.resolve page3 0) w_templates).
Proof.
  apply createRelationship_unknown_state; try compute_done.
  - apply perform_all_wf, wf_init.
  - intros e. vm_compute. discriminate.
Defined.

Lemma createRelationship_prototype_name_witness :
  is_Ok (outcome (that.createRelationship page3 0 "toString" 1 "show" false) w_templates)
  = false.
Proof.
  apply createRelationship_prototype_name; [apply perform_all_wf, wf_init|by left].
Defined.

Lemma createRelationship_repeat_witness :
  ∃ w', that.createRelationship page3 0 "checked" 1 "show" false w_show = (Ok tt, w') ∧
        element_heap w' = element_heap w_show ∧
        length (state_heap w') = length (state_heap w_show) ∧
        length (modifier_heap w') = length (modifier_heap w_show) ∧
        subscribers w' 2 = subscribers w_show 2 ++ [2] ∧
        subscriptions w' 2 = subscriptions w_show 2 ++ [2].
Proof.
  apply (createRelationship_repeat w_show page3 0 "checked" 1 "show" 0 1 2 2);
    try compute_done.
  apply perform_all_wf, perform_all_wf, wf_init.
Defined.

Lemma createRelationship_inherits_witness :
  ∃ pE, resolves w_chain page3 2 pE ∧ subscribed w_chain pE "show" 2.
Proof.
  apply (createRelationship_inherits w_show w_chain page3 1 "visible" 2 "show" 2).
  - apply perform_all_wf, perform_all_wf, wf_init.
  - exists 1, 2. split; [reflexivity|]. split; [reflexivity|compute_done].
  - vm_compute. reflexivity.
Defined.

Lemma addState_get_witness :
  ∃ w', statesContainer.get "checked"
          (final (FieldDependencies.addState "checked" always) w_templates) =
          (Ok 3, w') ∧
        state_heap w' !! 3 = Some (mkState None (Some always) []).
Proof. apply (addState_get "checked" always w_templates), perform_all_wf, wf_init. Defined.

Lemma addModifier_get_witness :
  ∃ w', modifiersContainer.get "__proto__"
          (final (FieldDependencies.addModifier "__proto__" hide) w_templates) =
          (Ok 3, w') ∧
        modifier_heap w' !! 3 = Some (mkModifier None (Some hide) []).
Proof. apply (addModifier_get "__proto__" hide w_templates), perform_all_wf, wf_init. Defined.

(** The public [createRelationship] names its last parameter
    [doNotInherit] and passes it on as [inheritState]: called with [true],
    it inherits. *)
Example doNotInherit_inherits :
  subscriptions
    (final (FieldDependencies.createRelationship page3 1 "visible" 2 "show" true) w_show) 3
  = [3; 2].
Proof. vm_compute. reflexivity. Qed.
