(* ===== verification/Bounds.v ===== *)
(** * Bounds: what a call constructs

    The engine never removes an object, and it constructs one only at the
    [new] expressions of [elementsContainer.resolve] (an Element),
    [statesContainer.get] and [addState] (a State), [modifiersContainer.get]
    and [addModifier] (a Modifier).  This file counts them: a call of
    [createRelationship] constructs at most two Elements, one State and one
    Modifier, whether it returns or throws and however many subscriptions it
    inherits; the heaps of a script are bounded by the sum over its calls. *)

From stdpp Require Import base option list strings numbers.
From S2P Require Import Prelude JsObject Heap Fixture Graph Registry Builder.

Open Scope string_scope.
Open Scope list_scope.
Open Scope run_scope.

Section bounds.
Context `{Host}.

(** [w'] has the objects of [w] and at most [a] Elements, [b] States and
    [c] Modifiers more. *)
Definition fits (a b c : nat) (w w' : Engine) : Prop :=
  (length (element_heap w) ≤ length (element_heap w') ≤ length (element_heap w) + a)%nat ∧
  (length (state_heap w) ≤ length (state_heap w') ≤ length (state_heap w) + b)%nat ∧
  (length (modifier_heap w) ≤ length (modifier_heap w') ≤ length (modifier_heap w) + c)%nat.

(** [m] constructs at most [a] Elements, [b] States and [c] Modifiers,
    whatever its outcome. *)
Definition allocs {A} (a b c : nat) (m : run Engine A) : Prop :=
  ∀ w, fits a b c w (m w).2.

(** The [new] expressions a call can reach. *)
Definition news (c : call) : nat * nat * nat :=
  match c with
  | AddState _ _ => (0, 1, 0)
  | AddModifier _ _ => (0, 0, 1)
  | CreateRelationship _ _ _ _ _ _ => (2, 1, 1)
  | SetElementKeyCallback _ => (0, 0, 0)
  end.

Definition news_all (cs : list call) : nat * nat * nat :=
  foldr (λ c t, ((news c).1.1 + t.1.1, (news c).1.2 + t.1.2, (news c).2 + t.2)) (0, 0, 0) cs.

(** [m] ends without fuel: it returns or it throws. *)
Definition ends {A} (m : run Engine A) : Prop := yields (λ _, True) False m.

End bounds.

(** ** Composition *)

Section allocs_rules.
Context `{Host}.
Implicit Types (w : Engine) (a b c : nat).

Lemma fits_refl w : fits 0 0 0 w w.
Proof. unfold fits. lia. Qed.

Lemma fits_trans a b c a' b' c' w w1 w2 :
  fits a b c w w1 → fits a' b' c' w1 w2 → fits (a + a') (b + b') (c + c') w w2.
Proof. unfold fits. lia. Qed.

Lemma fits_mono a b c a' b' c' w w' :
  (a ≤ a')%nat → (b ≤ b')%nat → (c ≤ c')%nat → fits a b c w w' → fits a' b' c' w w'.
Proof. unfold fits. lia. Qed.

Lemma allocs_mono {A} a b c a' b' c' (m : run Engine A) :
  (a ≤ a')%nat → (b ≤ b')%nat → (c ≤ c')%nat → allocs a b c m → allocs a' b' c' m.
Proof. intros ? ? ? Hm w. by eapply fits_mono. Qed.

Lemma allocs_bind {A B} a b c a' b' c' (m : run Engine A) (k : A → run Engine B) :
  allocs a b c m → (∀ x, allocs a' b' c' (k x)) →
  allocs (a + a') (b + b') (c + c') (bind m k).
Proof.
  intros Hm Hk w. unfold bind. specialize (Hm w).
  destruct (m w) as [[x| |] w1]; simpl in *;
    [eapply fits_trans; [done|apply Hk]|eapply fits_mono; [..|done]; lia..].
Qed.

(** The steps that construct nothing. *)
Lemma steady_bind {A B} a b c (m : run Engine A) (k : A → run Engine B) :
  allocs 0 0 0 m → (∀ x, allocs a b c (k x)) → allocs a b c (bind m k).
Proof. intros Hm Hk. by apply (allocs_bind 0 0 0 a b c). Qed.

Lemma steady_for_each {A} (f : A → run Engine unit) l :
  (∀ x, allocs 0 0 0 (f x)) → allocs 0 0 0 (for_each f l).
Proof.
  intros Hf. induction l as [|x l IH]; [intros w; apply fits_refl|].
  simpl. by apply steady_bind.
Qed.

Lemma steady_read_element e : allocs 0 0 0 (read_element e).
Proof. intros w. unfold read_element. destruct (element_heap w !! e); apply fits_refl. Qed.

Lemma steady_read_state s : allocs 0 0 0 (read_state s).
Proof. intros w. unfold read_state. destruct (state_heap w !! s); apply fits_refl. Qed.

Lemma steady_read_modifier m : allocs 0 0 0 (read_modifier m).
Proof. intros w. unfold read_modifier. destruct (modifier_heap w !! m); apply fits_refl. Qed.

(** An update in place replaces an object of the heap. *)
Lemma steady_update_element e f : allocs 0 0 0 (update_element e f).
Proof.
  intros w. unfold update_element. rewrite bind_read_element.
  destruct (element_heap w !! e); [|apply fits_refl].
  unfold fits. simpl. rewrite length_insert. lia.
Qed.

Lemma steady_update_state s f : allocs 0 0 0 (update_state s f).
Proof.
  intros w. unfold update_state. rewrite bind_read_state.
  destruct (state_heap w !! s); [|apply fits_refl].
  unfold fits. simpl. rewrite length_insert. lia.
Qed.

Lemma steady_update_modifier m f : allocs 0 0 0 (update_modifier m f).
Proof.
  intros w. unfold update_modifier. rewrite bind_read_modifier.
  destruct (modifier_heap w !! m); [|apply fits_refl].
  unfold fits. simpl. rewrite length_insert. lia.
Qed.

End allocs_rules.

#[export] Hint Resolve steady_read_element steady_read_state steady_read_modifier
  steady_update_element steady_update_state steady_update_modifier : fdeps.

(** Proves [allocs 0 0 0 m] for a computation built from reads and updates
    in place. *)
Ltac solve_steady :=
  repeat first
    [ solve [auto with fdeps]
    | apply steady_bind; [|intros ?]
    | apply steady_for_each; intros ?
    | match goal with
      | |- allocs _ _ _ (if ?b then _ else _) => destruct b
      | |- allocs _ _ _ (match ?x with _ => _ end) => destruct x
      end
    | by intros ?; apply fits_refl ].

(** ** The methods *)

Section methods.
Context `{Host}.
Implicit Types (w : Engine) (e : ElemId) (s : StateId) (m : ModId).

Lemma steady_getState e key : allocs 0 0 0 (Element.getState e key).
Proof. unfold Element.getState. solve_steady. Qed.

Lemma steady_getModifier e key : allocs 0 0 0 (Element.getModifier e key).
Proof. unfold Element.getModifier. solve_steady. Qed.

Lemma steady_attachState e key s : allocs 0 0 0 (Element.attachState e key s).
Proof. unfold Element.attachState, State.setElement. solve_steady. Qed.

Lemma steady_attachModifier e key m : allocs 0 0 0 (Element.attachModifier e key m).
Proof. unfold Element.attachModifier, Modifier.setElement. solve_steady. Qed.

Lemma steady_subscribe m (state : lookup StateId) : allocs 0 0 0 (Modifier.subscribe m state).
Proof. unfold Modifier.subscribe, invoke, State.addModifier. solve_steady. Qed.

Lemma steady_invoke_subscribe (subModifier : lookup ModId) (state : lookup StateId) :
  allocs 0 0 0 (invoke subModifier (λ m, Modifier.subscribe m state)).
Proof. destruct subModifier; simpl; [apply steady_subscribe|by intros ?; apply fits_refl..]. Qed.

Lemma steady_cascadingStates_of (upstream : lookup ModId) :
  allocs 0 0 0 (cascadingStates_of upstream).
Proof. unfold cascadingStates_of. solve_steady. Qed.

(** [new Element], once, when the key is not registered. *)
Lemma allocs_resolve dom ref : allocs 1 0 0 (elementsContainer.resolve dom ref).
Proof.
  intros w. destruct (decide (poisoned w)) as [Hp|Hp];
    [rewrite resolve_poisoned by done; eapply fits_mono; [..|apply fits_refl]; lia|].
  destruct (own_get (getElementKey w ref dom) (elementsContainer_elements w)) as [e|] eqn:He.
  - erewrite resolve_hit by done. eapply fits_mono; [..|apply fits_refl]; lia.
  - rewrite resolve_miss by done. unfold fits, registered. simpl. rewrite length_app. simpl. lia.
Qed.

(** [new State], once, when the template can be read. *)
Lemma allocs_statesContainer_get key : allocs 0 1 0 (statesContainer.get key).
Proof.
  intros w. destruct (statesContainer_get_cases key w) as [[cb ->]|[err ->]].
  - unfold fits. simpl. rewrite length_app. simpl. lia.
  - eapply fits_mono; [..|apply fits_refl]; lia.
Qed.

Lemma allocs_modifiersContainer_get key : allocs 0 0 1 (modifiersContainer.get key).
Proof.
  intros w. destruct (modifiersContainer_get_cases key w) as [[cb ->]|[err ->]].
  - unfold fits. simpl. rewrite length_app. simpl. lia.
  - eapply fits_mono; [..|apply fits_refl]; lia.
Qed.

(** The inheritance subscribes, as often as the upstream Modifier has
    subscriptions, and constructs nothing. *)
Lemma steady_inherit e key (subModifier : lookup ModId) (inheritState : bool) :
  allocs 0 0 0
    (if inheritState then
       upstream <- Element.getModifier e key ;;
       if truthy upstream then
         cascadingStates <- cascadingStates_of upstream ;;
         for_each (λ s, invoke subModifier (λ m, Modifier.subscribe m (Own s)))
           cascadingStates
       else ret tt
     else ret tt).
Proof.
  destruct inheritState; [|by intros ?; apply fits_refl].
  apply steady_bind; [apply steady_getModifier|]. intros upstream.
  destruct (truthy upstream); [|by intros ?; apply fits_refl].
  apply steady_bind; [apply steady_cascadingStates_of|]. intros snapshot.
  apply steady_for_each. intros s. apply steady_invoke_subscribe.
Qed.

Lemma allocs_createRelationship dom d sn p mn inheritState :
  allocs 2 1 1 (that.createRelationship dom d sn p mn inheritState).
Proof.
  unfold that.createRelationship.
  apply (allocs_bind 1 0 0 1 1 1); [apply allocs_resolve|]. intros dE.
  apply steady_bind; [apply steady_getState|]. intros present.
  apply (allocs_bind 0 1 0 1 0 1).
  { destruct (truthy present); [by intros ?; eapply fits_mono; [..|apply fits_refl]; lia|].
    apply (allocs_bind 0 1 0 0 0 0); [apply allocs_statesContainer_get|].
    intros s. apply steady_attachState. }
  intros ?. apply (allocs_bind 1 0 0 0 0 1); [apply allocs_resolve|]. intros pE.
  apply steady_bind; [apply steady_getModifier|]. intros present'.
  apply (allocs_bind 0 0 1 0 0 0).
  { destruct (truthy present'); [by intros ?; eapply fits_mono; [..|apply fits_refl]; lia|].
    apply (allocs_bind 0 0 1 0 0 0); [apply allocs_modifiersContainer_get|].
    intros m. apply steady_attachModifier. }
  intros ?. apply steady_bind; [apply steady_getState|]. intros pubState.
  apply steady_bind; [apply steady_getModifier|]. intros subModifier.
  apply steady_bind; [apply steady_invoke_subscribe|]. intros ?. apply steady_inherit.
Qed.

Lemma allocs_perform (c : call) :
  allocs (news c).1.1 (news c).1.2 (news c).2 (perform c).
Proof.
  destruct c as [name cb|name cb|dom d sn p mn i|cb]; simpl.
  - intros w. unfold fits. simpl. rewrite length_app. simpl. lia.
  - intros w. unfold fits. simpl. rewrite length_app. simpl. lia.
  - apply allocs_createRelationship.
  - intros w. unfold fits. simpl. lia.
Qed.

Lemma fits_perform_all cs w :
  fits (news_all cs).1.1 (news_all cs).1.2 (news_all cs).2 w (perform_all cs w).
Proof.
  revert w. induction cs as [|c cs IH]; intros w; [apply fits_refl|].
  simpl. eapply fits_trans; [apply allocs_perform|apply IH].
Qed.

(** A call of [createRelationship] constructs at most two Elements, one
    State and one Modifier, and removes nothing, whether it returns or
    throws and however many subscriptions it inherits. *)
Theorem createRelationship_bounded w dom d sn p mn inheritState :
  fits 2 1 1 w (final (that.createRelationship dom d sn p mn inheritState) w).
Proof. apply allocs_createRelationship. Qed.

(** The heaps of the store of a script are bounded by what its calls
    can construct: two Elements for each relationship, a State for each
    relationship and each registered State, a Modifier for each relationship
    and each registered Modifier. *)
Theorem script_bounded (cs : list call) :
  let w := perform_all cs init in
  (length (element_heap w) ≤ (news_all cs).1.1 ∧
   length (state_heap w) ≤ (news_all cs).1.2 ∧
   length (modifier_heap w) ≤ (news_all cs).2)%nat.
Proof. destruct (fits_perform_all cs init) as (? & ? & ?). simpl in *. lia. Qed.

End methods.

(** ** What a call takes *)

Section ends_rules.
Context `{Host}.

Lemma ends_bind {A B} (m : run Engine A) (k : A → run Engine B) :
  ends m → (∀ x, ends (k x)) → ends (bind m k).
Proof. apply yields_bind. Qed.

Lemma ends_for_each {A} (f : A → run Engine unit) l :
  (∀ x, ends (f x)) → ends (for_each f l).
Proof. intros Hf. apply yields_for_each. intros x _. apply Hf. Qed.

Lemma ends_read_element e : ends (read_element e).
Proof. intros w. unfold read_element. by destruct (element_heap w !! e). Qed.

Lemma ends_read_state s : ends (read_state s).
Proof. intros w. unfold read_state. by destruct (state_heap w !! s). Qed.

Lemma ends_read_modifier m : ends (read_modifier m).
Proof. intros w. unfold read_modifier. by destruct (modifier_heap w !! m). Qed.

Lemma ends_update_element e f : ends (update_element e f).
Proof. apply ends_bind; [apply ends_read_element|by intros ? ?]. Qed.

Lemma ends_update_state s f : ends (update_state s f).
Proof. apply ends_bind; [apply ends_read_state|by intros ? ?]. Qed.

Lemma ends_update_modifier m f : ends (update_modifier m f).
Proof. apply ends_bind; [apply ends_read_modifier|by intros ? ?]. Qed.

End ends_rules.

#[export] Hint Resolve ends_read_element ends_read_state ends_read_modifier
  ends_update_element ends_update_state ends_update_modifier : fdeps.

(** Proves [ends m] for a computation built from reads and updates. *)
Ltac solve_ends :=
  repeat first
    [ solve [auto with fdeps]
    | apply ends_bind; [|intros ?]
    | apply ends_for_each; intros ?
    | match goal with
      | |- ends (if ?b then _ else _) => destruct b
      | |- ends (match ?x with _ => _ end) => destruct x
      end
    | by intros ? ].

Section ends.
Context `{Host}.
Implicit Types (w : Engine) (e : ElemId) (s : StateId) (m : ModId).

Lemma ends_getState e key : ends (Element.getState e key).
Proof. unfold Element.getState. solve_ends. Qed.

Lemma ends_getModifier e key : ends (Element.getModifier e key).
Proof. unfold Element.getModifier. solve_ends. Qed.

Lemma ends_attachState e key s : ends (Element.attachState e key s).
Proof. unfold Element.attachState, State.setElement. solve_ends. Qed.

Lemma ends_attachModifier e key m : ends (Element.attachModifier e key m).
Proof. unfold Element.attachModifier, Modifier.setElement. solve_ends. Qed.

Lemma ends_subscribe m (state : lookup StateId) : ends (Modifier.subscribe m state).
Proof. unfold Modifier.subscribe, invoke, State.addModifier. solve_ends. Qed.

Lemma ends_invoke_subscribe (subModifier : lookup ModId) (state : lookup StateId) :
  ends (invoke subModifier (λ m, Modifier.subscribe m state)).
Proof. destruct subModifier; simpl; [apply ends_subscribe|by intros ?..]. Qed.

Lemma ends_cascadingStates_of (upstream : lookup ModId) : ends (cascadingStates_of upstream).
Proof. unfold cascadingStates_of. solve_ends. Qed.

Lemma ends_resolve dom ref : ends (elementsContainer.resolve dom ref).
Proof.
  intros w. destruct (decide (poisoned w)) as [Hp|Hp]; [by rewrite resolve_poisoned|].
  destruct (own_get (getElementKey w ref dom) (elementsContainer_elements w)) as [e|] eqn:He.
  - by erewrite resolve_hit.
  - by rewrite resolve_miss.
Qed.

Lemma ends_statesContainer_get key : ends (statesContainer.get key).
Proof. intros w. by destruct (statesContainer_get_cases key w) as [[cb ->]|[err ->]]. Qed.

Lemma ends_modifiersContainer_get key : ends (modifiersContainer.get key).
Proof. intros w. by destruct (modifiersContainer_get_cases key w) as [[cb ->]|[err ->]]. Qed.

(** The inheritance enumerates the subscriptions it read before the loop:
    as many turns as the upstream Modifier had subscriptions then. *)
Lemma ends_inherit e key (subModifier : lookup ModId) (inheritState : bool) :
  ends
    (if inheritState then
       upstream <- Element.getModifier e key ;;
       if truthy upstream then
         cascadingStates <- cascadingStates_of upstream ;;
         for_each (λ s, invoke subModifier (λ m, Modifier.subscribe m (Own s)))
           cascadingStates
       else ret tt
     else ret tt).
Proof.
  destruct inheritState; [|by intros ?].
  apply ends_bind; [apply ends_getModifier|]. intros upstream.
  destruct (truthy upstream); [|by intros ?].
  apply ends_bind; [apply ends_cascadingStates_of|]. intros snapshot.
  apply ends_for_each. intros s. apply ends_invoke_subscribe.
Qed.

Lemma ends_createRelationship dom d sn p mn inheritState :
  ends (that.createRelationship dom d sn p mn inheritState).
Proof.
  unfold that.createRelationship.
  apply ends_bind; [apply ends_resolve|]. intros dE.
  apply ends_bind; [apply ends_getState|]. intros present. apply ends_bind.
  { destruct (truthy present); [by intros ?|].
    apply ends_bind; [apply ends_statesContainer_get|]. intros s. apply ends_attachState. }
  intros _. apply ends_bind; [apply ends_resolve|]. intros pE.
  apply ends_bind; [apply ends_getModifier|]. intros present'. apply ends_bind.
  { destruct (truthy present'); [by intros ?|].
    apply ends_bind; [apply ends_modifiersContainer_get|]. intros m.
    apply ends_attachModifier. }
  intros _. apply ends_bind; [apply ends_getState|]. intros pubState.
  apply ends_bind; [apply ends_getModifier|]. intros subModifier.
  apply ends_bind; [apply ends_invoke_subscribe|]. intros _. apply ends_inherit.
Qed.

(** Every call of the public object ends, on every store. *)
Lemma ends_perform (c : call) : ends (perform c).
Proof.
  destruct c as [name cb|name cb|dom d sn p mn i|cb]; simpl;
    [by intros w..|apply ends_createRelationship|by intros w].
Qed.

Lemma perform_not_Timeout (c : call) w : outcome (perform c) w ≠ Timeout.
Proof. intros Hc. pose proof (ends_perform c w) as Hw. unfold outcome in Hc. by rewrite Hc in Hw. Qed.

End ends.

(** ** Examples *)

(** The bound is met by a relationship between two new elements under names
    they do not have, and by the script of the examples. *)
Example createRelationship_bound_met :
  length (element_heap w_show) = length (element_heap w_templates) + 2 ∧
  length (state_heap w_show) = length (state_heap w_templates) + 1 ∧
  length (modifier_heap w_show) = length (modifier_heap w_templates) + 1 ∧
  news_all (templates ++ [CreateRelationship page3 0 "checked" 1 "show" false]) = (2, 3, 3).
Proof. repeat split. Qed.
