(* ===== verification/Cascade.v ===== *)
(** * Cascade: the fan-out of a change through the graph

    When the host raises a change on an element, the element collects its
    active States, each of them publishes to its Modifiers, and each Modifier
    runs its mutation and then the fan-out of its own element.  The
    computation reads the store and changes the page; it also records, as
    ghost state, the Modifiers it executed, in order.  The nesting of
    [modifyDependents] is bounded by a fuel.  The file ends with the
    theorems that run a change on the stores a script builds, for every
    predicate and mutation: one relationship, and a chain of two. *)

From stdpp Require Import base option list strings numbers relations.
From S2P Require Import Prelude JsObject Heap Fixture Graph Registry Builder.

Open Scope string_scope.
Open Scope list_scope.
Open Scope run_scope.

Section cascade.
Context `{Host}.

(** The state of a cascade: the page, and the Modifiers executed so far. *)
Definition Page : Type := Dom * list ModId.

(** Dereference in a store that the cascade does not change. *)
Definition deref {A} (heap : list A) (i : nat) : run Page A :=
  or_throw Dangling (heap !! i).

(** [State.isActive]: [return this.callback(this.element.$element)] *)
Definition isActive (w : Engine) (this : StateId) : run Page bool :=
  S <- deref (state_heap w) this ;;
  element <- or_throw TypeError_null (st_element S) ;;
  E <- deref (element_heap w) element ;;
  callback <- or_throw TypeError_not_function (st_callback S) ;;
  gets (λ p, callback (el_element E) p.1).

(** The entries of [l] that satisfy the test, which may throw. *)
Fixpoint filter_run {S A} (test : A → run S bool) (l : list A) : run S (list A) :=
  match l with
  | [] => ret []
  | x :: l' =>
      b <- test x ;;
      r <- filter_run test l' ;;
      ret (if b then x :: r else r)
  end.

(** [Element.getActiveStates]:
    [var activeStates = {};
     for (var i in states)
       if (states[i].hasOwnProperty('isActive') && states[i].isActive())
         activeStates[i] = states[i];
     return activeStates;]
    Every value of [states] was built by [new State], so the first conjunct
    holds. *)
Definition getActiveStates (w : Engine) (this : ElemId) : run Page (jsobj StateId) :=
  E <- deref (element_heap w) this ;;
  active <- filter_run (λ kv, isActive w kv.2) (for_in (el_states E)) ;;
  ret (obj_of_assignments active).

(** [Modifier.execute], with the fan-out of the element as a parameter:
    [this.callback(this.element.$element); this.element.modifyDependents();] *)
Definition execute_with (modifyDependents : ElemId → run Page unit)
    (w : Engine) (this : ModId) : run Page unit :=
  M <- deref (modifier_heap w) this ;;
  element <- or_throw TypeError_null (md_element M) ;;
  E <- deref (element_heap w) element ;;
  callback <- or_throw TypeError_not_function (md_callback M) ;;
  modify (λ p, (callback (el_element E) p.1, p.2 ++ [this])) ;;
  modifyDependents element.

(** [State.publish]:
    [for (var i in this.modifiers) this.modifiers[i].execute();] *)
Definition publish_with (modifyDependents : ElemId → run Page unit)
    (w : Engine) (this : StateId) : run Page unit :=
  S <- deref (state_heap w) this ;;
  for_each (execute_with modifyDependents w) (st_modifiers S).

(** The body of the closure [modifyDependents] of an element:
    [var activeStates = self.getActiveStates();
     for (var i in activeStates)
       if (activeStates[i].hasOwnProperty('publish')) activeStates[i].publish();] *)
Definition modifyDependents_with (modifyDependents : ElemId → run Page unit)
    (w : Engine) (self : ElemId) : run Page unit :=
  activeStates <- getActiveStates w self ;;
  for_each (λ kv, publish_with modifyDependents w kv.2) (for_in activeStates).

(** [Element.modifyDependents], to a nesting depth of [fuel]. *)
Fixpoint modifyDependents (fuel : nat) (w : Engine) (self : ElemId) : run Page unit :=
  match fuel with
  | 0 => timeout
  | S fuel' => modifyDependents_with (modifyDependents fuel' w) w self
  end.

(** [Modifier.execute] *)
Definition execute (fuel : nat) (w : Engine) (this : ModId) : run Page unit :=
  execute_with (modifyDependents fuel w) w this.

(** [State.publish] *)
Definition publish (fuel : nat) (w : Engine) (this : StateId) : run Page unit :=
  publish_with (modifyDependents fuel w) w this.

(** The host raises a change on [ref]: the handlers bound on it run in the
    order they were bound; an exception leaves the remaining ones unrun. *)
Definition change (fuel : nat) (w : Engine) (ref : HostRef) : run Page unit :=
  for_each (λ h, if decide (h.1 = ref) then modifyDependents fuel w h.2 else ret tt)
    (change_handlers w).

(** The page and the trace after a change on [ref] in page [dom]. *)
Definition on_change (fuel : nat) (w : Engine) (ref : HostRef) (dom : Dom) : res unit * Page :=
  change fuel w ref (dom, []).

(** ** The graph a cascade walks *)

(** The value of the predicate of State [s] on the page [dom], when [s] is
    an attached State with a callback. *)
Definition active (w : Engine) (s : StateId) (dom : Dom) : option bool :=
  S ← state_heap w !! s; e ← st_element S; E ← element_heap w !! e;
  callback ← st_callback S; Some (callback (el_element E) dom).

(** The States of [E] that [getActiveStates] selects on the page [dom], in
    the order in which [modifyDependents] publishes them. *)
Definition active_states (w : Engine) (E : Element) (dom : Dom) : jsobj StateId :=
  filter (λ kv, active w kv.2 dom = Some true) (for_in (el_states E)).

(** The element of a Modifier. *)
Definition owner (w : Engine) (m : ModId) : option ElemId :=
  modifier_heap w !! m ≫= md_element.

(** The elements a fan-out of [e] can reach in one step: the elements of
    the subscribers of the States of [e], whether active or not. *)
Definition dependents (w : Engine) (e : ElemId) : list ElemId :=
  E ← option_list (element_heap w !! e);
  kv ← el_states E;
  m ← subscribers w kv.2;
  option_list (owner w m).

(** [rank] decreases along every edge of the graph. *)
Definition ranked (w : Engine) (rank : ElemId → nat) : Prop :=
  Forall (λ e, Forall (λ e', rank e' < rank e) (dependents w e))
    (seq 0 (length (element_heap w))).

(** The page after the mutation of Modifier [m]; the page itself when [m]
    cannot be executed. *)
Definition mutation (w : Engine) (m : ModId) (dom : Dom) : Dom :=
  default dom
    (M ← modifier_heap w !! m; e ← md_element M; E ← element_heap w !! e;
     callback ← md_callback M; Some (callback (el_element E) dom)).

(** One execution without cascade: the mutation, and the entry of the trace. *)
Definition fire (w : Engine) (p : Page) (m : ModId) : Page :=
  (mutation w m p.1, p.2 ++ [m]).

(** The Modifiers a fan-out of [E] executes itself on the page [dom]: the
    subscribers of the active States, State by State. *)
Definition fired (w : Engine) (E : Element) (dom : Dom) : list ModId :=
  kv ← active_states w E dom; subscribers w kv.2.

(** The elements whose handler is bound on [ref], in the order of binding. *)
Definition listeners (w : Engine) (ref : HostRef) : list ElemId :=
  (filter (λ h, h.1 = ref) (change_handlers w)).*2.

(** A State whose predicate holds on every page. *)
Definition always_active (w : Engine) (s : StateId) : Prop :=
  ∀ dom, active w s dom = Some true.

(** The elements a cascade from [e] can reach: [e'] is downstream of [e]
    when a path of one or more edges leads from [e] to [e']. *)
Definition downstream (w : Engine) : relation ElemId :=
  tc (λ e e', e' ∈ dependents w e).

(** An edge of the graph that every fan-out of [e] follows. *)
Definition hard_edge (w : Engine) (e e' : ElemId) : Prop :=
  ∃ E kv m, element_heap w !! e = Some E ∧ kv ∈ el_states E ∧
            always_active w kv.2 ∧ m ∈ subscribers w kv.2 ∧ owner w m = Some e'.

End cascade.

(** ** Example stores on the fixture host *)

(** The page [page3] after the user ticked field 0. *)
Definition page3_checked : list node := set_checked true 0 page3.

(** The chain of [w_chain] without inheritance. *)
Definition w_chain_plain : Engine :=
  perform_all [CreateRelationship page3 1 "visible" 2 "show" false] w_show.

(** Two fields that bump each other, whatever the page. *)
Definition w_cycle : Engine :=
  perform_all [ AddState "always" always;
                CreateRelationship page3 0 "always" 1 "bump" false;
                CreateRelationship page3 1 "always" 0 "bump" false ]
    w_templates.

(** A template installed as the prototype of the container, and a
    relationship on a name that only the template has. *)
Definition w_proto : Engine :=
  perform_all [ AddState "__proto__" always; AddModifier "show" show;
                CreateRelationship page3 0 "publish" 1 "show" false ] init.

(** A field whose own State clears it: the dependency and the dependent are
    the same element. *)
Definition w_self (inheritState : bool) : Engine :=
  perform_all [ AddState "checked" checked; AddModifier "clear" (set_checked false);
                CreateRelationship page3 0 "checked" 0 "clear" inheritState ] init.

(** The number of fan-outs below an element of the chain. *)
Definition chain_rank (e : ElemId) : nat := 2 - e.

(** ** The cascade, step by step *)

Section equations.
Context `{Host}.
Implicit Types (w : Engine) (e : ElemId) (s : StateId) (m : ModId) (p : Page).

Lemma deref_Some {A} (heap : list A) i x p :
  heap !! i = Some x → deref heap i p = (Ok x, p).
Proof. unfold deref. by intros ->. Qed.

(** [isActive] reads the page and leaves it as it is. *)
Lemma isActive_eq w s p b :
  active w s p.1 = Some b → isActive w s p = (Ok b, p).
Proof.
  unfold active, isActive. intros HS.
  apply bind_Some in HS as (S & HS & He). apply bind_Some in He as (e & He & HE).
  apply bind_Some in HE as (E & HE & Hcb). apply bind_Some in Hcb as (cb & Hcb & [= <-]).
  rewrite (bind_Ok _ _ _ _ _ (deref_Some _ _ _ _ HS)), He, bind_or_throw.
  by rewrite (bind_Ok _ _ _ _ _ (deref_Some _ _ _ _ HE)), Hcb, bind_or_throw.
Qed.

Lemma active_valid w s dom :
  is_Some (active w s dom) → is_Some (state_heap w !! s).
Proof. unfold active. intros [b Hb]. by destruct (state_heap w !! s). Qed.

(** A test that only reads: the loop is a filter. *)
Lemma filter_run_pure {S A} (test : A → run S bool) (P : A → Prop)
    `{∀ x, Decision (P x)} l (p : S) :
  (∀ x, x ∈ l → test x p = (Ok (bool_decide (P x)), p)) →
  filter_run test l p = (Ok (filter P l), p).
Proof.
  induction l as [|x l IH]; intros Ht; [done|]. simpl.
  rewrite (bind_Ok _ _ _ _ _ (Ht x ltac:(left))).
  rewrite (bind_Ok _ _ _ _ _ (IH (λ y Hy, Ht y ltac:(by right)))).
  rewrite filter_cons. by case_bool_decide; case_decide.
Qed.

(** In a well-formed store with callbacks, every State of an element can be
    evaluated. *)
Lemma active_is_Some w e E kv dom :
  wf w → callbacks_ok w → element_heap w !! e = Some E → kv ∈ el_states E →
  is_Some (active w kv.2 dom).
Proof.
  intros Hwf [Hcb _] HE Hkv. destruct kv as [k s].
  apply (obj_wf_elem_of _ _ _ (owned_obj _ _ _ _ (wf_states _ Hwf) _ _ HE)) in Hkv.
  destruct (owned_back _ _ _ _ (wf_states _ Hwf) _ _ _ _ HE Hkv) as (S & HS & HSe).
  destruct (Forall_lookup_1 _ _ _ _ Hcb HS) as [cb Hc].
  unfold active. simpl. rewrite HS. simpl. rewrite HSe. simpl. rewrite HE. simpl.
  rewrite Hc. simpl. eauto.
Qed.

(** [getActiveStates] is the filter by the predicates, on the page as it is
    when the method is called. *)
Lemma getActiveStates_eq w e E p :
  wf w → callbacks_ok w → element_heap w !! e = Some E →
  getActiveStates w e p =
    (Ok (obj_of_assignments (active_states w E p.1)), p).
Proof.
  intros Hwf Hcb HE. unfold getActiveStates, active_states.
  rewrite (bind_Ok _ _ _ _ _ (deref_Some _ _ _ _ HE)).
  erewrite bind_Ok; [done|]. apply filter_run_pure. intros kv Hkv. rewrite for_in_elem_of in Hkv.
  destruct (active_is_Some w e E kv p.1 Hwf Hcb HE Hkv) as [b Hb].
  rewrite (isActive_eq _ _ _ _ Hb), Hb. f_equal. f_equal.
  by destruct b.
Qed.

(** The fan-out of an element: the States that are active when it starts
    are published, in enumeration order; none is evaluated again. *)
Lemma modifyDependents_with_unfold rec w e E p :
  wf w → callbacks_ok w → element_heap w !! e = Some E →
  modifyDependents_with rec w e p =
    for_each (λ kv, publish_with rec w kv.2) (active_states w E p.1) p.
Proof.
  intros Hwf Hcb HE. unfold modifyDependents_with.
  rewrite (bind_Ok _ _ _ _ _ (getActiveStates_eq _ _ _ _ Hwf Hcb HE)).
  unfold active_states. rewrite for_in_filtered_literal; [done|].
  apply (owned_obj _ _ _ _ (wf_states _ Hwf) _ _ HE).
Qed.

(** [publish] executes the subscribers in subscription order. *)
Lemma publish_with_unfold rec w s p :
  is_Some (state_heap w !! s) →
  publish_with rec w s p = for_each (execute_with rec w) (subscribers w s) p.
Proof.
  intros [S HS]. unfold publish_with, subscribers.
  rewrite (bind_Ok _ _ _ _ _ (deref_Some _ _ _ _ HS)). by rewrite HS.
Qed.

(** [execute] applies the mutation to the host reference of the element of
    the Modifier, then fans out from that element. *)
Lemma execute_with_unfold rec w m M e E callback p :
  modifier_heap w !! m = Some M → md_element M = Some e →
  element_heap w !! e = Some E → md_callback M = Some callback →
  execute_with rec w m p = rec e (callback (el_element E) p.1, p.2 ++ [m]).
Proof.
  intros HM He HE Hcb. unfold execute_with.
  rewrite (bind_Ok _ _ _ _ _ (deref_Some _ _ _ _ HM)), He, bind_or_throw.
  rewrite (bind_Ok _ _ _ _ _ (deref_Some _ _ _ _ HE)), Hcb, bind_or_throw.
  by rewrite bind_modify.
Qed.

(** The edges of the graph. *)
Lemma elem_of_dependents w e e' :
  e' ∈ dependents w e ↔
  ∃ E kv m, element_heap w !! e = Some E ∧ kv ∈ el_states E ∧
            m ∈ subscribers w kv.2 ∧ owner w m = Some e'.
Proof.
  unfold dependents. split.
  - intros (E & (kv & (m & Ho & ?)%list_elem_of_bind & ?)%list_elem_of_bind
              & HE)%list_elem_of_bind.
    apply elem_of_option_list in Ho, HE. eauto 10.
  - intros (E & kv & m & ? & ? & ? & ?).
    apply list_elem_of_bind. exists E. split; [|by apply elem_of_option_list].
    apply list_elem_of_bind. exists kv. split; [|done].
    apply list_elem_of_bind. exists m. split; [by apply elem_of_option_list|done].
Qed.

(** A subscriber of a State of a well-formed store can be executed. *)
Lemma subscriber_executable w s m :
  wf w → callbacks_ok w → m ∈ subscribers w s →
  ∃ M e E callback, modifier_heap w !! m = Some M ∧ md_element M = Some e ∧
                    element_heap w !! e = Some E ∧ md_callback M = Some callback.
Proof.
  intros Hwf [_ Hcb] Hm.
  destruct (wf_subscribers_attached _ _ _ Hwf Hm) as (M & HM & [e He]).
  destruct (owned_forth _ _ _ _ (wf_modifiers _ Hwf) _ _ _ HM He) as (E & _ & HE & _).
  destruct (Forall_lookup_1 _ _ _ _ Hcb HM) as [cb ?]. eauto 10.
Qed.

End equations.

(** ** Outcomes of a cascade *)

Section outcomes.
Context `{Host}.
Implicit Types (w : Engine) (e : ElemId) (s : StateId) (m : ModId) (p : Page).

(** What holds of the nested fan-outs holds of the publication of a State
    of [e] and of the fan-out of [e]: the only exceptions and the only
    exhaustion of fuel of a cascade in a well-formed store with callbacks
    are those of the recursive calls. *)
Lemma publish_with_yields errors fuel_may_end rec w e E kv :
  wf w → callbacks_ok w → element_heap w !! e = Some E → kv ∈ el_states E →
  (∀ e', e' ∈ dependents w e → yields errors fuel_may_end (rec e')) →
  yields errors fuel_may_end (publish_with rec w kv.2).
Proof.
  intros Hwf Hcb HE Hkv Hrec p.
  rewrite publish_with_unfold by by eapply active_valid, (active_is_Some w e E kv p.1).
  apply yields_for_each. intros m Hm p'.
  destruct (subscriber_executable w kv.2 m Hwf Hcb Hm) as (M & e' & E' & cb & HM & He' & HE' & ?).
  erewrite execute_with_unfold by done. apply Hrec, elem_of_dependents.
  exists E, kv, m. unfold owner. rewrite HM. auto.
Qed.

Lemma active_states_subseteq w E dom kv :
  kv ∈ active_states w E dom → kv ∈ el_states E.
Proof. intros [_ Hkv]%list_elem_of_filter. by rewrite for_in_elem_of in Hkv. Qed.

Lemma modifyDependents_with_yields errors fuel_may_end rec w e :
  wf w → callbacks_ok w → is_Some (element_heap w !! e) →
  (∀ e', e' ∈ dependents w e → yields errors fuel_may_end (rec e')) →
  yields errors fuel_may_end (modifyDependents_with rec w e).
Proof.
  intros Hwf Hcb [E HE] Hrec p. rewrite (modifyDependents_with_unfold _ _ _ E) by done.
  apply yields_for_each. intros kv Hkv%active_states_subseteq.
  by eapply publish_with_yields.
Qed.

(** The fan-out of [e] depends on the nested fan-outs through the
    dependents of [e] only. *)
Lemma modifyDependents_with_ext rec rec' w e p :
  wf w → callbacks_ok w → is_Some (element_heap w !! e) →
  (∀ e' p', e' ∈ dependents w e → rec e' p' = rec' e' p') →
  modifyDependents_with rec w e p = modifyDependents_with rec' w e p.
Proof.
  intros Hwf Hcb [E HE] Hrec. rewrite !(modifyDependents_with_unfold _ _ _ E) by done.
  apply for_each_ext. intros kv p' Hkv%active_states_subseteq.
  rewrite !publish_with_unfold by by eapply active_valid, (active_is_Some w e E kv p'.1).
  apply for_each_ext. intros m p'' Hm.
  destruct (subscriber_executable w kv.2 m Hwf Hcb Hm) as (M & e' & E' & cb & HM & He' & HE' & ?).
  erewrite !execute_with_unfold by done. apply Hrec, elem_of_dependents.
  exists E, kv, m. unfold owner. rewrite HM. auto.
Qed.

(** The elements a fan-out reaches are elements of the store. *)
Lemma dependents_valid w e e' :
  wf w → e' ∈ dependents w e → is_Some (element_heap w !! e').
Proof.
  intros Hwf (E & kv & m & _ & _ & _ & Ho)%elem_of_dependents.
  unfold owner in Ho. apply bind_Some in Ho as (M & HM & He).
  destruct (owned_forth _ _ _ _ (wf_modifiers _ Hwf) _ _ _ HM He) as (E' & _ & ? & _).
  eauto.
Qed.

Lemma ranked_lt w rank e e' :
  ranked w rank → e' ∈ dependents w e → rank e' < rank e.
Proof.
  intros Hr He'. pose proof He' as (E & _ & _ & HE & _)%elem_of_dependents.
  apply list_elem_of_lookup in He' as [i Hi].
  eapply (Forall_lookup_1 _ _ _ _ (Forall_lookup_1 _ _ e e Hr _) Hi).
  Unshelve. apply lookup_seq. split; [done|]. by eapply lookup_lt_Some.
Qed.

(** With rank below the fuel, the fan-out returns. *)
Lemma modifyDependents_ranked w rank n e :
  wf w → callbacks_ok w → ranked w rank → is_Some (element_heap w !! e) →
  rank e < n → yields (λ _, False) False (modifyDependents n w e).
Proof.
  intros Hwf Hcb Hr. revert e. induction n as [|n IH]; intros e He Hlt; [lia|].
  apply modifyDependents_with_yields; [done..|]. intros e' He'.
  apply IH; [by eapply dependents_valid|]. pose proof (ranked_lt _ _ _ _ Hr He'). lia.
Qed.

(** More fuel changes nothing once the fuel was enough. *)
Lemma execute_with_mono rec rec' w m :
  (∀ e, approx (rec e) (rec' e)) → approx (execute_with rec w m) (execute_with rec' w m).
Proof.
  intros Hrec. unfold execute_with.
  repeat (apply approx_bind; [reflexivity|intros ?]). apply Hrec.
Qed.

Lemma modifyDependents_with_mono rec rec' w e :
  (∀ e, approx (rec e) (rec' e)) →
  approx (modifyDependents_with rec w e) (modifyDependents_with rec' w e).
Proof.
  intros Hrec. unfold modifyDependents_with, publish_with.
  apply approx_bind; [reflexivity|intros ?]. apply approx_for_each. intros kv _.
  apply approx_bind; [reflexivity|intros ?]. apply approx_for_each. intros m _.
  by apply execute_with_mono.
Qed.

Lemma modifyDependents_mono (n n' : nat) w e :
  (n ≤ n')%nat → approx (modifyDependents n w e) (modifyDependents n' w e).
Proof.
  revert n' e. induction n as [|n IH]; intros n' e Hle; [apply approx_timeout|].
  destruct n' as [|n']; [lia|]. simpl.
  apply modifyDependents_with_mono. intros e'. apply IH. lia.
Qed.

(** A fan-out in a well-formed store with callbacks does not throw. *)
Lemma modifyDependents_no_throw fuel w e :
  wf w → callbacks_ok w → is_Some (element_heap w !! e) →
  yields (λ _, False) True (modifyDependents fuel w e).
Proof.
  intros Hwf Hcb. revert e. induction fuel as [|n IH]; intros e He; [by intros p|].
  apply modifyDependents_with_yields; [done..|]. intros e' He'.
  by eapply IH, dependents_valid.
Qed.

(** A fan-out in a well-formed store in which every instance has a
    callback never throws: every reference it follows leads to an object,
    every State and Modifier it reaches has its element.  It returns, or it
    runs out of fuel. *)
Theorem modifyDependents_safe fuel w e p :
  wf w → callbacks_ok w → is_Some (element_heap w !! e) →
  (modifyDependents fuel w e p).1 = Ok tt ∨ (modifyDependents fuel w e p).1 = Timeout.
Proof.
  intros Hwf Hcb He. pose proof (modifyDependents_no_throw fuel w e Hwf Hcb He p) as Hp.
  by destruct (modifyDependents fuel w e p).1 as [[]| |]; auto.
Qed.

(** When the graph has no cycle, a fan-out returns: with a rank that
    decreases along every edge, the nesting of fan-outs from [e] is at most
    [rank e] deep, so fuel [rank e + 1] is enough, on every page. *)
Theorem modifyDependents_terminates w rank e p :
  wf w → callbacks_ok w → ranked w rank → is_Some (element_heap w !! e) →
  ∃ p', modifyDependents (S (rank e)) w e p = (Ok tt, p').
Proof.
  intros Hwf Hcb Hr He.
  destruct (yields_Ok _ p (modifyDependents_ranked w rank (S (rank e)) e Hwf Hcb Hr He
                             ltac:(lia))) as [[] Hp].
  exists (modifyDependents (S (rank e)) w e p).2.
  by destruct (modifyDependents _ _ _ _) as [r p']; simplify_eq /=.
Qed.

(** The result of a fan-out that did not run out of fuel is the result
    with any larger fuel. *)
Theorem modifyDependents_fuel (n n' : nat) w e p :
  (n ≤ n')%nat → (modifyDependents n w e p).1 ≠ Timeout →
  modifyDependents n' w e p = modifyDependents n w e p.
Proof. intros Hle. by apply modifyDependents_mono. Qed.

(** The handlers of a well-formed store are bound for elements of the
    store: a change does not throw either. *)
Lemma change_no_throw fuel w ref :
  wf w → callbacks_ok w → yields (λ _, False) True (change fuel w ref).
Proof.
  intros Hwf Hcb. unfold change. apply yields_for_each. intros [r e] Hh. simpl.
  case_decide; [|apply yields_ret]. apply modifyDependents_no_throw; [done..|].
  rewrite (wf_handlers _ Hwf) in Hh. apply handlers_of_lookup in Hh as (E & ? & _). eauto.
Qed.

(** C7: whatever the client built through the public object, without a
    template named [__proto__], and whether the calls returned or threw: a
    change on any host reference, on any page, never throws.  It returns, or
    the cascade does not end within the fuel. *)
Theorem script_change_safe (cs : list call) fuel ref dom :
  Forall plain_call cs →
  (on_change fuel (perform_all cs init) ref dom).1 = Ok tt ∨
  (on_change fuel (perform_all cs init) ref dom).1 = Timeout.
Proof.
  intros Hcs. unfold on_change.
  pose proof (change_no_throw fuel (perform_all cs init) ref
                (perform_all_wf cs init wf_init)
                (proj1 (callable_perform_all cs init Hcs callable_init)) (dom, [])) as Hp.
  by destruct (change fuel (perform_all cs init) ref (dom, [])).1 as [[]| |]; auto.
Qed.

End outcomes.

(** ** What a fan-out does *)

Section effects.
Context `{Host}.
Implicit Types (w : Engine) (e : ElemId) (s : StateId) (m : ModId) (p : Page).

Lemma fire_trace w p l : (foldl (fire w) p l).2 = p.2 ++ l.
Proof.
  revert p. induction l as [|m l IH]; intros p; simpl; [by rewrite app_nil_r|].
  rewrite IH. simpl. by rewrite <- app_assoc.
Qed.

(** An element none of whose States has a subscriber: its fan-out changes
    nothing. *)
Lemma fan_out_leaf n w e p :
  wf w → callbacks_ok w → is_Some (element_heap w !! e) → dependents w e = [] →
  modifyDependents (S n) w e p = (Ok tt, p).
Proof.
  intros Hwf Hcb [E HE] Hleaf. simpl.
  rewrite (modifyDependents_with_unfold _ _ _ E) by done.
  apply for_each_skip. intros kv p' Hkv%active_states_subseteq.
  rewrite publish_with_unfold by by eapply active_valid, (active_is_Some w e E kv p'.1).
  destruct (subscribers w kv.2) as [|m l] eqn:Hsub; [done|]. exfalso.
  assert (m ∈ subscribers w kv.2) as Hm by (rewrite Hsub; left).
  destruct (subscriber_executable w kv.2 m Hwf Hcb Hm) as (M & e' & _ & _ & HM & He' & _).
  assert (e' ∈ dependents w e) as Hin; [|by rewrite Hleaf in Hin; apply elem_of_nil in Hin].
  apply elem_of_dependents. exists E, kv, m. unfold owner. rewrite HM. auto.
Qed.

(** The Modifier of such an element: its execution is its mutation. *)
Lemma execute_leaf n w m e p :
  wf w → callbacks_ok w → owner w m = Some e → dependents w e = [] →
  execute (S n) w m p = (Ok tt, fire w p m).
Proof.
  intros Hwf Hcb Ho Hleaf. pose proof Hcb as [_ Hcbm].
  unfold owner in Ho. apply bind_Some in Ho as (M & HM & He).
  destruct (owned_forth _ _ _ _ (wf_modifiers _ Hwf) _ _ _ HM He) as (E & _ & HE & _).
  destruct (Forall_lookup_1 _ _ _ _ Hcbm HM) as [cb Hc].
  unfold execute. erewrite execute_with_unfold by done.
  rewrite fan_out_leaf by eauto.
  unfold fire, mutation. rewrite HM. simpl. rewrite He. simpl. rewrite HE. simpl.
  by rewrite Hc.
Qed.

(** [execute] is the mutation, then the fan-out of the element of the
    Modifier. *)
Lemma execute_unfold n w m e p :
  wf w → callbacks_ok w → owner w m = Some e →
  execute n w m p = modifyDependents n w e (fire w p m).
Proof.
  intros Hwf [_ Hcbm] Ho. unfold owner in Ho. apply bind_Some in Ho as (M & HM & He).
  destruct (owned_forth _ _ _ _ (wf_modifiers _ Hwf) _ _ _ HM He) as (E & _ & HE & _).
  destruct (Forall_lookup_1 _ _ _ _ Hcbm HM) as [cb Hc].
  unfold execute. erewrite execute_with_unfold by done.
  unfold fire, mutation. rewrite HM. simpl. rewrite He. simpl. rewrite HE. simpl.
  by rewrite Hc.
Qed.

(** The fan-out of an element executes the subscribers of its active
    States, each followed by the fan-out of its own element. *)
Lemma fan_out_runs n w e E p :
  wf w → callbacks_ok w → element_heap w !! e = Some E →
  modifyDependents (S n) w e p = for_each (execute n w) (fired w E p.1) p.
Proof.
  intros Hwf Hcb HE. simpl. rewrite (modifyDependents_with_unfold _ _ _ E) by done.
  unfold fired. rewrite for_each_bind. apply for_each_ext.
  intros kv p' Hkv%active_states_subseteq.
  apply publish_with_unfold. by eapply active_valid, (active_is_Some w e E kv p'.1).
Qed.

(** The fan-out of a reference without element throws. *)
Lemma fan_out_dangling n w e p :
  element_heap w !! e = None → modifyDependents (S n) w e p = (Throw Dangling, p).
Proof.
  intros HE. simpl. unfold modifyDependents_with, getActiveStates, deref.
  by rewrite HE.
Qed.

(** The Modifiers a fan-out executes have an element. *)
Lemma fired_owner w E e dom m :
  wf w → element_heap w !! e = Some E → m ∈ fired w E dom → is_Some (owner w m).
Proof.
  intros Hwf HE (kv & Hm & Hkv%active_states_subseteq)%list_elem_of_bind.
  destruct (wf_subscribers_attached _ _ _ Hwf Hm) as (M & HM & [e' He']).
  exists e'. unfold owner. by rewrite HM.
Qed.

(** A fan-out only adds to the trace, whether it returns, throws or runs out
    of fuel. *)
Lemma trace_grows n w e p (tr : list ModId) :
  wf w → callbacks_ok w → tr `prefix_of` p.2 →
  tr `prefix_of` (modifyDependents n w e p).2.2.
Proof.
  intros Hwf Hcb. revert e p. induction n as [|n IH]; intros e p Htr; [done|].
  destruct (element_heap w !! e) as [E|] eqn:HE; [|by rewrite fan_out_dangling].
  rewrite (fan_out_runs _ _ _ E) by done.
  apply (for_each_preserves (λ q, tr `prefix_of` q.2)); [|done].
  intros m q Hm Hq. destruct (fired_owner w E e p.1 m Hwf HE Hm) as [e' He'].
  rewrite (execute_unfold _ _ _ e') by done. apply IH. by apply prefix_app_r.
Qed.

(** What a fan-out adds to the trace belongs to elements of any set that
    holds the dependents of the element and is closed under the edges. *)
Lemma trace_within (X : ElemId → Prop) n w e p (base : list ModId) :
  wf w → callbacks_ok w →
  (∀ e1 e2, X e1 → e2 ∈ dependents w e1 → X e2) →
  (∀ e', e' ∈ dependents w e → X e') →
  (∃ tr, p.2 = base ++ tr ∧ Forall (λ m, ∃ e', owner w m = Some e' ∧ X e') tr) →
  ∃ tr, (modifyDependents n w e p).2.2 = base ++ tr ∧
        Forall (λ m, ∃ e', owner w m = Some e' ∧ X e') tr.
Proof.
  intros Hwf Hcb HX. revert e p. induction n as [|n IH]; intros e p He Hp; [done|].
  destruct (element_heap w !! e) as [E|] eqn:HE; [|by rewrite fan_out_dangling].
  rewrite (fan_out_runs _ _ _ E) by done.
  apply (for_each_preserves
           (λ q, ∃ tr, q.2 = base ++ tr ∧
                       Forall (λ m, ∃ e', owner w m = Some e' ∧ X e') tr)); [|done].
  intros m q Hm (tr & Hq & Htr).
  destruct (fired_owner w E e p.1 m Hwf HE Hm) as [e' He'].
  assert (X e') as Hx.
  { apply list_elem_of_bind in Hm as (kv & Hm & Hkv%active_states_subseteq).
    apply He, elem_of_dependents. eauto 10. }
  rewrite (execute_unfold _ _ _ e') by done. apply IH; [eauto|].
  exists (tr ++ [m]). simpl. rewrite Hq, app_assoc. split; [done|].
  apply Forall_app. split; [done|]. apply Forall_singleton. eauto.
Qed.

(** The first Modifier of a fan-out is executed, whatever follows. *)
Lemma fan_out_first n w e E m l p :
  wf w → callbacks_ok w → element_heap w !! e = Some E → fired w E p.1 = m :: l →
  (p.2 ++ [m]) `prefix_of` (modifyDependents (S n) w e p).2.2.
Proof.
  intros Hwf Hcb HE Hf. rewrite (fan_out_runs _ _ _ E), Hf by done.
  destruct (fired_owner w E e p.1 m Hwf HE) as [e' He']; [rewrite Hf; left|].
  simpl. unfold bind. rewrite (execute_unfold _ _ _ e') by done.
  pose proof (trace_grows n w e' (fire w p m) (p.2 ++ [m]) Hwf Hcb (reflexivity _)) as Hq.
  destruct (modifyDependents n w e' (fire w p m)) as [[[]| |] q]; [|done..].
  apply (for_each_preserves (λ q, (p.2 ++ [m]) `prefix_of` q.2)); [|done].
  intros m' q' Hm' Hq'.
  destruct (fired_owner w E e p.1 m' Hwf HE) as [e'' He'']; [rewrite Hf; by right|].
  rewrite (execute_unfold _ _ _ e'') by done. apply trace_grows; [done..|].
  by apply prefix_app_r.
Qed.

(** A run of executions that returns has executed each of them, in order,
    and what they brought about in between. *)
Lemma executions_trace n w l p p' :
  wf w → callbacks_ok w → (∀ m, m ∈ l → is_Some (owner w m)) →
  for_each (execute n w) l p = (Ok tt, p') → ∃ tr, p'.2 = p.2 ++ tr ∧ l `sublist_of` tr.
Proof.
  intros Hwf Hcb. revert p. induction l as [|m l IH]; intros p Hl Hrun.
  - injection Hrun as <-. exists []. by rewrite app_nil_r.
  - simpl in Hrun. apply bind_Ok_inv in Hrun as ([] & p1 & Hm & Hrun).
    destruct (Hl m ltac:(left)) as [e He]. rewrite (execute_unfold _ _ _ e) in Hm by done.
    pose proof (trace_grows n w e (fire w p m) (p.2 ++ [m]) Hwf Hcb (reflexivity _)) as [tr1 H1].
    rewrite Hm in H1. simpl in H1.
    destruct (IH p1) as (tr2 & H2 & Hsub); [by intros; apply Hl; right|done|].
    exists (m :: tr1 ++ tr2). split; [by rewrite H2, H1, <- !app_assoc|].
    by apply sublist_skip, sublist_inserts_l.
Qed.

(** A fan-out that returns has executed every Modifier that the active
    States of the element publish to. *)
Lemma fan_out_executes n w e E p p' :
  wf w → callbacks_ok w → element_heap w !! e = Some E →
  modifyDependents n w e p = (Ok tt, p') →
  ∃ tr, p'.2 = p.2 ++ tr ∧ fired w E p.1 `sublist_of` tr.
Proof.
  intros Hwf Hcb HE. destruct n as [|n]; [done|].
  rewrite (fan_out_runs _ _ _ E) by done. apply executions_trace; [done..|].
  intros m Hm. by eapply fired_owner.
Qed.

(** C9: a change stays downstream: whatever the outcome of the fan-out of
    an element (it returns, or the fuel ends), every Modifier it has
    executed belongs to an element that a path of relationships leads to
    from the element that changed; the Modifiers of other elements are not
    executed. *)
Theorem fan_out_downstream n w e p :
  wf w → callbacks_ok w →
  ∃ tr, (modifyDependents n w e p).2.2 = p.2 ++ tr ∧
        Forall (λ m, ∃ e', owner w m = Some e' ∧ downstream w e e') tr.
Proof.
  intros Hwf Hcb. apply (trace_within (downstream w e)); [done..| | |].
  - intros e1 e2 H1 H2. by eapply tc_r.
  - intros e' He'. by apply tc_once.
  - exists []. by rewrite app_nil_r.
Qed.

(** The fan-out of an element with one State: when the State is active, its
    subscribers are executed. *)
Lemma fan_out_single n w e E (sn : string) s p :
  wf w → callbacks_ok w → element_heap w !! e = Some E → el_states E = [(sn, s)] →
  modifyDependents (S n) w e p =
    if decide (active w s p.1 = Some true)
    then for_each (execute n w) (subscribers w s) p else (Ok tt, p).
Proof.
  intros Hwf Hcb HE Hst. simpl. rewrite (modifyDependents_with_unfold _ _ _ E) by done.
  unfold active_states. rewrite Hst, for_in_singleton, filter_cons, filter_nil. simpl.
  case_decide as Ha; [|done]. rewrite for_each_singleton. simpl.
  apply publish_with_unfold. eapply active_valid. by rewrite Ha.
Qed.

(** C5: a fan-out of an element whose dependents have no dependents of
    their own executes the subscribers of the States that are active when it
    starts, State by State in enumeration order and subscriber by subscriber
    in subscription order, each once per subscription; the page is changed
    by their mutations in that order, and no State is evaluated again. *)
Theorem fan_out_depth_one n w e E p :
  wf w → callbacks_ok w → element_heap w !! e = Some E →
  (∀ e', e' ∈ dependents w e → dependents w e' = []) →
  modifyDependents (S (S n)) w e p = (Ok tt, foldl (fire w) p (fired w E p.1)).
Proof.
  intros Hwf Hcb HE Hleaf. unfold fired. rewrite foldl_bind.
  change (modifyDependents (S (S n)) w e p)
    with (modifyDependents_with (modifyDependents (S n) w) w e p).
  rewrite (modifyDependents_with_unfold _ _ _ E) by done.
  apply for_each_foldl. intros kv p' Hkv%active_states_subseteq.
  rewrite publish_with_unfold by by eapply active_valid, (active_is_Some w e E kv p'.1).
  apply for_each_foldl. intros m p'' Hm.
  destruct (subscriber_executable w kv.2 m Hwf Hcb Hm) as (M & e' & _ & _ & HM & He' & _).
  assert (owner w m = Some e') as Ho by (unfold owner; by rewrite HM).
  apply (execute_leaf n w m e'); [done..|]. apply Hleaf, elem_of_dependents. eauto 10.
Qed.

(** A fan-out of an element none of whose States is active changes
    neither the page nor the trace. *)
Theorem fan_out_inactive n w e E p :
  wf w → callbacks_ok w → element_heap w !! e = Some E →
  (∀ kv, kv ∈ el_states E → active w kv.2 p.1 ≠ Some true) →
  modifyDependents (S n) w e p = (Ok tt, p).
Proof.
  intros Hwf Hcb HE Hoff. simpl. rewrite (modifyDependents_with_unfold _ _ _ E) by done.
  unfold active_states. rewrite filter_none; [done|].
  intros kv Hkv. apply Hoff. by rewrite for_in_elem_of in Hkv.
Qed.

(** A change on a host reference is the fan-out of every element that
    was built for the reference, in the order in which they were built. *)
Theorem change_fans_out fuel w ref p :
  change fuel w ref p = for_each (modifyDependents fuel w) (listeners w ref) p.
Proof.
  unfold change, listeners. revert p.
  induction (change_handlers w) as [|h hs IH]; intros p; [done|].
  rewrite filter_cons. simpl. case_decide; simpl.
  - unfold bind. destruct (modifyDependents fuel w h.2 p) as [[[]| |] p']; auto.
  - by rewrite bind_ret_l.
Qed.

End effects.

(** ** Cycles *)

Section divergence.
Context `{Host}.
Implicit Types (w : Engine) (e : ElemId) (s : StateId) (m : ModId) (p : Page).

(** A fan-out that follows a hard edge into a fan-out that runs out of
    fuel runs out of fuel. *)
Lemma modifyDependents_with_diverges rec w e e' :
  wf w → callbacks_ok w → hard_edge w e e' →
  (∀ e'', e'' ∈ dependents w e → yields (λ _, False) True (rec e'')) →
  (∀ p, (rec e' p).1 = Timeout) →
  ∀ p, (modifyDependents_with rec w e p).1 = Timeout.
Proof.
  intros Hwf Hcb (E & kv & m & HE & Hkv & Hact & Hm & Ho) Hsafe Hdiv p.
  rewrite (modifyDependents_with_unfold _ _ _ E) by done.
  apply (for_each_Timeout _ _ kv).
  - apply list_elem_of_filter. split; [apply Hact|by rewrite for_in_elem_of].
  - intros p'.
    rewrite publish_with_unfold by (apply (active_valid w kv.2 p'.1); by rewrite Hact).
    apply (for_each_Timeout _ _ m); [done|..].
    + intros p''.
      destruct (subscriber_executable w kv.2 m Hwf Hcb Hm) as (M & e1 & E1 & cb & HM & He1 & ? & ?).
      erewrite execute_with_unfold by done.
      unfold owner in Ho. rewrite HM in Ho. simpl in Ho. by simplify_eq.
    + intros m' p'' Hm'.
      destruct (subscriber_executable w kv.2 m' Hwf Hcb Hm') as (M & e1 & E1 & cb & HM & He1 & ? & ?).
      erewrite execute_with_unfold by done. apply (yields_no_throw True), Hsafe.
      apply elem_of_dependents. exists E, kv, m'. unfold owner. rewrite HM. auto.
  - intros kv' p' Hkv'%active_states_subseteq. apply (yields_no_throw True).
    by eapply publish_with_yields.
Qed.

(** A cycle cannot be left.  When every element of a set [C] has a
    State that is active on every page, with a subscriber on an element of
    [C], a fan-out from an element of [C] exhausts every fuel: the code
    recurses without bound. *)
Theorem fan_out_diverges w (C : ElemId → Prop) fuel e p :
  wf w → callbacks_ok w →
  (∀ e, C e → ∃ e', C e' ∧ hard_edge w e e') →
  C e → (modifyDependents fuel w e p).1 = Timeout.
Proof.
  intros Hwf Hcb HC. revert e p. induction fuel as [|n IH]; intros e p He; [done|].
  destruct (HC e He) as (e' & He' & Hedge). simpl.
  eapply modifyDependents_with_diverges; [done..| |by auto].
  intros e'' H''. apply modifyDependents_no_throw; [done..|by eapply dependents_valid].
Qed.

End divergence.

(** ** The example stores *)

Lemma wf_w_show : wf w_show.
Proof. apply perform_all_wf, perform_all_wf, wf_init. Qed.

Lemma wf_w_chain_plain : wf w_chain_plain.
Proof. apply perform_all_wf, wf_w_show. Qed.

Lemma wf_w_cycle : wf w_cycle.
Proof. apply perform_all_wf, perform_all_wf, wf_init. Qed.

Lemma w_cycle_edges e :
  e = 0 ∨ e = 1 → ∃ e', (e' = 0 ∨ e' = 1) ∧ hard_edge w_cycle e e'.
Proof.
  intros [-> | ->]; [exists 1|exists 0]; (split; [auto|]).
  - eexists _, ("always", 3), 2. split; [reflexivity|]. split; [compute_done|].
    split; [by intros dom|]. split; [compute_done|reflexivity].
  - eexists _, ("always", 4), 3. split; [reflexivity|]. split; [compute_done|].
    split; [by intros dom|]. split; [compute_done|reflexivity].
Qed.

Lemma fan_out_downstream_witness :
  ∃ tr, (modifyDependents 3 w_chain_plain 0 (page3_checked, [])).2.2 = [] ++ tr ∧
        Forall (λ m, ∃ e', owner w_chain_plain m = Some e' ∧ downstream w_chain_plain 0 e') tr.
Proof. apply fan_out_downstream; [apply wf_w_chain_plain|compute_done]. Defined.

Lemma script_change_safe_witness :
  (on_change 2 (perform_all (templates ++ [CreateRelationship page3 0 "checked" 1 "show" false])
                  init) 0 page3_checked).1 = Ok tt ∨
  (on_change 2 (perform_all (templates ++ [CreateRelationship page3 0 "checked" 1 "show" false])
                  init) 0 page3_checked).1 = Timeout.
Proof. apply script_change_safe. compute_done. Defined.

Lemma modifyDependents_safe_witness :
  (modifyDependents 3 w_cycle 0 (page3, [])).1 = Ok tt ∨
  (modifyDependents 3 w_cycle 0 (page3, [])).1 = Timeout.
Proof. apply modifyDependents_safe; [apply wf_w_cycle|compute_done..]. Defined.

Lemma modifyDependents_terminates_witness :
  ∃ p', modifyDependents 3 w_chain_plain 0 (page3_checked, []) = (Ok tt, p').
Proof.
  apply (modifyDependents_terminates w_chain_plain chain_rank 0);
    [apply wf_w_chain_plain|compute_done..].
Defined.

Lemma modifyDependents_fuel_witness :
  modifyDependents 10 w_chain_plain 0 (page3_checked, []) =
  modifyDependents 3 w_chain_plain 0 (page3_checked, []).
Proof. apply modifyDependents_fuel; [lia|compute_done]. Defined.

Lemma fan_out_depth_one_witness :
  modifyDependents 2 w_show 0 (page3_checked, []) =
    (Ok tt, foldl (fire w_show) (page3_checked, [])
              (fired w_show (mkElement (H:=page_host) 0 [("checked", 2)] []) page3_checked)).
Proof.
  apply fan_out_depth_one; [apply wf_w_show|compute_done|reflexivity|].
  intros e' He'. vm_compute in He'. by apply list_elem_of_singleton in He' as ->.
Defined.

Lemma fan_out_inactive_witness :
  modifyDependents 1 w_show 0 (page3, []) = (Ok tt, (page3, [])).
Proof.
  apply (fan_out_inactive 0 w_show 0 (mkElement (H:=page_host) 0 [("checked", 2)] []));
    [apply wf_w_show|compute_done|reflexivity|].
  by intros kv ->%list_elem_of_singleton.
Defined.

Lemma fan_out_diverges_witness :
  (modifyDependents 7 w_cycle 0 (page3, [])).1 = Timeout.
Proof.
  apply (fan_out_diverges w_cycle (λ e, e = 0 ∨ e = 1));
    [apply wf_w_cycle|compute_done|apply w_cycle_edges|by left].
Defined.

(** The chain of the examples: field 0 is ticked; the Modifier of
    field 1 makes it visible, which activates the State of field 1, whose
    subscriber makes field 2 visible.  Both mutations run within the one
    change, the dependent's after the dependency's. *)
Example chain_runs_in_order :
  on_change 3 w_chain_plain 0 page3_checked =
    (Ok tt,
     ([ mkNode (Some "f0") true false 0; mkNode (Some "f1") false true 0;
        mkNode (Some "f2") false true 0 ], [2; 3])).
Proof. vm_compute. reflexivity. Qed.

(** With inheritance, the Modifier of field 2 is subscribed both to the
    State of field 1 and to the State of field 0 that it inherited: one
    change of field 0 executes it twice, once in the cascade through field 1
    and once as a subscriber of the State of field 0. *)
Example inherited_runs_twice :
  (on_change 3 w_chain 0 page3_checked).2.2 = [2; 3; 3].
Proof. vm_compute. reflexivity. Qed.

(** A relationship of an element with itself, with inheritance: the
    Modifier of the dependency under the same name is the Modifier that has
    just subscribed, so the list that the inheritance enumerates holds the
    new State, and the Modifier subscribes to it a second time; one change
    executes it twice.  Without inheritance it executes once. *)
Example self_relationship_subscribes_twice :
  subscriptions (w_self true) 1 = [1; 1] ∧ subscribers (w_self true) 1 = [1; 1] ∧
  on_change 3 (w_self true) 0 page3_checked = (Ok tt, (page3, [1; 1])) ∧
  on_change 3 (w_self false) 0 page3_checked = (Ok tt, (page3, [1])).
Proof. repeat split; vm_compute; reflexivity. Qed.

(** ** The first relationship of a page *)

Section first_relationship.
Context `{Host}.
Context (sn mn : string) (pred : Predicate) (mut : Mutation).
Context (dom : Dom) (a b : HostRef).
Context (Hsn : inherited sn = false) (Hmn : inherited mn = false).
Context (Ha : inherited (default_getElementKey a dom) = false).
Context (Hab : default_getElementKey a dom ≠ default_getElementKey b dom).

(** The store after the two templates were registered and the relationship
    was created. *)
Lemma first_relationship_store :
  perform_all [AddState sn pred; AddModifier mn mut;
               CreateRelationship dom a sn b mn false] init =
  linked_fresh dom a sn b mn (Some pred) (Some mut)
    (perform_all [AddState sn pred; AddModifier mn mut] init).
Proof.
  destruct (inherited_false_ne _ Hsn) as [Hsn1 _].
  destruct (inherited_false_ne _ Hmn) as [Hmn1 _].
  unfold perform_all. simpl. unfold FieldDependencies.createRelationship.
  erewrite (createRelationship_fresh _ _ _ _ _ _ _ 0 (mkState None (Some pred) []) 0
              (mkModifier None (Some mut) [])); try done.
  - simpl. unfold container_add. rewrite decide_False by done. apply own_get_put_eq.
  - simpl. unfold container_add. rewrite decide_False by done. apply own_get_put_eq.
Qed.

(** Its fan-out from the dependency. *)
Lemma first_relationship_fan_out fuel w dom' tr :
  w = perform_all [AddState sn pred; AddModifier mn mut;
                   CreateRelationship dom a sn b mn false] init →
  modifyDependents (S (S fuel)) w 0 (dom', tr) =
    (Ok tt, if pred a dom' then (mut b dom', tr ++ [1]) else (dom', tr)).
Proof.
  intros Hw.
  assert (wf w) as Hwf by (rewrite Hw; apply perform_all_wf, wf_init).
  assert (callbacks_ok w) as Hcb.
  { rewrite Hw. apply callable_perform_all; [|apply callable_init].
    destruct (inherited_false_ne _ Hsn), (inherited_false_ne _ Hmn).
    by repeat constructor. }
  rewrite first_relationship_store in Hw.
  change (modifyDependents (S (S fuel)) w 0 (dom', tr))
    with (modifyDependents_with (modifyDependents (S fuel) w) w 0 (dom', tr)).
  rewrite (modifyDependents_with_unfold _ _ _ (mkElement a [(sn, 1)] []))
    by (done || by rewrite Hw).
  unfold active_states. cbn [el_states fst snd].
  rewrite for_in_singleton, filter_cons, filter_nil. cbn [fst snd].
  assert (active w 1 dom' = Some (pred a dom')) as -> by by rewrite Hw.
  destruct (pred a dom'); [rewrite decide_True by done|by rewrite decide_False].
  rewrite for_each_singleton. cbn [snd].
  rewrite publish_with_unfold by (rewrite Hw; eauto).
  replace (subscribers w 1) with [1] by by rewrite Hw.
  rewrite for_each_singleton.
  change (execute_with (modifyDependents (S fuel) w) w 1) with (execute (S fuel) w 1).
  rewrite (execute_leaf fuel w 1 1) by (done || by rewrite Hw).
  unfold fire, mutation. by rewrite Hw.
Qed.

(** C3: the basic promise of the library, for every predicate, every
    mutation and every pair of fields with different keys: after the State
    and the Modifier were registered and the relationship was created, a
    change of the dependency applies the mutation to the dependent, once,
    exactly when the predicate holds of the dependency on the page at that
    time; otherwise it does nothing. *)
Theorem first_relationship_works fuel dom' :
  on_change (S (S fuel))
    (perform_all [AddState sn pred; AddModifier mn mut;
                  CreateRelationship dom a sn b mn false] init) a dom' =
  (Ok tt, if pred a dom' then (mut b dom', [1]) else (dom', [])).
Proof.
  unfold on_change, change.
  replace (change_handlers (perform_all _ init)) with [(a, 0); (b, 1)]
    by by rewrite first_relationship_store.
  simpl. rewrite decide_True, decide_False by (try done; by intros ->).
  rewrite (bind_Ok _ _ _ _ _ (first_relationship_fan_out fuel _ dom' [] eq_refl)).
  by rewrite bind_ret_l.
Qed.

(** The same on a page with a history: the trace is extended. *)
Lemma first_relationship_change fuel dom' tr :
  change (S (S fuel))
    (perform_all [AddState sn pred; AddModifier mn mut;
                  CreateRelationship dom a sn b mn false] init) a (dom', tr) =
  (Ok tt, if pred a dom' then (mut b dom', tr ++ [1]) else (dom', tr)).
Proof.
  rewrite change_fans_out. unfold listeners.
  replace (change_handlers (perform_all _ init)) with [(a, 0); (b, 1)]
    by by rewrite first_relationship_store.
  rewrite !filter_cons, filter_nil. cbn [fst].
  rewrite decide_True, decide_False by (try done; by intros ->).
  cbn [fmap list_fmap snd]. rewrite for_each_singleton.
  by apply first_relationship_fan_out.
Qed.

End first_relationship.

Lemma first_relationship_works_witness :
  on_change 2
    (perform_all [AddState "checked" checked; AddModifier "show" show;
                  CreateRelationship page3 0 "checked" 1 "show" false] init)
    0 page3_checked =
  (Ok tt, if checked 0 page3_checked then (show 1 page3_checked, [1])
          else (page3_checked, [])).
Proof. by apply (first_relationship_works "checked" "show" checked show page3 0 1). Defined.

(** After a template was registered under the name [__proto__], a name
    that only a State object has ([publish], [modifiers], ...) can be used
    in a relationship although no template has it: the State that is
    attached has no predicate, and the next change of the dependency
    throws. *)
Example proto_template_breaks_cascade :
  outcome (that.createRelationship page3 0 "publish" 1 "show" false)
    (perform_all [AddState "__proto__" always; AddModifier "show" show] init) = Ok tt ∧
  (on_change 2 w_proto 0 page3).1 = Throw TypeError_not_function.
Proof. split; vm_compute; reflexivity. Qed.

(** ** A chain of two relationships, for every predicate and mutation *)

Section chain.
Context `{Host}.
Context (adds : list call) (s1 m1 s2 m2 : string).
Context (p1 p2 : Predicate) (f1 f2 : Mutation) (dom : Dom) (a b c : HostRef).
Context (Hadds : Forall registration adds).
Context (Hp1 : template_predicate (perform_all adds init) s1 = Some p1).
Context (Hf1 : template_mutation (perform_all adds init) m1 = Some f1).
Context (Hp2 : template_predicate (perform_all adds init) s2 = Some p2).
Context (Hf2 : template_mutation (perform_all adds init) m2 = Some f2).
Context (Hs1 : inherited s1 = false) (Hm1 : inherited m1 = false).
Context (Hs2 : inherited s2 = false) (Hm2 : inherited m2 = false).
Context (Ha : inherited (default_getElementKey a dom) = false).
Context (Hb : inherited (default_getElementKey b dom) = false).
Context (Hab : default_getElementKey a dom ≠ default_getElementKey b dom).
Context (Hca : default_getElementKey c dom ≠ default_getElementKey a dom).
Context (Hcb : default_getElementKey c dom ≠ default_getElementKey b dom).

(** The fan-out from the first field of the chain. *)
Lemma chain_fan_out fuel w dom' tr :
  w = linked_chain dom a s1 b m1 s2 c m2 (Some p1) (Some p2) (Some f1) (Some f2)
        (perform_all adds init) →
  wf w →
  modifyDependents (S (S (S fuel))) w 0 (dom', tr) =
    (Ok tt,
     let n := length (modifier_heap (perform_all adds init)) in
     if p1 a dom' then
       if p2 b (f1 b dom') then (f2 c (f1 b dom'), tr ++ [n; S n])
       else (f1 b dom', tr ++ [n])
     else (dom', tr)).
Proof.
  intros Hw Hwf.
  destruct (blank_perform_all adds init Hadds blank_init) as [He _ _ _ [Hcs Hcm]].
  assert (callbacks_ok w) as Hcb'.
  { rewrite Hw. split; simpl; (apply Forall_app; split; [done|]); by repeat constructor. }
  destruct (linked_chain_lookups dom a s1 b m1 s2 c m2 (Some p1) (Some p2) (Some f1)
              (Some f2) _ He) as (HE & HS1 & HS2 & HM1 & HM2).
  rewrite <- Hw in HE, HS1, HS2, HM1, HM2. clear Hw.
  set (ls := length (state_heap (perform_all adds init))) in *.
  set (lm := length (modifier_heap (perform_all adds init))) in *. cbn zeta.
  rewrite (fan_out_single _ w 0 _ s1 ls) by (done || by rewrite HE).
  assert (∀ d, active w ls d = Some (p1 a d)) as ->
    by (intros d; unfold active; rewrite HS1, HE; done).
  simpl. destruct (p1 a dom'); [rewrite decide_True by done|by rewrite decide_False].
  replace (subscribers w ls) with [lm] by (unfold subscribers; by rewrite HS1).
  rewrite for_each_singleton.
  rewrite (execute_unfold _ w lm 1) by (done || unfold owner; by rewrite HM1).
  replace (fire w (dom', tr) lm) with (f1 b dom', tr ++ [lm])
    by (unfold fire, mutation; rewrite HM1, HE; done).
  rewrite (fan_out_single _ w 1 _ s2 (S ls)) by (done || by rewrite HE).
  assert (∀ d, active w (S ls) d = Some (p2 b d)) as ->
    by (intros d; unfold active; rewrite HS2, HE; done).
  simpl. destruct (p2 b (f1 b dom')); [rewrite decide_True by done|by rewrite decide_False].
  replace (subscribers w (S ls)) with [S lm] by (unfold subscribers; by rewrite HS2).
  rewrite for_each_singleton.
  rewrite (execute_unfold _ w (S lm) 2) by (done || unfold owner; by rewrite HM2).
  replace (fire w (f1 b dom', tr ++ [lm]) (S lm)) with (f2 c (f1 b dom'), tr ++ [lm; S lm])
    by (unfold fire, mutation; rewrite HM2, HE; simpl; by rewrite <- app_assoc).
  apply fan_out_leaf; [done..|by rewrite HE|]. unfold dependents. by rewrite HE.
Qed.

(** C8: the cascade, for every chain of two relationships.  After any
    registrations, let field [b] depend on the State [s1] of field [a]
    through the Modifier [m1], and field [c] on the State [s2] of [b]
    through [m2].  A change on [a] applies the mutation of [m1] to [b] when
    the predicate of [s1] holds of [a]; the predicate of [s2] is then
    evaluated on [b] as the mutation left it, and when it holds the mutation
    of [m2] is applied to [c], within the same change.  Nothing else
    happens, and three levels of fuel are enough. *)
Theorem chain_works fuel dom' :
  on_change (S (S (S fuel)))
    (perform_all (adds ++ [CreateRelationship dom a s1 b m1 false;
                           CreateRelationship dom b s2 c m2 false]) init) a dom' =
  (Ok tt,
   let n := length (modifier_heap (perform_all adds init)) in
   if p1 a dom' then
     if p2 b (f1 b dom') then (f2 c (f1 b dom'), [n; S n]) else (f1 b dom', [n])
   else (dom', [])).
Proof.
  pose proof (blank_perform_all adds init Hadds blank_init) as Hblank.
  assert (wf (perform_all (adds ++ [CreateRelationship dom a s1 b m1 false;
                                    CreateRelationship dom b s2 c m2 false]) init))
    as Hwf by apply perform_all_wf, wf_init.
  rewrite perform_all_app, (two_links_store _ _ _ _ _ _ _ _ _ p1 p2 f1 f2) in * by done.
  unfold on_change, change. cbn [change_handlers linked_chain].
  rewrite (blank_handlers _ Hblank), (blank_elements _ Hblank). simpl.
  rewrite decide_True, !decide_False by (try done; by intros ->).
  rewrite (bind_Ok _ _ _ _ _ (chain_fan_out fuel _ dom' [] eq_refl Hwf)).
  by rewrite !bind_ret_l.
Qed.

End chain.

Lemma chain_works_witness :
  on_change 3
    (perform_all (templates ++ [CreateRelationship page3 0 "checked" 1 "show" false;
                                CreateRelationship page3 1 "visible" 2 "show" false]) init)
    0 page3_checked =
  (Ok tt,
   let n := length (modifier_heap (perform_all templates init)) in
   if checked 0 page3_checked then
     if visible 1 (show 1 page3_checked)
     then (show 2 (show 1 page3_checked), [n; S n]) else (show 1 page3_checked, [n])
   else (page3_checked, [])).
Proof.
  apply (chain_works (H:=page_host) templates "checked" "show" "visible" "show"
           checked visible show show page3 0 1 2); first [reflexivity|compute_done].
Defined.
