(* ===== verification/Inherit.v ===== *)
(** * Inherit: what [inheritState] does to a cascade

    With [inheritState], [createRelationship] subscribes the Modifier of the
    dependent also to the States that the Modifier of the same name of the
    dependency is subscribed to.  On a chain from [a] to [b] to [c] whose
    second relationship inherits, the Modifier of [c] is then a subscriber
    of the State of [a] as well as of the State of [b].

    This file gives the store of that chain in closed form
    ([inherited_chain]) and the cascade of a change of [a], for every
    predicate and mutation ([inheritance_works]): the mutation reaches [c]
    whenever the State of [a] is active, whether or not the State of [b] is,
    and it is applied to [c] twice when both are. *)

From stdpp Require Import base option list strings numbers.
From S2P Require Import Prelude JsObject Heap Fixture Graph Registry Builder Cascade.

Open Scope string_scope.
Open Scope list_scope.
Open Scope run_scope.

Section inherit_definitions.
Context `{Host}.

(** The store after a chain of two relationships between three elements that
    were not registered, from [a] to [b] and, with inheritance, from [b] to
    [c], both through Modifiers named [mn]. *)
Definition inherited_chain (dom : Dom) (a : HostRef) (s1 : string) (b : HostRef)
    (mn s2 : string) (c : HostRef) (cbS1 cbS2 : option Predicate) (cbM : option Mutation)
    (w : Engine) : Engine :=
  let e := length (element_heap w) in
  let s := length (state_heap w) in
  let m := length (modifier_heap w) in
  mkEngine (statesContainer_states w) (modifiersContainer_modifiers w) (getElementKey w)
    (obj_set (getElementKey w c dom) (S (S e))
       (obj_set (getElementKey w b dom) (S e)
          (obj_set (getElementKey w a dom) e (elementsContainer_elements w))))
    (element_heap w ++ [mkElement a [(s1, s)] []; mkElement b [(s2, S s)] [(mn, m)];
                        mkElement c [] [(mn, S m)]])
    (state_heap w ++ [mkState (Some e) cbS1 [m; S m]; mkState (Some (S e)) cbS2 [S m]])
    (modifier_heap w ++ [mkModifier (Some (S e)) cbM [s];
                         mkModifier (Some (S (S e))) cbM [S s; s]])
    (change_handlers w ++ [(a, e); (b, S e); (c, S (S e))]).

(** What a change of [a] does on that chain, as a function of the page: the
    mutation of [b], then that of [c] when the State of [b] is active, then
    that of [c] as a subscriber of the State of [a]. *)
Definition inherit_run (p1 p2 : Predicate) (f : Mutation) (a b c : HostRef) (n : ModId)
    (p : Page) : Page :=
  if p1 a p.1 then
    let q := (f b p.1, p.2 ++ [n]) in
    let q' := if p2 b q.1 then (f c q.1, q.2 ++ [S n]) else q in
    (f c q'.1, q'.2 ++ [S n])
  else p.

End inherit_definitions.

(** ** The cascade *)

Section inherit_cascade.
Context `{Host}.
Context (dom : Dom) (a : HostRef) (s1 : string) (b : HostRef) (mn s2 : string) (c : HostRef).
Context (p1 p2 : Predicate) (f : Mutation) (w0 : Engine).
Context (Hblank : blank w0).

Abbreviation chain := (inherited_chain dom a s1 b mn s2 c (Some p1) (Some p2) (Some f) w0).
Abbreviation ls := (length (state_heap w0)).
Abbreviation lm := (length (modifier_heap w0)).

Context (Hwf : wf chain).

(** The objects of the chain. *)
Lemma inherited_chain_lookups :
  element_heap chain =
    [ mkElement a [(s1, ls)] []; mkElement b [(s2, S ls)] [(mn, lm)];
      mkElement c [] [(mn, S lm)] ] ∧
  state_heap chain !! ls = Some (mkState (Some 0) (Some p1) [lm; S lm]) ∧
  state_heap chain !! S ls = Some (mkState (Some 1) (Some p2) [S lm]) ∧
  modifier_heap chain !! lm = Some (mkModifier (Some 1) (Some f) [ls]) ∧
  modifier_heap chain !! S lm = Some (mkModifier (Some 2) (Some f) [S ls; ls]).
Proof.
  unfold inherited_chain. simpl. rewrite (blank_elements _ Hblank). simpl.
  split; [done|]. split; [by apply list_lookup_middle|].
  split; [rewrite lookup_app_r by lia; by replace (S ls - ls) with 1 by lia|].
  split; [by apply list_lookup_middle|]. rewrite lookup_app_r by lia.
  by replace (S lm - lm) with 1 by lia.
Qed.

Lemma inherited_chain_callbacks : callbacks_ok chain.
Proof.
  destruct (blank_callbacks _ Hblank) as [Hcs Hcm].
  split; simpl; (apply Forall_app; split; [done|]); by repeat constructor.
Qed.

(** The Modifier of [c]: its execution is its mutation. *)
Lemma inherited_execute_c n p :
  execute (S n) chain (S lm) p = (Ok tt, (f c p.1, p.2 ++ [S lm])).
Proof.
  destruct inherited_chain_lookups as (HE & _ & _ & _ & HM2).
  rewrite (execute_leaf _ _ _ 2); [|done|apply inherited_chain_callbacks|..].
  - unfold fire, mutation. by rewrite HM2, HE.
  - unfold owner. by rewrite HM2.
  - unfold dependents. by rewrite HE.
Qed.

(** The fan-out of [b]. *)
Lemma inherited_fan_out_b n p :
  modifyDependents (S (S n)) chain 1 p =
    (Ok tt, if p2 b p.1 then (f c p.1, p.2 ++ [S lm]) else p).
Proof.
  destruct inherited_chain_lookups as (HE & _ & HS2 & _ & _).
  erewrite (fan_out_single _ chain 1 _ s2 (S ls));
    [|done|apply inherited_chain_callbacks|by rewrite HE|done].
  assert (active chain (S ls) p.1 = Some (p2 b p.1)) as ->
    by (unfold active; by rewrite HS2, HE).
  destruct (p2 b p.1); [rewrite decide_True by done|by rewrite decide_False].
  replace (subscribers chain (S ls)) with [S lm] by (unfold subscribers; by rewrite HS2).
  rewrite for_each_singleton. apply inherited_execute_c.
Qed.

(** The fan-out of [a]: its State has two subscribers, the Modifier of [b]
    and, by inheritance, the Modifier of [c]. *)
Lemma inherited_fan_out_a n p :
  modifyDependents (S (S (S n))) chain 0 p = (Ok tt, inherit_run p1 p2 f a b c lm p).
Proof.
  destruct inherited_chain_lookups as (HE & HS1 & _ & HM1 & _).
  pose proof inherited_chain_callbacks as Hcb.
  erewrite (fan_out_single _ chain 0 _ s1 ls); [|done|done|by rewrite HE|done].
  assert (active chain ls p.1 = Some (p1 a p.1)) as -> by (unfold active; by rewrite HS1, HE).
  unfold inherit_run. destruct (p1 a p.1); [rewrite decide_True by done|by rewrite decide_False].
  replace (subscribers chain ls) with [lm; S lm] by (unfold subscribers; by rewrite HS1).
  rewrite for_each_cons.
  rewrite (bind_Ok _ _ _ tt (if p2 b (f b p.1) then (f c (f b p.1), (p.2 ++ [lm]) ++ [S lm])
                             else (f b p.1, p.2 ++ [lm]))).
  - rewrite for_each_singleton, inherited_execute_c. simpl. by destruct (p2 b (f b p.1)).
  - rewrite (execute_unfold _ chain lm 1) by (done || unfold owner; by rewrite HM1).
    replace (fire chain p lm) with (f b p.1, p.2 ++ [lm])
      by (unfold fire, mutation; by rewrite HM1, HE).
    apply inherited_fan_out_b.
Qed.

End inherit_cascade.

(** ** The store *)

Section inherit_store.
Context `{Host}.

Lemma inherited_chain_store w dom a (s1 : string) b (mn s2 : string) c p1 p2 f :
  blank w →
  template_predicate w s1 = Some p1 → template_predicate w s2 = Some p2 →
  template_mutation w mn = Some f →
  inherited s1 = false → inherited s2 = false → inherited mn = false →
  inherited (default_getElementKey a dom) = false →
  inherited (default_getElementKey b dom) = false →
  default_getElementKey a dom ≠ default_getElementKey b dom →
  default_getElementKey c dom ≠ default_getElementKey a dom →
  default_getElementKey c dom ≠ default_getElementKey b dom →
  perform_all [CreateRelationship dom a s1 b mn false;
               CreateRelationship dom b s2 c mn true] w =
  inherited_chain dom a s1 b mn s2 c (Some p1) (Some p2) (Some f) w.
Proof.
  intros [He Hr Hh Hk _] (t1 & T1 & Ht1 & HT1 & <-)%template_predicate_Some
    (t2 & T2 & Ht2 & HT2 & <-)%template_predicate_Some
    (u & M & Hu & HM & <-)%template_mutation_Some Hs1 Hs2 Hmn Ha Hb Hab Hca Hcb.
  destruct (inherited_false_ne _ Ha) as [Ha1 Ha2].
  destruct (inherited_false_ne _ Hb) as [Hb1 Hb2].
  destruct (inherited_false_ne _ Hmn) as [Hmn1 _].
  destruct w as [sts mts kf reg eh sh mh hs]. simpl in *. subst.
  unfold perform_all. simpl. unfold FieldDependencies.createRelationship.
  erewrite (createRelationship_fresh _ dom a s1 b mn false t1 T1 u M); try done.
  simpl.
  erewrite (createRelationship_onto_tail _ dom b 1 (mkElement b [] [(mn, length mh)])
              s2 c mn true t2 T2 u M); simpl; try done.
  - unfold linked_onto, linked_fresh. simpl.
    rewrite !length_app, !Nat.add_1_r, <- !app_assoc. simpl.
    erewrite bind_Ok; [|by apply getModifier_eq].
    cbn [el_modifiers]. rewrite (proj2 (obj_get_Own mn (length mh) _))
      by (simpl; by rewrite decide_True).
    cbn [truthy cascadingStates_of]. rewrite bind_assoc, bind_read_modifier.
    cbn [modifier_heap]. rewrite list_lookup_middle by done.
    rewrite bind_ret_l. cbn [md_states]. rewrite for_each_singleton.
    erewrite subscribe_Own; [|by apply list_lookup_middle|].
    2:{ cbn [modifier_heap]. rewrite lookup_app_r by lia.
        by replace (S (length mh) - length mh) with 1 by lia. }
    unfold inherited_chain, set_modifier_heap, set_state_heap. simpl.
    rewrite !insert_app_r_alt by lia. rewrite Nat.sub_diag.
    replace (S (length mh) - length mh) with 1 by lia. simpl.
    replace (obj_set s2 (S (length sh)) []) with [(s2, S (length sh))]; [done|].
    unfold obj_set. rewrite decide_False; [done|]. by apply inherited_false_ne.
  - unfold poisoned. simpl. by rewrite !has_own_set_ne.
  - by apply own_get_set_eq.
  - by apply (obj_get_empty s2).
  - by rewrite !own_get_set_ne.
  - by apply lookup_app_l_Some.
  - by apply lookup_app_l_Some.
Qed.

End inherit_store.

(** ** The chain with inheritance, for every predicate and mutation *)

Section inheritance.
Context `{Host}.
Context (adds : list call) (s1 s2 mn : string).
Context (p1 p2 : Predicate) (f : Mutation) (dom : Dom) (a b c : HostRef).
Context (Hadds : Forall registration adds).
Context (Hp1 : template_predicate (perform_all adds init) s1 = Some p1).
Context (Hp2 : template_predicate (perform_all adds init) s2 = Some p2).
Context (Hf : template_mutation (perform_all adds init) mn = Some f).
Context (Hs1 : inherited s1 = false) (Hs2 : inherited s2 = false).
Context (Hmn : inherited mn = false).
Context (Ha : inherited (default_getElementKey a dom) = false).
Context (Hb : inherited (default_getElementKey b dom) = false).
Context (Hab : default_getElementKey a dom ≠ default_getElementKey b dom).
Context (Hca : default_getElementKey c dom ≠ default_getElementKey a dom).
Context (Hcb : default_getElementKey c dom ≠ default_getElementKey b dom).

(** C13: what inheritance does.  After any registrations, let field [b]
    depend on the State [s1] of field [a] and, with [inheritState], field [c]
    on the State [s2] of [b], both through Modifiers named [mn].  A change
    on [a] that finds [s1] active applies the mutation to [b], then to [c]
    when [s2] holds of [b] as the mutation left it, and then to [c] as a
    subscriber of [s1]: the mutation reaches [c] whether or not the State of
    [b] is active, and twice when it is. *)
Theorem inheritance_works fuel dom' :
  on_change (S (S (S fuel)))
    (perform_all (adds ++ [CreateRelationship dom a s1 b mn false;
                           CreateRelationship dom b s2 c mn true]) init) a dom' =
  (Ok tt,
   let n := length (modifier_heap (perform_all adds init)) in
   if p1 a dom' then
     if p2 b (f b dom') then (f c (f c (f b dom')), [n; S n; S n])
     else (f c (f b dom'), [n; S n])
   else (dom', [])).
Proof.
  pose proof (blank_perform_all adds init Hadds blank_init) as Hblank.
  assert (wf (perform_all (adds ++ [CreateRelationship dom a s1 b mn false;
                                    CreateRelationship dom b s2 c mn true]) init))
    as Hwf by apply perform_all_wf, wf_init.
  rewrite perform_all_app, (inherited_chain_store _ _ _ _ _ _ _ _ p1 p2 f) in * by done.
  unfold on_change, change. cbn [change_handlers inherited_chain].
  rewrite (blank_handlers _ Hblank), (blank_elements _ Hblank). simpl.
  rewrite decide_True, !decide_False by (try done; by intros ->).
  rewrite (bind_Ok _ _ _ _ _ (inherited_fan_out_a dom a s1 b mn s2 c p1 p2 f _ Hblank Hwf
                                fuel (dom', []))).
  rewrite !bind_ret_l. unfold inherit_run. simpl.
  by destruct (p1 a dom'), (p2 b (f b dom')).
Qed.

End inheritance.

(** ** Examples *)

(** Field 0 is ticked.  Field 1 is shown, and field 2 is shown twice:
    through the State of field 1 and as an inherited subscriber of the State
    of field 0. *)
Lemma inheritance_works_witness :
  on_change 3
    (perform_all (templates ++ [CreateRelationship page3 0 "checked" 1 "show" false;
                                CreateRelationship page3 1 "visible" 2 "show" true]) init)
    0 page3_checked =
  (Ok tt,
   let n := length (modifier_heap (perform_all templates init)) in
   if checked 0 page3_checked then
     if visible 1 (show 1 page3_checked)
     then (show 2 (show 2 (show 1 page3_checked)), [n; S n; S n])
     else (show 2 (show 1 page3_checked), [n; S n])
   else (page3_checked, [])).
Proof.
  apply (inheritance_works (H:=page_host) templates "checked" "visible" "show"
           checked visible show page3 0 1 2); first [reflexivity|compute_done].
Defined.

(** With a Modifier that does not make field 1 visible, the State of field 1
    stays inactive, and the inherited subscription still reaches field 2. *)
Example inheritance_skips_inactive :
  let w := perform_all [AddState "checked" checked; AddState "visible" visible;
                        AddModifier "bump" bump;
                        CreateRelationship page3 0 "checked" 1 "bump" false;
                        CreateRelationship page3 1 "visible" 2 "bump" true] init in
  (on_change 3 w 0 page3_checked).2.2 = [1; 2].
Proof. by vm_compute. Qed.
