(* ===== verification/DesignNote.v ===== *)
(** * DesignNote: the data model the design note draws

    [src/unnamed/part_001] is the design note of the engine: a diagram with
    the cardinalities between elements, States and Modifiers, and a sentence
    or two on each of them.  This file states what the note says as
    predicates on the store and on the code's fan-out, and proves which of
    it the code guarantees.  After a script without a template named
    [__proto__] the cardinalities hold, every State has a value on every
    page, and a fan-out that returns has executed every Modifier for each
    of its subscriptions that was active ([script_data_model]); with such a
    template they need not ([proto_template_no_model]).  That every State
    has a subscriber and every Modifier a subscription ("one or more") holds
    when every call of the script returned, and not after a call that
    threw; in such a store the fan-out of an element with an active State
    executes a Modifier, whether it returns or not. *)

From stdpp Require Import base option list strings numbers.
From S2P Require Import Prelude JsObject Heap Fixture Graph Registry Edges Builder Cascade.

Open Scope string_scope.
Open Scope list_scope.
Open Scope run_scope.

Section note.
Context `{Host}.

(** [Dependency Element [one] ---> [many] State]: a State that is bound to
    an element is named by that element, under one name, and by no other
    element. *)
Definition one_element_per_state (w : Engine) : Prop :=
  ∀ s S e, state_heap w !! s = Some S → st_element S = Some e →
    ∃ k, state_of w e k = Some s ∧
         ∀ e' k', state_of w e' k' = Some s → e' = e ∧ k' = k.

(** [Dependent Element [one] <--- [many] Modifier] *)
Definition one_element_per_modifier (w : Engine) : Prop :=
  ∀ m M e, modifier_heap w !! m = Some M → md_element M = Some e →
    ∃ k, modifier_of w e k = Some m ∧
         ∀ e' k', modifier_of w e' k' = Some m → e' = e ∧ k' = k.

(** [State [many] --- [many] Modifier]: the subscriptions are edges between
    a State of some element and a Modifier of some element, seen alike from
    both ends. *)
Definition many_to_many (w : Engine) : Prop :=
  ∀ s m,
    occurrences m (subscribers w s) = occurrences s (subscriptions w m) ∧
    (m ∈ subscribers w s → attached_state w s ∧ attached_modifier w m).

(** [is either active or inactive at any given time]: the predicate of a
    State of an element has a value on every page. *)
Definition two_valued (w : Engine) : Prop :=
  ∀ e k s dom, state_of w e k = Some s → is_Some (active w s dom).

(** [gets notified by each active State], [when notified, it executes a
    callback]: when the change of an element returns, it has executed a
    Modifier for each of its subscriptions that was an active State of the
    element when the change began. *)
Definition notified_by_each_active (w : Engine) : Prop :=
  ∀ n e E k s m p p',
    element_heap w !! e = Some E → own_get k (el_states E) = Some s →
    s ∈ subscriptions w m → active w s p.1 = Some true →
    modifyDependents n w e p = (Ok tt, p') → ∃ tr, p'.2 = p.2 ++ tr ∧ m ∈ tr.

(** The diagram and the sentences on States and Modifiers. *)
Record data_model (w : Engine) : Prop := {
  model_states : one_element_per_state w;
  model_modifiers : one_element_per_modifier w;
  model_edges : many_to_many w;
  model_active : two_valued w;
  model_notified : notified_by_each_active w;
}.

(** [when active, it will notify one or more subscribing Modifiers] and
    [subscribes to one or more States], but for the State named by [xs] and
    the Modifier named by [xm] (an element and a name), which a relationship
    that is being created has attached and not linked yet. *)
Definition populated_but (xs xm : option (ElemId * string)) (w : Engine) : Prop :=
  (∀ e k s, state_of w e k = Some s → Some (e, k) = xs ∨ subscribers w s ≠ []) ∧
  (∀ e k m, modifier_of w e k = Some m → Some (e, k) = xm ∨ subscriptions w m ≠ []).

Definition populated (w : Engine) : Prop := populated_but None None w.

(** [an element whose state(s) affects one or more dependent elements],
    [an element affected by the state of one or more dependency elements]:
    a State of [e] has a subscriber that is a Modifier of [e']. *)
Definition affects (w : Engine) (e e' : ElemId) : Prop :=
  ∃ k s m, state_of w e k = Some s ∧ m ∈ subscribers w s ∧ owner w m = Some e'.

Definition dependency_element (w : Engine) (e : ElemId) : Prop :=
  ∃ k s, state_of w e k = Some s.

Definition dependent_element (w : Engine) (e : ElemId) : Prop :=
  ∃ k m, modifier_of w e k = Some m.

Definition elements_related (w : Engine) : Prop :=
  (∀ e, dependency_element w e → ∃ e', affects w e e') ∧
  (∀ e', dependent_element w e' → ∃ e, affects w e e').

(** Every call of the script returns. *)
Fixpoint succeeds (cs : list call) (w : Engine) : bool :=
  match cs with
  | [] => true
  | c :: cs' => is_Ok (perform c w).1 && succeeds cs' (perform c w).2
  end.

End note.

(** ** The cardinalities *)

Section cardinalities.
Context `{Host}.
Implicit Types (w : Engine) (e : ElemId) (s : StateId) (m : ModId).

Lemma wf_one_element_per_state w : wf w → one_element_per_state w.
Proof.
  intros Hwf s S e HS He.
  destruct (owned_forth _ _ _ _ (wf_states _ Hwf) _ _ _ HS He) as (E & k & HE & Hk).
  exists k. unfold state_of. rewrite HE. split; [done|]. intros e' k' Hs'.
  apply bind_Some in Hs' as (E' & HE' & Hk').
  destruct (owned_back _ _ _ _ (wf_states _ Hwf) _ _ _ _ HE' Hk') as (S' & HS' & He').
  assert (e' = e) as -> by congruence. split; [done|].
  assert (E' = E) as -> by congruence.
  by eapply (owned_key _ _ _ _ (wf_states _ Hwf)).
Qed.

Lemma wf_one_element_per_modifier w : wf w → one_element_per_modifier w.
Proof.
  intros Hwf m M e HM He.
  destruct (owned_forth _ _ _ _ (wf_modifiers _ Hwf) _ _ _ HM He) as (E & k & HE & Hk).
  exists k. unfold modifier_of. rewrite HE. split; [done|]. intros e' k' Hm'.
  apply bind_Some in Hm' as (E' & HE' & Hk').
  destruct (owned_back _ _ _ _ (wf_modifiers _ Hwf) _ _ _ _ HE' Hk') as (M' & HM' & He').
  assert (e' = e) as -> by congruence. split; [done|].
  assert (E' = E) as -> by congruence.
  by eapply (owned_key _ _ _ _ (wf_modifiers _ Hwf)).
Qed.

Lemma wf_many_to_many w : wf w → many_to_many w.
Proof.
  intros Hwf s m. split; [by apply wf_edges|]. intros Hm. split.
  - unfold subscribers in Hm. destruct (state_heap w !! s) as [S|] eqn:HS; [|by inversion Hm].
    destruct (linked_modifier _ _ (wf_linked _ Hwf) _ _ _ HS Hm) as [? _]. by exists S.
  - by eapply wf_subscribers_attached.
Qed.

(** A Modifier is among those a fan-out executes itself for each of its
    subscriptions that is an active State of the element. *)
Lemma subscription_fired w e E k s m dom :
  wf w → element_heap w !! e = Some E → own_get k (el_states E) = Some s →
  s ∈ subscriptions w m → active w s dom = Some true → m ∈ fired w E dom.
Proof.
  intros Hwf HE Hk Hs Hact. apply list_elem_of_bind. exists (k, s). split.
  - apply occurrences_pos. rewrite wf_edges by done. by apply occurrences_pos.
  - apply list_elem_of_filter. split; [done|]. rewrite for_in_elem_of.
    by apply own_get_Some.
Qed.

Lemma wf_notified_by_each_active w : wf w → callbacks_ok w → notified_by_each_active w.
Proof.
  intros Hwf Hcb n e E k s m p p' HE Hk Hs Hact Hrun.
  destruct (fan_out_executes n w e E p p' Hwf Hcb HE Hrun) as (tr & Htr & Hsub).
  exists tr. split; [done|]. eapply elem_of_sublist; [|done].
  by eapply subscription_fired.
Qed.

(** With callbacks everywhere, every State of an element is active or
    inactive on every page. *)
Lemma wf_two_valued w : wf w → callbacks_ok w → two_valued w.
Proof.
  intros Hwf Hcb e k s dom (E & HE & Hk)%bind_Some.
  apply (active_is_Some w e E (k, s)); [done..|]. by apply own_get_Some.
Qed.

Lemma wf_data_model w : wf w → callbacks_ok w → data_model w.
Proof.
  split; auto using wf_one_element_per_state, wf_one_element_per_modifier,
    wf_many_to_many, wf_two_valued, wf_notified_by_each_active.
Qed.

End cardinalities.

(** ** One or more: the store of a script that returned *)

Section one_or_more.
Context `{Host}.
Implicit Types (w : Engine) (e dE pE : ElemId) (s : StateId) (m : ModId)
  (xs xm : option (ElemId * string)).

(** A subscription list that is not empty belongs to an object of the
    heap. *)
Lemma subscribers_in_heap w s : subscribers w s ≠ [] → s < length (state_heap w).
Proof.
  unfold subscribers. destruct (state_heap w !! s) eqn:HS; [|done].
  intros _. by eapply lookup_lt_Some.
Qed.

Lemma subscriptions_in_heap w m : subscriptions w m ≠ [] → m < length (modifier_heap w).
Proof.
  unfold subscriptions. destruct (modifier_heap w !! m) eqn:HM; [|done].
  intros _. by eapply lookup_lt_Some.
Qed.

(** An exception can always be granted. *)
Lemma populated_but_weaken xs xm w :
  populated w → populated_but xs xm w.
Proof. intros [Hs Hm]. split; intros e k x Hx; right; [by destruct (Hs e k x Hx)|by destruct (Hm e k x Hx)]. Qed.

Lemma populated_but_state xm x w :
  populated_but None xm w → populated_but (Some x) xm w.
Proof. intros [Hs Hm]. split; [|done]. intros e k s Hs'. right. by destruct (Hs e k s Hs'). Qed.

Lemma populated_but_modifier xs x w :
  populated_but xs None w → populated_but xs (Some x) w.
Proof. intros [Hs Hm]. split; [done|]. intros e k m Hm'. right. by destruct (Hm e k m Hm'). Qed.

(** The element that [resolve] builds names no State and no Modifier. *)
Lemma state_of_registered ref key w e k :
  state_of (registered ref key w) e k = state_of w e k.
Proof.
  unfold state_of, registered. simpl.
  destruct (decide (e < length (element_heap w))) as [Hlt|Hge].
  - by rewrite lookup_app_l.
  - rewrite lookup_app_r, (lookup_ge_None_2 (element_heap w)) by lia.
    by destruct (e - length (element_heap w)) as [|[|?]].
Qed.

Lemma modifier_of_registered ref key w e k :
  modifier_of (registered ref key w) e k = modifier_of w e k.
Proof.
  unfold modifier_of, registered. simpl.
  destruct (decide (e < length (element_heap w))) as [Hlt|Hge].
  - by rewrite lookup_app_l.
  - rewrite lookup_app_r, (lookup_ge_None_2 (element_heap w)) by lia.
    by destruct (e - length (element_heap w)) as [|[|?]].
Qed.

Lemma populated_resolve xs xm dom ref :
  triple (populated_but xs xm) (elementsContainer.resolve dom ref)
    (λ _, populated_but xs xm) (λ _, True).
Proof.
  intros w Hw. destruct (elementsContainer.resolve dom ref w) as [[e| |] w'] eqn:Hr; [|done..].
  apply resolve_Ok_cases in Hr as [[_ ->]|(_ & _ & ->)]; [done|].
  destruct Hw as [Hs Hm]. split; intros e' k x.
  - rewrite state_of_registered. apply Hs.
  - rewrite modifier_of_registered. apply Hm.
Qed.

(** The reads of [createRelationship] leave the store as it is, and what
    they return is what the element names. *)
Lemma populated_getState (P : Engine → Prop) e k :
  triple P (Element.getState e k)
    (λ r w, P w ∧ is_Some (element_heap w !! e) ∧
            ∀ s, r = Own s → state_of w e k = Some s) (λ _, True).
Proof.
  intros w Hw. unfold Element.getState. rewrite bind_read_element.
  destruct (element_heap w !! e) as [E|] eqn:HE; [|done]. simpl.
  split; [done|]. split; [by rewrite HE|]. intros s Hs. unfold state_of. rewrite HE.
  by apply obj_get_Own.
Qed.

Lemma populated_getModifier (P : Engine → Prop) e k :
  triple P (Element.getModifier e k)
    (λ r w, P w ∧ is_Some (element_heap w !! e) ∧
            ∀ m, r = Own m → modifier_of w e k = Some m) (λ _, True).
Proof.
  intros w Hw. unfold Element.getModifier. rewrite bind_read_element.
  destruct (element_heap w !! e) as [E|] eqn:HE; [|done]. simpl.
  split; [done|]. split; [by rewrite HE|]. intros m Hm. unfold modifier_of. rewrite HE.
  by apply obj_get_Own.
Qed.

(** The State that is attached is the exception, until it is linked: the
    States that were there keep their place in the heap and their
    subscribers. *)
Lemma populated_attach_state xm e key (present : lookup StateId) :
  triple (λ w, populated_but None xm w ∧ is_Some (element_heap w !! e))
    (if truthy present then ret tt
     else state <- statesContainer.get key ;; Element.attachState e key state)
    (λ _, populated_but (Some (e, key)) xm) (λ _, True).
Proof.
  intros w [Hw [E HE]]. destruct (truthy present); [by apply populated_but_state|].
  destruct (statesContainer_get_cases key w) as [[cb Hget]|[err Hget]];
    [|by rewrite (bind_Throw _ _ _ _ _ Hget)].
  rewrite (bind_Ok _ _ _ _ _ Hget).
  change (Element.attachState e key _ _) with
    ((s <- new_State cb ;; Element.attachState e key s) w).
  rewrite (new_attachState_eq e E key cb w HE).
  destruct Hw as [Hs Hm]. split.
  - intros e' k s. unfold state_of, subscribers. simpl.
    destruct (decide (e' = e)) as [->|Hne].
    + rewrite list_lookup_insert_eq by by eapply lookup_lt_Some. simpl.
      destruct (decide (key = k)) as [->|Hk]; [by left|]. rewrite own_get_set_ne by done.
      intros Hk'. right. destruct (Hs e k s) as [|Hsub]; [unfold state_of; by rewrite HE|done|].
      by rewrite lookup_app_l by by apply subscribers_in_heap.
    + rewrite list_lookup_insert_ne by done. intros He'. right.
      destruct (Hs e' k s He') as [|Hsub]; [done|].
      by rewrite lookup_app_l by by apply subscribers_in_heap.
  - intros e' k m. unfold modifier_of, subscriptions. simpl.
    destruct (decide (e' = e)) as [->|Hne].
    + rewrite list_lookup_insert_eq by by eapply lookup_lt_Some. simpl.
      intros Hk. apply (Hm e k m). unfold modifier_of; by rewrite HE.
    + rewrite list_lookup_insert_ne by done. apply Hm.
Qed.

Lemma populated_attach_modifier xs e key (present : lookup ModId) :
  triple (λ w, populated_but xs None w ∧ is_Some (element_heap w !! e))
    (if truthy present then ret tt
     else modifier <- modifiersContainer.get key ;; Element.attachModifier e key modifier)
    (λ _, populated_but xs (Some (e, key))) (λ _, True).
Proof.
  intros w [Hw [E HE]]. destruct (truthy present); [by apply populated_but_modifier|].
  destruct (modifiersContainer_get_cases key w) as [[cb Hget]|[err Hget]];
    [|by rewrite (bind_Throw _ _ _ _ _ Hget)].
  rewrite (bind_Ok _ _ _ _ _ Hget).
  change (Element.attachModifier e key _ _) with
    ((m <- new_Modifier cb ;; Element.attachModifier e key m) w).
  rewrite (new_attachModifier_eq e E key cb w HE).
  destruct Hw as [Hs Hm]. split.
  - intros e' k s. unfold state_of, subscribers. simpl.
    destruct (decide (e' = e)) as [->|Hne].
    + rewrite list_lookup_insert_eq by by eapply lookup_lt_Some. simpl.
      intros Hk. apply (Hs e k s). unfold state_of; by rewrite HE.
    + rewrite list_lookup_insert_ne by done. apply Hs.
  - intros e' k m. unfold modifier_of, subscriptions. simpl.
    destruct (decide (e' = e)) as [->|Hne].
    + rewrite list_lookup_insert_eq by by eapply lookup_lt_Some. simpl.
      destruct (decide (key = k)) as [->|Hk]; [by left|]. rewrite own_get_set_ne by done.
      intros Hk'. right. destruct (Hm e k m) as [|Hsub]; [unfold modifier_of; by rewrite HE|done|].
      by rewrite lookup_app_l by by apply subscriptions_in_heap.
    + rewrite list_lookup_insert_ne by done. intros He'. right.
      destruct (Hm e' k m He') as [|Hsub]; [done|].
      by rewrite lookup_app_l by by apply subscriptions_in_heap.
Qed.

(** The subscription ends the two exceptions. *)
Lemma populated_subscribe xs xm (subModifier : lookup ModId) (pubState : lookup StateId) :
  triple (λ w, populated_but xs xm w ∧
               (∀ x s, xs = Some x → pubState = Own s → state_of w x.1 x.2 = Some s) ∧
               (∀ x m, xm = Some x → subModifier = Own m → modifier_of w x.1 x.2 = Some m))
    (invoke subModifier (λ m, Modifier.subscribe m pubState))
    (λ _, populated) (λ _, True).
Proof.
  intros w ([Hs Hm] & Hxs & Hxm). destruct subModifier as [m| |]; [|done..]. simpl.
  destruct (Modifier.subscribe m pubState w) as [[[]| |] w'] eqn:Hrun; [|done..].
  apply subscribe_Ok_inv in Hrun as (s & -> & Hel & [Hsub Hsubs]%adds_single).
  split; intros e k x; unfold state_of, modifier_of; rewrite Hel; intros Hx; right.
  - rewrite Hsub. destruct (Hs e k x Hx) as [<-|Hne]; [|by intros [? _]%app_eq_nil].
    specialize (Hxs (e, k) s eq_refl eq_refl). simpl in Hxs.
    assert (x = s) as -> by (unfold state_of in *; congruence).
    rewrite decide_True by done. by intros [_ ?]%app_eq_nil.
  - rewrite Hsubs. destruct (Hm e k x Hx) as [<-|Hne]; [|by intros [? _]%app_eq_nil].
    specialize (Hxm (e, k) m eq_refl eq_refl). simpl in Hxm.
    assert (x = m) as -> by (unfold modifier_of in *; congruence).
    rewrite decide_True by done. by intros [_ ?]%app_eq_nil.
Qed.

(** The last statement of [createRelationship] only subscribes. *)
Lemma populated_inherit e key (subModifier : lookup ModId) (inheritState : bool) :
  triple populated
    (if inheritState then
       upstream <- Element.getModifier e key ;;
       if truthy upstream then
         cascadingStates <- cascadingStates_of upstream ;;
         for_each (λ s, invoke subModifier (λ m, Modifier.subscribe m (Own s)))
           cascadingStates
       else ret tt
     else ret tt)
    (λ _, populated) (λ _, True).
Proof.
  destruct inheritState; [|by apply triple_ret].
  eapply triple_bind with (Q' := λ _, populated);
    [eapply triple_conseq; [apply populated_getModifier|naive_solver..]|]. intros upstream.
  destruct (truthy upstream); [|by apply triple_ret].
  eapply triple_bind with (Q' := λ _, populated).
  { intros w Hw. destruct upstream as [m'| |]; simpl; [|done..].
    rewrite bind_read_modifier. by destruct (modifier_heap w !! m'). }
  intros snapshot. eapply triple_conseq; [apply (triple_for_each populated (λ _, True))|done..].
  intros s _. eapply triple_conseq; [apply (populated_subscribe None None)|naive_solver..].
Qed.

(** A relationship that is created keeps "one or more" true. *)
Lemma populated_createRelationship dom d sn p mn inheritState :
  triple populated (that.createRelationship dom d sn p mn inheritState)
    (λ _, populated) (λ _, True).
Proof.
  unfold that.createRelationship.
  eapply triple_bind; [apply populated_resolve|]. intros dE.
  eapply triple_bind; [apply populated_getState|]. intros present.
  eapply triple_bind;
    [eapply triple_conseq; [apply (populated_attach_state None dE sn)| |intros ? w Hw; exact Hw|done];
     by intros w (? & ? & _)|].
  intros ?. eapply triple_bind; [apply populated_resolve|]. intros pE.
  eapply triple_bind; [apply populated_getModifier|]. intros present'.
  eapply triple_bind;
    [eapply triple_conseq; [apply (populated_attach_modifier (Some (dE, sn)) pE mn)| |intros ? w Hw; exact Hw|done];
     by intros w (? & ? & _)|].
  intros ?. eapply triple_bind; [apply populated_getState|]. intros pubState.
  eapply triple_bind; [apply populated_getModifier|]. intros subModifier.
  eapply triple_bind; [|intros ?; apply populated_inherit].
  eapply triple_conseq; [apply (populated_subscribe (Some (dE, sn)) (Some (pE, mn)))|..];
    [|done..].
  intros w ((Hw & _ & Hs) & _ & Hm). split; [done|]. split.
  - by intros ? s [= <-] ->; apply Hs.
  - by intros ? m [= <-] ->; apply Hm.
Qed.

End one_or_more.

(** ** Scripts *)

Section scripts.
Context `{Host}.
Implicit Types (w : Engine) (cs : list call).

Lemma populated_perform (c : call) : triple populated (perform c) (λ _, populated) (λ _, True).
Proof.
  destruct c as [name cb|name cb|dom d sn p mn i|cb]; [| |apply populated_createRelationship|by intros w Hw].
  - intros w [Hs Hm]. split; [|done]. intros e k s Hk. right.
    destruct (Hs e k s Hk) as [|Hsub]; [done|]. unfold subscribers. simpl.
    by rewrite lookup_app_l by by apply subscribers_in_heap.
  - intros w [Hs Hm]. split; [done|]. intros e k m Hk. right.
    destruct (Hm e k m Hk) as [|Hsub]; [done|]. unfold subscriptions. simpl.
    by rewrite lookup_app_l by by apply subscriptions_in_heap.
Qed.

Lemma populated_perform_all cs w :
  populated w → succeeds cs w = true → populated (perform_all cs w).
Proof.
  revert w. induction cs as [|c cs IH]; intros w Hw; [done|].
  simpl. intros [Hc Hcs]%andb_prop. apply IH; [|done].
  pose proof (populated_perform c w Hw) as Hp.
  by destruct (perform c w) as [[[]| |] w'].
Qed.

(** A populated store does what the note says of a State: when it is
    active, the change of its element executes a subscriber of it. *)
Lemma populated_notifies w e E k s dom :
  populated w → element_heap w !! e = Some E → own_get k (el_states E) = Some s →
  active w s dom = Some true → ∃ m, m ∈ subscribers w s ∧ m ∈ fired w E dom.
Proof.
  intros [Hs _] HE Hk Hact.
  destruct (Hs e k s) as [|Hsub]; [unfold state_of; by rewrite HE|done|].
  destruct (subscribers w s) as [|m l] eqn:Hl; [done|]. exists m. split; [left|].
  apply list_elem_of_bind. exists (k, s). split; [simpl; rewrite Hl; left|].
  apply list_elem_of_filter. split; [done|]. rewrite for_in_elem_of. by apply own_get_Some.
Qed.

(** In a populated store the elements are what the note calls them: an
    element with a State affects an element, an element with a Modifier is
    affected by one. *)
Lemma populated_elements_related w : wf w → populated w → elements_related w.
Proof.
  intros Hwf [Hs Hm]. split.
  - intros e (k & s & Hk). destruct (Hs e k s Hk) as [|Hsub]; [done|].
    destruct (subscribers w s) as [|m l] eqn:Hl; [done|].
    assert (m ∈ subscribers w s) as Hin by (rewrite Hl; left).
    destruct (wf_subscribers_attached w s m Hwf Hin) as (M & HM & e' & He').
    exists e', k, s, m. repeat split; [done..|]. unfold owner. by rewrite HM.
  - intros e' (k & m & Hk). destruct (Hm e' k m Hk) as [|Hsub]; [done|].
    destruct (subscriptions w m) as [|s l] eqn:Hl; [done|].
    assert (s ∈ subscriptions w m) as Hin by (rewrite Hl; left).
    destruct (wf_subscriptions_attached w m s Hwf Hin) as (St & HS & e & He).
    destruct (owned_forth _ _ _ _ (wf_states _ Hwf) _ _ _ HS He) as (E & k' & HE & Hk').
    destruct (wf_modifier_of w e' k m Hwf Hk) as (M & HM & HMe).
    exists e, k', s, m. repeat split.
    + unfold state_of. by rewrite HE.
    + apply occurrences_pos. rewrite wf_edges by done. by apply occurrences_pos.
    + unfold owner. by rewrite HM.
Qed.

(** C22: the design note holds of the stores that scripts build.  After
    any script that registers no template named [__proto__], whether its
    calls returned or threw: a State or a Modifier belongs to one element,
    which names it once; the subscriptions are edges between attached States
    and attached Modifiers, recorded alike at both ends; every State of an
    element is active or inactive on every page; and when the code's
    fan-out of an element returns, its trace has grown by an execution of
    every Modifier, for each of its subscriptions that was an active State
    of the element on the page the fan-out started on. *)
Theorem script_data_model cs : Forall plain_call cs → data_model (perform_all cs init).
Proof.
  intros Hcs. apply wf_data_model; [apply perform_all_wf, wf_init|].
  apply (callable_perform_all cs init Hcs callable_init).
Qed.

(** C23: "one or more": when every call of a script returned, every State
    of an element has a subscriber and every Modifier of an element has a
    subscription; every element with a State affects an element, and every
    element with a Modifier is affected by one. *)
Theorem script_populated cs :
  succeeds cs init = true →
  populated (perform_all cs init) ∧ elements_related (perform_all cs init).
Proof.
  intros Hcs. assert (populated (perform_all cs init)) as Hp
    by by apply populated_perform_all.
  split; [done|]. apply populated_elements_related; [|done]. apply perform_all_wf, wf_init.
Qed.

(** C24: "when active, it will notify one or more subscribing Modifiers":
    after a script without [__proto__] template, all of whose calls
    returned, the fan-out of an element that has an active State executes a
    Modifier, whatever happens next: the trace grows by a Modifier that the
    active States of the element publish to, whether the cascade returns or
    runs out of fuel. *)
Theorem active_state_notifies cs n e E k s p :
  Forall plain_call cs → succeeds cs init = true →
  element_heap (perform_all cs init) !! e = Some E →
  own_get k (el_states E) = Some s →
  active (perform_all cs init) s p.1 = Some true →
  ∃ m tr, m ∈ fired (perform_all cs init) E p.1 ∧
          (modifyDependents (S n) (perform_all cs init) e p).2.2 = p.2 ++ m :: tr.
Proof.
  intros Hcs Hok HE Hk Hact. set (w := perform_all cs init) in *.
  assert (wf w) as Hwf by apply perform_all_wf, wf_init.
  assert (callbacks_ok w) as Hcb by apply (callable_perform_all cs init Hcs callable_init).
  assert (populated w) as Hp by (apply populated_perform_all; [by split|done]).
  destruct (populated_notifies w e E k s p.1 Hp HE Hk Hact) as (m0 & _ & Hm0).
  destruct (fired w E p.1) as [|m l] eqn:Hf; [by apply elem_of_nil in Hm0|].
  destruct (fan_out_first n w e E m l p Hwf Hcb HE Hf) as [tr Htr].
  exists m, tr. split; [left|]. by rewrite Htr, <- app_assoc.
Qed.

End scripts.

(** ** Examples *)

Lemma script_data_model_witness :
  let cs := templates ++ [CreateRelationship page3 0 "checked" 1 "show" false;
                          CreateRelationship page3 1 "visible" 2 "show" true] in
  data_model (perform_all cs init).
Proof. apply script_data_model. compute_done. Defined.

(** A template named [__proto__] is excluded for a reason: the State that
    [w_proto] attaches under a member name of the template has no callback,
    so it is neither active nor inactive, and the change of its element
    throws. *)
Example proto_template_no_model :
  state_of w_proto 0 "publish" = Some 1 ∧ active w_proto 1 page3 = None ∧
  (modifyDependents 1 w_proto 0 (page3, [])).1 = Throw TypeError_not_function ∧
  ¬ data_model w_proto.
Proof.
  split_and!; [by vm_compute..|].
  intros [_ _ _ Hact _]. by destruct (Hact 0 "publish" 1 page3 eq_refl).
Qed.

Lemma script_populated_witness :
  let cs := templates ++ [CreateRelationship page3 0 "checked" 1 "show" false;
                          CreateRelationship page3 1 "visible" 2 "show" true] in
  populated (perform_all cs init) ∧ elements_related (perform_all cs init).
Proof. apply script_populated. vm_compute. reflexivity. Defined.

Lemma active_state_notifies_witness :
  ∃ m tr, m ∈ fired w_show (mkElement (H:=page_host) 0 [("checked", 2)] []) page3_checked ∧
          (modifyDependents 3 w_show 0 (page3_checked, [])).2.2 = [] ++ m :: tr.
Proof.
  apply (active_state_notifies
           (templates ++ [CreateRelationship (H:=page_host) page3 0 "checked" 1 "show" false]) 2 0
           (mkElement (H:=page_host) 0 [("checked", 2)] []) "checked" 2 (page3_checked, []));
    first [reflexivity|compute_done].
Defined.

(** A call that throws can leave a State without subscriber: when the
    Modifier name is unknown, the State has been attached to the dependency
    before the call throws, and it stays attached. *)
Example failed_call_unpopulated :
  let cs := templates ++ [CreateRelationship page3 0 "checked" 1 "nope" false] in
  succeeds cs init = false ∧
  state_of (perform_all cs init) 0 "checked" = Some 2 ∧
  subscribers (perform_all cs init) 2 = [] ∧
  ¬ populated (perform_all cs init).
Proof.
  repeat split; [vm_compute; reflexivity..|].
  intros [Hs _]. by destruct (Hs 0 "checked" 2 eq_refl).
Qed.
