(* ===== verification/Total.v ===== *)
(** * Total: the calls that return

    [Builder] says what a call of [createRelationship] has done when it
    returns, and what it has not done when it throws.  This file says when it
    returns: in a well-formed store whose registry can still be asked, for a
    State name and a Modifier name that were registered and that
    [Object.prototype] does not have, on two host references whose keys are
    not [hasOwnProperty].  A script that registers its names before it uses
    them is accepted call by call; [scoped] checks that on the script alone,
    without running it.  A Modifier name that was not registered makes the
    call throw after the State was attached
    ([createRelationship_unknown_modifier]). *)

From stdpp Require Import base option list strings numbers.
From S2P Require Import Prelude JsObject Heap Fixture Graph Registry Edges Builder Bounds Cascade DesignNote.

Open Scope string_scope.
Open Scope list_scope.
Open Scope run_scope.

Section total.
Context `{Host}.

(** What the construction of a relationship reads and never writes: the
    templates and the key resolver; and the registry, which only [resolve]
    writes. *)
Record same_setup (w w' : Engine) : Prop := {
  same_states : statesContainer_states w' = statesContainer_states w;
  same_modifiers : modifiersContainer_modifiers w' = modifiersContainer_modifiers w;
  same_key : getElementKey w' = getElementKey w;
  same_registry : elementsContainer_elements w' = elementsContainer_elements w;
}.

(** [m] leaves them as they are, whatever its outcome. *)
Definition keeps {A} (m : run Engine A) : Prop := preserves same_setup m.

(** A name that can be instantiated: a template was registered under it,
    and it is not the name of a member of [Object.prototype]. *)
Definition state_registered (w : Engine) (name : string) : Prop :=
  inherited name = false ∧ is_Some (own_get name (tpl_own (statesContainer_states w))).

Definition modifier_registered (w : Engine) (name : string) : Prop :=
  inherited name = false ∧ is_Some (own_get name (tpl_own (modifiersContainer_modifiers w))).

(** A host reference whose key does not shadow the membership test of the
    registry. *)
Definition ordinary (w : Engine) (dom : Dom) (ref : HostRef) : Prop :=
  getElementKey w ref dom ≠ "hasOwnProperty".

(** A store on which relationships can be created. *)
Definition ready (w : Engine) : Prop := wf w ∧ ¬ poisoned w.

(** [w'] is [w] after steps of a call that went through: grown, ready, with
    the templates of [w]. *)
Record onward (w w' : Engine) : Prop := {
  onward_ready : ready w';
  onward_extends : extends w w';
  onward_states : statesContainer_states w' = statesContainer_states w;
  onward_modifiers : modifiersContainer_modifiers w' = modifiersContainer_modifiers w;
}.

(** The check of a script before it runs: every relationship uses a State
    name and a Modifier name registered by an earlier call, and host
    references with ordinary keys under the key resolver of the moment.
    [states] and [mods] are the names registered so far, [kf] the resolver. *)
Fixpoint scoped (states mods : list string) (kf : KeyFn) (cs : list call) : bool :=
  match cs with
  | [] => true
  | AddState name _ :: cs' => scoped (name :: states) mods kf cs'
  | AddModifier name _ :: cs' => scoped states (name :: mods) kf cs'
  | SetElementKeyCallback callback :: cs' => scoped states mods callback cs'
  | CreateRelationship dom d sn p mn _ :: cs' =>
      bool_decide (sn ∈ states) && negb (inherited sn) &&
      bool_decide (mn ∈ mods) && negb (inherited mn) &&
      bool_decide (kf d dom ≠ "hasOwnProperty") &&
      bool_decide (kf p dom ≠ "hasOwnProperty") &&
      scoped states mods kf cs'
  end.

(** The names and the resolver that [scoped] carries are those of the
    store. *)
Record tracks (states mods : list string) (kf : KeyFn) (w : Engine) : Prop := {
  tracks_ready : ready w;
  tracks_key : getElementKey w = kf;
  tracks_states name : name ∈ states → inherited name = false → state_registered w name;
  tracks_modifiers name : name ∈ mods → inherited name = false → modifier_registered w name;
}.

End total.

(** ** What is kept *)

Section setup_rules.
Context `{Host}.
Implicit Types (w : Engine).

#[export] Instance same_setup_preorder : PreOrder same_setup.
Proof.
  split; [done|]. intros w1 w2 w3 [] []. split; congruence.
Qed.

Lemma keeps_setup_bind {A B} (m : run Engine A) (k : A → run Engine B) :
  keeps m → (∀ x, keeps (k x)) → keeps (bind m k).
Proof. apply preserves_bind, _. Qed.

Lemma keeps_setup_for_each {A} (f : A → run Engine unit) l :
  (∀ x, keeps (f x)) → keeps (for_each f l).
Proof. apply preserves_for_each, _. Qed.

Lemma setup_read_element e : keeps (read_element e).
Proof. intros w. unfold read_element. by destruct (element_heap w !! e). Qed.

Lemma setup_read_state s : keeps (read_state s).
Proof. intros w. unfold read_state. by destruct (state_heap w !! s). Qed.

Lemma setup_read_modifier m : keeps (read_modifier m).
Proof. intros w. unfold read_modifier. by destruct (modifier_heap w !! m). Qed.

Lemma setup_update_element e f : keeps (update_element e f).
Proof. apply keeps_setup_bind; [apply setup_read_element|by intros ? ?]. Qed.

Lemma setup_update_state s f : keeps (update_state s f).
Proof. apply keeps_setup_bind; [apply setup_read_state|by intros ? ?]. Qed.

Lemma setup_update_modifier m f : keeps (update_modifier m f).
Proof. apply keeps_setup_bind; [apply setup_read_modifier|by intros ? ?]. Qed.

End setup_rules.

#[export] Hint Resolve setup_read_element setup_read_state setup_read_modifier
  setup_update_element setup_update_state setup_update_modifier : fdeps.

(** Proves [keeps m] for a computation built from reads and updates. *)
Ltac solve_setup :=
  repeat first
    [ solve [auto with fdeps]
    | apply keeps_setup_bind; [|intros ?]
    | apply keeps_setup_for_each; intros ?
    | match goal with
      | |- keeps (if ?b then _ else _) => destruct b
      | |- keeps (match ?x with _ => _ end) => destruct x
      end
    | by intros ? ].

Section setup_methods.
Context `{Host}.
Implicit Types (w : Engine) (e : ElemId) (s : StateId) (m : ModId).

Lemma setup_getState e key : keeps (Element.getState e key).
Proof. unfold Element.getState. solve_setup. Qed.

Lemma setup_getModifier e key : keeps (Element.getModifier e key).
Proof. unfold Element.getModifier. solve_setup. Qed.

Lemma setup_attachState e key s : keeps (Element.attachState e key s).
Proof. unfold Element.attachState, State.setElement. solve_setup. Qed.

Lemma setup_attachModifier e key m : keeps (Element.attachModifier e key m).
Proof. unfold Element.attachModifier, Modifier.setElement. solve_setup. Qed.

Lemma setup_invoke_subscribe (subModifier : lookup ModId) (state : lookup StateId) :
  keeps (invoke subModifier (λ m, Modifier.subscribe m state)).
Proof.
  destruct subModifier; simpl; [|by intros ?..].
  unfold Modifier.subscribe, invoke, State.addModifier. solve_setup.
Qed.

Lemma setup_statesContainer_get key : keeps (statesContainer.get key).
Proof. intros w. by destruct (statesContainer_get_cases key w) as [[cb ->]|[err ->]]. Qed.

Lemma setup_modifiersContainer_get key : keeps (modifiersContainer.get key).
Proof. intros w. by destruct (modifiersContainer_get_cases key w) as [[cb ->]|[err ->]]. Qed.

Lemma setup_attach_state e key (present : lookup StateId) :
  keeps (if truthy present then ret tt
         else state <- statesContainer.get key ;; Element.attachState e key state).
Proof.
  destruct (truthy present); [by intros ?|].
  apply keeps_setup_bind; [apply setup_statesContainer_get|]. intros s. apply setup_attachState.
Qed.

Lemma setup_attach_modifier e key (present : lookup ModId) :
  keeps (if truthy present then ret tt
         else modifier <- modifiersContainer.get key ;;
              Element.attachModifier e key modifier).
Proof.
  destruct (truthy present); [by intros ?|].
  apply keeps_setup_bind; [apply setup_modifiersContainer_get|]. intros m.
  apply setup_attachModifier.
Qed.

(** The subscription and the inheritance. *)
Lemma setup_link dE pE sn mn (inheritState : bool) :
  keeps
    (pubState <- Element.getState dE sn ;;
     subModifier <- Element.getModifier pE mn ;;
     invoke subModifier (λ m, Modifier.subscribe m pubState) ;;
     if inheritState then
       upstream <- Element.getModifier dE mn ;;
       if truthy upstream then
         cascadingStates <- cascadingStates_of upstream ;;
         for_each (λ s, invoke subModifier (λ m, Modifier.subscribe m (Own s)))
           cascadingStates
       else ret tt
     else ret tt).
Proof.
  apply keeps_setup_bind; [apply setup_getState|]. intros pubState.
  apply keeps_setup_bind; [apply setup_getModifier|]. intros subModifier.
  apply keeps_setup_bind; [apply setup_invoke_subscribe|]. intros _.
  destruct inheritState; [|by intros ?].
  apply keeps_setup_bind; [apply setup_getModifier|]. intros upstream.
  destruct (truthy upstream); [|by intros ?]. apply keeps_setup_bind.
  - unfold cascadingStates_of. solve_setup.
  - intros snapshot. apply keeps_setup_for_each. intros s. apply setup_invoke_subscribe.
Qed.

End setup_methods.

(** ** The steps that go through *)

Section steps.
Context `{Host}.
Implicit Types (w : Engine) (e dE pE : ElemId) (s : StateId) (m : ModId).

Lemma onward_refl w : ready w → onward w w.
Proof. by split. Qed.

Lemma onward_trans w1 w2 w3 : onward w1 w2 → onward w2 w3 → onward w1 w3.
Proof. intros [? ? ? ?] [? ? ? ?]. split; [done|by etrans|congruence..]. Qed.

(** A step that keeps the setup and grows a ready store leaves it ready. *)
Lemma setup_onward {A} P (m : run Engine A) Q w :
  keeps m → grows P m Q → ready w → P w → onward w (m w).2.
Proof.
  intros Hk Hg [Hwf Hp] HP. destruct (Hk w) as [? ? ? Hreg].
  destruct (grows_elim _ _ _ w Hg Hwf HP) as (? & ? & _).
  split; [split; [done|]|done..]. unfold poisoned. by rewrite Hreg.
Qed.

(** [resolve] returns an element of the store. *)
Lemma resolve_returns dom ref w :
  ready w → ordinary w dom ref →
  ∃ e w1, elementsContainer.resolve dom ref w = (Ok e, w1) ∧ onward w w1 ∧
          is_Some (element_heap w1 !! e).
Proof.
  intros [Hwf Hp] Hk. destruct (resolve_Ok_element dom ref w Hwf Hp) as (e & E & Hr & HE & _).
  destruct (resolve_templates dom ref w) as [Hst Hmd].
  destruct (grows_elim _ _ _ w (resolve_grows dom ref) Hwf I) as (Hwf1 & Hext & _).
  exists e, (final (elementsContainer.resolve dom ref) w).
  split; [done|]. split; [|by rewrite HE]. split; [split; [done|]|done..].
  destruct (resolve_Ok_cases _ _ _ _ _ Hr) as [[_ ->]|(_ & _ & ->)]; [done|].
  unfold poisoned, registered. simpl. by rewrite has_own_set_ne.
Qed.

(** The State of the relationship is there after the first half of the
    call: it was, or it is instantiated from the template and attached. *)
Lemma attach_state_returns e E sn w :
  ready w → state_registered w sn → element_heap w !! e = Some E →
  ∃ w2 s,
    (if truthy (obj_get sn (el_states E)) then ret tt
     else state <- statesContainer.get sn ;; Element.attachState e sn state) w = (Ok tt, w2) ∧
    onward w w2 ∧ state_of w2 e sn = Some s.
Proof.
  intros Hw [Hinh [st Hst]] HE. pose proof Hw as [Hwf Hp].
  destruct (own_get sn (el_states E)) as [s|] eqn:Hs.
  - exists w, s. rewrite (proj2 (obj_get_Own sn s _) Hs). simpl.
    split; [done|]. split; [by apply onward_refl|]. unfold state_of. by rewrite HE.
  - assert (truthy (obj_get sn (el_states E)) = false) as Ht by by apply truthy_false.
    destruct (templates_own _ _ _ (wf_state_templates _ Hwf) _ _ Hst) as (T & HT & _).
    pose proof (setup_onward _ _ _ w (setup_attach_state e sn (obj_get sn (el_states E)))
                  (attach_state_grows e sn _) Hw (ex_intro _ E (conj HE eq_refl))) as Hon.
    rewrite Ht in *. revert Hon.
    rewrite (bind_Ok _ _ _ _ _ (statesContainer_get_registered _ _ _ _ Hst HT)).
    pose proof (new_attachState_eq e E sn (st_callback T) w HE) as Heq.
    unfold new_State, alloc_state, bind at 1 in Heq. rewrite Heq. simpl. intros Hon.
    eexists _, (length (state_heap w)). split; [done|]. split; [done|].
    unfold state_of. simpl. rewrite list_lookup_insert_eq by by eapply lookup_lt_Some.
    simpl. unfold obj_set. rewrite decide_False by by intros ->. apply own_get_put_eq.
Qed.

Lemma attach_modifier_returns e E mn w :
  ready w → modifier_registered w mn → element_heap w !! e = Some E →
  ∃ w2 m,
    (if truthy (obj_get mn (el_modifiers E)) then ret tt
     else modifier <- modifiersContainer.get mn ;;
          Element.attachModifier e mn modifier) w = (Ok tt, w2) ∧
    onward w w2 ∧ modifier_of w2 e mn = Some m.
Proof.
  intros Hw [Hinh [mt Hmt]] HE. pose proof Hw as [Hwf Hp].
  destruct (own_get mn (el_modifiers E)) as [m|] eqn:Hm.
  - exists w, m. rewrite (proj2 (obj_get_Own mn m _) Hm). simpl.
    split; [done|]. split; [by apply onward_refl|]. unfold modifier_of. by rewrite HE.
  - assert (truthy (obj_get mn (el_modifiers E)) = false) as Ht by by apply truthy_false.
    destruct (templates_own _ _ _ (wf_modifier_templates _ Hwf) _ _ Hmt) as (T & HT & _).
    pose proof (setup_onward _ _ _ w (setup_attach_modifier e mn (obj_get mn (el_modifiers E)))
                  (attach_modifier_grows e mn _) Hw (ex_intro _ E (conj HE eq_refl))) as Hon.
    rewrite Ht in *. revert Hon.
    rewrite (bind_Ok _ _ _ _ _ (modifiersContainer_get_registered _ _ _ _ Hmt HT)).
    pose proof (new_attachModifier_eq e E mn (md_callback T) w HE) as Heq.
    unfold new_Modifier, alloc_modifier, bind at 1 in Heq. rewrite Heq. simpl. intros Hon.
    eexists _, (length (modifier_heap w)). split; [done|]. split; [done|].
    unfold modifier_of. simpl. rewrite list_lookup_insert_eq by by eapply lookup_lt_Some.
    simpl. unfold obj_set. rewrite decide_False by by intros ->. apply own_get_put_eq.
Qed.

(** The first three steps of the call do not touch the Modifiers of any
    element. *)
Lemma resolve_modifier_of dom ref w e k :
  modifier_of (final (elementsContainer.resolve dom ref) w) e k = modifier_of w e k.
Proof.
  unfold final. destruct (decide (poisoned w)); [by rewrite resolve_poisoned|].
  destruct (own_get (getElementKey w ref dom) (elementsContainer_elements w)) eqn:He;
    [by erewrite resolve_hit|].
  rewrite resolve_miss by done. unfold modifier_of, registered. simpl.
  destruct (element_heap w !! e) as [E|] eqn:HE; [by erewrite lookup_app_l_Some|].
  apply lookup_ge_None in HE. destruct (decide (e = length (element_heap w))) as [->|].
  - by rewrite list_lookup_middle.
  - rewrite lookup_ge_None_2; [done|]. rewrite length_app. simpl. lia.
Qed.

Lemma attach_state_modifier_of e E sn w e' k :
  element_heap w !! e = Some E →
  modifier_of (final (if truthy (obj_get sn (el_states E)) then ret tt
                      else state <- statesContainer.get sn ;;
                           Element.attachState e sn state) w) e' k = modifier_of w e' k.
Proof.
  intros HE. destruct (truthy _); [done|].
  destruct (statesContainer_get_cases sn w) as [[cb Hget]|[err Hget]]; unfold final.
  - rewrite (bind_Ok _ _ _ _ _ Hget).
    pose proof (new_attachState_eq e E sn cb w HE) as Heq.
    unfold new_State, alloc_state, bind at 1 in Heq. simpl in Heq. rewrite Heq.
    unfold modifier_of. simpl. destruct (decide (e' = e)) as [->|].
    + rewrite list_lookup_insert_eq by by eapply lookup_lt_Some. by rewrite HE.
    + by rewrite list_lookup_insert_ne.
  - by rewrite (bind_Throw _ _ _ _ _ Hget).
Qed.

(** The subscription and the inheritance go through once the State and
    the Modifier are attached. *)
Lemma link_returns dE pE sn mn (inheritState : bool) s m w :
  wf w → state_of w dE sn = Some s → modifier_of w pE mn = Some m →
  ∃ w',
    (pubState <- Element.getState dE sn ;;
     subModifier <- Element.getModifier pE mn ;;
     invoke subModifier (λ m, Modifier.subscribe m pubState) ;;
     if inheritState then
       upstream <- Element.getModifier dE mn ;;
       if truthy upstream then
         cascadingStates <- cascadingStates_of upstream ;;
         for_each (λ s, invoke subModifier (λ m, Modifier.subscribe m (Own s)))
           cascadingStates
       else ret tt
     else ret tt) w = (Ok tt, w') ∧ same_setup w w'.
Proof.
  intros Hwf Hs Hm. pose proof (setup_link dE pE sn mn inheritState w) as Hk. revert Hk.
  destruct (wf_state_of _ _ _ _ Hwf Hs) as (S & HS & _).
  destruct (wf_modifier_of _ _ _ _ Hwf Hm) as (M & HM & _).
  destruct (read_back_attached w dE sn pE mn (Own s) (Own m) Hwf) as [Hatt1 Hatt2];
    [by intros ? [= <-]..|].
  apply bind_Some in Hs as (Ed & HEd & Hs). apply bind_Some in Hm as (Ep & HEp & Hm).
  rewrite (bind_Ok _ _ _ _ _ (getState_eq dE Ed sn w HEd)), (proj2 (obj_get_Own _ _ _) Hs).
  rewrite (bind_Ok _ _ _ _ _ (getModifier_eq pE Ep mn w HEp)), (proj2 (obj_get_Own _ _ _) Hm).
  pose proof (subscribe_Own m M s S w HS HM) as Hsub.
  set (w5 := set_modifier_heap _ _) in Hsub.
  assert (wf w5) as Hwf5
    by by apply (grows_wf _ _ _ w (Ok tt) _ (invoke_subscribe_grows (Own m) (Own s)) Hwf).
  rewrite (bind_Ok _ _ _ _ _ Hsub). intros Hk. eexists. split; [|exact Hk].
  apply outcome_final, (inherit_returns dE mn m inheritState w5 Hwf5).
  - simpl. by rewrite HEd.
  - simpl. rewrite list_lookup_insert_eq by by eapply lookup_lt_Some. eauto.
Qed.

Lemma state_registered_onward w w' name :
  onward w w' → state_registered w name → state_registered w' name.
Proof. intros [_ _ Hst _]. unfold state_registered. by rewrite Hst. Qed.

Lemma modifier_registered_onward w w' name :
  onward w w' → modifier_registered w name → modifier_registered w' name.
Proof. intros [_ _ _ Hmd]. unfold modifier_registered. by rewrite Hmd. Qed.

Lemma ordinary_onward w w' dom ref : onward w w' → ordinary w dom ref → ordinary w' dom ref.
Proof. intros [_ Hext _ _]. unfold ordinary. by rewrite (ext_key _ _ Hext). Qed.

(** The call, step by step. *)
Lemma createRelationship_onward w dom d sn p mn inheritState :
  ready w → state_registered w sn → modifier_registered w mn →
  ordinary w dom d → ordinary w dom p →
  ∃ w', that.createRelationship dom d sn p mn inheritState w = (Ok tt, w') ∧ onward w w'.
Proof.
  intros Hw Hsn Hmn Hd Hp.
  destruct (grows_elim _ _ _ w (createRelationship_plain dom d sn p mn inheritState)
              (proj1 Hw) I) as (Hwf' & Hext' & _).
  revert Hwf' Hext'. unfold that.createRelationship.
  destruct (resolve_returns dom d w Hw Hd) as (dE & w1 & Hr1 & H1 & [E1 HE1]).
  rewrite (bind_Ok _ _ _ _ _ Hr1), (bind_Ok _ _ _ _ _ (getState_eq dE E1 sn w1 HE1)).
  destruct (attach_state_returns dE E1 sn w1) as (w2 & s & Hr2 & H2 & Hs2);
    [apply H1|by eapply state_registered_onward|done|].
  rewrite (bind_Ok _ _ _ _ _ Hr2). pose proof (onward_trans _ _ _ H1 H2) as H12.
  destruct (resolve_returns dom p w2) as (pE & w3 & Hr3 & H3 & [E3 HE3]);
    [apply H2|by eapply ordinary_onward|].
  rewrite (bind_Ok _ _ _ _ _ Hr3), (bind_Ok _ _ _ _ _ (getModifier_eq pE E3 mn w3 HE3)).
  pose proof (onward_trans _ _ _ H12 H3) as H13.
  destruct (attach_modifier_returns pE E3 mn w3) as (w4 & m & Hr4 & H4 & Hm4);
    [apply H3|by eapply modifier_registered_onward|done|].
  rewrite (bind_Ok _ _ _ _ _ Hr4). pose proof (onward_trans _ _ _ H13 H4) as H14.
  destruct (link_returns dE pE sn mn inheritState s m w4) as (w' & -> & [Hst Hmd Hk Hreg]);
    [apply H4| |done|].
  { eapply extends_state_of; [|done]. etrans; [apply H3|apply H4]. }
  simpl. intros Hwf' Hext'. exists w'. split; [done|]. split; [split; [done|]|done|..].
  - unfold poisoned. rewrite Hreg. apply H4.
  - rewrite Hst. apply H14.
  - rewrite Hmd. apply H14.
Qed.

End steps.

(** ** Scripts *)

Section scripts.
Context `{Host}.
Implicit Types (w : Engine) (cs : list call).

Lemma tracks_init : tracks [] [] default_getElementKey init.
Proof. split; [split; [apply wf_init|done]|done|by intros ? ?%elem_of_nil..]. Qed.

(** A template registered under [name] can be instantiated under every
    name that could before, and under [name]. *)
Lemma container_add_registered name t c n :
  inherited n = false →
  n = name ∨ is_Some (own_get n (tpl_own c)) →
  is_Some (own_get n (tpl_own (container_add name t c))).
Proof.
  intros Hn Hc. unfold container_add. case_decide as Hp; simpl.
  - destruct Hc as [->|Hc]; [by subst|done].
  - rewrite own_get_put. case_decide; [done|]. by destruct Hc.
Qed.

Lemma tracks_addState states mods kf name callback w :
  tracks states mods kf w →
  tracks (name :: states) mods kf (final (perform (AddState name callback)) w).
Proof.
  intros [[Hwf Hp] Hk Hs Hm]. split; [split; [by apply perform_wf|done]|done|..].
  - intros n Hn Hinh. split; [done|]. simpl. apply container_add_registered; [done|].
    apply elem_of_cons in Hn as [->|Hn]; [by left|right; by apply Hs].
  - intros n Hn Hinh. by apply Hm.
Qed.

Lemma tracks_addModifier states mods kf name callback w :
  tracks states mods kf w →
  tracks states (name :: mods) kf (final (perform (AddModifier name callback)) w).
Proof.
  intros [[Hwf Hp] Hk Hs Hm]. split; [split; [by apply perform_wf|done]|done|..].
  - intros n Hn Hinh. by apply Hs.
  - intros n Hn Hinh. split; [done|]. simpl. apply container_add_registered; [done|].
    apply elem_of_cons in Hn as [->|Hn]; [by left|right; by apply Hm].
Qed.

Lemma tracks_onward states mods kf w w' :
  tracks states mods kf w → onward w w' → tracks states mods kf w'.
Proof.
  intros [Hw Hk Hs Hm] Hon. split; [apply Hon|by rewrite (ext_key _ _ (onward_extends _ _ Hon))|..].
  - intros n Hn Hinh. eapply state_registered_onward; eauto.
  - intros n Hn Hinh. eapply modifier_registered_onward; eauto.
Qed.

(** A scoped script is accepted call by call. *)
Lemma scoped_accepted states mods kf cs w :
  tracks states mods kf w → scoped states mods kf cs = true → succeeds cs w = true.
Proof.
  revert states mods kf w.
  induction cs as [|[name cb|name cb|dom d sn p mn i|cb] cs IH]; intros states mods kf w Hw Hcs;
    [done|..]; simpl in Hcs.
  - apply (IH _ _ _ _ (tracks_addState _ _ _ name cb _ Hw) Hcs).
  - apply (IH _ _ _ _ (tracks_addModifier _ _ _ name cb _ Hw) Hcs).
  - repeat (apply andb_prop in Hcs as [Hcs ?]).
    repeat match goal with
           | H : bool_decide _ = true |- _ => apply bool_decide_eq_true in H
           | H : negb _ = true |- _ => apply negb_true_iff in H
           | H : is_true _ |- _ => unfold is_true in H
           end.
    destruct Hw as [Hr Hk Hs Hm].
    destruct (createRelationship_onward w dom d sn p mn i) as (w' & Hrun & Hon);
      [done|by apply Hs|by apply Hm|unfold ordinary; by rewrite Hk..|].
    simpl. unfold FieldDependencies.createRelationship. rewrite Hrun. simpl.
    eapply IH; [|done]. eapply tracks_onward; [|done]. by split.
  - apply (IH states mods cb); [|done]. destruct Hw as [[Hwf Hp] Hk Hs Hm].
    split; [split; [by apply setElementKeyCallback_wf|done]|done..].
Qed.

(** C11: when [createRelationship] returns.  In a well-formed store whose
    registry has no element under the key [hasOwnProperty], for a State name
    and a Modifier name that were registered and that [Object.prototype]
    does not have, and for two host references whose keys are not
    [hasOwnProperty]: the call returns, whether or not the elements, the
    State or the Modifier existed and with or without inheritance, and the
    store it leaves can take the next call. *)
Theorem createRelationship_returns w dom d sn p mn inheritState :
  ready w → state_registered w sn → modifier_registered w mn →
  ordinary w dom d → ordinary w dom p →
  ∃ w', that.createRelationship dom d sn p mn inheritState w = (Ok tt, w') ∧
        ready w' ∧ state_registered w' sn ∧ modifier_registered w' mn.
Proof.
  intros Hw Hsn Hmn Hd Hp.
  destruct (createRelationship_onward w dom d sn p mn inheritState) as (w' & Hrun & Hon);
    [done..|].
  exists w'. split; [done|]. split; [apply Hon|].
  eauto using state_registered_onward, modifier_registered_onward.
Qed.

(** C37: a Modifier name that was never registered.  In a store that can
    take a call, with the State name registered and no element carrying a
    Modifier under [mn]: [createRelationship] throws when it reads the
    callback of the missing template, after the dependency element was
    resolved and the State attached to it.  The State stays attached; no
    State has gained a subscriber. *)
Theorem createRelationship_unknown_modifier w dom d sn p mn inheritState :
  ready w → state_registered w sn → ordinary w dom d → ordinary w dom p →
  own_get mn (tpl_own (modifiersContainer_modifiers w)) = None →
  tpl_proto (modifiersContainer_modifiers w) = None → inherited mn = false →
  (∀ e, modifier_of w e mn = None) →
  ∃ w' dE s,
    that.createRelationship dom d sn p mn inheritState w = (Throw TypeError_undefined, w') ∧
    ready w' ∧ names w' dom d dE ∧ state_of w' dE sn = Some s ∧
    ∀ s', subscribers w' s' = subscribers w s'.
Proof.
  intros Hw Hsn Hd Hp Hown Hproto Hinh Hnone. unfold that.createRelationship.
  destruct (resolve_returns dom d w Hw Hd) as (dE & w1 & Hr1 & H1 & [E1 HE1]).
  rewrite (bind_Ok _ _ _ _ _ Hr1), (bind_Ok _ _ _ _ _ (getState_eq dE E1 sn w1 HE1)).
  destruct (attach_state_returns dE E1 sn w1) as (w2 & s & Hr2 & H2 & Hs2);
    [apply H1|by eapply state_registered_onward|done|].
  rewrite (bind_Ok _ _ _ _ _ Hr2).
  destruct (resolve_returns dom p w2) as (pE & w3 & Hr3 & H3 & [E3 HE3]);
    [apply H2|eapply ordinary_onward; [|done]; by eapply onward_trans|].
  rewrite (bind_Ok _ _ _ _ _ Hr3), (bind_Ok _ _ _ _ _ (getModifier_eq pE E3 mn w3 HE3)).
  pose proof (onward_trans _ _ _ (onward_trans _ _ _ H1 H2) H3) as H13.
  assert (own_get mn (el_modifiers E3) = None) as Hm.
  { pose proof (Hnone pE) as Hm. revert Hm.
    rewrite <-(resolve_modifier_of dom d w). unfold final at 1. rewrite Hr1. simpl.
    rewrite <-(attach_state_modifier_of dE E1 sn w1 pE mn HE1). unfold final at 1.
    rewrite Hr2. simpl. rewrite <-(resolve_modifier_of dom p w2). unfold final at 1.
    rewrite Hr3. simpl. unfold modifier_of. by rewrite HE3. }
  assert (truthy (obj_get mn (el_modifiers E3)) = false) as -> by by apply truthy_false.
  exists w3, dE, s. split.
  { apply bind_Throw, bind_Throw, modifiersContainer_get_unknown; [|by rewrite (onward_modifiers _ _ H13)|done].
    by rewrite (onward_modifiers _ _ H13). }
  destruct (resolve_adds dom d 0 _ _ _ Hr1) as [Ha1 Hn1].
  pose proof (attach_state_adds dE E1 sn 0 _ _ HE1 Hr2) as Ha2.
  destruct (resolve_adds dom p 0 _ _ _ Hr3) as [Ha3 _].
  split; [apply H13|]. split; [|split].
  - eapply names_extends; [|done]. etrans; [apply H2|apply H3].
  - eapply extends_state_of; [apply H3|done].
  - intros s'. destruct (adds_quiet_l _ _ _ _ _ Ha1 (adds_quiet_l _ _ _ _ _ Ha2 Ha3)) as [_ Hsub _].
    rewrite Hsub, occurrences_nil. simpl. apply app_nil_r.
Qed.

(** A script can be checked before it runs.  When every relationship
    of the script uses names that earlier calls of the script registered
    (and that [Object.prototype] does not have) and host references with
    ordinary keys, every call of the script returns. *)
Theorem scoped_succeeds cs :
  scoped [] [] default_getElementKey cs = true → succeeds cs init = true.
Proof. apply scoped_accepted, tracks_init. Qed.

End scripts.

(** ** Examples *)

Lemma ready_w_templates : ready w_templates.
Proof. split; [apply perform_all_wf, wf_init|by vm_compute]. Qed.

Lemma createRelationship_returns_witness :
  ∃ w', that.createRelationship page3 0 "checked" 1 "show" true w_templates = (Ok tt, w') ∧
        ready w' ∧ state_registered w' "checked" ∧ modifier_registered w' "show".
Proof.
  apply createRelationship_returns; [apply ready_w_templates|by split..|done|done].
Defined.

Lemma createRelationship_unknown_modifier_witness :
  ∃ w' dE s,
    that.createRelationship page3 0 "checked" 1 "hide" false w_templates
      = (Throw TypeError_undefined, w') ∧
    ready w' ∧ names w' page3 0 dE ∧ state_of w' dE "checked" = Some s ∧
    ∀ s', subscribers w' s' = subscribers w_templates s'.
Proof.
  apply createRelationship_unknown_modifier;
    [apply ready_w_templates|by split|done..|intros e; by vm_compute].
Defined.

(** The store the failed call leaves: both elements are registered, the
    dependency carries its State, which nobody subscribes to. *)
Example unknown_modifier_leftovers :
  let w' := final (that.createRelationship page3 0 "checked" 1 "hide" false) w_templates in
  length (element_heap w') = 2%nat ∧ state_of w' 0 "checked" = Some 2%nat ∧
  subscribers w' 2 = [] ∧ succeeds [CreateRelationship page3 0 "checked" 1 "show" false] w' = true.
Proof. by vm_compute. Qed.

Lemma scoped_succeeds_witness :
  succeeds (templates ++ [CreateRelationship page3 0 "checked" 1 "show" false;
                          CreateRelationship page3 1 "visible" 2 "show" true]) init = true.
Proof. by apply scoped_succeeds. Defined.

(** The check refuses a relationship on a name that is registered after it;
    the call throws. *)
Example scoped_order :
  let cs := [CreateRelationship page3 0 "checked" 1 "show" false;
             AddState "checked" checked; AddModifier "show" show] in
  scoped [] [] default_getElementKey cs = false ∧ succeeds cs init = false.
Proof. split; by vm_compute. Qed.
