(* ===== verification/Semantics.v ===== *)
(** * Semantics: the cascade without fuel

    [Cascade.modifyDependents] bounds the nesting of the fan-outs by a fuel.
    This file says what a cascade computes without that bound, as a relation
    between the page before and the page after, on the graph of the store:
    the fan-out of an element fixes the Modifiers it will execute (the
    subscribers of the States that are active when it starts) and executes
    them in order, each followed by the fan-out of its own element.  The
    relation holds exactly of the runs of the code that return; the code
    implements it in every well-formed store with callbacks. *)

From stdpp Require Import base option list strings numbers.
From S2P Require Import Prelude JsObject Heap Fixture Graph Registry Builder Cascade.

Open Scope string_scope.
Open Scope list_scope.
Open Scope run_scope.

Section semantics.
Context `{Host}.

(** [cascade w e p p']: the fan-out of element [e] on the page [p] returns
    with the page [p'].  [runs w l p p']: the executions of the Modifiers of
    [l], one after the other, lead from [p] to [p']. *)
Inductive cascade (w : Engine) : ElemId → Page → Page → Prop :=
| cascade_fan e E p p' :
    element_heap w !! e = Some E →
    runs w (fired w E p.1) p p' →
    cascade w e p p'
with runs (w : Engine) : list ModId → Page → Page → Prop :=
| runs_nil p : runs w [] p p
| runs_cons m e l p p1 p2 :
    owner w m = Some e →
    cascade w e (fire w p m) p1 →
    runs w l p1 p2 →
    runs w (m :: l) p p2.

(** A set of elements that a cascade cannot leave: every element of the set
    has an always-active State with a subscriber on an element of the set. *)
Definition trap (w : Engine) (C : ElemId → Prop) : Prop :=
  ∀ e, C e → ∃ e', C e' ∧ hard_edge w e e'.

End semantics.

Scheme cascade_mut := Minimality for cascade Sort Prop
  with runs_mut := Minimality for runs Sort Prop.

Section semantics_lemmas.
Context `{Host}.
Implicit Types (w : Engine) (e : ElemId) (m : ModId) (p : Page) (l : list ModId).

(** Executions compose. *)
Lemma runs_app w l l' p p1 p2 :
  runs w l p p1 → runs w l' p1 p2 → runs w (l ++ l') p p2.
Proof.
  revert p. induction l as [|m l IH]; intros p.
  - by inversion 1; subst.
  - inversion 1; subst. intros. eapply runs_cons; eauto.
Qed.

(** ** The code computes what the relation allows *)

(** A run of the code that returns is a cascade. *)
Lemma executions_complete n w l p p' :
  (∀ e q q', modifyDependents n w e q = (Ok tt, q') → cascade w e q q') →
  wf w → callbacks_ok w → (∀ m, m ∈ l → is_Some (owner w m)) →
  for_each (execute n w) l p = (Ok tt, p') → runs w l p p'.
Proof.
  intros IH Hwf Hcb. revert p. induction l as [|m l IHl]; intros p Hl Hrun.
  - injection Hrun as <-. constructor.
  - simpl in Hrun. apply bind_Ok_inv in Hrun as ([] & p1 & Hm & Hrun).
    destruct (Hl m ltac:(left)) as [e He].
    rewrite (execute_unfold _ _ _ e) in Hm by done.
    eapply runs_cons; [done|by apply IH|]. apply IHl; [|done]. intros; apply Hl. by right.
Qed.

Lemma cascade_complete n w e p p' :
  wf w → callbacks_ok w →
  modifyDependents n w e p = (Ok tt, p') → cascade w e p p'.
Proof.
  intros Hwf Hcb. revert e p p'. induction n as [|n IH]; intros e p p' Hrun; [done|].
  destruct (element_heap w !! e) as [E|] eqn:HE; [|by rewrite fan_out_dangling in Hrun].
  rewrite (fan_out_runs _ _ _ E) in Hrun by done.
  eapply cascade_fan; [done|]. eapply executions_complete; eauto using fired_owner.
Qed.

(** A cascade is a run of the code, with enough fuel. *)
Lemma cascade_sound w e p p' :
  wf w → callbacks_ok w → cascade w e p p' →
  ∃ n, modifyDependents n w e p = (Ok tt, p').
Proof.
  intros Hwf Hcb Hc.
  induction Hc using cascade_mut
    with (P0 := λ l p p', ∃ n, for_each (execute n w) l p = (Ok tt, p')).
  - destruct IHHc as [n Hn]. exists (S n). by rewrite (fan_out_runs _ _ _ E).
  - by exists 0.
  - destruct IHHc as [n1 Hn1], IHHc0 as [n2 Hn2]. exists (n1 `max` n2). simpl.
    assert (execute (n1 `max` n2) w m p = (Ok tt, p1)) as Hm.
    { rewrite (execute_unfold _ _ _ e) by done. rewrite <- Hn1.
      apply modifyDependents_mono; [lia|by rewrite Hn1]. }
    rewrite (bind_Ok _ _ _ _ _ Hm), <- Hn2. apply approx_for_each; [|by rewrite Hn2].
    intros m' _. apply execute_with_mono. intros e'. apply modifyDependents_mono. lia.
Qed.

(** C25: the relation is the meaning of the code.  In a well-formed store
    with callbacks, the fan-out of an element returns with a page, for some
    fuel, exactly when the cascade relates the two pages. *)
Theorem cascade_refines w e p p' :
  wf w → callbacks_ok w →
  (cascade w e p p' ↔ ∃ n, modifyDependents n w e p = (Ok tt, p')).
Proof.
  intros Hwf Hcb. split; [by apply cascade_sound|].
  intros [n Hn]. by eapply cascade_complete.
Qed.

(** A cascade has one result: the page and the order of the executions
    are determined by the store and the page it starts on. *)
Theorem cascade_deterministic w e p p1 p2 :
  cascade w e p p1 → cascade w e p p2 → p1 = p2.
Proof.
  intros Hc. revert p2.
  induction Hc using cascade_mut
    with (P0 := λ l p p1, ∀ p2, runs w l p p2 → p1 = p2); intros q Hq.
  - inversion Hq; simplify_eq. by apply IHHc.
  - by inversion Hq.
  - inversion Hq as [|? ? ? ? q1 ? Ho Hc1 Hr]; simplify_eq.
    apply IHHc in Hc1 as <-. by apply IHHc0.
Qed.

(** On a graph with ranks every cascade ends. *)
Lemma cascade_ranked w rank e p :
  wf w → callbacks_ok w → ranked w rank → is_Some (element_heap w !! e) →
  ∃ p', cascade w e p p'.
Proof.
  intros Hwf Hcb Hr He.
  destruct (yields_Ok _ p (modifyDependents_ranked w rank (S (rank e)) e Hwf Hcb Hr He
                             ltac:(lia))) as [[] Hp].
  destruct (modifyDependents (S (rank e)) w e p) as [r p'] eqn:Hrun. simpl in Hp. subst.
  exists p'. by eapply cascade_complete.
Qed.

(** No cascade starts in a trap: there the code recurses for ever. *)
Lemma cascade_trapped w C e p p' : trap w C → C e → ¬ cascade w e p p'.
Proof.
  intros HC He Hc. revert He.
  induction Hc using cascade_mut
    with (P0 := λ l p p', ∀ m e', m ∈ l → owner w m = Some e' → C e' → False).
  - intros He.
    destruct (HC e He) as (e' & He' & E' & kv & m & HE' & Hkv & Hact & Hm & Ho).
    simplify_eq. apply (IHHc m e'); [|done..].
    apply list_elem_of_bind. exists kv. split; [done|].
    apply list_elem_of_filter. split; [apply Hact|by rewrite for_in_elem_of].
  - by intros ? ? ?%elem_of_nil.
  - intros m' e' [->|Hin]%elem_of_cons Ho HC'; [|by eapply IHHc0].
    simplify_eq. by apply IHHc.
Qed.

(** A cascade only adds to the trace. *)
Lemma cascade_trace w e p p' : cascade w e p p' → p.2 `prefix_of` p'.2.
Proof.
  intros Hc.
  induction Hc using cascade_mut with (P0 := λ l p p', p.2 `prefix_of` p'.2); [done..|].
  etrans; [|done]. etrans; [|done]. by apply prefix_app_r.
Qed.

End semantics_lemmas.

(** ** Examples *)

Lemma cascade_refines_witness :
  cascade w_chain_plain 0 (page3_checked, []) (show 2 (show 1 page3_checked), [2; 3]) ↔
  ∃ n, modifyDependents n w_chain_plain 0 (page3_checked, [])
       = (Ok tt, (show 2 (show 1 page3_checked), [2; 3])).
Proof. apply cascade_refines; [apply wf_w_chain_plain|compute_done]. Defined.

(** The chain of the examples, as a cascade. *)
Lemma cascade_chain :
  cascade w_chain_plain 0 (page3_checked, []) (show 2 (show 1 page3_checked), [2; 3]).
Proof.
  apply (cascade_complete 3); [apply wf_w_chain_plain|compute_done|].
  vm_compute. reflexivity.
Qed.

Lemma cascade_deterministic_witness :
  (show 2 (show 1 page3_checked), [2; 3]) =
  ([ mkNode (Some "f0") true false 0; mkNode (Some "f1") false true 0;
     mkNode (Some "f2") false true 0 ], [2; 3]).
Proof.
  apply (cascade_deterministic w_chain_plain 0 (page3_checked, [])); apply cascade_chain.
Defined.

(** The two fields of [w_cycle] are a trap. *)
Example cycle_never_returns p p' : ¬ cascade w_cycle 0 p p'.
Proof.
  apply (cascade_trapped w_cycle (λ e, e = 0 ∨ e = 1)); [|by left].
  intros e He. by apply w_cycle_edges.
Qed.
