(* ===== verification/Machine.v ===== *)
(** * Machine: the cascade as a machine with a stack

    The recursion of [Modifier.execute] and [Element.modifyDependents] runs
    on the call stack of the host.  This file makes the stack explicit: a
    configuration is the list of the Modifiers that remain to be executed,
    innermost loop first, and the page.  A step executes the first Modifier
    and puts the Modifiers its element publishes to, on the page the
    mutation left, in front of the others.

    The machine is the code's recursion in the stores where every State and
    every Modifier has a callback ([callbacks_ok], which holds after every
    script without a template named [__proto__]): there it halts with an
    empty stack exactly when the fan-out of the code returns, on the same
    page ([modifyDependents_machine]), and it never halts exactly when the
    fan-out exhausts every fuel ([diverges_machine]); in a trap both happen
    ([trapped_runs_forever]).  A run that never halts is a set of
    configurations closed under the step ([forever]), not a coinductive
    object.  Without callbacks the machine is not the code: it steps over a
    Modifier without callback where the code throws ([callbacks_needed]). *)

From stdpp Require Import base option list strings numbers relations.
From S2P Require Import Prelude JsObject Heap Fixture Graph Registry Builder Cascade DesignNote Semantics.

Open Scope string_scope.
Open Scope list_scope.
Open Scope run_scope.

Section machine.
Context `{Host}.

(** The Modifiers still to execute, and the page. *)
Definition config : Type := list ModId * Page.

(** [this.callback(this.element.$element); this.element.modifyDependents()]:
    the mutation of the first Modifier, and the fan-out of its element
    before the rest. *)
Definition next (w : Engine) (c : config) : option config :=
  match c.1 with
  | [] => None
  | m :: l =>
      e ← owner w m; E ← element_heap w !! e;
      Some (fired w E (fire w c.2 m).1 ++ l, fire w c.2 m)
  end.

Inductive step (w : Engine) : config → config → Prop :=
| step_execute m l p e E :
    owner w m = Some e → element_heap w !! e = Some E →
    step w (m :: l, p) (fired w E (fire w p m).1 ++ l, fire w p m).

(** The machine, for [n] steps or until it halts or is stuck. *)
Fixpoint machine (n : nat) (w : Engine) (c : config) : config :=
  match n with
  | 0 => c
  | S n' => match next w c with Some c' => machine n' w c' | None => c end
  end.

(** The configuration a change of element [e] starts in. *)
Definition start (w : Engine) (e : ElemId) (p : Page) : option config :=
  E ← element_heap w !! e; Some (fired w E p.1, p).

(** Every Modifier of the stack can be executed. *)
Definition executable (w : Engine) (c : config) : Prop :=
  ∀ m, m ∈ c.1 → is_Some (owner w m).

(** The machine never halts from [c]: [c] belongs to a set of
    configurations each of which steps into the set. *)
Definition forever (w : Engine) (c : config) : Prop :=
  ∃ X : config → Prop, X c ∧ ∀ c1, X c1 → ∃ c2, step w c1 c2 ∧ X c2.

End machine.

(** Two fields in a cycle whose Modifiers have no callback: the template of
    the Modifiers is installed as the prototype of their container, and the
    relationships name a member of the template. *)
Definition bare_script : list call :=
  [ AddState "always" always; AddModifier "__proto__" bump;
    CreateRelationship page3 0 "always" 1 "execute" false;
    CreateRelationship page3 1 "always" 0 "execute" false ].

Definition w_bare : Engine := perform_all bare_script init.

Section machine_lemmas.
Context `{Host}.
Implicit Types (w : Engine) (e : ElemId) (m : ModId) (p : Page) (l : list ModId)
  (c : config).

Lemma step_next w c c' : step w c c' ↔ next w c = Some c'.
Proof.
  split.
  - intros [m l p e E He HE]. unfold next. simpl. by rewrite He; simpl; rewrite HE.
  - destruct c as [[|m l] p]; [done|]. unfold next. simpl.
    intros (e & He & (E & HE & [= <-])%bind_Some)%bind_Some. by econstructor.
Qed.

Lemma step_deterministic w c c1 c2 : step w c c1 → step w c c2 → c1 = c2.
Proof. rewrite !step_next. congruence. Qed.

(** The rest of the stack waits. *)
Lemma step_frame w l p l' p' rest :
  step w (l, p) (l', p') → step w (l ++ rest, p) (l' ++ rest, p').
Proof.
  inversion 1; subst. rewrite <- app_assoc. by apply (step_execute w m (_ ++ rest) p e E).
Qed.

Lemma nsteps_frame w n l p l' p' rest :
  nsteps (step w) n (l, p) (l', p') → nsteps (step w) n (l ++ rest, p) (l' ++ rest, p').
Proof.
  revert l p. induction n as [|n IH]; intros l p; inversion 1 as [|? ? [l1 p1]]; subst.
  - constructor.
  - econstructor; [by apply step_frame|by apply IH].
Qed.

(** A run that empties the stack empties its front first. *)
Lemma nsteps_split w n l rest p p' :
  nsteps (step w) n (l ++ rest, p) ([], p') →
  ∃ n1 n2 p1, n = n1 + n2 ∧ nsteps (step w) n1 (l, p) ([], p1) ∧
              nsteps (step w) n2 (rest, p1) ([], p').
Proof.
  revert l p. induction n as [|n IH]; intros l p Hrun.
  - assert ((l ++ rest, p) = ([], p')) as [= [-> ->]%app_eq_nil ->] by by inversion Hrun.
    exists 0, 0, p'. repeat split; constructor.
  - destruct l as [|m l]; [exists 0, (S n), p; repeat split; [constructor|done]|].
    inversion Hrun as [|? ? c ? Hs Hn]; subst. inversion Hs; subst.
    rewrite app_assoc in Hn. apply IH in Hn as (n1 & n2 & p1 & -> & H1 & H2).
    exists (S n1), n2, p1. repeat split; [|done]. econstructor; [|done]. by econstructor.
Qed.

(** On a well-formed store a stack that is executable stays so, and a stack
    that is not empty steps. *)
Lemma executable_step w c c' : wf w → executable w c → step w c c' → executable w c'.
Proof.
  intros Hwf Hc. inversion 1; subst. intros m' [Hm'|Hm']%elem_of_app.
  - by eapply fired_owner.
  - apply Hc. by right.
Qed.

Lemma executable_progress w m l p :
  wf w → executable w (m :: l, p) → ∃ c, step w (m :: l, p) c.
Proof.
  intros Hwf Hc. destruct (Hc m ltac:(left)) as [e He].
  pose proof He as (M & HM & HMe)%bind_Some.
  destruct (owned_forth _ _ _ _ (wf_modifiers _ Hwf) _ _ _ HM HMe) as (E & _ & HE & _).
  eexists. by econstructor.
Qed.

Lemma executable_start w e E p :
  wf w → element_heap w !! e = Some E → executable w (fired w E p.1, p).
Proof. intros Hwf HE m Hm. by eapply fired_owner. Qed.

End machine_lemmas.

(** ** The machine and the cascade *)

Section equivalence.
Context `{Host}.
Implicit Types (w : Engine) (e : ElemId) (m : ModId) (p : Page) (l : list ModId)
  (c : config).

(** A cascade is a run of the machine that empties the stack. *)
Lemma runs_nsteps w l p p' :
  runs w l p p' → ∃ n, nsteps (step w) n (l, p) ([], p').
Proof.
  intros Hr.
  induction Hr using runs_mut
    with (P := λ e p p', ∀ E, element_heap w !! e = Some E →
                 ∃ n, nsteps (step w) n (fired w E p.1, p) ([], p')).
  - intros E' HE'. by simplify_eq.
  - exists 0. constructor.
  - inversion H1 as [? E ? ? HE _]; subst.
    destruct (IHHr E HE) as [n1 Hn1], IHHr0 as [n2 Hn2].
    exists (S (n1 + n2)). econstructor; [by econstructor|].
    eapply nsteps_trans; [|done]. by apply (nsteps_frame w n1 _ _ [] p1 l).
Qed.

(** And a run that empties the stack is a cascade. *)
Lemma nsteps_runs w n l p p' :
  nsteps (step w) n (l, p) ([], p') → runs w l p p'.
Proof.
  revert l p p'. induction n as [n IH] using lt_wf_ind. intros l p p' Hrun.
  destruct l as [|m l].
  - inversion Hrun as [|? ? ? ? Hs]; subst; [constructor|inversion Hs].
  - inversion Hrun as [|n' ? c ? Hs Hn]; subst. inversion Hs; subst.
    apply nsteps_split in Hn as (n1 & n2 & p1 & -> & H1 & H2).
    eapply runs_cons; [done| |].
    + eapply cascade_fan; [done|]. apply (IH n1); [lia|done].
    + apply (IH n2); [lia|done].
Qed.

Lemma cascade_start w e p p' :
  cascade w e p p' ↔ ∃ c, start w e p = Some c ∧ rtc (step w) c ([], p').
Proof.
  unfold start. split.
  - inversion 1 as [? E ? ? HE Hr]; subst. rewrite HE. eexists. split; [done|].
    apply runs_nsteps in Hr as [n Hn]. by eapply rtc_nsteps_2.
  - intros (c & (E & HE & [= <-])%bind_Some & [n Hn]%rtc_nsteps_1).
    eapply cascade_fan; [done|]. by eapply nsteps_runs.
Qed.

(** The function [machine] runs the steps. *)
Lemma machine_nsteps w n c c' : nsteps (step w) n c c' → machine n w c = c'.
Proof.
  induction 1 as [|n c c1 c' Hs%step_next _ IH]; [done|]. simpl. by rewrite Hs.
Qed.

Lemma executable_nsteps w n c c' :
  wf w → executable w c → nsteps (step w) n c c' → executable w c'.
Proof. intros Hwf Hc. induction 1; eauto using executable_step. Qed.

(** C26: the machine implements the recursion of the code.  In a
    well-formed store with callbacks, the fan-out of an element returns with
    a page, for some fuel, exactly when the machine, started with the
    Modifiers the element publishes to, empties its stack on that page. *)
Theorem modifyDependents_machine w e p p' :
  wf w → callbacks_ok w →
  ((∃ n, modifyDependents n w e p = (Ok tt, p')) ↔
   ∃ c, start w e p = Some c ∧ rtc (step w) c ([], p')).
Proof.
  intros Hwf Hcb. rewrite <- cascade_start. split.
  - intros [n Hn]. by eapply cascade_complete.
  - by apply cascade_sound.
Qed.

(** In a well-formed store the stack stays executable along a run. *)
Lemma executable_rtc w c c' : wf w → executable w c → rtc (step w) c c' → executable w c'.
Proof. intros Hwf Hc [n Hn]%rtc_nsteps_1. by eapply executable_nsteps. Qed.

(** ** Runs that never halt *)

(** A machine that never halts takes any number of steps, and its stack is
    never empty. *)
Lemma forever_nsteps w c n : forever w c → ∃ c', nsteps (step w) n c c' ∧ forever w c'.
Proof.
  intros (X & Hc & HX). revert c Hc. induction n as [|n IH]; intros c Hc.
  - exists c. split; [constructor|by exists X].
  - destruct (HX c Hc) as (c1 & Hs & Hc1). destruct (IH c1 Hc1) as (c' & Hn & Hf).
    exists c'. split; [by econstructor|done].
Qed.

Lemma forever_stack w c : forever w c → c.1 ≠ [].
Proof. intros (X & Hc & HX). destruct (HX c Hc) as (c2 & Hs & _). by inversion Hs. Qed.

(** It does not halt, because the steps are determined. *)
Lemma forever_not_halts w c p' : forever w c → ¬ rtc (step w) c ([], p').
Proof.
  intros Hf Hrun. remember ([], p') as c' eqn:Hc'.
  induction Hrun as [c|c c1 c' Hs _ IH]; [subst; by apply forever_stack in Hf|].
  apply IH; [|done]. destruct Hf as (X & Hc & HX).
  destruct (HX c Hc) as (c2 & Hs' & Hc2).
  rewrite (step_deterministic _ _ _ _ Hs Hs'). by exists X.
Qed.

(** In a well-formed store a machine that does not halt never halts: it is
    not stuck on the way. *)
Lemma not_halts_forever w c :
  wf w → executable w c → (∀ p', ¬ rtc (step w) c ([], p')) → forever w c.
Proof.
  intros Hwf Hc Hno. exists (λ c', rtc (step w) c c'). split; [done|].
  intros [[|m l] q] Hrun; [by destruct (Hno q)|].
  destruct (executable_progress w m l q Hwf) as [c2 Hs]; [by eapply executable_rtc|].
  exists c2. split; [done|]. by eapply rtc_r.
Qed.

(** A fan-out that exhausts every fuel is a machine that never halts. *)
Lemma diverges_forever w e p :
  wf w → callbacks_ok w → (∀ fuel, (modifyDependents fuel w e p).1 = Timeout) →
  ∃ c, start w e p = Some c ∧ forever w c.
Proof.
  intros Hwf Hcb Hdiv. unfold start. destruct (element_heap w !! e) as [E|] eqn:HE.
  2: { specialize (Hdiv 1). by rewrite fan_out_dangling in Hdiv. }
  eexists. split; [done|].
  apply not_halts_forever; [done|by eapply executable_start|].
  intros p' [k Hk]%rtc_nsteps_1. destruct (cascade_sound w e p p' Hwf Hcb) as [n Hn].
  { by eapply cascade_fan, nsteps_runs. }
  specialize (Hdiv n). by rewrite Hn in Hdiv.
Qed.

(** And the converse. *)
Lemma forever_diverges w e p c fuel :
  wf w → callbacks_ok w → start w e p = Some c → forever w c →
  (modifyDependents fuel w e p).1 = Timeout.
Proof.
  intros Hwf Hcb Hc Hf.
  assert (is_Some (element_heap w !! e)) as He.
  { unfold start in Hc. by destruct (element_heap w !! e). }
  pose proof (modifyDependents_no_throw fuel w e Hwf Hcb He p) as Hsafe.
  destruct (modifyDependents fuel w e p) as [[[]| |] p'] eqn:Hrun; [|done..].
  apply cascade_complete, cascade_start in Hrun as (c' & Hc' & Hhalt); [|done..].
  simplify_eq. by destruct (forever_not_halts _ _ _ Hf Hhalt).
Qed.

(** C27: the machine diverges when the code does.  In a well-formed store
    with callbacks, the fan-out of an element exhausts every fuel exactly
    when the machine, started with the Modifiers the element publishes to,
    never halts: with [modifyDependents_machine], the code and the machine
    return together, on the same page, and recurse without end together. *)
Theorem diverges_machine w e p :
  wf w → callbacks_ok w →
  ((∀ fuel, (modifyDependents fuel w e p).1 = Timeout) ↔
   ∃ c, start w e p = Some c ∧ forever w c).
Proof.
  intros Hwf Hcb. split; [by apply diverges_forever|].
  intros (c & Hc & Hf) fuel. by eapply forever_diverges.
Qed.

(** C31: a cascade that starts in a trap recurses without end.  In a
    well-formed store with callbacks, when every element of a set has a
    State that is active on every page with a subscriber on an element of
    the set, the fan-out of an element of the set exhausts every fuel, and
    the machine takes [n] steps from it for every [n], its stack never
    empty. *)
Theorem trapped_runs_forever w (C : ElemId → Prop) e p :
  wf w → callbacks_ok w → trap w C → C e →
  (∀ fuel, (modifyDependents fuel w e p).1 = Timeout) ∧
  ∃ c, start w e p = Some c ∧ ∀ n, ∃ c', nsteps (step w) n c c' ∧ c'.1 ≠ [].
Proof.
  intros Hwf Hcb HC He.
  assert (∀ fuel, (modifyDependents fuel w e p).1 = Timeout) as Hdiv
    by (intros fuel; by eapply fan_out_diverges).
  split; [done|]. destruct (diverges_forever w e p Hwf Hcb Hdiv) as (c & Hc & Hf).
  exists c. split; [done|]. intros n.
  destruct (forever_nsteps w c n Hf) as (c' & Hn & Hf'%forever_stack). eauto.
Qed.

End equivalence.

(** ** Examples *)

Lemma modifyDependents_machine_witness :
  (∃ n, modifyDependents n w_chain_plain 0 (page3_checked, [])
        = (Ok tt, (show 2 (show 1 page3_checked), [2; 3]))) ↔
  ∃ c, start w_chain_plain 0 (page3_checked, []) = Some c ∧
       rtc (step w_chain_plain) c ([], (show 2 (show 1 page3_checked), [2; 3])).
Proof. apply modifyDependents_machine; [apply wf_w_chain_plain|compute_done]. Defined.

(** The chain of the examples takes two steps. *)
Example machine_chain :
  start w_chain_plain 0 (page3_checked, []) = Some ([2], (page3_checked, [])) ∧
  machine 2 w_chain_plain ([2], (page3_checked, []))
    = ([], (show 2 (show 1 page3_checked), [2; 3])).
Proof. split; vm_compute; reflexivity. Qed.

Lemma trapped_runs_forever_witness :
  (∀ fuel, (modifyDependents fuel w_cycle 0 (page3, [])).1 = Timeout) ∧
  ∃ c, start w_cycle 0 (page3, []) = Some c ∧
       ∀ n, ∃ c', nsteps (step w_cycle) n c c' ∧ c'.1 ≠ [].
Proof.
  apply (trapped_runs_forever w_cycle (λ e, e = 0 ∨ e = 1));
    [apply wf_w_cycle|compute_done| |by left].
  intros e He. by apply w_cycle_edges.
Defined.

Lemma diverges_machine_witness :
  (∀ fuel, (modifyDependents fuel w_cycle 1 (page3, [])).1 = Timeout) ↔
  ∃ c, start w_cycle 1 (page3, []) = Some c ∧ forever w_cycle c.
Proof. apply diverges_machine; [apply wf_w_cycle|compute_done]. Defined.

(** The callbacks are needed.  The store [w_bare] is built by four calls
    that return and is well formed; its two fields are a trap, and the
    machine runs on from a change of the first; the code throws at the first
    Modifier, which has no callback to call. *)
Example callbacks_needed :
  wf w_bare ∧ succeeds bare_script init = true ∧
  (∀ n, modifyDependents (S (S n)) w_bare 0 (page3, [])
        = (Throw TypeError_not_function, (page3, []))) ∧
  ∃ c, start w_bare 0 (page3, []) = Some c ∧ (machine 100 w_bare c).1 ≠ [].
Proof.
  split_and!; [apply perform_all_wf, wf_init|by vm_compute|by intros n; vm_compute|].
  eexists. split; [by vm_compute|by vm_compute].
Qed.
