(* ===== verification/Earlier.v ===== *)
(** * Earlier: the revision of the engine without cascade

    [src/unnamed/part_000] is the engine before the cascade and the
    inheritance were added.  [Module Legacy] translates it, method by
    method, on the records and the store of [Heap]: the two containers, the
    key resolver, the element registry, the constructors, the attachment
    methods, the subscription (called [listen] there), the change handler
    with [getActiveStates], [isActive], [notify] and an [execute] that runs
    the mutation and stops, [createDependency] (no fifth parameter), and the
    public object, which also has [getThat].  Where the code of the two
    revisions is the same text, the definitions are the same terms
    ([legacy_registry_same], [legacy_graph_same], [legacy_reads_same]).  The
    [.bind(self)] after [$element.change(...)] is applied to what [change]
    returns, the host's collection, and binds nothing on the change event;
    [console.log] is not modelled.

    The theorems relate the two revisions: on which stores and names
    [createDependency] is [createRelationship] without inheritance, what a
    change does without cascade, and on which graphs the cascade makes no
    difference. *)

From stdpp Require Import base option list strings numbers.
From S2P Require Import Prelude JsObject Heap Fixture Graph Registry Builder Cascade.

Open Scope string_scope.
Open Scope list_scope.
Open Scope run_scope.

Module Legacy.

(** The own properties of an object built by [new State(...)], besides
    [element] and [callback]. *)
Definition State_members : list string :=
  [ "modifiers"; "notify"; "isActive"; "setElement"; "addModifier" ].

(** The own properties of an object built by [new Modifier(...)], besides
    [element] and [callback]. *)
Definition Modifier_members : list string :=
  [ "states"; "execute"; "setElement"; "listen" ].

Section constructors.
Context `{Host}.

(** [new State(callback)]: [element] is [null], [modifiers] is [[]]. *)
Definition new_State (callback : option Predicate) : run Engine StateId :=
  alloc_state (mkState None callback []).

(** [new Modifier(callback)]: [element] is [null], [states] is [[]]. *)
Definition new_Modifier (callback : option Mutation) : run Engine ModId :=
  alloc_modifier (mkModifier None callback []).

(** [new Element($element)]: the object with empty [states] and
    [modifiers], and the change handler bound on the host reference. *)
Definition new_Element (ref : HostRef) : run Engine ElemId :=
  e <- alloc_element (mkElement ref empty_obj empty_obj) ;;
  modify (set_change_handlers (λ hs, hs ++ [(ref, e)])) ;;
  ret e.

(** [return $element.attr('id')] *)
Definition getElementKey : KeyFn :=
  λ ref dom, default "undefined" (attr_id ref dom).

(** The store after the module has been evaluated. *)
Definition init : Engine := empty_engine getElementKey.

End constructors.

Module statesContainer.
Section methods.
Context `{Host}.

(** [this.states[key] = state] *)
Definition add (key : string) (state : StateId) : run Engine unit :=
  modify (set_statesContainer_states (container_add key state)).

(** [this.states[key]] *)
Definition read (key : string) : run Engine member :=
  λ w, (container_read st_element (λ S, bool_decide (is_Some (st_callback S)))
          State_members (state_heap w) key (statesContainer_states w), w).

(** [var state = this.states[key]; return new State(state.callback)] *)
Definition get (key : string) : run Engine StateId :=
  state <- read key ;;
  callback <- match state with
              | MObject t => S <- read_state t ;; ret (st_callback S)
              | MNull => throw TypeError_null
              | MOther => ret None
              | MUndefined => throw TypeError_undefined
              end ;;
  new_State callback.

End methods.
End statesContainer.

Module modifiersContainer.
Section methods.
Context `{Host}.

(** [this.modifiers[key] = modifier] *)
Definition add (key : string) (modifier : ModId) : run Engine unit :=
  modify (set_modifiersContainer_modifiers (container_add key modifier)).

(** [this.modifiers[key]] *)
Definition read (key : string) : run Engine member :=
  λ w, (container_read md_element (λ M, bool_decide (is_Some (md_callback M)))
          Modifier_members (modifier_heap w) key (modifiersContainer_modifiers w), w).

(** [var modifier = this.modifiers[key]; return new Modifier(modifier.callback)] *)
Definition get (key : string) : run Engine ModId :=
  modifier <- read key ;;
  callback <- match modifier with
              | MObject t => M <- read_modifier t ;; ret (md_callback M)
              | MNull => throw TypeError_null
              | MOther => ret None
              | MUndefined => throw TypeError_undefined
              end ;;
  new_Modifier callback.

End methods.
End modifiersContainer.

Module elementsContainer.
Section methods.
Context `{Host}.

(** [var key = this.getElementKey($element);
     if (this.elements.hasOwnProperty(key)) return this.elements[key];] *)
Definition get (dom : Dom) (ref : HostRef) : run Engine (option ElemId) :=
  key <- gets (λ w, Heap.getElementKey w ref dom) ;;
  elements <- gets elementsContainer_elements ;;
  if has_own "hasOwnProperty" elements then throw TypeError_not_function
  else if has_own key elements then ret (own_get key elements)
  else ret None.

(** [var element = that.get($element);
     if (!element) { var key = that.getElementKey($element);
                     element = new Element($element);
                     that.elements[key] = element; }
     return element;] *)
Definition resolve (dom : Dom) (ref : HostRef) : run Engine ElemId :=
  element <- get dom ref ;;
  match element with
  | Some e => ret e
  | None =>
      key <- gets (λ w, Heap.getElementKey w ref dom) ;;
      e <- new_Element ref ;;
      modify (set_elementsContainer_elements (obj_set key e)) ;;
      ret e
  end.

End methods.
End elementsContainer.

Module State.
Section methods.
Context `{Host}.

(** [this.element = element; return this] *)
Definition setElement (this : StateId) (element : ElemId) : run Engine StateId :=
  update_state this (λ S, mkState (Some element) (st_callback S) (st_modifiers S)) ;;
  ret this.

(** [this.modifiers.push(modifier)] *)
Definition addModifier (this : StateId) (modifier : ModId) : run Engine unit :=
  update_state this (λ S, mkState (st_element S) (st_callback S) (st_modifiers S ++ [modifier])).

End methods.
End State.

Module Modifier.
Section methods.
Context `{Host}.

(** [this.element = element; return this] *)
Definition setElement (this : ModId) (element : ElemId) : run Engine ModId :=
  update_modifier this (λ M, mkModifier (Some element) (md_callback M) (md_states M)) ;;
  ret this.

(** [state.addModifier(this); this.states.push(state)] *)
Definition listen (this : ModId) (state : lookup StateId) : run Engine unit :=
  s <- invoke state (λ s, State.addModifier s this ;; ret s) ;;
  update_modifier this (λ M, mkModifier (md_element M) (md_callback M) (md_states M ++ [s])).

End methods.
End Modifier.

Module Element.
Section methods.
Context `{Host}.

(** [this.states[key] = state.setElement(this)] *)
Definition attachState (this : ElemId) (key : string) (state : StateId) : run Engine unit :=
  s <- State.setElement state this ;;
  update_element this (λ E,
    mkElement (el_element E) (obj_set key s (el_states E)) (el_modifiers E)).

(** [return this.states[key]] *)
Definition getState (this : ElemId) (key : string) : run Engine (lookup StateId) :=
  E <- read_element this ;;
  ret (obj_get key (el_states E)).

(** [this.modifiers[key] = modifier.setElement(this)] *)
Definition attachModifier (this : ElemId) (key : string) (modifier : ModId) : run Engine unit :=
  m <- Modifier.setElement modifier this ;;
  update_element this (λ E,
    mkElement (el_element E) (el_states E) (obj_set key m (el_modifiers E))).

(** [return this.modifiers[key]] *)
Definition getModifier (this : ElemId) (key : string) : run Engine (lookup ModId) :=
  E <- read_element this ;;
  ret (obj_get key (el_modifiers E)).

End methods.
End Element.

(** ** A change *)

Section change.
Context `{Host}.

(** [State.isActive]: [return this.callback(this.element.$element)] *)
Definition isActive (w : Engine) (this : StateId) : run Page bool :=
  S <- deref (state_heap w) this ;;
  element <- or_throw TypeError_null (st_element S) ;;
  E <- deref (element_heap w) element ;;
  callback <- or_throw TypeError_not_function (st_callback S) ;;
  gets (λ p, callback (el_element E) p.1).

(** [Element.getActiveStates]:
    [var activeStates = {};
     for (var i in states)
       if (states[i].hasOwnProperty('isActive') && states[i].isActive())
         activeStates[i] = states[i];
     return activeStates;] *)
Definition getActiveStates (w : Engine) (this : ElemId) : run Page (jsobj StateId) :=
  E <- deref (element_heap w) this ;;
  active <- filter_run (λ kv, isActive w kv.2) (for_in (el_states E)) ;;
  ret (obj_of_assignments active).

(** [Modifier.execute]: [return this.callback(this.element.$element)] *)
Definition execute (w : Engine) (this : ModId) : run Page unit :=
  M <- deref (modifier_heap w) this ;;
  element <- or_throw TypeError_null (md_element M) ;;
  E <- deref (element_heap w) element ;;
  callback <- or_throw TypeError_not_function (md_callback M) ;;
  modify (λ p, (callback (el_element E) p.1, p.2 ++ [this])).

(** [State.notify]:
    [for (var i in this.modifiers) this.modifiers[i].execute();] *)
Definition notify (w : Engine) (this : StateId) : run Page unit :=
  S <- deref (state_heap w) this ;;
  for_each (execute w) (st_modifiers S).

(** The function the constructor of [Element] passes to
    [this.$element.change]:
    [var activeStates = self.getActiveStates();
     for (var i in activeStates)
       if (activeStates[i].hasOwnProperty('notify')) activeStates[i].notify();] *)
Definition handler (w : Engine) (self : ElemId) : run Page unit :=
  activeStates <- getActiveStates w self ;;
  for_each (λ kv, notify w kv.2) (for_in activeStates).

End change.

Module that.
Section methods.
Context `{Host}.

(** [this.createDependency]; [dom] is the page at the time of the call,
    which only the key resolver reads. *)
Definition createDependency (dom : Dom)
    (pubRef : HostRef) (pubStateName : string)
    (subRef : HostRef) (subModifierName : string) : run Engine unit :=
  pubElem <- elementsContainer.resolve dom pubRef ;;
  present <- Element.getState pubElem pubStateName ;;
  (if truthy present then ret tt
   else
     state <- statesContainer.get pubStateName ;;
     Element.attachState pubElem pubStateName state) ;;
  subElem <- elementsContainer.resolve dom subRef ;;
  present <- Element.getModifier subElem subModifierName ;;
  (if truthy present then ret tt
   else
     modifier <- modifiersContainer.get subModifierName ;;
     Element.attachModifier subElem subModifierName modifier) ;;
  pubState <- Element.getState pubElem pubStateName ;;
  subModifier <- Element.getModifier subElem subModifierName ;;
  invoke subModifier (λ m, Modifier.listen m pubState).

End methods.
End that.

(** The object returned by the module. *)
Module FieldDependencies.
Section api.
Context `{Host}.

(** [that.statesContainer.add(name, new State(callback))] *)
Definition addState (name : string) (callback : Predicate) : run Engine unit :=
  state <- new_State (Some callback) ;;
  statesContainer.add name state.

(** [that.modifiersContainer.add(name, new Modifier(callback))] *)
Definition addModifier (name : string) (callback : Mutation) : run Engine unit :=
  modifier <- new_Modifier (Some callback) ;;
  modifiersContainer.add name modifier.

Definition createDependency (dom : Dom)
    (pubRef : HostRef) (pubStateName : string)
    (subRef : HostRef) (subModifierName : string) : run Engine unit :=
  that.createDependency dom pubRef pubStateName subRef subModifierName.

(** [that.getElementKey = callback] *)
Definition setElementKeyCallback (callback : KeyFn) : run Engine unit :=
  modify (set_getElementKey callback).

(** [return [that.elementsContainer, that.statesContainer]]: the registry of
    elements and the State templates, as they are. *)
Definition getThat : run Engine (jsobj ElemId * Templates) :=
  gets (λ w, (elementsContainer_elements w, statesContainer_states w)).

End api.
End FieldDependencies.

Section calls.
Context `{Host}.

(** One call of the public object, with the page at the time of the call. *)
Inductive call : Type :=
| AddState (name : string) (callback : Predicate)
| AddModifier (name : string) (callback : Mutation)
| CreateDependency (dom : Dom) (pubRef : HostRef) (stateName : string)
    (subRef : HostRef) (modifierName : string)
| SetElementKeyCallback (callback : KeyFn)
| GetThat.

Definition perform (c : call) : run Engine unit :=
  match c with
  | AddState name callback => FieldDependencies.addState name callback
  | AddModifier name callback => FieldDependencies.addModifier name callback
  | CreateDependency dom d s p m => FieldDependencies.createDependency dom d s p m
  | SetElementKeyCallback callback => FieldDependencies.setElementKeyCallback callback
  | GetThat => FieldDependencies.getThat ;; ret tt
  end.

(** A script: the calls one after the other, each on the store the previous
    one left, whether it returned or threw. *)
Definition perform_all (cs : list call) (w : Engine) : Engine :=
  foldl (λ w c, (perform c w).2) w cs.

(** The same call on the later revision; [createRelationship] is called
    with four arguments, so that [inheritState] is [undefined]. *)
Definition upgrade (c : call) : list Builder.call :=
  match c with
  | AddState name callback => [Builder.AddState name callback]
  | AddModifier name callback => [Builder.AddModifier name callback]
  | CreateDependency dom d s p m => [Builder.CreateRelationship dom d s p m false]
  | SetElementKeyCallback callback => [Builder.SetElementKeyCallback callback]
  | GetThat => []
  end.

(** The host raises a change on [ref]: the handlers bound on it run in the
    order they were bound. *)
Definition change (w : Engine) (ref : HostRef) : run Page unit :=
  for_each (λ h, if decide (h.1 = ref) then handler w h.2 else ret tt)
    (change_handlers w).

(** The page and the trace after a change on [ref] in page [dom]. *)
Definition on_change (w : Engine) (ref : HostRef) (dom : Dom) : res unit * Page :=
  change w ref (dom, []).

End calls.

End Legacy.

(** ** What decides whether the two revisions read a container alike *)

Section agreement.
Context `{Host}.

(** The names on which a read through a template installed as prototype
    differs between the revisions: the methods that were renamed. *)
Definition renamed_State_members : list string := [ "publish"; "notify" ].
Definition renamed_Modifier_members : list string := [ "subscribe"; "listen" ].

(** The containers of the store. *)
Definition containers (w : Engine) : Templates * Templates :=
  (statesContainer_states w, modifiersContainer_modifiers w).

(** A computation that does not write the containers. *)
Definition same_containers (w w' : Engine) : Prop := containers w' = containers w.

Definition keeps_containers {A} (m : run Engine A) : Prop := preserves same_containers m.

(** The two revisions read the State [sn] and the Modifier [mn] alike. *)
Definition agree (sn mn : string) (c : Templates * Templates) : Prop :=
  (tpl_proto c.1 = None ∨ sn ∉ renamed_State_members) ∧
  (tpl_proto c.2 = None ∨ mn ∉ renamed_Modifier_members).

(** A call of the earlier revision that installs no template as prototype. *)
Definition plain_call (c : Legacy.call) : Prop :=
  match c with
  | Legacy.AddState name _ | Legacy.AddModifier name _ => name ≠ "__proto__"
  | _ => True
  end.

#[export] Instance plain_call_dec c : Decision (plain_call c).
Proof. destruct c; simpl; apply _. Defined.

End agreement.

(** Two fields of [page3] that bump each other, whatever the page: a cycle
    in the graph. *)
Definition w_loop : Engine :=
  Legacy.perform_all
    [ Legacy.AddState "always" always; Legacy.AddModifier "bump" bump;
      Legacy.CreateDependency page3 0 "always" 1 "bump";
      Legacy.CreateDependency page3 1 "always" 0 "bump" ] Legacy.init.

(** The script of [w_loop] with a look at the containers in between. *)
Definition loop_script : list Legacy.call :=
  [ Legacy.AddState "always" always; Legacy.AddModifier "bump" bump;
    Legacy.CreateDependency page3 0 "always" 1 "bump"; Legacy.GetThat;
    Legacy.CreateDependency page3 1 "always" 0 "bump" ].

(** A State template installed as the prototype of its container. *)
Definition w_proto_template : Engine :=
  Legacy.perform_all
    [ Legacy.AddState "__proto__" always; Legacy.AddModifier "show" show ] Legacy.init.

(** ** The code the revisions share *)

Section same_code.
Context `{Host}.

Lemma legacy_registry_same :
  Legacy.new_State = new_State ∧ Legacy.new_Modifier = new_Modifier ∧
  Legacy.new_Element = new_Element ∧ Legacy.getElementKey = default_getElementKey ∧
  Legacy.init = init ∧
  Legacy.statesContainer.add = Registry.statesContainer.add ∧
  Legacy.modifiersContainer.add = Registry.modifiersContainer.add ∧
  Legacy.elementsContainer.get = Registry.elementsContainer.get ∧
  Legacy.elementsContainer.resolve = Registry.elementsContainer.resolve.
Proof. by repeat split. Qed.

Lemma legacy_graph_same :
  Legacy.State.setElement = Graph.State.setElement ∧
  Legacy.State.addModifier = Graph.State.addModifier ∧
  Legacy.Modifier.setElement = Graph.Modifier.setElement ∧
  Legacy.Modifier.listen = Graph.Modifier.subscribe ∧
  Legacy.Element.attachState = Graph.Element.attachState ∧
  Legacy.Element.getState = Graph.Element.getState ∧
  Legacy.Element.attachModifier = Graph.Element.attachModifier ∧
  Legacy.Element.getModifier = Graph.Element.getModifier.
Proof. by repeat split. Qed.

Lemma legacy_reads_same :
  Legacy.isActive = Cascade.isActive ∧ Legacy.getActiveStates = Cascade.getActiveStates.
Proof. by repeat split. Qed.

End same_code.

(** ** A change without cascade *)

Section notify.
Context `{Host}.
Implicit Types (w : Engine) (e : ElemId) (s : StateId) (m : ModId) (p : Page).

(** The methods of the earlier revision are those of the later one with a
    fan-out that does nothing. *)
Lemma execute_eq w m p :
  Legacy.execute w m p = execute_with (λ _, ret tt) w m p.
Proof.
  unfold Legacy.execute, execute_with. by repeat (apply bind_ext; intros ? ?).
Qed.

Lemma notify_eq w s p :
  Legacy.notify w s p = publish_with (λ _, ret tt) w s p.
Proof.
  unfold Legacy.notify, publish_with. apply bind_ext. intros S p'.
  apply for_each_ext. intros. apply execute_eq.
Qed.

Lemma handler_eq w e p :
  Legacy.handler w e p = modifyDependents_with (λ _, ret tt) w e p.
Proof.
  unfold Legacy.handler, modifyDependents_with. apply bind_ext. intros a p'.
  apply for_each_ext. intros. apply notify_eq.
Qed.

(** The handler neither throws nor fails to return in a store that is
    well-formed and has its callbacks. *)
Lemma handler_returns w e :
  wf w → callbacks_ok w → is_Some (element_heap w !! e) →
  yields (λ _, False) False (Legacy.handler w e).
Proof.
  intros Hwf Hcb He p. rewrite handler_eq.
  apply modifyDependents_with_yields; [done..|]. intros ? _. apply yields_ret.
Qed.

(** Without cascade, a change on an element executes the subscribers of
    the States that are active when it starts, State by State and
    subscriber by subscriber, and nothing else, whatever the graph behind
    the subscribers is. *)
Theorem handler_fires w e E p :
  wf w → callbacks_ok w → element_heap w !! e = Some E →
  Legacy.handler w e p = (Ok tt, foldl (fire w) p (fired w E p.1)).
Proof.
  intros Hwf Hcb HE. rewrite handler_eq, (modifyDependents_with_unfold _ _ _ E) by done.
  unfold fired. rewrite foldl_bind.
  apply for_each_foldl. intros kv p' Hkv%active_states_subseteq.
  rewrite publish_with_unfold by by eapply active_valid, (active_is_Some w e E kv p'.1).
  apply for_each_foldl. intros m p'' Hm.
  destruct (subscriber_executable w kv.2 m Hwf Hcb Hm) as (M & e' & E' & cb & HM & He' & HE' & Hc).
  erewrite execute_with_unfold by done.
  unfold fire, mutation. rewrite HM. simpl. rewrite He'. simpl. rewrite HE'. simpl.
  by rewrite Hc.
Qed.

(** C30: the cascade changes nothing where there is nothing to cascade to:
    when the dependents of an element have no dependents of their own, its
    fan-out in the later revision, with fuel for two levels, is the handler
    of the earlier one. *)
Theorem cascade_conservative n w e p :
  wf w → callbacks_ok w → is_Some (element_heap w !! e) →
  (∀ e', e' ∈ dependents w e → dependents w e' = []) →
  modifyDependents (S (S n)) w e p = Legacy.handler w e p.
Proof.
  intros Hwf Hcb He Hleaf. rewrite handler_eq.
  change (modifyDependents (S (S n)) w e p)
    with (modifyDependents_with (modifyDependents (S n) w) w e p).
  apply modifyDependents_with_ext; [done..|]. intros e' p' He'.
  apply fan_out_leaf; eauto using dependents_valid.
Qed.

(** A change of the earlier revision always returns in a well-formed store
    with callbacks, also on a graph with cycles. *)
Lemma change_returns w ref p :
  wf w → callbacks_ok w → ∃ p', Legacy.change w ref p = (Ok tt, p').
Proof.
  intros Hwf Hcb.
  assert (yields (λ _, False) False (Legacy.change w ref)) as Hy.
  { unfold Legacy.change. apply yields_for_each. intros [r e] Hh. simpl.
    case_decide; [|apply yields_ret]. apply handler_returns; [done..|].
    rewrite (wf_handlers _ Hwf) in Hh. apply handlers_of_lookup in Hh as (E & ? & _). eauto. }
  destruct (yields_Ok _ p Hy) as [[] Hp].
  destruct (Legacy.change w ref p) as [r p'] eqn:E. simpl in Hp. subst. eauto.
Qed.

End notify.

(** ** The containers are written by [add] only *)

Section keeps.
Context `{Host}.

#[export] Instance same_containers_preorder : PreOrder same_containers.
Proof. split; [done|]. unfold same_containers. intros w1 w2 w3. congruence. Qed.

Lemma keeps_bind {A B} (m : run Engine A) (k : A → run Engine B) :
  keeps_containers m → (∀ a, keeps_containers (k a)) → keeps_containers (bind m k).
Proof. apply preserves_bind, _. Qed.

Lemma keeps_for_each {A} (f : A → run Engine unit) l :
  (∀ x, keeps_containers (f x)) → keeps_containers (for_each f l).
Proof. apply preserves_for_each, _. Qed.

Lemma keeps_read_element e : keeps_containers (read_element e).
Proof. intros w. unfold read_element. by destruct (element_heap w !! e). Qed.

Lemma keeps_read_state s : keeps_containers (read_state s).
Proof. intros w. unfold read_state. by destruct (state_heap w !! s). Qed.

Lemma keeps_read_modifier m : keeps_containers (read_modifier m).
Proof. intros w. unfold read_modifier. by destruct (modifier_heap w !! m). Qed.

End keeps.

#[export] Hint Resolve keeps_read_element keeps_read_state keeps_read_modifier : fdeps.

(** Proves [keeps_containers m] for a computation built from the methods of
    the engine other than [add]. *)
Ltac solve_keeps :=
  repeat first
    [ solve [auto with fdeps]
    | apply keeps_bind; [|intros ?]
    | apply keeps_for_each; intros ?
    | match goal with
      | |- keeps_containers (if ?b then _ else _) => destruct b
      | |- keeps_containers (match ?x with _ => _ end) => destruct x
      end
    | by intros ? ].

Section keeps_methods.
Context `{Host}.

Lemma keeps_resolve dom ref : keeps_containers (elementsContainer.resolve dom ref).
Proof.
  unfold elementsContainer.resolve, elementsContainer.get, new_Element. solve_keeps.
Qed.

Lemma keeps_getState e key : keeps_containers (Graph.Element.getState e key).
Proof. unfold Graph.Element.getState. solve_keeps. Qed.

Lemma keeps_getModifier e key : keeps_containers (Graph.Element.getModifier e key).
Proof. unfold Graph.Element.getModifier. solve_keeps. Qed.

Lemma keeps_attachState e key s : keeps_containers (Graph.Element.attachState e key s).
Proof.
  unfold Graph.Element.attachState, Graph.State.setElement, update_state, update_element.
  solve_keeps.
Qed.

Lemma keeps_attachModifier e key m :
  keeps_containers (Graph.Element.attachModifier e key m).
Proof.
  unfold Graph.Element.attachModifier, Graph.Modifier.setElement, update_modifier,
    update_element.
  solve_keeps.
Qed.

Lemma keeps_statesContainer_get key : keeps_containers (Registry.statesContainer.get key).
Proof. unfold Registry.statesContainer.get. solve_keeps. Qed.

Lemma keeps_modifiersContainer_get key :
  keeps_containers (Registry.modifiersContainer.get key).
Proof. unfold Registry.modifiersContainer.get. solve_keeps. Qed.

Lemma keeps_subscribe m state : keeps_containers (Graph.Modifier.subscribe m state).
Proof.
  unfold Graph.Modifier.subscribe, invoke, Graph.State.addModifier, update_state,
    update_modifier.
  solve_keeps.
Qed.

End keeps_methods.

#[export] Hint Resolve keeps_resolve keeps_getState keeps_getModifier
  keeps_attachState keeps_attachModifier keeps_statesContainer_get
  keeps_modifiersContainer_get keeps_subscribe : fdeps.

Section agreement_lemmas.
Context `{Host}.
Implicit Types (w : Engine) (φ : Templates * Templates → Prop).

(** The rest of a computation may be replaced by one that does the same
    in every store with the containers [φ] holds of. *)
Lemma bind_keeps {A B} φ (m : run Engine A) (k k' : A → run Engine B) w :
  keeps_containers m → φ (containers w) →
  (∀ a w', φ (containers w') → k a w' = k' a w') →
  bind m k w = bind m k' w.
Proof.
  intros Hm Hφ Hk. unfold bind. specialize (Hm w).
  destruct (m w) as [[a| |] w']; [|done..]. apply Hk. simpl in Hm. by rewrite Hm.
Qed.

Lemma bind_keeps_head {A B} φ (m m' : run Engine A) (k k' : A → run Engine B) w :
  m w = m' w → keeps_containers m' → φ (containers w) →
  (∀ a w', φ (containers w') → k a w' = k' a w') →
  bind m k w = bind m' k' w.
Proof.
  intros Hmm Hm Hφ Hk. transitivity (bind m' k w); [|by eapply bind_keeps].
  unfold bind. by rewrite Hmm.
Qed.

(** A read of a container consults the member list only through a template
    installed as prototype. *)
Lemma container_read_agree {T} owner has_callback members members'
    (heap : list T) key c :
  tpl_proto c = None ∨ (key ∈ members ↔ key ∈ members') →
  container_read owner has_callback members heap key c =
  container_read owner has_callback members' heap key c.
Proof.
  intros Hc. unfold container_read. destruct (own_get key (tpl_own c)); [done|].
  destruct (tpl_proto c) as [t|]; [|done]. destruct Hc as [|Hc]; [done|].
  case_decide; [done|]. destruct (heap !! t); [|done]. unfold proto_read.
  by rewrite (bool_decide_ext _ _ Hc).
Qed.

Lemma statesContainer_get_agree sn mn w :
  agree sn mn (containers w) →
  Legacy.statesContainer.get sn w = Registry.statesContainer.get sn w.
Proof.
  intros [Hs _]. unfold Legacy.statesContainer.get, Registry.statesContainer.get.
  unfold bind at 1 3. unfold Legacy.statesContainer.read, Registry.statesContainer.read.
  rewrite (container_read_agree _ _ Legacy.State_members State_members); [done|].
  destruct Hs as [|Hs]; [by left|right].
  unfold renamed_State_members, Legacy.State_members, State_members in *.
  rewrite !elem_of_cons, !elem_of_nil in *. naive_solver.
Qed.

Lemma modifiersContainer_get_agree sn mn w :
  agree sn mn (containers w) →
  Legacy.modifiersContainer.get mn w = Registry.modifiersContainer.get mn w.
Proof.
  intros [_ Hm]. unfold Legacy.modifiersContainer.get, Registry.modifiersContainer.get.
  unfold bind at 1 3. unfold Legacy.modifiersContainer.read, Registry.modifiersContainer.read.
  rewrite (container_read_agree _ _ Legacy.Modifier_members Modifier_members); [done|].
  destruct Hm as [|Hm]; [by left|right].
  unfold renamed_Modifier_members, Legacy.Modifier_members, Modifier_members in *.
  rewrite !elem_of_cons, !elem_of_nil in *. naive_solver.
Qed.

(** [createDependency] on the names the revisions read alike. *)
Lemma createDependency_eq dom a sn b mn w :
  agree sn mn (containers w) →
  Legacy.that.createDependency dom a sn b mn w =
  Builder.that.createRelationship dom a sn b mn false w.
Proof.
  intros Hag. unfold Legacy.that.createDependency, Builder.that.createRelationship.
  apply (bind_keeps (agree sn mn)); [apply keeps_resolve|done|]. intros dE w1 H1.
  apply (bind_keeps (agree sn mn)); [apply keeps_getState|done|]. intros present w2 H2.
  apply (bind_keeps_head (agree sn mn)); [| |done|].
  { destruct (truthy present); [done|]. unfold bind at 1 2.
    by rewrite (statesContainer_get_agree sn mn). }
  { destruct (truthy present); [done|].
    apply keeps_bind; [apply keeps_statesContainer_get|]. intros ?. apply keeps_attachState. }
  intros _ w3 H3.
  apply (bind_keeps (agree sn mn)); [apply keeps_resolve|done|]. intros pE w4 H4.
  apply (bind_keeps (agree sn mn)); [apply keeps_getModifier|done|]. intros present' w5 H5.
  apply (bind_keeps_head (agree sn mn)); [| |done|].
  { destruct (truthy present'); [done|]. unfold bind at 1 2.
    by rewrite (modifiersContainer_get_agree sn mn). }
  { destruct (truthy present'); [done|].
    apply keeps_bind; [apply keeps_modifiersContainer_get|]. intros ?.
    apply keeps_attachModifier. }
  intros _ w6 H6.
  apply bind_ext. intros pubState w7. apply bind_ext. intros subModifier w8.
  symmetry. apply (bind_ret_tt (invoke subModifier (λ m, Graph.Modifier.subscribe m pubState))).
Qed.

Lemma keeps_createRelationship dom a sn b mn :
  keeps_containers (Builder.that.createRelationship dom a sn b mn false).
Proof. unfold Builder.that.createRelationship, invoke. solve_keeps. Qed.

Lemma keeps_plain {A} (m : run Engine A) w :
  keeps_containers m → plain w → plain (m w).2.
Proof.
  intros Hm Hw. specialize (Hm w). unfold plain.
  change (tpl_proto (containers (m w).2).1 = None ∧ tpl_proto (containers (m w).2).2 = None).
  by rewrite Hm.
Qed.

Lemma plain_agree sn mn w : plain w → agree sn mn (containers w).
Proof. intros [? ?]. split; by left. Qed.

(** One call of the earlier revision is the call of the later one. *)
Lemma perform_upgrade c w :
  plain w → (Legacy.perform c w).2 = Builder.perform_all (Legacy.upgrade c) w.
Proof.
  intros Hw. destruct c as [name cb|name cb|dom d sn p mn|cb|]; try done. simpl.
  unfold Legacy.FieldDependencies.createDependency, Builder.FieldDependencies.createRelationship.
  by rewrite createDependency_eq by by apply plain_agree.
Qed.

Lemma plain_perform c w : plain_call c → plain w → plain (Legacy.perform c w).2.
Proof.
  intros Hc Hw. destruct c as [name cb|name cb|dom d sn p mn|cb|]; try done.
  - destruct Hw. split; [|done]. simpl in *. unfold container_add. by rewrite decide_False.
  - destruct Hw. split; [done|]. simpl in *. unfold container_add. by rewrite decide_False.
  - rewrite perform_upgrade by done.
    apply (keeps_plain (Builder.that.createRelationship dom d sn p mn false));
      [apply keeps_createRelationship|done].
Qed.

(** From a store without prototype templates, a script that installs none
    builds what its upgrade builds. *)
Lemma perform_all_upgrade (cs : list Legacy.call) w :
  plain w → Forall plain_call cs →
  Legacy.perform_all cs w = Builder.perform_all (cs ≫= Legacy.upgrade) w.
Proof.
  intros Hw Hcs. revert w Hw. induction Hcs as [|c cs Hc _ IH]; intros w Hw; [done|].
  change (Legacy.perform_all cs (Legacy.perform c w).2 =
          Builder.perform_all (Legacy.upgrade c ++ (cs ≫= Legacy.upgrade)) w).
  rewrite perform_all_app, <- perform_upgrade by done. by apply IH, plain_perform.
Qed.

Lemma upgrade_plain (cs : list Legacy.call) :
  Forall plain_call cs → Forall Builder.plain_call (cs ≫= Legacy.upgrade).
Proof.
  intros Hcs. apply Forall_bind. induction Hcs as [|c cs Hc _ IH]; constructor; [|done].
  destruct c; repeat constructor; done.
Qed.

(** C29: a script of the earlier revision that registers no template named
    [__proto__] builds, call by call, the store that the same script builds
    on the later revision, where [createDependency] is [createRelationship]
    with four arguments and [getThat] is left out. *)
Theorem script_upgrade (cs : list Legacy.call) :
  Forall plain_call cs →
  Legacy.perform_all cs Legacy.init = Builder.perform_all (cs ≫= Legacy.upgrade) init.
Proof. apply perform_all_upgrade, callable_init. Qed.

(** After any such script, whether its calls returned or threw, a change
    on any host reference returns, on every page and also when the
    dependencies form a cycle: the earlier revision cannot recurse. *)
Theorem legacy_change_returns (cs : list Legacy.call) ref dom :
  Forall plain_call cs →
  ∃ p, Legacy.on_change (Legacy.perform_all cs Legacy.init) ref dom = (Ok tt, p).
Proof.
  intros Hcs. rewrite perform_all_upgrade by (done || apply callable_init).
  apply change_returns; [apply perform_all_wf, wf_init|].
  by apply (callable_perform_all _ init (upgrade_plain cs Hcs) callable_init).
Qed.

End agreement_lemmas.

(** ** The examples *)

Lemma wf_w_loop : wf w_loop.
Proof.
  unfold w_loop. rewrite perform_all_upgrade by (apply callable_init || compute_done).
  apply perform_all_wf, wf_init.
Qed.

Lemma script_upgrade_witness :
  Legacy.perform_all loop_script Legacy.init =
  Builder.perform_all (loop_script ≫= Legacy.upgrade) init.
Proof. apply script_upgrade. compute_done. Defined.

Lemma legacy_change_returns_witness :
  ∃ p, Legacy.on_change (Legacy.perform_all loop_script Legacy.init) 0 page3 = (Ok tt, p).
Proof. apply legacy_change_returns. compute_done. Defined.

Lemma handler_fires_witness :
  Legacy.handler w_loop 0 (page3, []) =
    (Ok tt, foldl (fire w_loop) (page3, [])
              (fired w_loop (mkElement (H:=page_host) 0 [("always", 1)] [("bump", 2)]) page3)).
Proof. apply handler_fires; [apply wf_w_loop|compute_done|reflexivity]. Defined.

Lemma cascade_conservative_witness :
  modifyDependents 2 w_show 0 (page3_checked, []) =
  Legacy.handler w_show 0 (page3_checked, []).
Proof.
  apply cascade_conservative; [apply wf_w_show|compute_done|by eexists|].
  intros e' He'. vm_compute in He'. by apply list_elem_of_singleton in He' as ->.
Defined.

(** The chain needs the cascade.  Field 0 is ticked; in the earlier
    revision the change shows field 1 and stops, in the later one the
    Modifier of field 1 fans out and field 2 is shown as well. *)
Example chain_needs_cascade :
  (Legacy.on_change w_chain_plain 0 page3_checked).1 = Ok tt ∧
  (Legacy.on_change w_chain_plain 0 page3_checked).2.2 = [2] ∧
  (on_change 3 w_chain_plain 0 page3_checked).1 = Ok tt ∧
  (on_change 3 w_chain_plain 0 page3_checked).2.2 = [2; 3].
Proof. repeat split; vm_compute; reflexivity. Qed.

(** The revisions differ on the renamed methods.  Behind a State
    template installed as prototype, the earlier revision finds [notify] and
    not [publish], the later one [publish] and not [notify]: one accepts the
    name and attaches a State without predicate, the other throws. *)
Example renamed_member_differs :
  outcome (Legacy.that.createDependency page3 0 "notify" 1 "show") w_proto_template = Ok tt ∧
  outcome (Builder.that.createRelationship page3 0 "notify" 1 "show" false) w_proto_template
    = Throw TypeError_undefined ∧
  outcome (Legacy.that.createDependency page3 0 "publish" 1 "show") w_proto_template
    = Throw TypeError_undefined ∧
  outcome (Builder.that.createRelationship page3 0 "publish" 1 "show" false) w_proto_template
    = Ok tt.
Proof. repeat split; vm_compute; reflexivity. Qed.
