(* ===== verification/Chain.v ===== *)
(** * Chain: a cascade of any depth

    [Cascade] proves the cascade for one relationship and for a chain of
    two.  This file proves it for a chain of any length: fields [a 0], [a 1],
    ..., [a n] with different keys, each depending on the State [sn] of the
    one before through the Modifier [mn].  The store such a script builds is
    given in closed form ([chain_store]); a change of the first field
    walks down the chain for as long as the predicate holds of the field it
    has just mutated ([chain_run]), within the one change, in order, each
    Modifier once. *)

From stdpp Require Import base option list strings numbers.
From S2P Require Import Prelude JsObject Heap Fixture Graph Registry Builder Cascade.

Open Scope string_scope.
Open Scope list_scope.
Open Scope run_scope.

Section chain_definitions.
Context `{Host}.
Context (sn mn : string) (pred : Predicate) (mut : Mutation) (dom : Dom).
Context (a : nat → HostRef).

(** The relationships of the chain: field [i + 1] depends on field [i]. *)
Definition links (n : nat) : list call :=
  (λ i, CreateRelationship dom (a i) sn (a (S i)) mn false) <$> seq 0 n.

(** The script: the two templates, then [n] relationships. *)
Definition chain_script (n : nat) : list call :=
  [AddState sn pred; AddModifier mn mut] ++ links n.

(** Element [i] of a chain of [n] relationships: every field but the last
    has the State, every field but the first the Modifier. *)
Definition chain_element (n i : nat) : Element :=
  mkElement (a i) (if decide (i < n)%nat then [(sn, S i)] else [])
    (if decide (0 < i)%nat then [(mn, i)] else []).

(** The registry of the fields [a 0], ..., [a n]. *)
Definition chain_registry (n : nat) : jsobj ElemId :=
  foldl (λ o i, obj_set (default_getElementKey (a i) dom) i o) empty_obj (seq 0 (S n)).

(** The store of a chain of [n] relationships, [0 < n]: the State of field
    [i] is instance [i + 1], with the Modifier [i + 1] of field [i + 1] as its
    only subscriber; the templates are at reference 0. *)
Definition chain_store (n : nat) : Engine :=
  mkEngine (mkTemplates [(sn, 0)] None) (mkTemplates [(mn, 0)] None) default_getElementKey
    (chain_registry n)
    (chain_element n <$> seq 0 (S n))
    (mkState None (Some pred) [] ::
       ((λ i, mkState (Some i) (Some pred) [S i]) <$> seq 0 n))
    (mkModifier None (Some mut) [] ::
       ((λ i, mkModifier (Some (S i)) (Some mut) [S i]) <$> seq 0 n))
    ((λ i, (a i, i)) <$> seq 0 (S n)).

(** What a change does on a chain, from field [i] with [k] relationships
    below it: when the predicate holds of field [i], the next field is
    mutated and the walk goes on from there on the page as it is then. *)
Fixpoint chain_run (k i : nat) (p : Page) : Page :=
  match k with
  | 0 => p
  | S k' =>
      if pred (a i) p.1 then chain_run k' (S i) (mut (a (S i)) p.1, p.2 ++ [S i])
      else p
  end.

(** The page after the Modifiers of the fields [i + 1], ..., [i + j] were
    executed in this order. *)
Definition mutated (i j : nat) (d : Dom) : Dom :=
  foldl (λ d x, mut (a x) d) d (seq (S i) j).

End chain_definitions.

(** ** The store of a chain *)

Section chain_store.
Context `{Host}.
Context (sn mn : string) (pred : Predicate) (mut : Mutation) (dom : Dom).
Context (a : nat → HostRef).
Context (Hsn : inherited sn = false) (Hmn : inherited mn = false).
Context (N : nat).
Context (Hkey : ∀ i, (i ≤ N)%nat → inherited (default_getElementKey (a i) dom) = false).
Context (Hinj : ∀ i j, (i ≤ N)%nat → (j ≤ N)%nat →
                default_getElementKey (a i) dom = default_getElementKey (a j) dom → i = j).

Abbreviation key i := (default_getElementKey (a i) dom).
Abbreviation store := (chain_store sn mn pred mut dom a).
Abbreviation element := (chain_element sn mn a).
Abbreviation registry := (chain_registry dom a).

Lemma chain_registry_S n : registry (S n) = obj_set (key (S n)) (S n) (registry n).
Proof. unfold chain_registry. by rewrite (seq_S (S n)), foldl_app. Qed.

Lemma chain_registry_miss n k : (∀ i, (i ≤ n)%nat → key i ≠ k) → own_get k (registry n) = None.
Proof.
  induction n as [|n IH]; intros Hk.
  - unfold chain_registry. simpl. rewrite own_get_set_ne; [done|]. apply Hk. lia.
  - rewrite chain_registry_S, own_get_set_ne by (apply Hk; lia). apply IH. intros; apply Hk. lia.
Qed.

Lemma chain_registry_hit n i :
  (i ≤ n ≤ N)%nat → own_get (key i) (registry n) = Some i.
Proof.
  pose proof (λ j Hj, proj1 (inherited_false_ne _ (Hkey j Hj))) as Hproto.
  induction n as [|n IH]; intros Hi.
  - replace i with 0 by lia. unfold chain_registry. simpl. apply own_get_set_eq, Hproto. lia.
  - rewrite chain_registry_S. destruct (decide (i = S n)) as [->|Hne].
    + apply own_get_set_eq, Hproto. lia.
    + rewrite own_get_set_ne; [apply IH; lia|]. intros Heq%Hinj; lia.
Qed.

Lemma chain_not_poisoned n : (n ≤ N)%nat → ¬ poisoned (store n).
Proof.
  intros Hn. unfold poisoned. simpl. rewrite Bool.not_true_iff_false. apply has_own_false.
  apply chain_registry_miss. intros i Hi Heq.
  pose proof (Hkey i ltac:(lia)) as Hk. by rewrite Heq in Hk.
Qed.

Lemma chain_element_lookup n i :
  (i ≤ n)%nat → element_heap (store n) !! i = Some (element n i).
Proof.
  intros Hi. unfold chain_store. cbn [element_heap].
  by rewrite list_lookup_fmap, lookup_seq_lt by lia.
Qed.

Lemma chain_state_lookup n i :
  (i < n)%nat → state_heap (store n) !! S i = Some (mkState (Some i) (Some pred) [S i]).
Proof.
  intros Hi. unfold chain_store. cbn [state_heap]. rewrite lookup_cons_ne_0 by done.
  by rewrite list_lookup_fmap, lookup_seq_lt by lia.
Qed.

Lemma chain_modifier_lookup n i :
  (i < n)%nat →
  modifier_heap (store n) !! S i = Some (mkModifier (Some (S i)) (Some mut) [S i]).
Proof.
  intros Hi. unfold chain_store. cbn [modifier_heap]. rewrite lookup_cons_ne_0 by done.
  by rewrite list_lookup_fmap, lookup_seq_lt by lia.
Qed.

(** The elements of a chain one relationship longer: the last field is
    given the State, and a field is added. *)
Lemma chain_elements_S n :
  <[S n := mkElement (a (S n)) [(sn, S (S n))] [(mn, S n)]]> (element (S n) <$> seq 0 (S (S n)))
    ++ [mkElement (a (S (S n))) [] [(mn, S (S n))]] =
  element (S (S n)) <$> seq 0 (S (S (S n))).
Proof.
  rewrite (seq_S (S (S n))), (seq_S (S n)), !fmap_app, !fmap_cons, !fmap_nil, !Nat.add_0_l.
  replace (S n) with (length (element (S n) <$> seq 0 (S n))) at 1
    by by rewrite length_fmap, length_seq.
  rewrite insert_snoc. f_equal; [f_equal|].
  - apply list_fmap_ext. intros j i [-> Hi]%lookup_seq. unfold chain_element.
    repeat case_decide; done || lia.
  - unfold chain_element. repeat case_decide; done || lia.
  - unfold chain_element. repeat case_decide; done || lia.
Qed.

(** One more relationship at the end of the chain. *)
Lemma chain_step n :
  (S (S n) ≤ N)%nat →
  that.createRelationship dom (a (S n)) sn (a (S (S n))) mn false (store (S n)) =
    (Ok tt, store (S (S n))).
Proof.
  intros Hn. rewrite (createRelationship_onto _ dom (a (S n)) (S n) (element (S n) (S n)) sn
             (a (S (S n))) mn 0 (mkState None (Some pred) []) 0 (mkModifier None (Some mut) [])).
  - f_equal. unfold linked_onto, chain_store.
    cbn [statesContainer_states modifiersContainer_modifiers getElementKey
         elementsContainer_elements element_heap state_heap modifier_heap change_handlers
         st_callback md_callback].
    rewrite !length_cons, !length_fmap, !length_seq.
    f_equal.
    + symmetry. apply chain_registry_S.
    + rewrite <- chain_elements_S. do 3 f_equal. unfold chain_element.
      rewrite decide_False, decide_True by lia. cbn [el_element el_states el_modifiers].
      f_equal. unfold obj_set. by rewrite decide_False by by intros ->.
    + by rewrite (seq_S (S n)), fmap_app.
    + by rewrite (seq_S (S n)), fmap_app.
    + by rewrite (seq_S (S (S n))), fmap_app.
  - apply chain_not_poisoned. lia.
  - apply chain_registry_hit. lia.
  - apply chain_element_lookup. lia.
  - unfold chain_element. rewrite decide_False by lia. by apply obj_get_empty.
  - apply chain_registry_miss. intros i Hi Heq%Hinj; lia.
  - done.
  - simpl. by rewrite decide_True.
  - done.
  - simpl. by rewrite decide_True.
  - done.
Qed.

(** The store of the script. *)
Lemma chain_script_store n :
  (S n ≤ N)%nat → perform_all (chain_script sn mn pred mut dom a (S n)) init = store (S n).
Proof.
  induction n as [|n IH]; intros Hn.
  - change (chain_script sn mn pred mut dom a 1)
      with [AddState sn pred; AddModifier mn mut; CreateRelationship dom (a 0) sn (a 1) mn false].
    rewrite first_relationship_store
      by (try done; (apply Hkey; lia) || (intros ?%Hinj; lia)).
    destruct (inherited_false_ne _ Hsn), (inherited_false_ne _ Hmn).
    unfold linked_fresh, chain_store, perform_all. simpl. unfold container_add.
    by rewrite !decide_False by done.
  - unfold chain_script, links in *.
    rewrite (seq_S (S n)), fmap_app, fmap_cons, fmap_nil, app_assoc, perform_all_snoc, IH
      by lia.
    simpl. unfold FieldDependencies.createRelationship. by rewrite chain_step.
Qed.

Lemma chain_wf n : (S n ≤ N)%nat → wf (store (S n)).
Proof. intros Hn. rewrite <- chain_script_store by done. apply perform_all_wf, wf_init. Qed.

Lemma chain_callbacks_ok n : (S n ≤ N)%nat → callbacks_ok (store (S n)).
Proof.
  intros Hn. rewrite <- chain_script_store by done. apply callable_perform_all; [|apply callable_init].
  destruct (inherited_false_ne _ Hsn), (inherited_false_ne _ Hmn).
  unfold chain_script, links. rewrite Forall_app, Forall_fmap. split; [by repeat constructor|].
  by apply Forall_true.
Qed.

(** ** The cascade down the chain *)

Lemma chain_active n i d :
  (i < S n)%nat → active (store (S n)) (S i) d = Some (pred (a i) d).
Proof.
  intros Hi. unfold active. rewrite chain_state_lookup by done. cbn -[chain_store].
  by rewrite chain_element_lookup by lia.
Qed.

Lemma chain_fire n i p :
  (i < S n)%nat → fire (store (S n)) p (S i) = (mut (a (S i)) p.1, p.2 ++ [S i]).
Proof.
  intros Hi. unfold fire, mutation. rewrite chain_modifier_lookup by done. cbn -[chain_store].
  by rewrite chain_element_lookup by lia.
Qed.

(** The fan-out of field [i], with [k] relationships below it. *)
Lemma chain_walk n k i (fuel : nat) p :
  (S n ≤ N)%nat → i + k = S n → (k < fuel)%nat →
  modifyDependents fuel (store (S n)) i p = (Ok tt, chain_run pred mut a k i p).
Proof.
  intros Hn. pose proof (chain_wf n Hn). pose proof (chain_callbacks_ok n Hn).
  revert i fuel p. induction k as [|k IH]; intros i fuel p Hi Hf;
    (destruct fuel as [|fuel]; [lia|]).
  - apply (fan_out_inactive _ _ _ (element (S n) i)); [done..|apply chain_element_lookup; lia|].
    unfold chain_element. rewrite decide_False by lia. by intros kv ?%elem_of_nil.
  - rewrite (fan_out_single _ _ i (element (S n) i) sn (S i));
      [|done..|apply chain_element_lookup; lia|
       unfold chain_element; by rewrite decide_True by lia].
    rewrite chain_active by lia. cbn [chain_run].
    destruct (pred (a i) p.1); [rewrite decide_True by done|by rewrite decide_False].
    replace (subscribers (store (S n)) (S i)) with [S i]
      by (unfold subscribers; by rewrite chain_state_lookup by lia).
    rewrite for_each_singleton, (execute_unfold _ _ _ (S i));
      [|done..|unfold owner; by rewrite chain_modifier_lookup by lia].
    rewrite chain_fire by lia. apply IH; lia.
Qed.

(** Only the first field listens on the first host reference. *)
Lemma chain_listeners n : (S n ≤ N)%nat → listeners (store (S n)) (a 0) = [0].
Proof.
  intros Hn. unfold listeners, chain_store. cbn [change_handlers].
  change (seq 0 (S (S n))) with (0 :: seq 1 (S n)).
  rewrite fmap_cons, filter_cons_True by done. cbn [fmap list_fmap snd]. f_equal.
  rewrite filter_none; [done|]. intros h (i & -> & Hi%elem_of_seq)%list_elem_of_fmap.
  simpl. intros Heq. apply (f_equal (λ r, default_getElementKey r dom)), Hinj in Heq; lia.
Qed.

(** The walk, without recursion: it executes the Modifiers of the next [j]
    fields, each once and in the order of the chain; the predicate held of
    each field when its turn came, and it does not hold of the field at
    which the walk stopped before the end. *)
Lemma chain_run_spec k i p :
  ∃ j, (j ≤ k)%nat ∧
       chain_run pred mut a k i p = (mutated mut a i j p.1, p.2 ++ seq (S i) j) ∧
       (∀ l, (l < j)%nat → pred (a (i + l)) (mutated mut a i l p.1) = true) ∧
       ((j < k)%nat → pred (a (i + j)) (mutated mut a i j p.1) = false).
Proof.
  revert i p. induction k as [|k IH]; intros i [d tr].
  { exists 0. split_and!; [done|by rewrite app_nil_r|lia..]. }
  cbn [chain_run fst snd]. destruct (pred (a i) d) eqn:Hp.
  - destruct (IH (S i) (mut (a (S i)) d, tr ++ [S i])) as (j & Hj & -> & Hon & Hoff).
    cbn [fst snd] in *. exists (S j). split_and!; [lia|by rewrite <- app_assoc|..].
    + intros [|l] Hl; [by rewrite Nat.add_0_r|].
      replace (i + S l) with (S i + l) by lia. apply Hon. lia.
    + intros Hl. replace (i + S j) with (S i + j) by lia. apply Hoff. lia.
  - exists 0. split_and!; [lia|by rewrite app_nil_r|lia|]. intros _. by rewrite Nat.add_0_r.
Qed.

(** A change of the first field is the walk from it. *)
Lemma chain_change n fuel dom' :
  (S n ≤ N)%nat →
  on_change (S (S n) + fuel) (perform_all (chain_script sn mn pred mut dom a (S n)) init)
    (a 0) dom' =
  (Ok tt, chain_run pred mut a (S n) 0 (dom', [])).
Proof.
  intros Hn. unfold on_change.
  rewrite chain_script_store, change_fans_out, chain_listeners, for_each_singleton by done.
  apply chain_walk; [done|lia..].
Qed.

(** C12: the cascade, for a chain of any length.  After the State and the
    Modifier were registered and field [i + 1] was made to depend on field
    [i], for the fields [a 0], ..., [a (n + 1)] with different keys: a
    change of the first field executes the Modifiers of the fields [a 1],
    ..., [a j], each once and in this order, within the one change, where
    [j] is the first field of which the predicate does not hold when its turn
    comes (on the page as the mutations before left it), or the end of the
    chain.  Nothing else is executed, and fuel [n + 2] is enough. *)
Theorem chain_cascade n fuel dom' :
  (S n ≤ N)%nat →
  ∃ j, (j ≤ S n)%nat ∧
       on_change (S (S n) + fuel)
         (perform_all (chain_script sn mn pred mut dom a (S n)) init) (a 0) dom' =
       (Ok tt, (mutated mut a 0 j dom', seq 1 j)) ∧
       (∀ l, (l < j)%nat → pred (a l) (mutated mut a 0 l dom') = true) ∧
       ((j < S n)%nat → pred (a j) (mutated mut a 0 j dom') = false).
Proof.
  intros Hn. rewrite chain_change by done.
  destruct (chain_run_spec (S n) 0 (dom', [])) as (j & Hj & -> & Hon & Hoff). eauto.
Qed.

End chain_store.

(** ** Examples *)

(** Four fields, each shown when the one before is visible. *)
Lemma chain_keys_plain i :
  (i ≤ 3)%nat → inherited (default_getElementKey (id i) (fresh_page 4)) = false.
Proof. intros Hi. do 4 (destruct i as [|i]; [by vm_compute|]). lia. Qed.

Lemma chain_keys_differ i j :
  (i ≤ 3)%nat → (j ≤ 3)%nat →
  default_getElementKey (id i) (fresh_page 4) = default_getElementKey (id j) (fresh_page 4) →
  i = j.
Proof.
  intros Hi Hj.
  do 4 (destruct i as [|i]; [do 4 (destruct j as [|j]; [by vm_compute|]); lia|]). lia.
Qed.

Lemma chain_cascade_witness :
  ∃ j, (j ≤ 3)%nat ∧
       on_change 5 (perform_all (chain_script "visible" "show" visible show
                                   (fresh_page 4) id 3) init)
         0 (show 0 (fresh_page 4)) =
       (Ok tt, (mutated show id 0 j (show 0 (fresh_page 4)), seq 1 j)) ∧
       (∀ l, (l < j)%nat → visible l (mutated show id 0 l (show 0 (fresh_page 4))) = true) ∧
       ((j < 3)%nat → visible j (mutated show id 0 j (show 0 (fresh_page 4))) = false).
Proof.
  apply (chain_cascade "visible" "show" visible show (fresh_page 4) id eq_refl eq_refl 3
           chain_keys_plain chain_keys_differ 2 1).
  lia.
Defined.

(** All four are visible after one change of the first. *)
Example chain_of_four :
  on_change 5 (perform_all (chain_script "visible" "show" visible show (fresh_page 4) id 3) init)
    0 (show 0 (fresh_page 4)) =
  (Ok tt, ((λ i, mkNode (Some (field_name i)) false true 0) <$> seq 0 4, [1; 2; 3])).
Proof. vm_compute. reflexivity. Qed.
