(* ===== verification/Session.v ===== *)
(** * Session: the library on a live page

    The library is used in two phases that the host interleaves freely: client
    code calls the public object ([addState], [addModifier],
    [createRelationship], [setElementKeyCallback]), and the host raises
    change events, which run the handlers that [new Element] bound with
    [this.$element.change(modifyDependents)].  Between the two the page is
    altered, by the user or by other scripts.

    This file composes [Builder] and [Cascade] into that loop.  A session is
    the store of the library, the page, and the Modifiers executed so far; an
    event is a call, an alteration of the page or a change raised on a host
    reference.  [handle] is one turn of the loop, with the fuel of the
    cascade; [play] is a sequence of turns.  [turn] is the same without fuel,
    as a relation built on the one of [Semantics]: a change whose cascade
    never returns has no turn.

    The event dispatch itself is the host's (jQuery): it is modelled from the
    collaborator contract of the specification, one handler call per bound
    handler of the reference, in the order of binding, no payload. *)

From stdpp Require Import base option list strings numbers.
From S2P Require Import Prelude JsObject Heap Fixture Graph Registry Builder Bounds Cascade Semantics.

Open Scope string_scope.
Open Scope list_scope.
Open Scope run_scope.

Section session.
Context `{Host}.

(** What happens on a page that has loaded the library. *)
Inductive event : Type :=
| Setup (c : call)
    (** client code calls the public object *)
| Alter (edit : Dom → Dom)
    (** the page is altered and no change is raised: the user edits a field,
        a script sets a value *)
| Trigger (ref : HostRef).
    (** the host raises a change on [ref] *)

(** The library and the page it lives on. *)
Record Session : Type := mkSession {
  engine : Engine;
  page : Dom;
  executed : list ModId;
}.

(** The page [dom] has just loaded the library. *)
Definition opened (dom : Dom) : Session := mkSession init dom [].

(** The call [c], made while the page is [dom]: the host references of a
    relationship are read on the page of the moment. *)
Definition at_page (dom : Dom) (c : call) : call :=
  match c with
  | CreateRelationship _ d s p m i => CreateRelationship dom d s p m i
  | _ => c
  end.

(** One turn of the event loop.  A call changes the store and neither the
    page nor the trace; a change runs the handlers of the reference on the
    store as it is, and what they did before an exception stays done. *)
Definition handle (fuel : nat) (ev : event) : run Session unit :=
  λ s,
    match ev with
    | Setup c =>
        let '(r, w) := perform (at_page (page s) c) (engine s) in
        (r, mkSession w (page s) (executed s))
    | Alter edit => (Ok tt, mkSession (engine s) (edit (page s)) (executed s))
    | Trigger ref =>
        let '(r, p) := change fuel (engine s) ref (page s, executed s) in
        (r, mkSession (engine s) p.1 p.2)
    end.

(** The session after the events [evs]: an exception ends the turn, not the
    session. *)
Definition play (fuel : nat) (evs : list event) (s : Session) : Session :=
  foldl (λ s ev, final (handle fuel ev) s) s evs.

(** The outcomes of the turns. *)
Fixpoint outcomes (fuel : nat) (evs : list event) (s : Session) : list (res unit) :=
  match evs with
  | [] => []
  | ev :: evs' =>
      outcome (handle fuel ev) s :: outcomes fuel evs' (final (handle fuel ev) s)
  end.

(** An event that installs no template as the prototype of a container. *)
Definition plain_event (ev : event) : Prop :=
  match ev with
  | Setup c => plain_call c
  | _ => True
  end.

#[export] Instance plain_event_dec ev : Decision (plain_event ev).
Proof. destruct ev; simpl; apply _. Defined.

(** The calls of a session. *)
Definition setups (evs : list event) : list call :=
  omap (λ ev, match ev with Setup c => Some c | _ => None end) evs.

(** ** The loop without fuel *)

(** The handlers of the elements of [l], one after the other, lead from
    [p] to [p']. *)
Inductive cascades (w : Engine) : list ElemId → Page → Page → Prop :=
| cascades_nil p : cascades w [] p p
| cascades_cons e l p p1 p2 :
    cascade w e p p1 → cascades w l p1 p2 → cascades w (e :: l) p p2.

(** One turn that ends. *)
Inductive turn : Session → event → Session → Prop :=
| turn_setup s c :
    turn s (Setup c)
      (mkSession (final (perform (at_page (page s) c)) (engine s)) (page s) (executed s))
| turn_alter s edit :
    turn s (Alter edit) (mkSession (engine s) (edit (page s)) (executed s))
| turn_trigger s ref p' :
    cascades (engine s) (listeners (engine s) ref) (page s, executed s) p' →
    turn s (Trigger ref) (mkSession (engine s) p'.1 p'.2).

(** A sequence of turns that end. *)
Inductive turns : Session → list event → Session → Prop :=
| turns_nil s : turns s [] s
| turns_cons s ev s1 evs s2 :
    turn s ev s1 → turns s1 evs s2 → turns s (ev :: evs) s2.

(** The invariant of a session: the store is well-formed and every
    instance in it can be called. *)
Definition sound (s : Session) : Prop := wf (engine s) ∧ callable (engine s).

(** The outcomes a turn can have: a call returns or throws, an alteration
    returns, a change returns or never ends. *)
Definition expected (ev : event) (r : res unit) : Prop :=
  match ev with
  | Setup _ => r ≠ Timeout
  | Alter _ => r = Ok tt
  | Trigger _ => is_Throw r = false
  end.

(** What one relationship promises, as a function of the page: after the
    alteration [edit], a change of the dependency [a] applies [mut] to the
    dependent [b], once, when [pred] holds of [a], and nothing happens when
    it does not. *)
Definition react (pred : Predicate) (mut : Mutation) (a b : HostRef) (m : ModId)
    (p : Page) (edit : Dom → Dom) : Page :=
  if pred a (edit p.1) then (mut b (edit p.1), p.2 ++ [m]) else (edit p.1, p.2).

End session.

(** ** The scenario of the examples *)

(** The templates are registered, field 1 is shown when field 0 is checked;
    the user ticks field 0, then clears it again. *)
Definition scenario : list event :=
  [ Setup (AddState "checked" checked); Setup (AddModifier "show" show);
    Setup (CreateRelationship page3 0 "checked" 1 "show" false);
    Alter (set_checked true 0); Trigger 0;
    Alter (set_checked false 0); Trigger 0 ].

Section session_lemmas.
Context `{Host}.
Implicit Types (s : Session) (ev : event) (evs : list event) (w : Engine).

(** ** Turns *)

Lemma play_app fuel evs evs' s :
  play fuel (evs ++ evs') s = play fuel evs' (play fuel evs s).
Proof. unfold play. by rewrite foldl_app. Qed.

Lemma play_cons fuel ev evs s :
  play fuel (ev :: evs) s = play fuel evs (final (handle fuel ev) s).
Proof. done. Qed.

Lemma outcomes_length fuel evs s : length (outcomes fuel evs s) = length evs.
Proof. revert s. induction evs as [|ev evs IH]; intros s; simpl; [done|by rewrite IH]. Qed.

Lemma plain_at_page dom c : plain_call c → plain_call (at_page dom c).
Proof. by destruct c. Qed.

(** The store after a turn is the store after a call, or the same store. *)
Lemma handle_engine fuel ev s :
  engine (final (handle fuel ev) s) =
  match ev with
  | Setup c => final (perform (at_page (page s) c)) (engine s)
  | _ => engine s
  end.
Proof.
  unfold final. destruct ev as [c|edit|ref]; simpl; [|done|].
  - by destruct (perform _ _).
  - by destruct (change _ _ _ _).
Qed.

(** Every turn keeps the invariant, whatever its outcome. *)
Lemma handle_sound fuel ev s :
  plain_event ev → sound s → sound (final (handle fuel ev) s).
Proof.
  intros Hev [Hwf Hc]. unfold sound. rewrite handle_engine.
  destruct ev as [c| |]; [|done..]. split; [by apply perform_wf|].
  by apply (triple_final _ _ _ _ (callable_perform _ (plain_at_page _ _ Hev))).
Qed.

Lemma play_sound fuel evs s :
  Forall plain_event evs → sound s → sound (play fuel evs s).
Proof.
  intros Hevs. revert s. induction Hevs as [|ev evs Hev _ IH]; intros s Hs; [done|].
  by apply IH, handle_sound.
Qed.

Lemma sound_opened dom : sound (opened dom).
Proof. split; [apply wf_init|apply callable_init]. Qed.

(** ** Changes *)

(** More fuel does not change a change that ended. *)
Lemma change_mono (n n' : nat) w ref :
  (n ≤ n')%nat → approx (change n w ref) (change n' w ref).
Proof.
  intros Hle. apply approx_for_each. intros h _.
  case_decide; [by apply modifyDependents_mono|done].
Qed.

Lemma handle_mono (n n' : nat) ev : (n ≤ n')%nat → approx (handle n ev) (handle n' ev).
Proof.
  intros Hle s. destruct ev as [c|edit|ref]; simpl; [done..|].
  pose proof (change_mono n n' (engine s) ref Hle (page s, executed s)) as Hm.
  destruct (change n _ _ _) as [r p] eqn:Hn. intros Hr. by rewrite Hm.
Qed.

(** A change in a sound session does not throw. *)
Lemma handle_trigger_no_throw fuel ref s :
  sound s → is_Throw (outcome (handle fuel (Trigger ref)) s) = false.
Proof.
  intros [Hwf [Hcb _]]. unfold outcome. simpl.
  pose proof (yields_no_throw True _ (page s, executed s)
                (change_no_throw fuel (engine s) ref Hwf Hcb)) as Hp.
  by destruct (change fuel _ _ _).
Qed.

(** A change only adds to the trace, whatever its outcome. *)
Lemma change_trace fuel w ref p :
  wf w → callbacks_ok w → p.2 `prefix_of` (change fuel w ref p).2.2.
Proof.
  intros Hwf Hcb. unfold change.
  apply (for_each_preserves (λ q, p.2 `prefix_of` q.2)); [|done].
  intros h q _ Hq. case_decide; [by apply trace_grows|done].
Qed.

Lemma handle_executed fuel ev s :
  sound s → executed s `prefix_of` executed (final (handle fuel ev) s).
Proof.
  intros [Hwf [Hcb _]]. unfold final. destruct ev as [c|edit|ref]; simpl; [|done|].
  - by destruct (perform _ _).
  - pose proof (change_trace fuel (engine s) ref (page s, executed s) Hwf Hcb) as Hp.
    by destruct (change fuel _ _ _).
Qed.

(** ** The handlers of a reference, without fuel *)

Lemma cascades_complete n w l p p' :
  wf w → callbacks_ok w →
  for_each (modifyDependents n w) l p = (Ok tt, p') → cascades w l p p'.
Proof.
  intros Hwf Hcb. revert p. induction l as [|e l IH]; intros p Hrun.
  - injection Hrun as <-. constructor.
  - simpl in Hrun. apply bind_Ok_inv in Hrun as ([] & p1 & He & Hrun).
    econstructor; [by eapply cascade_complete|by apply IH].
Qed.

Lemma cascades_sound w l p p' :
  wf w → callbacks_ok w → cascades w l p p' →
  ∃ n, for_each (modifyDependents n w) l p = (Ok tt, p').
Proof.
  intros Hwf Hcb. induction 1 as [p|e l p p1 p2 He _ [n2 Hn2]]; [by exists 0|].
  destruct (cascade_sound _ _ _ _ Hwf Hcb He) as [n1 Hn1].
  exists (n1 `max` n2). simpl.
  assert (modifyDependents (n1 `max` n2) w e p = (Ok tt, p1)) as Hm.
  { rewrite <- Hn1. apply modifyDependents_mono; [lia|by rewrite Hn1]. }
  rewrite (bind_Ok _ _ _ _ _ Hm), <- Hn2. apply approx_for_each; [|by rewrite Hn2].
  intros e' _. apply modifyDependents_mono. lia.
Qed.

(** ** The loop with fuel and the loop without *)

(** A turn of [handle] that did not run out of fuel is a turn of the relation. *)
Lemma handle_turn fuel ev s r s' :
  sound s → handle fuel ev s = (r, s') → r ≠ Timeout → turn s ev s'.
Proof.
  intros Hs Hrun Hr. pose proof Hs as [Hwf [Hcb _]].
  destruct ev as [c|edit|ref]; simpl in Hrun.
  - pose proof (turn_setup s c) as Hst. unfold final in Hst.
    destruct (perform _ _) as [r' w]. by simplify_eq.
  - simplify_eq. constructor.
  - pose proof (handle_trigger_no_throw fuel ref s Hs) as Hq.
    unfold outcome in Hq. simpl in Hq.
    destruct (change fuel _ _ _) as [r' p'] eqn:Hp. simplify_eq /=.
    destruct r as [[]| |]; [|done..]. apply turn_trigger.
    rewrite change_fans_out in Hp. by eapply cascades_complete.
Qed.

(** A turn of the relation is a turn of [handle], with enough fuel. *)
Lemma turn_handle s ev s' :
  sound s → turn s ev s' → ∃ fuel r, handle fuel ev s = (r, s') ∧ r ≠ Timeout.
Proof.
  intros [Hwf [Hcb _]]. destruct 1 as [s c|s edit|s ref p' Hc].
  - exists 0, (outcome (perform (at_page (page s) c)) (engine s)).
    pose proof (perform_not_Timeout (at_page (page s) c) (engine s)) as Hc.
    unfold outcome, final in *. simpl. by destruct (perform _ _).
  - by exists 0, (Ok tt).
  - destruct (cascades_sound _ _ _ _ Hwf Hcb Hc) as [n Hn]. exists n, (Ok tt).
    simpl. by rewrite change_fans_out, Hn.
Qed.

(** With more fuel a session whose turns ended is the same session. *)
Lemma play_mono (n n' : nat) evs s :
  (n ≤ n')%nat → Timeout ∉ outcomes n evs s →
  play n' evs s = play n evs s ∧ outcomes n' evs s = outcomes n evs s.
Proof.
  intros Hle. revert s. induction evs as [|ev evs IH]; intros s Hout; [done|].
  simpl in Hout. apply not_elem_of_cons in Hout as [Hr Hout].
  rewrite !play_cons. simpl. unfold outcome, final in *.
  rewrite (handle_mono n n' ev Hle s) by done.
  destruct (IH _ Hout) as [-> ->]. done.
Qed.

(** ** Sessions *)

Lemma turns_play s evs s' :
  Forall plain_event evs → sound s → turns s evs s' →
  ∃ fuel, play fuel evs s = s' ∧ Timeout ∉ outcomes fuel evs s.
Proof.
  intros Hevs Hs Hsteps. induction Hsteps as [s|s ev s1 evs s2 Hstep _ IH].
  { exists 0. split; [done|apply not_elem_of_nil]. }
  apply Forall_cons_1 in Hevs as [Hev Hevs].
  destruct (turn_handle _ _ _ Hs Hstep) as (n1 & r & Hn1 & Hr).
  assert (sound s1) as Hs1.
  { replace s1 with (final (handle n1 ev) s) by (unfold final; by rewrite Hn1).
    by apply handle_sound. }
  destruct (IH Hevs Hs1) as (n2 & Hn2 & Hout). exists (n1 `max` n2).
  assert (handle (n1 `max` n2) ev s = (r, s1)) as Hm.
  { rewrite <- Hn1. apply handle_mono; [lia|by rewrite Hn1]. }
  rewrite play_cons. simpl. unfold final, outcome. rewrite Hm. simpl.
  destruct (play_mono n2 (n1 `max` n2) evs s1 ltac:(lia) Hout) as [-> ->].
  split; [done|]. by apply not_elem_of_cons.
Qed.

Lemma play_turns fuel evs s :
  Forall plain_event evs → sound s → Timeout ∉ outcomes fuel evs s →
  turns s evs (play fuel evs s).
Proof.
  intros Hevs. revert s. induction Hevs as [|ev evs Hev _ IH]; intros s Hs Hout; [constructor|].
  simpl in Hout. apply not_elem_of_cons in Hout as [Hr Hout].
  rewrite play_cons. econstructor; [|by apply IH; [apply handle_sound|]].
  unfold outcome, final in *. destruct (handle fuel ev s) as [r s1] eqn:Hrun.
  by eapply handle_turn.
Qed.

(** The store of a session is the store of a script: the calls of the
    session, each on the page of its moment. *)
Lemma play_script fuel evs s :
  ∃ cs, engine (play fuel evs s) = perform_all cs (engine s) ∧
        Forall2 (λ c c', ∃ dom, c' = at_page dom c) (setups evs) cs.
Proof.
  revert s. induction evs as [|ev evs IH]; intros s; [by exists []|].
  rewrite play_cons. destruct (IH (final (handle fuel ev) s)) as (cs & -> & Hcs).
  rewrite handle_engine. destruct ev as [c| |]; [|by exists cs..].
  exists (at_page (page s) c :: cs). split; [done|]. constructor; eauto.
Qed.

Lemma play_executed fuel evs s :
  Forall plain_event evs → sound s → executed s `prefix_of` executed (play fuel evs s).
Proof.
  intros Hevs. revert s. induction Hevs as [|ev evs Hev _ IH]; intros s Hs; [done|].
  rewrite play_cons. etrans; [by apply (handle_executed fuel ev)|].
  by apply IH, handle_sound.
Qed.

Lemma handle_expected fuel ev s : sound s → expected ev (outcome (handle fuel ev) s).
Proof.
  intros Hs. destruct ev as [c|edit|ref]; [|done|by apply handle_trigger_no_throw].
  pose proof (perform_not_Timeout (at_page (page s) c) (engine s)) as Hc.
  unfold outcome in *. simpl. by destruct (perform _ _).
Qed.

Lemma play_expected fuel evs s :
  Forall plain_event evs → sound s → Forall2 expected evs (outcomes fuel evs s).
Proof.
  intros Hevs. revert s. induction Hevs as [|ev evs Hev _ IH]; intros s Hs; [constructor|].
  simpl. constructor; [by apply handle_expected|by apply IH, handle_sound].
Qed.

(** A session of calls only, on a page that stays as it is. *)
Lemma play_setups fuel (cs : list call) s :
  play fuel (Setup <$> cs) s =
  mkSession (perform_all (at_page (page s) <$> cs) (engine s)) (page s) (executed s).
Proof.
  revert s. induction cs as [|c cs IH]; intros s; [by destruct s|].
  rewrite fmap_cons, play_cons, IH. unfold final. simpl. by destruct (perform _ _).
Qed.

(** A store whose changes on [a] are the reaction [react]: so are its
    sessions of alterations and changes. *)
Lemma play_reacts fuel w pred mut a b m (edits : list (Dom → Dom)) d tr :
  (∀ p, change fuel w a p = (Ok tt, react pred mut a b m p id)) →
  play fuel (edits ≫= λ edit, [Alter edit; Trigger a]) (mkSession w d tr) =
  mkSession w (foldl (react pred mut a b m) (d, tr) edits).1
              (foldl (react pred mut a b m) (d, tr) edits).2.
Proof.
  intros Hw. revert d tr. induction edits as [|edit edits IH]; intros d tr; [done|].
  rewrite bind_cons, play_app. cbn [foldl].
  replace (play fuel [Alter edit; Trigger a] (mkSession w d tr))
    with (mkSession w (react pred mut a b m (d, tr) edit).1
                      (react pred mut a b m (d, tr) edit).2)
    by (unfold play, final; simpl; by rewrite Hw).
  destruct (react pred mut a b m (d, tr) edit) as [d' tr']. apply IH.
Qed.

End session_lemmas.

(** ** What a session guarantees *)

Section session_properties.
Context `{Host}.
Implicit Types (s : Session) (ev : event) (evs : list event).

(** C16: the loop with fuel implements the loop without.  From a sound
    session, the events [evs] lead to [s'] by turns that end exactly when
    the session played with some fuel is [s'] and no turn ran out of it. *)
Theorem session_refines s evs s' :
  Forall plain_event evs → sound s →
  (turns s evs s' ↔ ∃ fuel, play fuel evs s = s' ∧ Timeout ∉ outcomes fuel evs s).
Proof.
  intros Hevs Hs. split; [by apply turns_play|].
  intros (fuel & <- & Hout). by apply play_turns.
Qed.

(** C20: on a page that loaded the library, whatever the client calls
    (without a template named [__proto__]), whatever the user alters and
    whenever the host raises a change: no change handler ever throws, no call
    of the public object hangs, and the store stays well-formed and is the
    store of a script. *)
Theorem session_safe fuel evs dom :
  Forall plain_event evs →
  let s := play fuel evs (opened dom) in
  Forall2 expected evs (outcomes fuel evs (opened dom)) ∧
  wf (engine s) ∧ reachable (engine s).
Proof.
  intros Hevs s. split; [by apply play_expected, sound_opened|].
  split; [by apply (play_sound fuel evs (opened dom)), sound_opened|].
  destruct (play_script fuel evs (opened dom)) as (cs & Hcs & _).
  apply reachable_iff_script. by exists cs.
Qed.

End session_properties.

Section relationship.
Context `{Host}.
Context (sn mn : string) (pred : Predicate) (mut : Mutation).
Context (dom : Dom) (a b : HostRef).
Context (Hsn : inherited sn = false) (Hmn : inherited mn = false).
Context (Ha : inherited (default_getElementKey a dom) = false).
Context (Hab : default_getElementKey a dom ≠ default_getElementKey b dom).

(** C21: the scenario of the library, end to end and for every history of the
    page.  The State and the Modifier are registered and the relationship
    is created on the page [dom]; then, whatever alterations the page goes
    through, each followed by a change of the dependency: every turn
    returns, and each change applies the mutation to the dependent once when
    the predicate holds of the dependency at that moment, and does nothing
    when it does not.  Nothing undoes a mutation when the predicate stops
    holding. *)
Theorem relationship_reacts fuel (edits : list (Dom → Dom)) :
  let evs := [Setup (AddState sn pred); Setup (AddModifier mn mut);
              Setup (CreateRelationship dom a sn b mn false)] ++
             (edits ≫= λ edit, [Alter edit; Trigger a]) in
  let p := foldl (react pred mut a b 1) (dom, []) edits in
  page (play (S (S fuel)) evs (opened dom)) = p.1 ∧
  executed (play (S (S fuel)) evs (opened dom)) = p.2.
Proof.
  intros evs p. unfold evs. rewrite play_app.
  rewrite (play_setups _ [AddState sn pred; AddModifier mn mut;
                           CreateRelationship dom a sn b mn false]).
  cbn [fmap list_fmap at_page opened page engine executed].
  rewrite (play_reacts _ _ pred mut a b 1 edits); [done|].
  intros [d tr]. by rewrite first_relationship_change.
Qed.

End relationship.

(** ** Examples *)

Lemma plain_scenario : Forall plain_event scenario.
Proof. unfold scenario. repeat constructor; done. Qed.

(** The scenario, played: field 1 is shown by the first change and stays
    shown after the second; the Modifier was executed once. *)
Example scenario_plays :
  let s := play 2 scenario (opened page3) in
  page s = [ mkNode (Some "f0") false false 0; mkNode (Some "f1") false true 0;
             mkNode (Some "f2") false false 0 ] ∧
  executed s = [1] ∧
  outcomes 2 scenario (opened page3) = replicate 7 (Ok tt).
Proof. by vm_compute. Qed.

Lemma session_refines_witness :
  turns (opened page3) scenario (play 2 scenario (opened page3)) ↔
  ∃ fuel, play fuel scenario (opened page3) = play 2 scenario (opened page3) ∧
          Timeout ∉ outcomes fuel scenario (opened page3).
Proof. apply session_refines; [apply plain_scenario|apply sound_opened]. Defined.

Lemma session_safe_witness :
  let s := play 1 scenario (opened page3) in
  Forall2 expected scenario (outcomes 1 scenario (opened page3)) ∧
  wf (engine s) ∧ reachable (engine s).
Proof. apply session_safe, plain_scenario. Defined.

(** With fuel 1 the first change of the scenario does not end: the fan-out
    of the dependent, which has nothing to do, is still one call deeper. *)
Example scenario_needs_fuel :
  outcomes 1 scenario (opened page3) !! 4 = Some Timeout.
Proof. by vm_compute. Qed.

Lemma relationship_reacts_witness :
  let evs := [Setup (AddState "checked" checked); Setup (AddModifier "show" show);
              Setup (CreateRelationship page3 0 "checked" 1 "show" false)] ++
             ([set_checked true 0; set_checked false 0] ≫= λ edit, [Alter edit; Trigger 0]) in
  let p := foldl (react checked show 0 1 1) (page3, [])
             [set_checked true 0; set_checked false 0] in
  page (play 2 evs (opened page3)) = p.1 ∧ executed (play 2 evs (opened page3)) = p.2.
Proof. by apply (relationship_reacts "checked" "show" checked show page3 0 1). Defined.
