(* ===== verification/Acyclic.v ===== *)
(** * Acyclic: a check that every cascade ends

    [modifyDependents] recurses along the subscriptions and has no guard
    against cycles: on a cycle of relationships whose States are active the
    cascade does not return.  Whether the graph of a store has a cycle can
    be computed.  [height] is the length of the longest path from an
    element, computed with a fuel that bounds the length; [acyclic] checks
    that the number of elements is fuel enough for every element.

    The check is exact: it succeeds exactly when no element is downstream
    of itself, and exactly when some rank decreases along every edge
    ([acyclic_decides], [acyclic_iff_ranked]).  When it succeeds, a change
    on any host reference returns on every page, with the number of
    elements as fuel ([acyclic_change_returns]), which is at most twice the
    number of relationships of the script ([script_depth_bounded]), and so
    does every turn of a session after the setup
    ([acyclic_session_returns]); with the check of [Total] on the script of
    the setup, every call and every change of the page returns
    ([checked_page_lives]).  The check looks at the relationships and not at
    the predicates, so it can fail on a store whose changes all return
    ([cycle_that_ends]); when the States are active on every page it fails
    only when the fan-out of some element exhausts every fuel
    ([acyclic_exact]).

    The check need not be repeated after every call.  The edges that
    [createRelationship] adds lead to the dependent, from the dependency
    and, with inheritance, from elements that the dependency depended on
    ([createRelationship_edge]); so the store still passes the check when
    the dependent did not reach the dependency before
    ([createRelationship_acyclic]), and no longer passes it when it did
    ([createRelationship_closes_cycle]). *)

From stdpp Require Import base option list strings numbers relations.
From S2P Require Import Prelude JsObject Heap Fixture Graph Registry Edges Builder Bounds Cascade DesignNote Total Chain Session.

Open Scope string_scope.
Open Scope list_scope.
Open Scope run_scope.

Section acyclic.
Context `{Host}.
Implicit Types (w : Engine) (e d : ElemId) (l : list ElemId).

(** The length of the longest path of relationships that starts at [e], when
    it is below [fuel]. *)
Fixpoint height (w : Engine) (fuel : nat) (e : ElemId) : option nat :=
  match fuel with
  | O => None
  | S n => hs ← mapM (height w n) (dependents w e); Some (max_list (S <$> hs))
  end.

(** The check: no path has as many edges as the store has elements. *)
Definition acyclic (w : Engine) : bool :=
  bool_decide (Forall (λ e, is_Some (height w (length (element_heap w)) e))
                 (seq 0 (length (element_heap w)))).

(** The rank that the check computes. *)
Definition rank_of (w : Engine) (e : ElemId) : nat :=
  default 0 (height w (length (element_heap w)) e).

(** [l] is a walk along the relationships that starts from [e]. *)
Inductive path (w : Engine) : ElemId → list ElemId → Prop :=
| path_end e : path w e []
| path_step e d l : d ∈ dependents w e → path w d l → path w e (d :: l).

(** The element of a State. *)
Definition publisher (w : Engine) (s : StateId) : option ElemId :=
  state_heap w !! s ≫= st_element.

(** A relationship: a fan-out of [e] can execute a Modifier of [e']. *)
Definition edge (w : Engine) : relation ElemId := λ e e', e' ∈ dependents w e.

(** [e'] is [e] or downstream of it. *)
Definition reaches (w : Engine) : relation ElemId := rtc (edge w).

(** An event after the setup: the page is altered, or a change is raised. *)
Definition settled (ev : event) : Prop :=
  match ev with
  | Setup _ => False
  | _ => True
  end.

#[export] Instance settled_dec ev : Decision (settled ev).
Proof. destruct ev; simpl; apply _. Defined.

End acyclic.

(** The first relationship of the examples, and one back from its dependent
    to its dependency. *)
Definition w_back : Engine :=
  perform_all [CreateRelationship page3 1 "visible" 0 "show" false] w_show.

(** ** The height *)

Section height.
Context `{Host}.
Implicit Types (w : Engine) (e d : ElemId) (l : list ElemId).

Lemma max_list_le (b : nat) (ns : list nat) : Forall (λ n, (n ≤ b)%nat) ns → (max_list ns ≤ b)%nat.
Proof. induction 1; simpl; lia. Qed.

Lemma height_S w n e h :
  height w (S n) e = Some h ↔
  ∃ hs, Forall2 (λ d h', height w n d = Some h') (dependents w e) hs ∧
        h = max_list (S <$> hs).
Proof.
  simpl. split.
  - intros (hs & Hhs%mapM_Some & [= <-])%bind_Some. eauto.
  - intros (hs & Hhs%mapM_Some & ->). by rewrite Hhs.
Qed.

(** The height is below the fuel that computed it. *)
Lemma height_lt w n e h : height w n e = Some h → (h < n)%nat.
Proof.
  revert e h. induction n as [|n IH]; intros e h; [done|].
  intros (hs & Hhs & ->)%height_S. apply Nat.lt_succ_r, max_list_le, Forall_fmap.
  apply (Forall2_Forall_r _ _ _ _ Hhs), Forall_forall. intros d _ h' Hd. apply (IH _ _ Hd).
Qed.

(** More fuel computes the same height. *)
Lemma height_mono w n n' e h : (n ≤ n')%nat → height w n e = Some h → height w n' e = Some h.
Proof.
  revert n' e h. induction n as [|n IH]; intros n' e h Hle; [done|].
  destruct n' as [|n']; [lia|]. intros (hs & Hhs & ->)%height_S.
  apply height_S. exists hs. split; [|done].
  eapply Forall2_impl; [done|]. intros d h' Hd. apply (IH n'); [lia|done].
Qed.

(** The height decreases along every relationship. *)
Lemma height_edge w n e h d :
  height w (S n) e = Some h → d ∈ dependents w e →
  ∃ h', height w n d = Some h' ∧ (h' < h)%nat.
Proof.
  intros (hs & Hhs & ->)%height_S Hd.
  apply list_elem_of_lookup in Hd as [i Hi].
  destruct (Forall2_lookup_l _ _ _ _ _ Hhs Hi) as (h' & Hi' & Hh').
  exists h'. split; [done|]. unfold lt.
  apply max_list_elem_of_le, list_elem_of_fmap. exists h'. split; [done|].
  by eapply list_elem_of_lookup_2.
Qed.

(** Without a height within the fuel there is a walk that long. *)
Lemma height_None_path w n e :
  height w n e = None → ∃ l, length l = n ∧ path w e l.
Proof.
  revert e. induction n as [|n IH]; intros e He; [exists []; split; [done|constructor]|].
  simpl in He. apply bind_None in He as [He|(hs & _ & [=])].
  apply mapM_None, Exists_exists in He as (d & Hd & Hnone).
  destruct (IH d Hnone) as (l & <- & Hl). exists (d :: l). split; [done|by constructor].
Qed.

(** A walk leads downstream. *)
Lemma path_downstream w e l d : path w e l → d ∈ l → downstream w e d.
Proof.
  induction 1 as [|e d' l Hd' Hl IH]; [by intros ?%elem_of_nil|].
  intros [->|Hd]%elem_of_cons; [by apply tc_once|].
  eapply tc_l; [done|]. by apply IH.
Qed.

Lemma path_valid w e l : wf w → path w e l → Forall (λ d, (d < length (element_heap w))%nat) l.
Proof.
  intros Hwf. induction 1 as [|e d l Hd Hl IH]; constructor; [|done].
  destruct (dependents_valid _ _ _ Hwf Hd) as [E HE]. by eapply lookup_lt_Some.
Qed.

(** Where no element is downstream of itself, a walk visits an element
    once. *)
Lemma path_NoDup w e l : (∀ d, ¬ downstream w d d) → path w e l → NoDup (e :: l).
Proof.
  intros Hcyc. induction 1 as [|e d l Hd Hl IH]; [apply NoDup_singleton|].
  constructor; [|done]. intros He. apply (Hcyc e).
  eapply path_downstream; [by constructor|done].
Qed.

(** So it has fewer relationships than the store has elements. *)
Lemma path_short w e l :
  wf w → (∀ d, ¬ downstream w d d) → (e < length (element_heap w))%nat → path w e l →
  (length l < length (element_heap w))%nat.
Proof.
  intros Hwf Hcyc He Hl. pose proof (path_valid _ _ _ Hwf Hl) as Hv.
  apply (path_NoDup _ _ _ Hcyc) in Hl.
  assert (e :: l ⊆+ seq 0 (length (element_heap w))) as Hsub%submseteq_length.
  { apply NoDup_submseteq; [done|].
    intros d [->|Hd]%elem_of_cons; apply elem_of_seq; [lia|].
    rewrite Forall_forall in Hv. specialize (Hv d Hd). lia. }
  rewrite length_seq in Hsub. simpl in Hsub. lia.
Qed.

End height.

(** ** The check *)

Section check.
Context `{Host}.
Implicit Types (w : Engine) (e d : ElemId).

Lemma acyclic_height w e :
  acyclic w = true → (e < length (element_heap w))%nat →
  ∃ h, height w (length (element_heap w)) e = Some h.
Proof.
  intros Hacy%bool_decide_eq_true He. rewrite Forall_forall in Hacy.
  apply Hacy, elem_of_seq. lia.
Qed.

(** The heights that the check has computed are a rank. *)
Lemma acyclic_ranked w : acyclic w = true → ranked w (rank_of w).
Proof.
  intros Hacy. apply Forall_forall. intros e He%elem_of_seq.
  apply Forall_forall. intros d Hd.
  destruct (acyclic_height w e Hacy) as [h Hh]; [lia|]. unfold rank_of. rewrite Hh.
  destruct (length (element_heap w)) as [|n]; [lia|].
  destruct (height_edge _ _ _ _ _ Hh Hd) as (h' & Hh' & Hlt).
  by rewrite (height_mono _ n (S n) _ _ (Nat.le_succ_diag_r n) Hh').
Qed.

Lemma rank_of_lt w e :
  acyclic w = true → (e < length (element_heap w))%nat →
  (rank_of w e < length (element_heap w))%nat.
Proof.
  intros Hacy He. destruct (acyclic_height w e Hacy He) as [h Hh].
  unfold rank_of. rewrite Hh. by eapply height_lt.
Qed.

(** A rank decreases along the paths, so no path returns to where it
    started. *)
Lemma ranked_downstream w rank e d :
  ranked w rank → downstream w e d → (rank d < rank e)%nat.
Proof.
  intros Hr. induction 1 as [e d Hd|e d d' Hd _ IH].
  - by apply (ranked_lt w).
  - pose proof (ranked_lt _ _ _ _ Hr Hd). lia.
Qed.

Lemma ranked_no_cycle w rank e : ranked w rank → ¬ downstream w e e.
Proof. intros Hr He%(ranked_downstream _ _ _ _ Hr). lia. Qed.

(** Without a cycle every walk is shorter than the store, and the check
    finds every height. *)
Lemma no_cycle_acyclic w : wf w → (∀ e, ¬ downstream w e e) → acyclic w = true.
Proof.
  intros Hwf Hcyc. apply bool_decide_eq_true, Forall_forall. intros e He%elem_of_seq.
  destruct (height w (length (element_heap w)) e) as [h|] eqn:Hh; [done|].
  destruct (height_None_path _ _ _ Hh) as (l & Hlen & Hl).
  pose proof (path_short w e l Hwf Hcyc ltac:(lia) Hl). lia.
Qed.

(** With the number of elements as fuel, the fan-out of an element of a
    store that passes the check returns. *)
Lemma acyclic_fan_out_returns w fuel e :
  wf w → callbacks_ok w → acyclic w = true → (length (element_heap w) ≤ fuel)%nat →
  is_Some (element_heap w !! e) → yields (λ _, False) False (modifyDependents fuel w e).
Proof.
  intros Hwf Hcb Hacy Hfuel [E HE].
  apply (modifyDependents_ranked w (rank_of w)); [done|done|by apply acyclic_ranked|by eauto|].
  pose proof (rank_of_lt w e Hacy (lookup_lt_Some _ _ _ HE)). lia.
Qed.

Lemma acyclic_change_yields w fuel ref :
  wf w → callbacks_ok w → acyclic w = true → (length (element_heap w) ≤ fuel)%nat →
  yields (λ _, False) False (change fuel w ref).
Proof.
  intros Hwf Hcb Hacy Hfuel. unfold change. apply yields_for_each. intros [r e] Hh. simpl.
  case_decide; [|apply yields_ret]. apply acyclic_fan_out_returns; [done..|].
  rewrite (wf_handlers _ Hwf) in Hh. apply handlers_of_lookup in Hh as (E & ? & _). eauto.
Qed.

Lemma acyclic_no_cycle w e : acyclic w = true → ¬ downstream w e e.
Proof. intros Hacy. by eapply ranked_no_cycle, acyclic_ranked. Qed.

(** The check decides the relation: in a well-formed store it succeeds
    exactly when no element is downstream of itself along the
    relationships. *)
Theorem acyclic_decides w : wf w → (acyclic w = true ↔ ∀ e, ¬ downstream w e e).
Proof.
  intros Hwf. split; [|by apply no_cycle_acyclic].
  intros Hacy e. by apply acyclic_no_cycle.
Qed.

(** And exactly when some rank decreases along every relationship. *)
Theorem acyclic_iff_ranked w : wf w → (acyclic w = true ↔ ∃ rank, ranked w rank).
Proof.
  intros Hwf. split; [intros Hacy; eexists; by apply acyclic_ranked|].
  intros [rank Hr]. apply no_cycle_acyclic; [done|]. intros e. by eapply ranked_no_cycle.
Qed.

Lemma acyclic_change_Ok w fuel ref p :
  wf w → callbacks_ok w → acyclic w = true → (length (element_heap w) ≤ fuel)%nat →
  ∃ p', change fuel w ref p = (Ok tt, p').
Proof.
  intros Hwf Hcb Hacy Hfuel.
  destruct (yields_Ok _ p (acyclic_change_yields w fuel ref Hwf Hcb Hacy Hfuel)) as [[] Hp].
  exists (change fuel w ref p).2. by apply outcome_final.
Qed.

(** C14: a store that passes the check has no cascade that runs on.  With
    the number of elements as fuel, or more, a change on any host reference
    returns, on every page and whatever the predicates answer, and more
    fuel does not change what it has done. *)
Theorem acyclic_change_returns w fuel ref p :
  wf w → callbacks_ok w → acyclic w = true → (length (element_heap w) ≤ fuel)%nat →
  ∃ p', change fuel w ref p = (Ok tt, p') ∧
        change (length (element_heap w)) w ref p = (Ok tt, p').
Proof.
  intros Hwf Hcb Hacy Hfuel.
  destruct (acyclic_change_Ok w (length (element_heap w)) ref p) as [p' Hp']; [done..|].
  exists p'. split; [|done].
  rewrite (change_mono (length (element_heap w)) fuel w ref Hfuel p); [done|].
  by rewrite Hp'.
Qed.

(** The same of the store of a script. *)
Theorem acyclic_script_returns (cs : list call) ref dom :
  Forall plain_call cs → acyclic (perform_all cs init) = true →
  ∃ p, on_change (length (element_heap (perform_all cs init))) (perform_all cs init) ref dom
       = (Ok tt, p).
Proof.
  intros Hcs Hacy.
  apply acyclic_change_Ok;
    [apply perform_all_wf, wf_init|by apply callable_perform_all, callable_init|done..].
Qed.

(** C32: the script bounds the nesting of a change.  After a script that
    registers no template named [__proto__] and builds a store without a
    cycle, a change on any host reference returns on every page within a
    nesting of [modifyDependents] of twice the number of the script's calls
    of [createRelationship]: each call constructs at most two Elements, and
    a fan-out nests at most as deep as the store has Elements. *)
Theorem script_depth_bounded (cs : list call) fuel ref dom :
  Forall plain_call cs → acyclic (perform_all cs init) = true →
  ((news_all cs).1.1 ≤ fuel)%nat →
  ∃ p, on_change fuel (perform_all cs init) ref dom = (Ok tt, p).
Proof.
  intros Hcs Hacy Hfuel. pose proof (script_bounded cs) as (Hlen & _). simpl in Hlen.
  apply acyclic_change_Ok;
    [apply perform_all_wf, wf_init|by apply callable_perform_all, callable_init|done|lia].
Qed.

(** ** The check and the code *)

(** In a store whose States are active on every page, the fan-out follows
    every relationship. *)
Lemma always_hard_edge w e e' :
  wf w → (∀ e k s, state_of w e k = Some s → always_active w s) →
  e' ∈ dependents w e → hard_edge w e e'.
Proof.
  intros Hwf Hact (E & [k s] & m & HE & Hkv & Hm & Ho)%elem_of_dependents.
  exists E, (k, s), m. split_and!; [done..| |done|done].
  apply (Hact e k). unfold state_of. rewrite HE. simpl.
  by apply (obj_wf_elem_of _ _ _ (owned_obj _ _ _ _ (wf_states _ Hwf) _ _ HE)).
Qed.

(** There the elements of a cycle are a set that a fan-out cannot leave. *)
Lemma cycle_trapped w e x :
  wf w → (∀ e k s, state_of w e k = Some s → always_active w s) →
  downstream w e e → downstream w e x → downstream w x e →
  ∃ x', (downstream w e x' ∧ downstream w x' e) ∧ hard_edge w x x'.
Proof.
  intros Hwf Hact Hcyc Hex Hxe.
  inversion Hxe as [? ? Hedge|? x' ? Hedge Hrest]; subst.
  - exists e. split; [done|by apply always_hard_edge].
  - exists x'. split; [|by apply always_hard_edge].
    split; [|done]. eapply tc_r; [done|]. apply Hedge.
Qed.

(** So the fan-out of an element of a cycle exhausts every fuel. *)
Lemma cycle_diverges w e fuel p :
  wf w → callbacks_ok w → (∀ e k s, state_of w e k = Some s → always_active w s) →
  downstream w e e → (modifyDependents fuel w e p).1 = Timeout.
Proof.
  intros Hwf Hcb Hact Hcyc.
  apply (fan_out_diverges w (λ x, downstream w e x ∧ downstream w x e)); [done..| |done].
  intros x [Hex Hxe]. by apply cycle_trapped.
Qed.

(** C28: the check is the one the code needs.  In a well-formed store with
    callbacks whose States are active on every page, the store passes the
    check exactly when the fan-out of every element returns, on whatever
    page it starts: without a cycle every fan-out returns, with the number
    of elements as fuel; with a cycle, the fan-out of an element of the
    cycle exhausts every fuel. *)
Theorem acyclic_exact w p :
  wf w → callbacks_ok w → (∀ e k s, state_of w e k = Some s → always_active w s) →
  (acyclic w = true ↔
   ∀ e, is_Some (element_heap w !! e) →
        ∃ p', modifyDependents (length (element_heap w)) w e p = (Ok tt, p')).
Proof.
  intros Hwf Hcb Hact. split.
  - intros Hacy e He.
    destruct (yields_Ok _ p (acyclic_fan_out_returns w _ e Hwf Hcb Hacy (reflexivity _) He))
      as [[] Hp].
    eexists. by apply outcome_final.
  - intros Hret. apply no_cycle_acyclic; [done|]. intros e Hcyc.
    assert (is_Some (element_heap w !! e)) as He.
    { inversion Hcyc as [? ? Hedge|? ? ? Hedge _]; subst;
        apply elem_of_dependents in Hedge as (E & _ & _ & HE & _); eauto. }
    destruct (Hret e He) as [p' Hp'].
    pose proof (cycle_diverges w e (length (element_heap w)) p Hwf Hcb Hact Hcyc) as Hdiv.
    by rewrite Hp' in Hdiv.
Qed.

End check.

(** ** New edges in a graph *)

(** A relation [R'] that is [R] with new edges into [p], all from where [d]
    can be reached: when [p] did not reach [d], no cycle has come. *)
Section new_edges.
Context {A : Type} (R R' : relation A) (U : A → Prop) (p d : A).
Context (Hnew : ∀ x y, R' x y → R x y ∨ (U x ∧ y = p)).
Context (HU : ∀ u, U u → rtc R u d).

Lemma tc_new_from x y : tc R' x y → tc R x y ∨ rtc R x d.
Proof.
  induction 1 as [x y Hxy|x z y Hxz _ IH].
  - destruct (Hnew _ _ Hxy) as [?|[Hx _]]; [left; by apply tc_once|right; by apply HU].
  - destruct (Hnew _ _ Hxz) as [?|[Hx _]]; [|right; by apply HU].
    destruct IH as [?|?]; [left; by eapply tc_l|right; by eapply rtc_l].
Qed.

Lemma tc_new_to x y : tc R' x y → tc R x y ∨ rtc R p y.
Proof.
  induction 1 as [x y Hxy|x z y Hxz _ IH].
  - destruct (Hnew _ _ Hxy) as [?|[_ ->]]; [left; by apply tc_once|by right].
  - destruct IH as [Hzy|?]; [|by right].
    destruct (Hnew _ _ Hxz) as [?|[_ ->]]; [left; by eapply tc_l|right; by apply tc_rtc].
Qed.

Lemma new_edges_acyclic : (∀ x, ¬ tc R x x) → ¬ rtc R p d → ∀ x, ¬ tc R' x x.
Proof.
  intros Hacy Hpd x Hx.
  destruct (tc_new_from x x Hx) as [?|Hxd]; [by eapply Hacy|].
  destruct (tc_new_to x x Hx) as [?|Hpx]; [by eapply Hacy|].
  apply Hpd. by etrans.
Qed.

End new_edges.

(** ** The edges a relationship adds *)

Section guard.
Context `{Host}.
Implicit Types (w : Engine) (e : ElemId) (s : StateId) (m : ModId).

(** An edge is a subscription of a Modifier of the one element to a State
    of the other. *)
Lemma edge_publisher w e e' :
  wf w →
  edge w e e' ↔ ∃ s m, publisher w s = Some e ∧ m ∈ subscribers w s ∧ owner w m = Some e'.
Proof.
  intros Hwf. unfold edge. rewrite elem_of_dependents. split.
  - intros (E & [k s] & m & HE & Hkv & Hm & Ho). exists s, m. split; [|done].
    apply (obj_wf_elem_of _ _ _ (owned_obj _ _ _ _ (wf_states _ Hwf) _ _ HE)) in Hkv.
    destruct (owned_back _ _ _ _ (wf_states _ Hwf) _ _ _ _ HE Hkv) as (S & HS & HSe).
    unfold publisher. by rewrite HS.
  - intros (s & m & (S & HS & HSe)%bind_Some & Hm & Ho).
    destruct (owned_forth _ _ _ _ (wf_states _ Hwf) _ _ _ HS HSe) as (E & k & HE & Hk).
    exists E, (k, s), m. split_and!; [done| |done..]. by apply own_get_Some.
Qed.

Lemma extends_publisher w w' s e :
  extends w w' → publisher w s = Some e → publisher w' s = Some e.
Proof.
  intros Hext (S & HS & He)%bind_Some. destruct (ext_states _ _ Hext _ _ HS) as (S' & HS' & HSS').
  unfold publisher. rewrite HS'. simpl. by apply (state_le_element _ _ HSS').
Qed.

Lemma extends_owner w w' m e : extends w w' → owner w m = Some e → owner w' m = Some e.
Proof.
  intros Hext (M & HM & He)%bind_Some.
  destruct (ext_modifiers _ _ Hext _ _ HM) as (M' & HM' & HMM').
  unfold owner. rewrite HM'. simpl. by apply (modifier_le_element _ _ HMM').
Qed.

(** A State with a subscriber has its element, and so has the subscriber. *)
Lemma subscriber_ends w s m :
  wf w → m ∈ subscribers w s → ∃ e e', publisher w s = Some e ∧ owner w m = Some e'.
Proof.
  intros Hwf Hm. unfold subscribers, publisher, owner in *.
  destruct (state_heap w !! s) as [S|] eqn:HS; [|by apply elem_of_nil in Hm].
  destruct (linked_modifier _ _ (wf_linked _ Hwf) _ _ _ HS Hm) as ([e He] & M & -> & [e' He']).
  exists e, e'. simpl. by split.
Qed.

(** What subscriptions of [m] add to the graph: edges to the element of
    [m], from the elements of the States it subscribed to. *)
Lemma adds_edge l m w w' e e' :
  wf w → wf w' → adds l m w w' → edge w' e e' →
  edge w e e' ∨ ((∃ s, s ∈ l ∧ publisher w' s = Some e) ∧ owner w' m = Some e').
Proof.
  intros Hwf Hwf' [Hext Hsub _] (s & m' & Hs & Hm' & Ho)%edge_publisher; [|done].
  rewrite Hsub in Hm'. apply elem_of_app in Hm' as [Hm'|[-> Hk]%elem_of_replicate].
  - left. apply edge_publisher; [done|]. exists s, m'.
    destruct (subscriber_ends _ _ _ Hwf Hm') as (e0 & e0' & Hs0 & Ho0).
    pose proof (extends_publisher _ _ _ _ Hext Hs0). pose proof (extends_owner _ _ _ _ Hext Ho0).
    split_and!; [congruence|done|congruence].
  - right. split; [|done]. exists s. split; [|done]. apply occurrences_pos. lia.
Qed.

(** The States a relationship inherits are States of elements that the
    dependency depended on already. *)
Lemma inherited_publisher w w4 w5 w' dE pE mn s m x e :
  wf w → wf w' → adds [] m w w4 → adds [s] m w4 w5 → extends w5 w' →
  element_heap w' = element_heap w5 → modifier_of w' pE mn = Some m → dE ≠ pE →
  x ∈ upstream_states w5 dE mn → publisher w' x = Some e → edge w e dE.
Proof.
  intros Hwf Hwf' H4 H5 Hext Hel Hm Hne Hx He. unfold upstream_states in Hx.
  destruct (modifier_of w5 dE mn) as [mu|] eqn:Hmu; [|by apply elem_of_nil in Hx].
  assert (modifier_of w' dE mn = Some mu) as Hmu' by (unfold modifier_of in *; by rewrite Hel).
  destruct (wf_modifier_of _ _ _ _ Hwf' Hmu') as (Mu & HMu & HMue).
  destruct (wf_modifier_of _ _ _ _ Hwf' Hm) as (M & HM & HMe).
  assert (mu ≠ m) as Hmum by (intros ->; congruence).
  rewrite (adds_subscriptions _ _ _ _ H5), (adds_subscriptions _ _ _ _ H4) in Hx.
  rewrite !decide_False, !app_nil_r in Hx by done.
  assert (mu ∈ subscribers w x) as Hin
    by (apply occurrences_pos; rewrite (wf_edges _ _ _ Hwf); by apply occurrences_pos).
  destruct (subscriber_ends _ _ _ Hwf Hin) as (e0 & e0' & Hs0 & Ho0).
  assert (extends w w') as Hext' by (etrans; [apply H4|etrans; [apply H5|done]]).
  pose proof (extends_publisher _ _ _ _ Hext' Hs0).
  pose proof (extends_owner _ _ _ _ Hext' Ho0) as Ho'. unfold owner in Ho'.
  rewrite HMu in Ho'. simpl in Ho'.
  apply edge_publisher; [done|]. exists x, mu. split_and!; [congruence|done|congruence].
Qed.

(** The edges after a call that returned: those of before, an edge from the
    dependency to the dependent and, with inheritance, edges to the dependent
    from elements that the dependency depended on. *)
Lemma createRelationship_edge w w4 w5 w' dE pE sn mn (inheritState : bool) s m e e' :
  wf w → wf w' → adds [] m w w4 →
  state_of w4 dE sn = Some s → modifier_of w4 pE mn = Some m → adds [s] m w4 w5 →
  (if inheritState then
     element_heap w' = element_heap w5 ∧ adds (upstream_states w5 dE mn) m w5 w'
   else w' = w5) →
  dE ≠ pE → edge w' e e' →
  edge w e e' ∨ ((e = dE ∨ edge w e dE) ∧ e' = pE).
Proof.
  intros Hwf Hwf' H4 Hs Hm H5 Hinh Hne Hedge.
  assert (element_heap w' = element_heap w5 ∧
          adds (if inheritState then upstream_states w5 dE mn else []) m w5 w') as [Hel Hadd]
    by (destruct inheritState; [done|subst; split; [done|apply adds_refl]]).
  assert (extends w4 w') as Hext by (etrans; [apply H5|apply Hadd]).
  pose proof (extends_state_of _ _ _ _ _ Hext Hs) as Hs'.
  pose proof (extends_modifier_of _ _ _ _ _ Hext Hm) as Hm'.
  destruct (wf_state_of _ _ _ _ Hwf' Hs') as (S & HS & HSe).
  destruct (wf_modifier_of _ _ _ _ Hwf' Hm') as (M & HM & HMe).
  destruct (adds_edge _ m w w' e e' Hwf Hwf' (adds_quiet_l _ _ _ _ _ H4 (adds_app _ _ _ _ _ _ H5 Hadd))
              Hedge) as [?|[(x & Hx & He) Ho]]; [by left|right].
  unfold owner in Ho. rewrite HM in Ho. simpl in Ho. split; [|congruence].
  apply elem_of_cons in Hx as [->|Hx].
  - left. unfold publisher in He. rewrite HS in He. simpl in He. congruence.
  - right. destruct inheritState; [|by apply elem_of_nil in Hx].
    apply (inherited_publisher w w4 w5 w' dE pE mn s m x e); try done. apply Hadd.
Qed.

Lemma extends_length w w' :
  extends w w' → (length (element_heap w) ≤ length (element_heap w'))%nat.
Proof.
  intros Hext. destruct (decide (length (element_heap w) ≤ length (element_heap w'))%nat);
    [done|].
  destruct (lookup_lt_is_Some_2 (element_heap w) (length (element_heap w'))) as [E HE]; [lia|].
  destruct (ext_elements _ _ Hext _ _ HE) as (E' & HE'%lookup_lt_Some & _). lia.
Qed.

(** Where the two elements of a call come from: each was registered under
    the key of its reference, or is new; a new dependent is not the
    dependency. *)
Lemma resolved_endpoints dom d p sn w dE w1 E w2 pE w3 :
  getElementKey w d dom ≠ getElementKey w p dom →
  elementsContainer.resolve dom d w = (Ok dE, w1) → element_heap w1 !! dE = Some E →
  (if truthy (obj_get sn (el_states E)) then ret tt
   else state <- statesContainer.get sn ;; Element.attachState dE sn state) w1 = (Ok tt, w2) →
  elementsContainer.resolve dom p w2 = (Ok pE, w3) →
  (own_get (getElementKey w d dom) (elementsContainer_elements w) = Some dE ∨
   element_heap w !! dE = None) ∧
  (own_get (getElementKey w p dom) (elementsContainer_elements w) = Some pE ∨
   (element_heap w !! pE = None ∧ pE ≠ dE)).
Proof.
  intros Hne Hd HE Hs Hp.
  destruct (setup_attach_state dE sn (obj_get sn (el_states E)) w1) as [_ _ Hkey Hreg].
  rewrite Hs in Hkey, Hreg. simpl in Hkey, Hreg.
  pose proof (extends_length _ _ (adds_extends _ _ _ _ (proj1 (resolve_adds dom d 0 _ _ _ Hd)))).
  pose proof (extends_length _ _ (adds_extends _ _ _ _ (attach_state_adds dE E sn 0 _ _ HE Hs))).
  pose proof (lookup_lt_Some _ _ _ HE).
  assert (getElementKey w1 = getElementKey w ∧
          (own_get (getElementKey w d dom) (elementsContainer_elements w) = Some dE ∨
           element_heap w !! dE = None) ∧
          ∀ e, own_get (getElementKey w p dom) (elementsContainer_elements w1) = Some e →
               own_get (getElementKey w p dom) (elementsContainer_elements w) = Some e)
    as (Hkey1 & HdE & Hreg1).
  { apply resolve_Ok_cases in Hd as [[Hd ->]|(Hd & -> & ->)]; [by auto|].
    split; [done|]. split; [right; by apply lookup_ge_None_2|].
    intros e. simpl. by rewrite own_get_set_ne. }
  split; [done|].
  apply resolve_Ok_cases in Hp as [[Hp _]|(_ & -> & _)].
  - left. apply Hreg1. by rewrite Hkey, Hkey1, Hreg in Hp.
  - right. split; [apply lookup_ge_None_2|]; lia.
Qed.

(** Such elements are apart when the registered ones are. *)
Lemma endpoints_apart w (kd kp : string) dE pE :
  wf w →
  (own_get kd (elementsContainer_elements w) = Some dE ∨ element_heap w !! dE = None) →
  (own_get kp (elementsContainer_elements w) = Some pE ∨
   (element_heap w !! pE = None ∧ pE ≠ dE)) →
  (∀ dE pE, own_get kd (elementsContainer_elements w) = Some dE →
            own_get kp (elementsContainer_elements w) = Some pE → ¬ reaches w pE dE) →
  ¬ reaches w pE dE.
Proof.
  intros Hwf Hd [Hp|[Hp Hne]] Hfar Hreach.
  - destruct Hd as [Hd|Hd]; [by eapply Hfar|].
    apply rtc_inv_r in Hreach as [->|(z & _ & Hz)].
    + destruct (wf_registry _ Hwf _ _ Hp) as [? ?]. congruence.
    + destruct (dependents_valid _ _ _ Hwf Hz). congruence.
  - apply rtc_inv in Hreach as [?|(z & Hz & _)]; [done|].
    apply elem_of_dependents in Hz as (E & _ & _ & HE & _). congruence.
Qed.

(** C19: a relationship that closes no cycle keeps the check.  In a store
    that passes the check, a call of [createRelationship] for two references
    with different keys that returned leaves a store that passes it, unless
    the element of the dependent reached the element of the dependency
    before the call. *)
Theorem createRelationship_acyclic w w' dom d sn p mn inheritState :
  wf w → acyclic w = true →
  that.createRelationship dom d sn p mn inheritState w = (Ok tt, w') →
  getElementKey w d dom ≠ getElementKey w p dom →
  (∀ dE pE, own_get (getElementKey w d dom) (elementsContainer_elements w) = Some dE →
            own_get (getElementKey w p dom) (elementsContainer_elements w) = Some pE →
            ¬ reaches w pE dE) →
  acyclic w' = true.
Proof.
  intros Hwf Hacy Hrun Hne Hfar.
  assert (wf w') as Hwf'
    by by eapply (grows_wf _ _ _ w), Hrun; [apply createRelationship_plain|..].
  destruct (createRelationship_Ok_steps _ _ _ _ _ _ _ _ Hrun)
    as (dE & w1 & E & w2 & pE & w3 & E' & w4 & s & m & w5 & Hd & HE & Hs & Hp & _ & _ &
        H4 & Hst & Hmd & _ & H5 & Hinh).
  destruct (resolved_endpoints _ _ _ _ _ _ _ _ _ _ _ Hne Hd HE Hs Hp) as [HdE HpE].
  pose proof (endpoints_apart _ _ _ _ _ Hwf HdE HpE Hfar) as Hapart.
  apply no_cycle_acyclic; [done|].
  apply (new_edges_acyclic (edge w) (edge w') (λ e, e = dE ∨ edge w e dE) pE dE);
    [|intros u [->|Hu]; [done|by apply rtc_once]|intros e; by apply acyclic_no_cycle|done].
  intros x y Hxy.
  apply (createRelationship_edge w w4 w5 w' dE pE sn mn inheritState s m x y
           Hwf Hwf' H4 Hst Hmd H5 Hinh); [|done].
  intros ->. by apply Hapart.
Qed.

(** The edges of a store are edges of the stores it grows into. *)
Lemma extends_edge w w' e e' : wf w → wf w' → extends w w' → edge w e e' → edge w' e e'.
Proof.
  intros Hwf Hwf' Hext (s & m & Hs & Hm & Ho)%edge_publisher; [|done].
  apply edge_publisher; [done|]. exists s, m.
  split_and!; [by eapply extends_publisher| |by eapply extends_owner].
  by eapply elem_of_prefix, extends_subscribers.
Qed.

(** The element a registered reference names after the store has grown. *)
Lemma names_registered w w' dom ref e e' :
  wf w → extends w w' → names w' dom ref e' →
  own_get (getElementKey w ref dom) (elementsContainer_elements w) = Some e → e' = e.
Proof.
  intros Hwf Hext Hn He. unfold names in Hn. rewrite (ext_key _ _ Hext) in Hn.
  apply (ext_registry _ _ Hext) in He as He'. rewrite Hn in He'; [congruence|].
  intros Hk. rewrite Hk in He. by rewrite (obj_wf_own_get_proto _ (wf_registry_obj _ Hwf)) in He.
Qed.

(** A call that returned has made an edge from the element of the
    dependency to the element of the dependent. *)
Lemma createRelationship_makes_edge w w' dom d sn p mn inheritState dE pE :
  wf w → that.createRelationship dom d sn p mn inheritState w = (Ok tt, w') →
  own_get (getElementKey w d dom) (elementsContainer_elements w) = Some dE →
  own_get (getElementKey w p dom) (elementsContainer_elements w) = Some pE →
  wf w' ∧ extends w w' ∧ edge w' dE pE.
Proof.
  intros Hwf Hrun HdE HpE.
  destruct (grows_elim _ _ _ w (createRelationship_plain dom d sn p mn inheritState) Hwf I)
    as (Hwf' & Hext & _). rewrite Hrun in Hwf', Hext. simpl in Hwf', Hext.
  destruct (createRelationship_Ok_inv _ _ _ _ _ _ _ _ Hrun)
    as (dE' & pE' & s & m & w4 & w5 & H4 & Hnd & Hnp & Hst & Hmd & Hel & H5 & Hinh).
  rewrite (names_registered w w4 dom d dE dE' Hwf (adds_extends _ _ _ _ H4) Hnd HdE) in *.
  rewrite (names_registered w w4 dom p pE pE' Hwf (adds_extends _ _ _ _ H4) Hnp HpE) in *.
  assert (extends w5 w') as Hext5 by (destruct inheritState; [apply Hinh|by subst]).
  assert (extends w4 w') as Hext4 by (etrans; [apply H5|done]).
  destruct (wf_state_of _ _ _ _ Hwf' (extends_state_of _ _ _ _ _ Hext4 Hst)) as (S & HS & HSe).
  destruct (wf_modifier_of _ _ _ _ Hwf' (extends_modifier_of _ _ _ _ _ Hext4 Hmd))
    as (M & HM & HMe).
  split_and!; [done..|]. apply edge_publisher; [done|]. exists s, m.
  unfold publisher, owner. rewrite HS, HM. split_and!; [done| |done].
  eapply elem_of_prefix, (extends_subscribers _ _ s Hext5).
  rewrite (adds_subscribers _ _ _ _ H5), occurrences_cons, occurrences_nil, decide_True by done.
  apply elem_of_app. right. by left.
Qed.

(** And a cycle, when the dependent reached the dependency: the store no
    longer passes the check. *)
Theorem createRelationship_closes_cycle w w' dom d sn p mn inheritState dE pE :
  wf w → that.createRelationship dom d sn p mn inheritState w = (Ok tt, w') →
  own_get (getElementKey w d dom) (elementsContainer_elements w) = Some dE →
  own_get (getElementKey w p dom) (elementsContainer_elements w) = Some pE →
  reaches w pE dE → acyclic w' = false.
Proof.
  intros Hwf Hrun HdE HpE Hreach.
  destruct (createRelationship_makes_edge _ _ _ _ _ _ _ _ _ _ Hwf Hrun HdE HpE)
    as (Hwf' & Hext & Hedge).
  apply not_true_is_false. intros Hacy. apply (acyclic_no_cycle w' dE Hacy).
  eapply tc_rtc_r; [by apply tc_once|].
  eapply rtc_subrel; [|done]. intros e e'. by apply extends_edge.
Qed.

End guard.

(** ** Sessions *)

Section sessions.
Context `{Host}.
Implicit Types (s : Session) (ev : event) (evs : list event).

Lemma settled_plain ev : settled ev → plain_event ev.
Proof. by destruct ev. Qed.

(** A turn after the setup returns and leaves the store as it is. *)
Lemma handle_settled fuel ev s :
  sound s → acyclic (engine s) = true → (length (element_heap (engine s)) ≤ fuel)%nat →
  settled ev →
  outcome (handle fuel ev) s = Ok tt ∧ engine (final (handle fuel ev) s) = engine s.
Proof.
  intros [Hwf [Hcb _]] Hacy Hfuel Hev. rewrite handle_engine.
  destruct ev as [c|edit|ref]; [done|done|]. split; [|done]. unfold outcome. simpl.
  destruct (acyclic_change_Ok (engine s) fuel ref (page s, executed s)) as [p' ->];
    done.
Qed.

Lemma play_settled fuel evs s :
  sound s → acyclic (engine s) = true → (length (element_heap (engine s)) ≤ fuel)%nat →
  Forall settled evs → Forall (λ r, r = Ok tt) (outcomes fuel evs s).
Proof.
  intros Hs Hacy Hfuel Hevs. revert s Hs Hacy Hfuel.
  induction Hevs as [|ev evs Hev _ IH]; intros s Hs Hacy Hfuel; [constructor|].
  destruct (handle_settled fuel ev s Hs Hacy Hfuel Hev) as [Hr Hw]. simpl.
  constructor; [done|]. apply IH; [by apply handle_sound; [apply settled_plain|]|by rewrite Hw..].
Qed.

(** Once the relationships are set up without a cycle, the page lives
    on: whatever alterations and changes follow, in any order, every turn
    of the session returns, with the number of elements as fuel; and the
    session is the one the turns without fuel lead to. *)
Theorem acyclic_session_returns fuel evs s :
  sound s → acyclic (engine s) = true → (length (element_heap (engine s)) ≤ fuel)%nat →
  Forall settled evs →
  Forall (λ r, r = Ok tt) (outcomes fuel evs s) ∧ turns s evs (play fuel evs s).
Proof.
  intros Hs Hacy Hfuel Hevs. pose proof (play_settled fuel evs s Hs Hacy Hfuel Hevs) as Hout.
  split; [done|]. apply play_turns; [|done|].
  - eapply Forall_impl; [done|]. apply settled_plain.
  - rewrite Forall_forall in Hout. by intros ?%Hout.
Qed.

(** The outcomes of the calls of a session are those of the script. *)
Lemma outcomes_app fuel evs evs' s :
  outcomes fuel (evs ++ evs') s = outcomes fuel evs s ++ outcomes fuel evs' (play fuel evs s).
Proof.
  revert s. induction evs as [|ev evs IH]; intros s; [done|].
  simpl. by rewrite IH.
Qed.

Lemma outcomes_setups fuel (cs : list call) s :
  succeeds (at_page (page s) <$> cs) (engine s) = true →
  Forall (λ r, r = Ok tt) (outcomes fuel (Setup <$> cs) s).
Proof.
  revert s. induction cs as [|c cs IH]; intros s; [constructor|].
  rewrite fmap_cons. simpl. intros [Hc Hcs]%andb_prop. unfold outcome, final. simpl.
  destruct (perform (at_page (page s) c) (engine s)) as [[[]| |] w] eqn:Hrun; try done.
  constructor; [done|]. by apply (IH (mkSession w (page s) (executed s))).
Qed.

(** C15: a page whose setup passes the two checks lives on.  The client's
    calls are made on the page as it is loaded; when the script of these
    calls is scoped and registers no template named [__proto__], and the
    store it builds has no cycle, then every call returns, and afterwards,
    whatever alterations and changes follow in any order, every turn
    returns, with the number of elements as fuel. *)
Theorem checked_page_lives dom (cs : list call) evs fuel :
  let script := at_page dom <$> cs in
  Forall plain_call cs →
  scoped [] [] default_getElementKey script = true →
  acyclic (perform_all script init) = true →
  (length (element_heap (perform_all script init)) ≤ fuel)%nat →
  Forall settled evs →
  Forall (λ r, r = Ok tt) (outcomes fuel ((Setup <$> cs) ++ evs) (opened dom)).
Proof.
  intros script Hplain Hscoped Hacy Hfuel Hevs.
  rewrite outcomes_app, play_setups. apply Forall_app. split.
  - apply outcomes_setups.
    by apply (scoped_accepted [] [] default_getElementKey _ _ tracks_init).
  - apply play_settled; [|done..]. split; [apply perform_all_wf, wf_init|].
    apply callable_perform_all, callable_init.
    apply Forall_fmap. eapply Forall_impl; [done|]. intros c. apply plain_at_page.
Qed.

End sessions.

(** ** Examples *)

Lemma acyclic_decides_witness :
  acyclic w_chain_plain = true ↔ ∀ e, ¬ downstream w_chain_plain e e.
Proof. apply acyclic_decides, wf_w_chain_plain. Defined.

Lemma acyclic_exact_witness :
  acyclic w_cycle = true ↔
  ∀ e, is_Some (element_heap w_cycle !! e) →
       ∃ p', modifyDependents (length (element_heap w_cycle)) w_cycle e (page3, [])
             = (Ok tt, p').
Proof.
  apply acyclic_exact; [apply wf_w_cycle|compute_done|].
  intros e k s (E & HE & Hk%own_get_Some)%bind_Some dom.
  destruct e as [|[|e]]; [| |done]; injection HE as <-;
    apply list_elem_of_singleton in Hk as [= -> ->]; reflexivity.
Defined.

Lemma script_depth_bounded_witness :
  let cs := templates ++ [CreateRelationship page3 0 "checked" 1 "show" false;
                          CreateRelationship page3 1 "visible" 2 "show" true] in
  (news_all cs).1.1 = 4 ∧
  ∃ p, on_change 4 (perform_all cs init) 0 page3_checked = (Ok tt, p).
Proof.
  split; [reflexivity|]. apply script_depth_bounded; [compute_done|by vm_compute|].
  vm_compute. lia.
Defined.

Lemma acyclic_change_returns_witness :
  ∃ p', change 7 w_chain_plain 0 (page3_checked, []) = (Ok tt, p') ∧
        change (length (element_heap w_chain_plain)) w_chain_plain 0 (page3_checked, [])
          = (Ok tt, p').
Proof.
  apply acyclic_change_returns; [apply wf_w_chain_plain|compute_done|by vm_compute|compute_done].
Defined.

Lemma acyclic_session_returns_witness :
  let s := mkSession w_chain_plain page3 [] in
  let evs := [Alter (set_checked true 0); Trigger 0; Alter (set_checked false 0); Trigger 1] in
  Forall (λ r, r = Ok tt) (outcomes 3 evs s) ∧ turns s evs (play 3 evs s).
Proof.
  apply acyclic_session_returns;
    [split; [apply wf_w_chain_plain|compute_done]|by vm_compute|compute_done|compute_done].
Defined.

(** The heights of the chain of four fields: field [i] is [3 - i]
    relationships above the end. *)
Example chain_heights :
  let w := perform_all (chain_script "visible" "show" visible show (fresh_page 4) id 3) init in
  acyclic w = true ∧ rank_of w <$> [0; 1; 2; 3] = [3; 2; 1; 0].
Proof. by vm_compute. Qed.

(** Two fields that depend on each other: the check fails, and with States
    that are always active the cascade does not return. *)
Example cycle_detected :
  acyclic w_cycle = false ∧ (on_change 8 w_cycle 0 page3).1 = Timeout.
Proof. by vm_compute. Qed.

(** The check looks at the relationships, not at the predicates: a field
    that clears itself when it is checked is a cycle, and its cascade
    returns, because the State is inactive after the mutation. *)
Example cycle_that_ends :
  acyclic (w_self false) = false ∧ (on_change 2 (w_self false) 0 page3_checked).1 = Ok tt.
Proof. by vm_compute. Qed.

(** The second relationship of the chain is from field 1 to field 2, which
    is new: the store passes the check after it as before. *)
Lemma createRelationship_acyclic_witness : acyclic w_chain = true.
Proof.
  apply (createRelationship_acyclic w_show w_chain page3 1 "visible" 2 "show" true);
    [apply wf_w_show|by vm_compute|vm_compute; reflexivity|compute_done|].
  intros dE pE _ Hp. vm_compute in Hp. discriminate.
Defined.

(** A relationship back from field 1 to field 0 closes a cycle. *)
Example cycle_closed : acyclic w_back = false.
Proof.
  apply (createRelationship_closes_cycle w_show w_back page3 1 "visible" 0 "show" false 1 0);
    [apply wf_w_show|vm_compute; reflexivity|by vm_compute..|].
  apply rtc_once. unfold edge. compute_done.
Qed.

Lemma checked_page_lives_witness :
  let cs := templates ++ [CreateRelationship page3 0 "checked" 1 "show" false;
                          CreateRelationship page3 1 "visible" 2 "show" true] in
  let evs := [Alter (set_checked true 0); Trigger 0; Trigger 2; Alter (set_checked false 0);
              Trigger 0; Trigger 1] in
  Forall (λ r, r = Ok tt) (outcomes 3 ((Setup <$> cs) ++ evs) (opened page3)).
Proof.
  apply checked_page_lives; [compute_done|by vm_compute|by vm_compute|compute_done|compute_done].
Defined.
